(* ===== verification/_CoqProject ===== *)
-Q . S2P
Prelude.v
GoString.v
Net.v
Os.v
Wire.v
Blocklist.v
EcsStrip.v
SafeSearch.v
Failsafe.v
Policy.v
Resolver.v
SniProxy.v
Splice.v
Registry.v
Fallback.v
Frame.v
Broker.v
RelaySession.v
BridgeRun.v
Packet.v
Terminator.v
FallbackPath.v
WgDump.v
WgConf.v
TunnelHealth.v
Tunnel.v
Firewall.v
Commands.v
CommandSync.v
Feeds.v
CloudClient.v
Node.v
Profiles.v
Requests.v
Lifecycle.v
RelayRun.v
Heartbeat.v
Telemetry.v
Activity.v
FamilyCache.v
Nrd.v
Presence.v
LocalClock.v
Settings.v
DnsServer.v
Ddns.v
Background.v
Upnp.v
Wiring.v
Startup.v
Enrollment.v
Api.v
Listeners.v
Sinkhole.v
NodeHealth.v
Mitm.v
Pages.v
Ota.v
Store.v
Older.v
