(* ===== verification/Prelude.v ===== *)
(** SafeSwitch router: verification library (root file).

    The program under src/ is a Go daemon that filters the internet access of
    the children of a family.  It runs on a node in the home (or as a relay on
    a server), answers their DNS queries, holds their WireGuard tunnel, drives
    the firewall, follows a signed policy bundle and commands from the cloud,
    and, when a home node is unreachable, serves the family from the relay.

    This library is a shallow embedding of that code: one file per component,
    named after it, with the operations under their Go names, and theorems
    about them.  Where a theorem shows that the code misses what a comment or
    its context promises, its comment says so.

    * Conventions

    - A call has type [go A] (below): [Ret], [Err] with the text of the error,
      [Panic] for a run-time panic, [Loop] when the fuel of a loop ran out.
      Calls that drive the operating system or the database thread their state
      through the monad [io] of [Os], or take and return the tables.
    - Integers are [Z] with the wrap-around of their width written out ([w16],
      [w32], [w64], [wrap_int64]); bytes are [Byte.byte]; strings are byte
      strings; times and durations are nanoseconds.  Maps are [gmap]; objects
      shared through pointers live on an explicit heap ([Registry], [Broker],
      [Terminator], [Sinkhole]).
    - Goroutines are steps of a relation ([Broker], [Terminator], [Commands],
      [Activity], [FamilyCache], [RelaySession], [RelayRun], [BridgeRun],
      [FallbackPath], [Lifecycle], [Listeners], [Background], [SafeSearch]);
      elsewhere a ticker is the sequence of its calls; the order of a map
      iteration and of concurrent results is a parameter. A step reads and writes
      the tables it touches at once: the races on the maps of the UDP bridge,
      which no lock guards, are outside the model.
    - Code outside src/ is a parameter with its documented behaviour as named
      hypotheses: wg(8) in [WgConf], iptables(8) in [Firewall], PostgREST in
      [Nrd], SHA-256, JSON, crypto/tls, wireguard-go, rename(2), Unicode case
      tables ([UnicodeTables]) and IPv6 text ([IPv6Text]).  Every property with
      such a hypothesis is instantiated at concrete functions.
    - A database call may fail at any point: a schedule of faults, or a
      predicate on the number of the statement, says which.

    * Files and sources

    Shared: [Prelude] (outcomes, machine integers, slices, time, the hint base
    [go] and tactics), [GoString] and [Net] (strings, strconv, net), [Os]
    (processes and files).

    DNS: [Wire] (internal/dns/wire.go), [Blocklist] (blocklist.go,
    nrd_blocklist.go), [EcsStrip] (ecs_strip.go), [SafeSearch]
    (safesearch.go), [Resolver] (resolver.go, the handlers of server.go),
    [DnsServer] (its start and accept loops, and one upstream exchange), [SniProxy] and [Splice]
    (internal/sniproxy: the decision, and the bytes of the connection), [Pages]
    (the three block page templates and their answers).  The
    resolver and the proxy use the policy through the
    class [PolicyReader], which [Policy] implements.

    Policy: [Policy] (internal/policy, pkg/contract/policybundle), [Failsafe]
    (internal/enforcer), [Commands] (internal/commands, commandpoll.go),
    [CommandSync] (its registration, and the exchange with the cloud),
    [Profiles] (the store of route profiles, and the commands on the node).

    Cloud: [CloudClient] (client.go, bundlesync.go, enforcementsync.go),
    [Requests] (client.go: credentials and headers of every request; also
    fallback_notify.go), [Lifecycle] (service.go and the loops it starts),
    [Feeds] (blocklistsync.go), [Nrd] (nrdsync.go), [Heartbeat]
    (heartbeat.go), [Telemetry] (the two documents it posts, and the journal of
    internal/events), [NodeHealth] (internal/health), [Activity]
    (activity_writer.go), [FamilyCache] (family_config.go), [Ota] (ota.go), all
    of internal/controlsync; [LocalClock] (internal/localclock), [Ddns]
    (internal/app/ddns_updater.go), [Enrollment] (internal/enrollment,
    internal/identity).

    Tunnel and firewall: [WgDump], [WgConf], [TunnelHealth], [Tunnel]
    (internal/tunnel, tunnel_stats.go), [Firewall] (internal/firewall,
    internal/app/iptables_restore.go), [Upnp] (internal/upnp).

    Relay: [Registry], [Fallback], [Frame], [Broker] (internal/relay),
    [RelaySession] (handler.go and client.go: one session, both ends), [RelayRun]
    (admission, the loop of a session, the reconnection of the client, the
    janitor), [BridgeRun] (relay_udp_bridge.go from its start to its shutdown),
    [Packet], [Terminator] (internal/terminator), [FallbackPath] (its loops,
    its bind and the replies to the bridge).

    Node: [Settings] (internal/app/config.go), [Wiring] (internal/app/wiring.go,
    internal/supervisor, cmd/ss-router), [Listeners] (the services with a listening
    socket: accept loop, HTTP servers, their stops), [Background] (the loops of
    presence and of the ingest, and the update of the endpoint), [Startup] (the database, key files and
    listeners opened by a start), [Node] (the callback of a bundle swap: policy,
    firewall, tunnel and DNS over one database and one machine), [Presence]
    (internal/presence), [Api]
    (internal/api), [Sinkhole] (internal/sinkhole), [Mitm] (mitm), [Store]
    (internal/store and the SQL statements of all packages), [Older] (presence/,
    policy/ and api/ at the top of src/, earlier copies that nothing imports, each
    against its successor).

    * What the theorems show

    - Enforcement, end to end.  [Node.bundle_enforced]: whatever happened
      before, a new bundle whose children have valid keys and addresses of their
      own is enforced after its fetch by policy, peer table, firewall and DNS, and
      stays so through ticks that do not overlap, as long as no database call
      fails.  What the cloud lists is what DNS blocks
      ([Feeds.feeds_enforced], [Nrd.nrd_mirror_exact],
      [Blocklist.IsBlocked_spec], [Resolver.blocked_never_forwarded]); a pause
      in a bundle reaches DNS ([Node.bundle_enforced]), the firewall
      ([Firewall.Sync_enforces]) and TLS ([SniProxy.sni_agrees_with_dns]);
      a command reaches the firewall
      ([Profiles.profile_command_enforced]);
      fail-safe follows the expiry ([Heartbeat.failsafe_follows_expiry],
      [Failsafe.failsafe_transitions]).  [Mitm.blocked_not_reached] and
      [Mitm.paused_child_proxied] say what the HTTPS proxy adds and lets past.
    - Agreement of two implementations: [Startup.authorities_agree], [Packet.qname_agrees],
      [TunnelHealth.health_views_agree], [Mitm.bypass_by_parent],
      [Sinkhole.leaf_cache_refines] against a list specification,
      [Older.older_scan_same] and [Older.older_runtime_simulated] for the copies.
    - What is told to the cloud: [Telemetry.heartbeat_documents],
      [CommandSync.result_sent_once], [CommandSync.acked_is_stored].
    - Credentials and bytes: [Requests.secrets_confined];
      [Splice.splice_transparent] and [RelaySession.session_faithful] carry
      streams and datagrams unchanged and in order (but for one length of record
      that is cut short),
      [FallbackPath.fallback_replies] the replies of the fallback tunnel;
      [RelayRun.session_admitted] says who is let in.  Pages:
      [Pages.block_page_markup] (no request changes the markup),
      [Pages.block_response_framed].
    - Reconciliation: [WgConf.syncPeersDiff_exact], [Tunnel.sync_follows_bundle],
      [Presence.scan_exact], [Nrd.nrd_ingest_exact].
    - Invariants of reachable states: [Tunnel.tunnel_table_ok],
      [Terminator.endpoints_owned], [Activity.activity_conservation],
      [Registry.PickHealthyNode_optimal], [NodeHealth.snapshots_in_range],
      [BridgeRun.bridge_sockets], [Background.presence_runs].
    - At most once, and never half: [Commands.command_runs_at_most_once],
      [Policy.swap_survives_restart], [Ota.ota_all_or_nothing],
      [Enrollment.node_id_stable].
    - The database: [Store.migrations_resume] (an interrupted creation is
      completed, no table is changed) and [Store.statements_well_typed] (which
      statements fit the schema, and which five do not).
    - Totality: [Resolver.every_query_answered], [Packet.filter_no_panic],
      [Api.api_serves_local_only], [Upnp.upnp_lifetime],
      [Wire.readName_termination], [DnsServer.server_answers],
      [Lifecycle.stop_returns], [Listeners.api_stop_complete],
      [Listeners.blockpage_stops], [BridgeRun.bridge_can_stop],
      [CloudClient.doWithRetry_first_success].
    - Flaws, each proved as a theorem about the code as it is, for example
      [Wire.self_pointer_diverges], [Firewall.iface_change_bypasses_pause],
      [Feeds.recategorised_domain_unblocked], [Broker.two_sessions_panic],
      [Commands.interrupted_command_lost], [Wiring.default_relay_not_served],
      [Mitm.expired_certificate_locks_out], [Ota.other_device_never_updates],
      [Splice.late_hello_bypasses], [RelaySession.closed_queue_crashes],
      [FallbackPath.bind_not_reopened], [Startup.home_needs_wg0],
      [BridgeRun.send_race_crashes], [Pages.pages_unescaped],
      [Background.answer_sets_columns], [Listeners.relay_stop_keeps_sessions],
      [DnsServer.silent_upstreams_unanswered], [Node.overtaken_tick_reopens].

    * Bounds and fuel

    [Wire.readName] takes the length of the message plus one as fuel:
    [Wire.readName_fuel] shows that more fuel changes no result, so [Loop]
    there is a real endless loop.  The label walks of [Blocklist], [EcsStrip]
    and [Packet] use a length plus one as fuel, and every step consumes at least
    a byte: [Blocklist.walk_None], [EcsStrip.StripECS_total] and
    [Packet.qname_loop_ends] show that it never runs out.  [Nrd.fetchAllNRDDomains] is given one unit for
    each row and one more, which [Nrd.nrd_mirror_exact] shows to be enough.
    Everything else is structural recursion.

    * Not modelled

    Sockets, TLS handshakes, HTTP encoding, the SQL engine beyond the tables
    described, log lines (and the one constructor of internal/telemetry), the bytes
    of JSON and PEM, float rounding (percentages are exact rationals);
    wireguard-go and the TUN device; [BuildBlockedResponse]
    (dns/blocked_response.go), which nothing calls and which works on the message
    type of a third-party package; the text of the relay's status page;
    src/store/migrations.go, the same text as internal/store/migrations.go, which
    nothing imports.  In [Node] the calls of the firewall and of the tunnel do not
    overlap; what an overlap does is [Node.overtaken_tick_reopens]; its peers are
    those of the database, and [WgConf.syncPeersDiff_exact] says when the interface
    follows them.  The pattern rules of http.ServeMux (redirects of unclean paths)
    are reduced to exact paths in [Api] and [RelayRun]. *)
From stdpp Require Export base option list numbers strings.
From Stdlib Require Export ZArith Lia.
From Stdlib Require Export Strings.Byte.

Declare Scope go_scope.
Delimit Scope go_scope with go.

(** ** Outcomes of a Go call

    [Ret] is a normal return, [Err] the [error] result (its text), [Panic] a
    run-time panic (index or slice out of range, close of a closed channel)
    and [Loop] means that the fuel given to a loop ran out. *)
Inductive go (A : Type) : Type :=
| Ret (a : A)
| Err (e : string)
| Panic
| Loop.
Arguments Ret {_} _.
Arguments Err {_} _.
Arguments Panic {_}.
Arguments Loop {_}.

#[global] Instance Ret_inj {A} : Inj eq eq (@Ret A).
Proof. by intros ?? [= ->]. Qed.

#[global] Instance go_ret : MRet go := λ A a, Ret a.
#[global] Instance go_bind : MBind go := λ A B f m,
  match m with
  | Ret a => f a
  | Err e => Err e
  | Panic => Panic
  | Loop => Loop
  end.

#[global] Instance go_eq_dec `{EqDecision A} : EqDecision (go A).
Proof. solve_decision. Defined.

(** A call that returned or reported an error: it neither panicked nor ran
    out of fuel. *)
Definition safe {A} (m : go A) : Prop := m ≠ Panic ∧ m ≠ Loop.

(** A call that did not panic (it may still be looping). *)
Definition no_panic {A} (m : go A) : Prop := m ≠ Panic.

Lemma bind_Ret_inv {A B} (m : go A) (f : A → go B) b :
  m ≫= f = Ret b → ∃ a, m = Ret a ∧ f a = Ret b.
Proof. destruct m; simpl; [eauto | discriminate..]. Qed.

Lemma no_panic_bind {A B} (m : go A) (f : A → go B) :
  no_panic m → (∀ a, m = Ret a → no_panic (f a)) → no_panic (m ≫= f).
Proof. destruct m; unfold no_panic; simpl; intros ? Hf; auto; congruence. Qed.

Lemma no_panic_Ret {A} (a : A) : no_panic (Ret a).
Proof. discriminate. Qed.
Lemma no_panic_Err {A} e : no_panic (@Err A e).
Proof. discriminate. Qed.
Lemma no_panic_Loop {A} : no_panic (@Loop A).
Proof. discriminate. Qed.
Lemma safe_Ret {A} (a : A) : safe (Ret a).
Proof. by split. Qed.
Lemma safe_Err {A} e : safe (@Err A e).
Proof. by split. Qed.
Lemma safe_bind {A B} (m : go A) (f : A → go B) :
  safe m → (∀ a, m = Ret a → safe (f a)) → safe (m ≫= f).
Proof. intros [H1 H2] Hf. destruct m; simpl; [by apply Hf | by split | done | done]. Qed.

(** [x, err := m; if err != nil { return h(err) }; k(x)] *)
Definition go_try {A B} (m : go A) (k : A → go B) (h : string → go B) : go B :=
  match m with
  | Ret a => k a
  | Err e => h e
  | Panic => Panic
  | Loop => Loop
  end.

Lemma safe_try {A B} (m : go A) (k : A → go B) h :
  safe m → (∀ a, m = Ret a → safe (k a)) → (∀ e, m = Err e → safe (h e)) → safe (go_try m k h).
Proof. intros [H1 H2] Hk Hh. destruct m; simpl; [by apply Hk | by apply Hh | done | done]. Qed.

(** A call that returned normally. *)
Definition returns {A} (m : go A) : Prop := ∃ a, m = Ret a.

Lemma returns_Ret {A} (a : A) : returns (Ret a).
Proof. by exists a. Qed.
Lemma returns_bind {A B} (m : go A) (f : A → go B) :
  returns m → (∀ a, m = Ret a → returns (f a)) → returns (m ≫= f).
Proof. intros [a ->] Hf. by apply Hf. Qed.
Lemma returns_try {A B} (m : go A) (k : A → go B) h :
  safe m → (∀ a, m = Ret a → returns (k a)) → (∀ e, m = Err e → returns (h e)) → returns (go_try m k h).
Proof. intros [H1 H2] Hk Hh. destruct m; simpl; [by apply Hk | by apply Hh | done | done]. Qed.

Create HintDb go discriminated.
#[export] Hint Constants Opaque : go.
#[export] Hint Resolve no_panic_Ret no_panic_Err no_panic_Loop safe_Ret safe_Err returns_Ret : go.

(** ** Bytes and machine integers *)

Abbreviation bytes := (list byte).

Definition b2z (b : byte) : Z := Z.of_N (Byte.to_N b).

(** [byte(z)]: conversion of an integer to [byte] keeps the low 8 bits. *)
Definition z2b (z : Z) : byte := default x00 (Byte.of_N (Z.to_N (z mod 256))).

Definition w16 (z : Z) : Z := z mod 65536.
Definition w32 (z : Z) : Z := z mod 4294967296.
Definition w64 (z : Z) : Z := z mod 18446744073709551616.

(** The value of an [int64] operation, wrapped around. *)
Definition wrap_int64 (z : Z) : Z := ((z + 2 ^ 63) mod 2 ^ 64 - 2 ^ 63)%Z.

Lemma wrap_int64_id z : (- 2 ^ 63 ≤ z < 2 ^ 63)%Z → wrap_int64 z = z.
Proof. intros H. unfold wrap_int64. rewrite Z.mod_small by lia. lia. Qed.

Lemma b2z_range b : (0 ≤ b2z b < 256)%Z.
Proof. unfold b2z. pose proof (Byte.to_N_bounded b). lia. Qed.

Lemma b2z_z2b z : b2z (z2b z) = (z mod 256)%Z.
Proof.
  unfold b2z, z2b. pose proof (Z.mod_pos_bound z 256 ltac:(lia)) as Hz.
  destruct (Byte.of_N (Z.to_N (z mod 256))) as [b|] eqn:E; simpl.
  - apply Byte.to_of_N in E. rewrite E. lia.
  - apply Byte.of_N_None_iff in E. lia.
Qed.

Lemma b2z_z2b_small z : (0 ≤ z < 256)%Z → b2z (z2b z) = z.
Proof. intros. rewrite b2z_z2b. apply Z.mod_small. lia. Qed.

Lemma b2z_inj b c : b2z b = b2z c → b = c.
Proof.
  unfold b2z. intros H. apply N2Z.inj in H.
  pose proof (Byte.of_to_N b) as Hb. pose proof (Byte.of_to_N c) as Hc. congruence.
Qed.

Lemma z2b_b2z b : z2b (b2z b) = b.
Proof. apply b2z_inj. rewrite b2z_z2b. apply Z.mod_small, b2z_range. Qed.

#[global] Instance byte_eq_dec : EqDecision byte.
Proof. refine (λ b c, cast_if (decide (b2z b = b2z c))); [by apply b2z_inj | congruence]. Defined.

(** ** Slices: indexing and slicing with Go's bounds checks *)

Definition idx (b : bytes) (i : nat) : go byte :=
  match b !! i with Some x => Ret x | None => Panic end.

(** [b[i:j]] *)
Definition slice (b : bytes) (i j : nat) : go bytes :=
  if decide (i ≤ j ∧ j ≤ length b) then Ret (take (j - i) (drop i b)) else Panic.

(** [binary.BigEndian.Uint16(b[i:i+2])] *)
Definition be16 (b : bytes) (i : nat) : go Z :=
  hi ← idx b i; lo ← idx b (S i); Ret (b2z hi * 256 + b2z lo)%Z.

Definition hi8 (v : Z) : byte := z2b (v / 256).
Definition lo8 (v : Z) : byte := z2b v.
Definition enc16 (v : Z) : bytes := [hi8 v; lo8 v].

(** [binary.BigEndian.PutUint16(b[i:i+2], v)] *)
Definition put16 (b : bytes) (i : nat) (v : Z) : go bytes :=
  if decide (i + 2 ≤ length b) then Ret (<[S i := lo8 v]> (<[i := hi8 v]> b)) else Panic.

(** [copy(dst[i:], src)] into a destination long enough for it. *)
Definition copy_at (b : bytes) (i : nat) (src : bytes) : bytes :=
  take i b ++ take (length b - i) src ++ drop (i + length src) b.

Lemma idx_Ret b i x : b !! i = Some x → idx b i = Ret x.
Proof. unfold idx. by intros ->. Qed.

Lemma idx_middle (p s : bytes) x : idx (p ++ x :: s) (length p) = Ret x.
Proof. by apply idx_Ret, list_lookup_middle. Qed.

Lemma idx_lt b i : i < length b → ∃ x, idx b i = Ret x ∧ b !! i = Some x.
Proof.
  intros H. destruct (lookup_lt_is_Some_2 b i H) as [x Hx].
  exists x. unfold idx. by rewrite Hx.
Qed.

Lemma no_panic_idx b i : i < length b → no_panic (idx b i).
Proof. intros H. by destruct (idx_lt b i H) as (x & -> & _). Qed.

Lemma safe_idx b i : i < length b → safe (idx b i).
Proof. intros H. by destruct (idx_lt b i H) as (x & -> & _). Qed.

Lemma slice_Ret b i j : i ≤ j → j ≤ length b → slice b i j = Ret (take (j - i) (drop i b)).
Proof. intros. unfold slice. by rewrite decide_True. Qed.

Lemma safe_slice b i j : i ≤ j → j ≤ length b → safe (slice b i j).
Proof. intros. by rewrite slice_Ret. Qed.

Lemma slice_prefix (p s : bytes) i : i = length p → slice (p ++ s) 0 i = Ret p.
Proof.
  intros ->. rewrite slice_Ret by (rewrite ?length_app; lia).
  by rewrite Nat.sub_0_r, drop_0, take_app_length.
Qed.

Lemma slice_suffix (p s : bytes) i j : i = length p → j = length (p ++ s) → slice (p ++ s) i j = Ret s.
Proof.
  intros -> ->. rewrite slice_Ret by (rewrite ?length_app; lia).
  rewrite drop_app_length. by rewrite take_ge by (rewrite length_app; lia).
Qed.

Lemma be16_lt b i : S i < length b → ∃ v, be16 b i = Ret v ∧ (0 ≤ v < 65536)%Z.
Proof.
  intros H. unfold be16.
  destruct (idx_lt b i) as (x & -> & _); [lia|].
  destruct (idx_lt b (S i)) as (y & -> & _); [lia|]. simpl.
  pose proof (b2z_range x). pose proof (b2z_range y). eexists; split; [done|lia].
Qed.

Lemma be16_range b i v : be16 b i = Ret v → (0 ≤ v < 65536)%Z.
Proof.
  unfold be16, idx. destruct (b !! i) as [x|]; simpl; [|done].
  destruct (b !! S i) as [y|]; simpl; [|done]. intros [= <-].
  pose proof (b2z_range x). pose proof (b2z_range y). lia.
Qed.

Lemma returns_be16 b i : S i < length b → returns (be16 b i).
Proof. intros H. destruct (be16_lt b i H) as (v & -> & _). by exists v. Qed.

Lemma safe_be16 b i : S i < length b → safe (be16 b i).
Proof. intros H. by destruct (be16_lt b i H) as (v & -> & _). Qed.

#[export] Hint Resolve safe_idx safe_slice safe_be16 no_panic_idx : go.

Lemma hi8_lo8 v : (0 ≤ v < 65536)%Z → (b2z (hi8 v) * 256 + b2z (lo8 v) = v)%Z.
Proof.
  intros H. unfold hi8, lo8. rewrite !b2z_z2b.
  rewrite (Z.mod_small (v / 256)) by (split; [apply Z.div_pos; lia | apply Z.div_lt_upper_bound; lia]).
  pose proof (Z.div_mod v 256). lia.
Qed.

(** Reading a big-endian field that was written at the end of a prefix. *)
Lemma be16_enc16 (p s : bytes) v :
  (0 ≤ v < 65536)%Z → be16 (p ++ enc16 v ++ s) (length p) = Ret v.
Proof.
  intros H. unfold be16, idx. change (enc16 v ++ s) with (hi8 v :: lo8 v :: s).
  rewrite (list_lookup_middle p _ (hi8 v) (length p)) by done. simpl.
  rewrite (lookup_app_r p _ (S (length p))) by lia.
  replace (S (length p) - length p) with 1 by lia. simpl. by rewrite hi8_lo8.
Qed.

Lemma be16_pair v : (0 ≤ v < 65536)%Z → be16 (enc16 v) 0 = Ret v.
Proof. exact (be16_enc16 [] [] v). Qed.

Lemma be16_head (s : bytes) v : (0 ≤ v < 65536)%Z → be16 (enc16 v ++ s) 0 = Ret v.
Proof. exact (be16_enc16 [] s v). Qed.

Lemma put16_length b i v c : put16 b i v = Ret c → length c = length b.
Proof. unfold put16. case_decide; [|done]. intros [= <-]. by rewrite !length_insert. Qed.

Lemma put16_Ret b i v :
  i + 2 ≤ length b → put16 b i v = Ret (<[S i := lo8 v]> (<[i := hi8 v]> b)).
Proof. intros. unfold put16. by rewrite decide_True. Qed.

(** A write in the middle of a buffer, seen as a replacement. *)
Lemma put16_app (p q s : bytes) v :
  length q = 2 → put16 (p ++ q ++ s) (length p) v = Ret (p ++ enc16 v ++ s).
Proof.
  intros Hq. destruct q as [|a [|b [|]]]; try done.
  rewrite put16_Ret by (rewrite length_app; simpl; lia). f_equal.
  rewrite (insert_app_r_alt p _ (length p)) by lia.
  rewrite (insert_app_r_alt p _ (S (length p))) by lia.
  replace (S (length p) - length p) with 1 by lia.
  by replace (length p - length p) with 0 by lia.
Qed.

(** Bitwise operations stay within the width of their operands. *)
Section Bits.
Context (k : Z) (Hk : (0 ≤ k)%Z).

Lemma lor_bound a b : (0 ≤ a < 2 ^ k → 0 ≤ b < 2 ^ k → 0 ≤ Z.lor a b < 2 ^ k)%Z.
Proof.
  intros Ha Hb. apply Z.bounded_iff_bits_nonneg'; [done|apply Z.lor_nonneg; lia|].
  intros l Hl. rewrite Z.lor_spec.
  rewrite (proj1 (Z.bounded_iff_bits_nonneg' k a Hk ltac:(lia)) Ha l Hl).
  by rewrite (proj1 (Z.bounded_iff_bits_nonneg' k b Hk ltac:(lia)) Hb l Hl).
Qed.

Lemma ldiff_bound a b : (0 ≤ a < 2 ^ k → 0 ≤ Z.ldiff a b < 2 ^ k)%Z.
Proof.
  intros Ha. apply Z.bounded_iff_bits_nonneg'; [done|apply Z.ldiff_nonneg; lia|].
  intros l Hl. rewrite Z.ldiff_spec.
  by rewrite (proj1 (Z.bounded_iff_bits_nonneg' k a Hk ltac:(lia)) Ha l Hl).
Qed.

Lemma land_bound a b : (0 ≤ a < 2 ^ k → 0 ≤ Z.land a b < 2 ^ k)%Z.
Proof.
  intros Ha. apply Z.bounded_iff_bits_nonneg'; [done|apply Z.land_nonneg; lia|].
  intros l Hl. rewrite Z.land_spec.
  by rewrite (proj1 (Z.bounded_iff_bits_nonneg' k a Hk ltac:(lia)) Ha l Hl).
Qed.
End Bits.

(** [hi<<8 | lo] for bytes. *)
Lemma lor_disjoint_add a b : (0 ≤ b < 256 → Z.lor (a * 256) b = a * 256 + b)%Z.
Proof.
  intros Hb. rewrite <- Z.add_lor_land. replace (Z.land (a * 256) b) with 0%Z; [lia|].
  symmetry. apply Z.bits_inj'. intros n Hn. rewrite Z.land_spec, Z.testbit_0_l.
  destruct (decide (n < 8)%Z).
  - change 256%Z with (2 ^ 8)%Z. by rewrite Z.mul_pow2_bits_low by lia.
  - rewrite (proj1 (Z.bounded_iff_bits_nonneg' 8 b ltac:(lia) ltac:(lia)) Hb n) by lia. apply andb_false_r.
Qed.

Lemma hi8_lo8_lor n :
  (0 ≤ n < 65536 → Z.lor (Z.shiftl (b2z (hi8 n)) 8) (b2z (lo8 n)) = n)%Z.
Proof.
  intros Hn. rewrite <- (hi8_lo8 n) at 3 by done. rewrite Z.shiftl_mul_pow2 by lia.
  change (2 ^ 8)%Z with 256%Z. apply lor_disjoint_add, b2z_range.
Qed.

(** A decidable closed statement, by evaluating its decision. *)
Ltac by_decide :=
  match goal with |- ?P => refine (bool_decide_unpack P _); vm_compute; exact I end.

(** ** Time: nanoseconds since the zero [time.Time]; the zero time is 0. *)

Abbreviation time := Z (only parsing).
Abbreviation duration := Z (only parsing).

Definition second : duration := 1000000000%Z.
Definition minute : duration := (60 * second)%Z.
Definition hour : duration := (60 * minute)%Z.
Definition max_duration : duration := 9223372036854775807%Z.
Definition min_duration : duration := (-9223372036854775808)%Z.

Definition is_zero (t : time) : bool := bool_decide (t = 0%Z).

(** [t.Sub(u)] saturates at the bounds of [time.Duration]. *)
Definition time_sub (t u : time) : duration := Z.max min_duration (Z.min max_duration (t - u)).

Lemma time_sub_small t u : (0 ≤ t - u ≤ max_duration)%Z → time_sub t u = (t - u)%Z.
Proof. unfold time_sub, max_duration, min_duration. lia. Qed.

Lemma time_sub_le t u d :
  (0 ≤ d < max_duration)%Z → (time_sub t u ≤ d ↔ t - u ≤ d)%Z.
Proof. unfold time_sub, max_duration, min_duration. lia. Qed.

(** ** Sequences of steps *)

Section Star.
Context {S : Type} (step : S → S → Prop).

Inductive star : S → S → Prop :=
| star_refl s : star s s
| star_step s t u : step s t → star t u → star s u.

Lemma star_invariant (I : S → Prop) s t :
  (∀ s t, I s → step s t → I t) → I s → star s t → I t.
Proof. intros Hstep Hs Hst. induction Hst; eauto. Qed.

Lemma star_trans s t u : star s t → star t u → star s u.
Proof. induction 1; [done|]. intros. eapply star_step; [done|auto]. Qed.
End Star.

(** Runs are finite when a natural number decreases in every step. *)
Lemma measure_terminates {S} (step : S → S → Prop) (m : S → nat) :
  (∀ s t, step s t → (m t < m s)%nat) → ∀ s, Acc (λ t s, step s t) s.
Proof.
  intros Hm s. remember (m s) as n eqn:Hn. revert s Hn. induction n as [n IH] using lt_wf_ind. intros s ->.
  constructor. intros t Ht. apply (IH (m t)); [by apply Hm|done].
Qed.

(** ** Generic list lemmas *)

Lemma drop_cons_lookup {A} (l : list A) i x :
  l !! i = Some x → drop i l = x :: drop (S i) l.
Proof. intros. by rewrite (drop_S l x i). Qed.

Lemma take_drop_app {A} (p l s : list A) :
  take (length l) (drop (length p) (p ++ l ++ s)) = l.
Proof. rewrite drop_app_length. by rewrite take_app_length. Qed.

Lemma NoDup_lt_bound (l : list nat) n :
  NoDup l → (∀ x, x ∈ l → x < n) → length l ≤ n.
Proof.
  intros Hnd Hlt. rewrite <- (length_seq n 0).
  apply (submseteq_length l (seq 0 n)), NoDup_submseteq; [done|].
  intros x Hx. apply elem_of_seq. apply Hlt in Hx. lia.
Qed.

Lemma slice_middle (p l s : bytes) i j :
  i = length p → j = length p + length l → slice (p ++ l ++ s) i j = Ret l.
Proof.
  intros -> ->. rewrite slice_Ret by (rewrite ?length_app; lia).
  replace (length p + length l - length p) with (length l) by lia. by rewrite take_drop_app.
Qed.

(** ** Iterating a partial step *)

Lemma dup_or_NoDup {A} `{EqDecision A} (l : list A) :
  NoDup l ∨ ∃ i j x, i < j ∧ l !! i = Some x ∧ l !! j = Some x.
Proof.
  induction l as [|x l [IH|(i & j & y & Hij & Hi & Hj)]].
  - left. constructor.
  - destruct (decide (x ∈ l)) as [[j Hj]%list_elem_of_lookup|].
    + right. exists 0, (S j), x. auto with lia.
    + left. by constructor.
  - right. exists (S i), (S j), y. auto with lia.
Qed.

Section IterOpt.
Context (f : nat → option nat).

Fixpoint iter_opt (n : nat) (x : nat) : option nat :=
  match n with
  | 0 => Some x
  | S n => match f x with Some y => iter_opt n y | None => None end
  end.

Lemma iter_opt_add n m x : iter_opt (n + m) x = iter_opt n x ≫= iter_opt m.
Proof. revert x. induction n as [|n IH]; intros x; simpl; [done|]. by destruct (f x). Qed.

Lemma iter_opt_le n m x : n ≤ m → is_Some (iter_opt m x) → is_Some (iter_opt n x).
Proof.
  intros Hle. replace m with (n + (m - n)) by lia. rewrite iter_opt_add.
  destruct (iter_opt n x); [eauto | by intros [? [=]]].
Qed.

(** An orbit that meets itself never stops. *)
Lemma iter_opt_cycle i j x p :
  i < j → iter_opt i x = Some p → iter_opt j x = Some p → ∀ n, is_Some (iter_opt n x).
Proof.
  intros Hij Hi Hj n. induction (lt_wf n) as [n _ IH].
  destruct (decide (n ≤ j)) as [Hn|Hn]; [by eapply iter_opt_le; [|rewrite Hj]|].
  replace n with (j + (n - j)) by lia. rewrite iter_opt_add, Hj. simpl.
  specialize (IH (i + (n - j)) ltac:(lia)). by rewrite iter_opt_add, Hi in IH.
Qed.

(** A step that only starts from positions below [N] and makes [S N] iterations
    meets a position twice (pigeonhole). *)
Lemma iter_opt_repeats N x :
  (∀ p q, f p = Some q → p < N) → is_Some (iter_opt (S N) x) →
  ∃ i j p, i < j ∧ iter_opt i x = Some p ∧ iter_opt j x = Some p.
Proof.
  intros Hlt Hs.
  assert (Hpos : ∀ i, i ≤ N → ∃ p, iter_opt i x = Some p ∧ p < N).
  { intros i Hi. destruct (iter_opt_le i (S N) x ltac:(lia) Hs) as [p Hp].
    exists p. split; [done|].
    destruct (iter_opt_le (i + 1) (S N) x ltac:(lia) Hs) as [q Hq].
    rewrite iter_opt_add, Hp in Hq. simpl in Hq.
    destruct (f p) as [r|] eqn:E; [by eapply Hlt | done]. }
  set (l := (λ i, default 0 (iter_opt i x)) <$> seq 0 (S N)).
  destruct (dup_or_NoDup l) as [Hnd|(i & j & p & Hij & Hi & Hj)].
  - apply NoDup_lt_bound with (n := N) in Hnd.
    + unfold l in Hnd. rewrite length_fmap, length_seq in Hnd. lia.
    + intros y (i & -> & Hi%elem_of_seq)%list_elem_of_fmap.
      destruct (Hpos i) as (p & -> & ?); [lia|done].
  - unfold l in Hi, Hj. rewrite list_lookup_fmap in Hi, Hj.
    apply fmap_Some in Hi as (i' & [-> Hi']%lookup_seq & ->).
    apply fmap_Some in Hj as (j' & [-> Hj']%lookup_seq & Hj).
    destruct (Hpos (0 + i)) as (pi & Hpi & _); [lia|].
    destruct (Hpos (0 + j)) as (pj & Hpj & _); [lia|].
    rewrite Hpi, Hpj in Hj. simpl in Hj. subst pj.
    exists (0 + i), (0 + j), pi. split; [lia|done].
Qed.

(** Such a step stops within [S N] iterations or never. *)
Lemma iter_opt_forever N x :
  (∀ p q, f p = Some q → p < N) → is_Some (iter_opt (S N) x) → ∀ n, is_Some (iter_opt n x).
Proof. intros Hlt Hs. destruct (iter_opt_repeats N x Hlt Hs) as (i & j & p & ? & ? & ?). by eapply iter_opt_cycle. Qed.

(** A step that only goes up never meets a position twice. *)
Lemma iter_opt_increasing i j x p q :
  (∀ p q, f p = Some q → p < q) → i < j → iter_opt i x = Some p → iter_opt j x = Some q → p < q.
Proof.
  intros Hup Hij Hi Hj. replace j with (i + (j - i)) in Hj by lia. rewrite iter_opt_add, Hi in Hj. simpl in Hj.
  assert (Hpos : 0 < j - i) by lia. revert Hj Hpos. generalize (j - i). clear -Hup. intros n. revert p.
  induction n as [|n IH]; intros p; [lia|]. simpl. destruct (f p) as [r|] eqn:E; [|done]. apply Hup in E.
  destruct n as [|n]; intros Hq _; [by injection Hq as <-|]. specialize (IH r Hq ltac:(lia)). lia.
Qed.
End IterOpt.

(** ** Tactics of the development *)

(** Split a hypothesis [m ≫= f = Ret b] into its steps. *)
Ltac bind_inv H :=
  apply bind_Ret_inv in H;
  let a := fresh "v" in let Ha := fresh "Hstep" in let Hb := fresh in
  destruct H as (a & Ha & Hb); rename Hb into H.

(** Walk through a monadic body proving that it does not panic or loop. *)
Ltac safe_step :=
  match goal with
  | |- safe (if decide ?P then _ else _) => destruct (decide P)
  | |- safe (_ ≫= _) => apply safe_bind; [|intros ? ?]
  | |- safe (go_try _ _ _) => apply safe_try; [|intros ? ?|intros ? ?]
  | |- safe (match ?x with _ => _ end) => destruct x eqn:?
  | |- safe _ => solve [eauto with go lia]
  end.
