(* ===== verification/GoString.v ===== *)
(** Go strings and the functions of package [strings] the router uses.

    A Go string is a byte sequence; it is modelled by [string] (8-bit
    characters).  ASCII case mapping is written out; the mapping of strings
    that contain a byte of 0x80 or more depends on the Unicode tables of the Go
    run time, which are the class [UnicodeTables]. *)
From Stdlib Require Export Ascii String.
From stdpp Require Export strings.
From stdpp Require Import sorting.
From S2P Require Import Prelude.

Local Open Scope string_scope.
#[global] Arguments String.append !_ _ / : simpl nomatch.

(** ** Conversions, lengths, slices *)

Definition to_bytes (s : string) : bytes := list_byte_of_string s.
Definition of_bytes (b : bytes) : string := string_of_list_byte b.

Lemma of_to_bytes s : of_bytes (to_bytes s) = s.
Proof. apply string_of_list_byte_of_string. Qed.
Lemma to_of_bytes b : to_bytes (of_bytes b) = b.
Proof. apply list_byte_of_string_of_list_byte. Qed.

Fixpoint sdrop (n : nat) (s : string) : string :=
  match n, s with
  | 0, _ => s
  | S n, String _ r => sdrop n r
  | S _, EmptyString => ""
  end.

Fixpoint stake (n : nat) (s : string) : string :=
  match n, s with
  | 0, _ => ""
  | S n, String a r => String a (stake n r)
  | S _, EmptyString => ""
  end.

Lemma length_append (s t : string) : String.length (s +:+ t) = String.length s + String.length t.
Proof. induction s; simpl; congruence. Qed.

Lemma append_nil_r s : s +:+ "" = s.
Proof. induction s; simpl; congruence. Qed.

Lemma sappend_assoc (s t u : string) : (s +:+ t) +:+ u = s +:+ (t +:+ u).
Proof. induction s; simpl; congruence. Qed.

Lemma sdrop_append (s t : string) : sdrop (String.length s) (s +:+ t) = t.
Proof. induction s; simpl; auto. Qed.

Lemma stake_append (s t : string) : stake (String.length s) (s +:+ t) = s.
Proof. induction s; simpl; congruence. Qed.

Lemma stake_sdrop n s : stake n s +:+ sdrop n s = s.
Proof. revert s. induction n; intros [|a s]; simpl; auto. by rewrite IHn. Qed.

Lemma length_stake n s : String.length (stake n s) = n `min` String.length s.
Proof. revert s. induction n; intros [|a s]; simpl; auto. Qed.

Lemma length_sdrop n s : String.length (sdrop n s) = String.length s - n.
Proof. revert s. induction n; intros [|a s]; simpl; auto. Qed.

Lemma length_to_bytes s : length (to_bytes s) = String.length s.
Proof.
  unfold to_bytes, list_byte_of_string. rewrite length_map.
  induction s; simpl; congruence.
Qed.

Lemma of_bytes_app b c : of_bytes (b ++ c) = of_bytes b +:+ of_bytes c.
Proof. induction b as [|x b IH]; [done|]. cbn. f_equal. apply IH. Qed.

(** ** Prefixes and suffixes *)

Definition has_prefix (s p : string) : bool := String.prefix p s.

Lemma prefix_append s t : has_prefix (s +:+ t) s = true.
Proof. unfold has_prefix. induction s as [|a s IH]; simpl; [by destruct t|]. destruct (ascii_dec a a); done. Qed.

(** [len(s) >= len(suffix) && s[len(s)-len(suffix):] == suffix] *)
Definition has_suffix (s suf : string) : bool :=
  bool_decide (String.length suf ≤ String.length s)%nat &&
  String.eqb (sdrop (String.length s - String.length suf) s) suf.

Definition trim_suffix (s suf : string) : string :=
  if has_suffix s suf then stake (String.length s - String.length suf) s else s.

Definition trim_prefix (s p : string) : string :=
  if has_prefix s p then sdrop (String.length p) s else s.

Lemma has_suffix_spec s suf : has_suffix s suf = true ↔ ∃ p, s = p +:+ suf.
Proof.
  unfold has_suffix. rewrite andb_true_iff, bool_decide_eq_true, String.eqb_eq. split.
  - intros [Hl He]. exists (stake (String.length s - String.length suf) s).
    rewrite <- He at 2. by rewrite stake_sdrop.
  - intros [p ->]. rewrite length_append. split; [lia|].
    replace (String.length p + String.length suf - String.length suf) with (String.length p) by lia.
    apply sdrop_append.
Qed.

Lemma trim_suffix_append p suf : trim_suffix (p +:+ suf) suf = p.
Proof.
  unfold trim_suffix. rewrite (proj2 (has_suffix_spec _ _)) by eauto.
  rewrite length_append.
  replace (String.length p + String.length suf - String.length suf) with (String.length p) by lia.
  apply stake_append.
Qed.

Lemma trim_suffix_none s suf : has_suffix s suf = false → trim_suffix s suf = s.
Proof. unfold trim_suffix. by intros ->. Qed.

(** ** Separators: Index of one byte, Split, Join *)

Fixpoint contains_byte (c : ascii) (s : string) : bool :=
  match s with
  | EmptyString => false
  | String a r => Ascii.eqb a c || contains_byte c r
  end.

(** The text after the first [c], if there is one: [i := Index(s, c)] and
    [s[i+1:]]. *)
Fixpoint after_byte (c : ascii) (s : string) : option string :=
  match s with
  | EmptyString => None
  | String a r => if Ascii.eqb a c then Some r else after_byte c r
  end.

(** The text before the first [c]: [s[:Index(s, c)]]. *)
Fixpoint before_byte (c : ascii) (s : string) : option string :=
  match s with
  | EmptyString => None
  | String a r => if Ascii.eqb a c then Some "" else String a <$> before_byte c r
  end.

(** [strings.Split(s, sep)] for a one-byte separator. *)
Fixpoint split_byte (c : ascii) (s : string) : list string :=
  match s with
  | EmptyString => [""]
  | String a r =>
      if Ascii.eqb a c then "" :: split_byte c r
      else match split_byte c r with
           | h :: t => String a h :: t
           | [] => [String a ""]
           end
  end.

(** The value of a hexadecimal digit. *)
Definition hex_value (a : ascii) : option Z :=
  let n := Z.of_N (N_of_ascii a) in
  if ((48 <=? n) && (n <=? 57))%Z then Some (n - 48)%Z
  else if ((97 <=? n) && (n <=? 102))%Z then Some (n - 87)%Z
  else if ((65 <=? n) && (n <=? 70))%Z then Some (n - 55)%Z
  else None.

Lemma hex_value_range a v : hex_value a = Some v → (0 ≤ v < 16)%Z.
Proof.
  unfold hex_value. destruct ((48 <=? _) && _)%Z eqn:E1; [intros [= <-]; lia|].
  destruct ((97 <=? _) && _)%Z eqn:E2; [intros [= <-]; lia|]. destruct ((65 <=? _) && _)%Z eqn:E3; [intros [= <-]; lia|done].
Qed.

(** [bufio.Scanner] with the default line splitter and a buffer of [max]
    bytes, given the text cut at its newlines: the lines without their end, up
    to the first one that does not fit. *)
Definition drop_cr (l : string) : string := trim_suffix l (String (ascii_of_N 13) "").

Fixpoint scan_with (max : nat) (ls : list string) : list string * option string :=
  match ls with
  | [] => ([], None)
  | [l] => if String.eqb l "" then ([], None)
           else if Nat.leb max (String.length l) then ([], Some "token too long")
           else ([drop_cr l], None)
  | l :: ls => if Nat.leb max (String.length l) then ([], Some "token too long")
               else let '(r, e) := scan_with max ls in (drop_cr l :: r, e)
  end.

(** [strings.Join(l, sep)] *)
Fixpoint join (sep : string) (l : list string) : string :=
  match l with
  | [] => ""
  | [s] => s
  | s :: l => s +:+ sep +:+ join sep l
  end.

Lemma split_byte_ne c s : split_byte c s ≠ [].
Proof. destruct s as [|a s]; simpl; [done|]. destruct (Ascii.eqb a c); [done|]. by destruct (split_byte c s). Qed.

Lemma split_byte_none c s : contains_byte c s = false → split_byte c s = [s].
Proof.
  induction s as [|a s IH]; simpl; [done|].
  rewrite orb_false_iff. intros [-> Hs]. by rewrite IH.
Qed.

Lemma contains_byte_append c s t : contains_byte c (s +:+ t) = contains_byte c s || contains_byte c t.
Proof. induction s as [|a s IH]; simpl; [done|]. by rewrite IH, orb_assoc. Qed.

Lemma split_byte_append c s t :
  contains_byte c s = false → split_byte c (s +:+ String c t) = s :: split_byte c t.
Proof.
  induction s as [|a s IH]; simpl; [by rewrite Ascii.eqb_refl|].
  rewrite orb_false_iff. intros [-> Hs]. by rewrite IH.
Qed.

Lemma split_join c l :
  l ≠ [] → Forall (λ s, contains_byte c s = false) l →
  split_byte c (join (String c "") l) = l.
Proof.
  intros Hne Hl. induction Hl as [|s l Hs Hl IH]; [done|].
  destruct l as [|t l]; [by apply split_byte_none|].
  change (join (String c "") (s :: t :: l)) with (s +:+ String c (join (String c "") (t :: l))).
  by rewrite split_byte_append, IH.
Qed.

Lemma after_byte_none c s : contains_byte c s = false → after_byte c s = None.
Proof. induction s as [|a r IH]; simpl; [done|]. destruct (Ascii.eqb a c); simpl; [done|apply IH]. Qed.

Lemma after_byte_length c s t : after_byte c s = Some t → (String.length t < String.length s)%nat.
Proof.
  induction s as [|a s IH]; simpl; [done|]. destruct (Ascii.eqb a c); [intros [= ->]; lia|].
  intros H%IH. lia.
Qed.

(** ** Case mapping *)

Class UnicodeTables := {
  (** [strings.ToLower] on a string with a byte of 0x80 or more *)
  unicode_lower : string → string;
}.

(** A concrete table: a run time whose tables map no rune outside ASCII. *)
Definition ascii_tables : UnicodeTables := {| unicode_lower s := s |}.

Definition ascii_byte (a : ascii) : bool := N.ltb (N_of_ascii a) 128.

Fixpoint all_ascii (s : string) : bool :=
  match s with
  | EmptyString => true
  | String a r => ascii_byte a && all_ascii r
  end.

Definition lower_ascii (a : ascii) : ascii :=
  let n := N_of_ascii a in
  if (N.leb 65 n && N.leb n 90)%bool then ascii_of_N (n + 32) else a.

Fixpoint map_lower (s : string) : string :=
  match s with
  | EmptyString => ""
  | String a r => String (lower_ascii a) (map_lower r)
  end.

Definition to_lower `{U : UnicodeTables} (s : string) : string :=
  if all_ascii s then map_lower s else unicode_lower s.

(** A string that [ToLower] leaves alone: ASCII without upper-case letters. *)
Fixpoint is_lower (s : string) : bool :=
  match s with
  | EmptyString => true
  | String a r => (ascii_byte a && Ascii.eqb (lower_ascii a) a) && is_lower r
  end.

Lemma is_lower_id `{U : UnicodeTables} s : is_lower s = true → to_lower s = s.
Proof.
  intros H. assert (all_ascii s = true ∧ map_lower s = s) as [Ha Hm].
  { induction s as [|a s IH]; simpl in *; [done|].
    apply andb_true_iff in H as [[H1 H2%Ascii.eqb_eq]%andb_true_iff H3].
    destruct (IH H3) as [-> ->]. by rewrite H1, H2. }
  unfold to_lower. by rewrite Ha.
Qed.

Lemma lower_ascii_idem a : lower_ascii (lower_ascii a) = lower_ascii a.
Proof. by destruct a as [[] [] [] [] [] [] [] []]. Qed.

Lemma lower_ascii_byte a : ascii_byte a = true → ascii_byte (lower_ascii a) = true.
Proof. by destruct a as [[] [] [] [] [] [] [] []]. Qed.

Lemma map_lower_is_lower s : all_ascii s = true → is_lower (map_lower s) = true.
Proof.
  induction s as [|a s IH]; simpl; [done|]. intros [Ha Hs]%andb_true_iff.
  rewrite lower_ascii_byte, lower_ascii_idem, Ascii.eqb_refl by done. simpl. auto.
Qed.

Lemma to_lower_idem `{U : UnicodeTables} s :
  all_ascii s = true → to_lower (to_lower s) = to_lower s.
Proof.
  intros H. apply is_lower_id. unfold to_lower. rewrite H. by apply map_lower_is_lower.
Qed.

(** ** TrimSpace

    Exactly the runes of [unicode.IsSpace], recognised by their UTF-8
    encodings at either end of the string. *)

Definition ascii_space (a : ascii) : bool :=
  let n := N_of_ascii a in (N.eqb n 32 || (N.leb 9 n && N.leb n 13))%bool.

Definition utf8 (l : list N) : string := string_of_list_ascii (map ascii_of_N l).

Definition wide_spaces : list string :=
  map utf8 [[194;133]; [194;160]; [225;154;128];
            [226;128;128]; [226;128;129]; [226;128;130]; [226;128;131]; [226;128;132];
            [226;128;133]; [226;128;134]; [226;128;135]; [226;128;136]; [226;128;137];
            [226;128;138]; [226;128;168]; [226;128;169]; [226;128;175]; [226;129;159];
            [227;128;128]]%N.

Definition leading_space (s : string) : option string :=
  match s with
  | String a r =>
      if ascii_space a then Some r
      else (λ w, sdrop (String.length w) s) <$> List.find (has_prefix s) wide_spaces
  | EmptyString => None
  end.

Definition trailing_space (s : string) : option string :=
  match List.find (has_suffix s)
          (map (λ n, String (ascii_of_N n) "") [9; 10; 11; 12; 13; 32]%N ++ wide_spaces) with
  | Some w => Some (stake (String.length s - String.length w) s)
  | None => None
  end.

Fixpoint trim_left (fuel : nat) (s : string) : string :=
  match fuel with
  | 0 => s
  | S n => match leading_space s with Some r => trim_left n r | None => s end
  end.

Fixpoint trim_right (fuel : nat) (s : string) : string :=
  match fuel with
  | 0 => s
  | S n => match trailing_space s with Some r => trim_right n r | None => s end
  end.

Definition trim_space (s : string) : string :=
  let s := trim_left (String.length s) s in trim_right (String.length s) s.

Example trim_space_ex : trim_space (" a b " +:+ utf8 [227;128;128]%N) = "a b".
Proof. reflexivity. Qed.

(** ** Splitting again what was joined *)

Definition nonempty (ls : list string) : list string :=
  List.filter (λ l, negb (String.eqb l "")) ls.

Lemma split_byte_app c s t : split_byte c (s +:+ String c t) = (split_byte c s ++ split_byte c t)%list.
Proof.
  induction s as [|a s IH]; simpl; [by rewrite Ascii.eqb_refl|].
  destruct (Ascii.eqb a c); [by rewrite IH|].
  rewrite IH. by destruct (split_byte c s) eqn:E; [apply split_byte_ne in E|].
Qed.

Lemma split_byte_length c s :
  Forall (λ l, (String.length l ≤ String.length s)%nat) (split_byte c s).
Proof.
  induction s as [|a s IH]; simpl; [by constructor|].
  destruct (Ascii.eqb a c); [constructor; [simpl; lia|] |].
  - eapply Forall_impl; [exact IH|]. simpl. lia.
  - destruct (split_byte c s) as [|h t] eqn:E; [by apply split_byte_ne in E|].
    inversion IH; subst. constructor; [simpl; lia|].
    eapply Forall_impl; [done|]. simpl. lia.
Qed.

(** Splitting a join splits each of its pieces, so no piece grows. *)
Lemma split_join_length c ls n :
  Forall (λ l, (String.length l ≤ n)%nat) ls →
  Forall (λ l, (String.length l ≤ n)%nat) (split_byte c (join (String c "") ls)).
Proof.
  assert (Hone : ∀ l, (String.length l ≤ n)%nat →
    Forall (λ l, (String.length l ≤ n)%nat) (split_byte c l)).
  { intros l Hl. eapply Forall_impl; [apply split_byte_length|]. simpl. lia. }
  induction 1 as [|l ls Hl Hls IH]; [apply Hone; simpl; lia|].
  destruct ls as [|l' ls]; [by apply Hone|].
  change (join (String c "") (l :: l' :: ls)) with (l +:+ String c (join (String c "") (l' :: ls))).
  rewrite split_byte_app. apply Forall_app. auto.
Qed.

(** ** The order of [sort.Strings]: bytes, lexicographically *)

Definition string_le (a b : string) : Prop := String.leb a b = true.

#[global] Instance string_le_dec : RelDecision string_le.
Proof. intros a b. unfold string_le. apply _. Defined.

Lemma string_le_cons a s b t :
  string_le (String a s) (String b t) ↔
  (N_of_ascii a < N_of_ascii b)%N ∨ (a = b ∧ string_le s t).
Proof.
  unfold string_le, String.leb. simpl. unfold Ascii.compare.
  destruct (N.compare_spec (N_of_ascii a) (N_of_ascii b)) as [E|E|E].
  - apply (f_equal ascii_of_N) in E. rewrite !ascii_N_embedding in E. subst b.
    split; [intros H; right; split; [done|exact H]|]. by intros [?%N.lt_irrefl|[_ H]].
  - split; [by left|done].
  - split; [done|]. intros [?|[-> _]]; [by apply N.lt_asymm in E|by apply N.lt_irrefl in E].
Qed.

#[global] Instance string_le_trans : Transitive string_le.
Proof.
  intros s. induction s as [|a s IH]; intros [|b t] [|c u]; try done.
  rewrite !string_le_cons. intros [H1|[-> H1]] [H2|[-> H2]].
  - left. by eapply N.lt_trans.
  - by left.
  - by left.
  - right. split; [done|]. by eapply IH.
Qed.

#[global] Instance string_le_antisym : AntiSymm eq string_le.
Proof. intros a b. apply String.leb_antisym. Qed.

#[global] Instance string_le_total : Total string_le.
Proof. intros a b. apply String.leb_total. Qed.

Definition sort_strings (l : list string) : list string := merge_sort string_le l.

(** Sorting forgets the order. *)
Lemma sort_strings_perm l k : l ≡ₚ k → sort_strings l = sort_strings k.
Proof.
  intros H. apply (Sorted_unique string_le); [apply Sorted_merge_sort; apply _..|].
  unfold sort_strings. by rewrite !merge_sort_Permutation.
Qed.
