(* ===== verification/Net.v ===== *)
(** Standard-library services the tunnel, firewall and health components use:
    [strings.Contains] and [strings.Fields], [strconv.ParseInt], [fmt]'s [%d]
    (stdpp's [pretty]), [net.ParseCIDR] with [IP.String].

    IPv4 text is written out; the text of IPv6 addresses is the class
    [IPv6Text]. *)
From stdpp Require Export pretty gmap.
From S2P Require Import Prelude GoString.

Local Open Scope string_scope.

(** ** strings *)

(** [strings.Contains(s, sub)] *)
Fixpoint contains (s sub : string) : bool :=
  has_prefix s sub || match s with EmptyString => false | String _ r => contains r sub end.

Definition tab : ascii := ascii_of_N 9.
Definition newline : ascii := ascii_of_N 10.

(** [strings.Fields(s)] on ASCII white space: the maximal runs of other
    characters. *)
Fixpoint fields_from (cur : string) (s : string) : list string :=
  match s with
  | EmptyString => if String.eqb cur "" then [] else [cur]
  | String a r =>
      if ascii_space a
      then (if String.eqb cur "" then fields_from "" r else cur :: fields_from "" r)
      else fields_from (cur +:+ String a "") r
  end.
Definition fields (s : string) : list string := fields_from "" s.

Example fields_ex : fields " default via  10.0.0.1 dev eth0 " = ["default"; "via"; "10.0.0.1"; "dev"; "eth0"].
Proof. reflexivity. Qed.

(** ** Decimal integers *)

Definition digit (a : ascii) : option Z :=
  let n := Z.of_N (N_of_ascii a) in
  if (48 <=? n)%Z && (n <=? 57)%Z then Some (n - 48)%Z else None.

(** All characters are digits; the value is accumulated from the left. *)
Fixpoint digits (acc : Z) (s : string) : option Z :=
  match s with
  | EmptyString => Some acc
  | String a r => match digit a with Some d => digits (acc * 10 + d) r | None => None end
  end.

(** [strconv.ParseInt(s, 10, 64)]: the value returned and whether [err] is
    nil.  Out of range it returns the nearest bound with an error. *)
Definition parse_int (s : string) : Z * bool :=
  let '(neg, body) := match s with
                      | String "+" r => (false, r)
                      | String "-" r => (true, r)
                      | _ => (false, s)
                      end%char in
  if String.eqb body "" then (0%Z, false)
  else match digits 0 body with
       | None => (0%Z, false)
       | Some n =>
           if neg then (if (n <=? 2 ^ 63)%Z then ((- n)%Z, true) else ((- 2 ^ 63)%Z, false))
           else (if (n <? 2 ^ 63)%Z then (n, true) else ((2 ^ 63 - 1)%Z, false))
       end.

Example parse_int_ex : map parse_int ["-12"; "+7"; ""; "1x"; "9223372036854775808"] =
  [((-12)%Z, true); (7%Z, true); (0%Z, false); (0%Z, false); (9223372036854775807%Z, false)].
Proof. vm_compute. reflexivity. Qed.

(** A number in decimal has digits and a sign only. *)
Lemma pretty_no_byte c (z : Z) : List.existsb (Ascii.eqb c) ["-"; "0"; "1"; "2"; "3"; "4"; "5"; "6"; "7"; "8"; "9"]%char = false →
  contains_byte c (pretty z) = false.
Proof.
  intros Hc.
  assert (Hd : ∀ x s, contains_byte c s = false → contains_byte c (pretty_N_go x s) = false).
  { intros x. induction (N.lt_wf_0 x) as [x _ IH]. intros s Hs. destruct (decide (0 < x)%N) as [Hx|Hx].
    - rewrite pretty_N_go_step by done. apply IH; [by apply N.div_lt|]. simpl. rewrite Hs, orb_false_r.
      simpl in Hc. rewrite !orb_false_iff, !(Ascii.eqb_sym c) in Hc. decompose [and] Hc.
      unfold pretty_N_char. repeat case_match; done.
    - assert (x = 0%N) as -> by lia. by rewrite pretty_N_go_0. }
  simpl in Hc. rewrite !orb_false_iff, !(Ascii.eqb_sym c) in Hc. decompose [and] Hc.
  assert (Hn : ∀ x : N, contains_byte c (pretty x) = false).
  { intros x. unfold pretty, pretty_N. case_decide; [simpl; by rewrite orb_false_r|]. by apply Hd. }
  unfold pretty, pretty_Z. destruct z; [simpl; by rewrite orb_false_r|apply Hn|]. simpl.
  apply orb_false_iff. split; [done|apply Hn].
Qed.

(** Decimal text is read back. *)
Lemma digits_pretty_go x s a : ∃ k, (0 ≤ k)%Z ∧ digits a (pretty_N_go x s) = digits (a * 10 ^ k + Z.of_N x) s.
Proof.
  revert s. induction (N.lt_wf_0 x) as [x _ IH]. intros s. destruct (decide (0 < x)%N) as [Hx|Hx].
  - rewrite pretty_N_go_step by done. destruct (IH (x `div` 10)%N ltac:(by apply N.div_lt) (String (pretty_N_char (x `mod` 10)) s)) as (k & Hk & ->).
    exists (k + 1)%Z. split; [lia|]. cbn [digits].
    assert (Hm : (x `mod` 10 < 10)%N) by (by apply N.mod_lt).
    assert (Hd : digit (pretty_N_char (x `mod` 10)) = Some (Z.of_N (x `mod` 10)%N)).
    { revert Hm. generalize (x `mod` 10)%N. clear. intros m Hm.
      assert (Hc : In m (map N.of_nat (seq 0 10))) by (apply in_map_iff; exists (N.to_nat m); rewrite in_seq; lia).
      simpl in Hc. by repeat destruct Hc as [<-|Hc]. }
    rewrite Hd. f_equal. rewrite Z.pow_add_r by lia. rewrite N2Z.inj_div, N2Z.inj_mod.
    change (Z.of_N 10) with 10%Z. rewrite Z.pow_1_r.
    rewrite (Z.div_mod (Z.of_N x) 10) at 3 by lia. ring.
  - assert (x = 0%N) as -> by lia. exists 0%Z. split; [lia|]. rewrite pretty_N_go_0. f_equal. lia.
Qed.

Lemma digits_pretty (z : Z) : (0 ≤ z)%Z → digits 0 (pretty z) = Some z ∧ pretty z ≠ "".
Proof.
  intros Hz. assert (H : ∀ x : N, digits 0 (pretty x) = Some (Z.of_N x)).
  { intros x. unfold pretty, pretty_N. case_decide as Hx; [by subst|].
    destruct (digits_pretty_go x "" 0) as (k & _ & ->). by rewrite Z.mul_0_l. }
  assert (Hp : digits 0 (pretty z) = Some z) by (by destruct z as [|p|p]; [|apply (H (Npos p))|lia]).
  split; [done|]. intros Hnil. rewrite Hnil in Hp. injection Hp as <-. discriminate Hnil.
Qed.

(** ** Addresses *)

(** A [net.IP] in its 16-byte form. *)
Abbreviation ip := (list Z) (only parsing).

Class IPv6Text := {
  (** [netip.ParseAddr] on a text whose first separator is a colon; [None]
      when it is malformed or carries a zone. *)
  parse_v6 : string → option ip;
  (** the text of an address that is not IPv4-mapped *)
  show_v6 : ip → string;
}.

(** A concrete instance for a network without IPv6. *)
Definition no_v6 : IPv6Text := {| parse_v6 _ := None; show_v6 _ := "" |}.

Definition v4_prefix : ip := [0; 0; 0; 0; 0; 0; 0; 0; 0; 0; 255; 255]%Z.

(** One field of a dotted quad: digits, no leading zero, at most 255. *)
Definition quad_field (s : string) : option Z :=
  match s with
  | EmptyString => None
  | String "0" (String _ _) => None
  | _ => match digits 0 s with
         | Some n => if (n <=? 255)%Z then Some n else None
         | None => None
         end
  end%char.

Definition parse_v4 (s : string) : option ip :=
  match mapM quad_field (split_byte "." s) with
  | Some [a; b; c; d] => Some (v4_prefix ++ [a; b; c; d])%list
  | _ => None
  end.

(** The first of [.], [:] and [%] selects the parser. *)
Fixpoint first_separator (s : string) : option ascii :=
  match s with
  | EmptyString => None
  | String a r =>
      if (Ascii.eqb a "." || Ascii.eqb a ":" || Ascii.eqb a "%")%char then Some a else first_separator r
  end.

Definition show_quad (q : list Z) : string := join "." (map pretty q).

Definition as_v4 (a : ip) : option (list Z) :=
  if bool_decide (take 12 a = v4_prefix ∧ length a = 16) then Some (drop 12 a) else None.

Section Addresses.
Context `{IPv6Text}.

Definition parse_ip (s : string) : option ip :=
  match first_separator s with
  | Some "."%char => parse_v4 s
  | Some ":"%char => parse_v6 s
  | _ => None
  end.

(** [ip.String()] *)
Definition show_ip (a : ip) : string :=
  match as_v4 a with Some q => show_quad q | None => show_v6 a end.

(** [net.ParseCIDR(s)]: the address, and the prefix length of the network. *)
Definition parse_cidr (s : string) : option (ip * Z) :=
  match before_byte "/" s, after_byte "/" s with
  | Some addr, Some mask =>
      match parse_ip addr with
      | None => None
      | Some a =>
          let bits := if bool_decide (first_separator addr = Some "."%char) then 32%Z else 128%Z in
          if String.eqb mask "" then None
          else match digits 0 mask with
               | Some n => if (n <=? bits)%Z && (n <? 16777215)%Z then Some (a, n) else None
               | None => None
               end
      end
  | _, _ => None
  end.
End Addresses.

Example parse_cidr_ex :
  let _ := no_v6 in
  map (λ s, fst <$> parse_cidr s) ["10.10.0.4/32"; "10.10.0.4"; "10.10.0.04/32"; "10.10.0.256/32"; "10.10.0.4/33"]
  = [Some (v4_prefix ++ [10; 10; 0; 4])%Z%list; None; None; None; None].
Proof. vm_compute. reflexivity. Qed.
