(* ===== verification/Os.v ===== *)
(** The machine a component runs on: [os/exec], files and the environment as
    the class [Machine], and the state-and-error monad [io] in which the
    functions that drive it are written.

    What a command does to the machine is not under src/: theorems either hold
    for every machine or name the documented behaviour they rely on. *)
From S2P Require Import Prelude GoString.

(** ** The monad *)

(** A call that may change the machine (also when it fails). *)
Definition io (W A : Type) : Type := W → W * go A.

#[global] Instance io_ret {W} : MRet (io W) := λ A a w, (w, Ret a).
#[global] Instance io_bind {W} : MBind (io W) := λ A B f m w,
  match m w with
  | (w, Ret a) => f a w
  | (w, Err e) => (w, Err e)
  | (w, Panic) => (w, Panic)
  | (w, Loop) => (w, Loop)
  end.

(** [return err] *)
Definition fail {W A} (e : string) : io W A := λ w, (w, Err e).

(** [if err != nil] with the error at hand: the call's error as a value. *)
Definition attempt {W A} (m : io W A) : io W (A + string) := λ w,
  match m w with
  | (w, Ret a) => (w, Ret (inl a))
  | (w, Err e) => (w, Ret (inr e))
  | (w, Panic) => (w, Panic)
  | (w, Loop) => (w, Loop)
  end.

(** [_ = f()]: the error is dropped. *)
Definition ignore {W A} (m : io W A) : io W () := _ ← attempt m; mret ().

Definition gets {W A} (f : W → A) : io W A := λ w, (w, Ret (f w)).

Lemma io_bind_Ret_inv {W A B} (m : io W A) (f : A → io W B) w w' b :
  (m ≫= f) w = (w', Ret b) → ∃ w1 a, m w = (w1, Ret a) ∧ f a w1 = (w', Ret b).
Proof. unfold mbind, io_bind. destruct (m w) as [w1 [a|e| |]]; eauto; discriminate. Qed.

(** An invariant of the machine kept by a call, however it ends. *)
Definition preserves {W A} (I : W → Prop) (m : io W A) : Prop := ∀ w, I w → I (fst (m w)).

Lemma preserves_ret {W A} (I : W → Prop) (a : A) : preserves I (mret a).
Proof. by intros w. Qed.
Lemma preserves_fail {W A} (I : W → Prop) e : preserves I (@fail W A e).
Proof. by intros w. Qed.
Lemma preserves_gets {W A} (I : W → Prop) (f : W → A) : preserves I (gets f).
Proof. by intros w. Qed.
Lemma preserves_bind {W A B} (I : W → Prop) (m : io W A) (f : A → io W B) :
  preserves I m → (∀ a, preserves I (f a)) → preserves I (m ≫= f).
Proof.
  intros Hm Hf w Hw. specialize (Hm w Hw). unfold mbind, io_bind.
  destruct (m w) as [w1 [a|e| |]]; simpl in *; auto. by apply Hf.
Qed.
Lemma preserves_bind_ret {W A B} (I : W → Prop) (m : io W A) (f : A → io W B) :
  preserves I m → (∀ a w w', m w = (w', Ret a) → preserves I (f a)) → preserves I (m ≫= f).
Proof.
  intros Hm Hf w Hw. specialize (Hm w Hw). unfold mbind, io_bind.
  destruct (m w) as [w1 [a|e| |]] eqn:E; simpl in *; auto. by eapply Hf.
Qed.
Lemma preserves_attempt {W A} (I : W → Prop) (m : io W A) : preserves I m → preserves I (attempt m).
Proof. intros Hm w Hw. specialize (Hm w Hw). unfold attempt. by destruct (m w) as [? []]. Qed.
Lemma preserves_ignore {W A} (I : W → Prop) (m : io W A) : preserves I m → preserves I (ignore m).
Proof. intros. apply preserves_bind; [by apply preserves_attempt|intros; apply preserves_ret]. Qed.

Create HintDb io.
#[export] Hint Resolve preserves_ret preserves_fail preserves_gets preserves_bind
  preserves_attempt preserves_ignore : io.

(** [preserves] through the structure of a call. *)
Ltac io_quiet := repeat first
  [ progress (cbv zeta)
  | solve [simple apply preserves_ret | simple apply preserves_fail | simple apply preserves_gets
          | eauto 2 with io]
  | simple apply preserves_bind; [|intros]
  | simple apply preserves_ignore
  | simple apply preserves_attempt
  | progress intros
  | match goal with |- preserves _ (match ?x with _ => _ end) => destruct x end ].

(** A call that ends with a result or an error on every machine. *)
Definition io_safe {W A} (m : io W A) : Prop := ∀ w, safe (snd (m w)).

Lemma io_safe_ret {W A} (a : A) : io_safe (W := W) (mret a).
Proof. by intros w. Qed.
Lemma io_safe_fail {W A} e : io_safe (@fail W A e).
Proof. by intros w. Qed.
Lemma io_safe_gets {W A} (f : W → A) : io_safe (gets f).
Proof. by intros w. Qed.
Lemma io_safe_bind {W A B} (m : io W A) (f : A → io W B) :
  io_safe m → (∀ a, io_safe (f a)) → io_safe (m ≫= f).
Proof.
  intros Hm Hf w. specialize (Hm w). unfold mbind, io_bind.
  destruct (m w) as [w1 [a|e| |]]; simpl in *; [apply Hf|by split|by destruct Hm..].
Qed.
Lemma io_safe_attempt {W A} (m : io W A) : io_safe m → io_safe (attempt m).
Proof. intros Hm w. specialize (Hm w). unfold attempt. destruct (m w) as [? []]; simpl in *; [by split..|by destruct Hm|by destruct Hm]. Qed.
Lemma io_safe_ignore {W A} (m : io W A) : io_safe m → io_safe (ignore m).
Proof. intros. apply io_safe_bind; [by apply io_safe_attempt|intros; apply io_safe_ret]. Qed.

(** The dropped error of a call that neither panics nor loops. *)
Lemma ignore_run {W A} (m : io W A) w : io_safe m → ignore m w = (fst (m w), Ret ()).
Proof.
  intros Hm. specialize (Hm w). unfold ignore, attempt, mbind, io_bind.
  destruct (m w) as [w1 [a|e| |]]; simpl in *; [done..|by destruct Hm|by destruct Hm].
Qed.

Ltac io_safe := repeat first
  [ progress (cbv zeta)
  | solve [simple apply io_safe_ret | simple apply io_safe_fail | simple apply io_safe_gets
          | eauto 2 with io]
  | simple apply io_safe_bind; [|intros]
  | simple apply io_safe_ignore
  | simple apply io_safe_attempt
  | progress intros
  | match goal with |- io_safe (match ?x with _ => _ end) => destruct x end ].

(** ** The machine *)

(** How a command ended: whether [err] is nil, what it wrote to its standard
    output, and its standard output and error together. *)
Record result := {
  ok : bool;
  stdout : string;
  combined : string;
}.

Class Machine (W : Type) := {
  exec : W → list string → W * result;
  (** the same with a standard input *)
  exec_in : W → list string → string → W * result;
  read_file : W → string → option string;
  mkdir_all : W → string → W * bool;
  write_file : W → string → string → W * bool;
  chmod : W → string → Z → W * bool;
  rename : W → string → string → W * bool;
  remove_file : W → string → W;
  (** [os.CreateTemp]: the name of the new file *)
  create_temp : W → string → W * option string;
  getenv : W → string → string;
}.

Section Calls.
Context {W : Type} `{Machine W}.

(** [exec.Command(argv...)] run to its end. *)
Definition command (argv : list string) : io W result := λ w,
  let '(w, r) := exec w argv in (w, Ret r).

(** A step that fails with [e]. *)
Definition step_io (f : W → W * bool) (e : string) : io W () := λ w,
  let '(w, ok) := f w in (w, if ok : bool then Ret () else Err e).

Definition command_in (argv : list string) (stdin : string) : io W result := λ w,
  let '(w, r) := exec_in w argv stdin in (w, Ret r).

(** A command whose failure is the error [e]. *)
Definition must (argv : list string) (e : string) : io W () :=
  c ← command argv; if ok c then mret () else fail e.

Lemma io_safe_command argv : io_safe (command argv).
Proof. intros w. unfold command. by destruct (exec w argv). Qed.
Lemma io_safe_command_in argv i : io_safe (command_in argv i).
Proof. intros w. unfold command_in. by destruct (exec_in w argv i). Qed.
Lemma io_safe_step f e : io_safe (step_io f e).
Proof. intros w. unfold step_io. by destruct (f w) as [? []]. Qed.
Lemma io_safe_must argv e : io_safe (must argv e).
Proof. apply io_safe_bind; [apply io_safe_command|intros r]. by destruct (ok r). Qed.

(** Every command line in [cmds] keeps [I]. *)
Definition keeps (I : W → Prop) (cmds : list string → Prop) : Prop :=
  ∀ w argv, cmds argv → I w → I (fst (exec w argv)).

Lemma preserves_command (I : W → Prop) (cmds : list string → Prop) argv :
  keeps I cmds → cmds argv → preserves I (command argv).
Proof. intros Hk Hc w Hw. specialize (Hk w argv Hc Hw). unfold command. by destruct (exec w argv). Qed.
End Calls.

#[export] Hint Resolve io_safe_command io_safe_command_in io_safe_step io_safe_must : io.
