(* ===== verification/Wire.v ===== *)
(** [internal/dns/wire.go]: parsing of DNS queries and construction of the
    sinkhole, NXDOMAIN and SERVFAIL responses. *)
From S2P Require Import Prelude GoString.

Local Open Scope Z_scope.

(** ** Data *)

Record question := Question { q_name : string; q_type : Z; q_class : Z }.

Record msg := Msg {
  m_id : Z;
  m_flags : Z;
  m_qdCount : Z;
  m_questions : list question;
  m_body : bytes;
}.

Definition errShort : string := "dns: message too short".

(** ** readName

    The loop keeps the slice offset, the number of bytes consumed before the
    first compression pointer ([visited], 0 while there was none) and the
    labels read so far. *)
Fixpoint readName_loop (fuel : nat) (b : bytes) (start offset visited : nat)
    (labels : list string) : go (string * nat) :=
  match fuel with
  | O => Loop
  | S fuel =>
      if decide (length b ≤ offset)%nat then Err errShort else
      x ← idx b offset;
      let len := b2z x in
      if bool_decide (len = 0) then
        let consumed := (S offset - start)%nat in
        let consumed := if decide (0 < visited)%nat then visited else consumed in
        Ret (join "." labels, consumed)
      else if bool_decide (Z.land len 0xC0 = 0xC0) then
        if decide (length b ≤ offset + 1)%nat then Err errShort else
        y ← idx b (offset + 1);
        let ptr := Z.to_nat (Z.land len 0x3F * 256 + b2z y) in
        let offset := (offset + 2)%nat in
        let visited := if decide (visited = O) then (offset - start)%nat else visited in
        readName_loop fuel b start ptr visited labels
      else
        let offset := S offset in
        if decide (length b < offset + Z.to_nat len)%nat then Err errShort else
        l ← slice b offset (offset + Z.to_nat len);
        readName_loop fuel b start (offset + Z.to_nat len) visited (labels ++ [of_bytes l])
  end.

(** [S (length b)] iterations decide every call: see [readName_fuel]. *)
Definition readName (b : bytes) (offset : nat) : go (string * nat) :=
  readName_loop (S (length b)) b offset offset 0 [].

(** ** parseQuery *)

Fixpoint readQuestions (n : nat) (b : bytes) (offset : nat) : go (list question) :=
  match n with
  | O => Ret []
  | S n =>
      '(name, k) ← readName b offset;
      let offset := (offset + k)%nat in
      if decide (length b < offset + 4)%nat then Err errShort else
      qtype ← be16 b offset;
      class ← be16 b (offset + 2);
      qs ← readQuestions n b (offset + 4);
      Ret (Question name qtype class :: qs)
  end.

Definition parseQuery (b : bytes) : go msg :=
  if decide (length b < 12)%nat then Err errShort else
  id ← be16 b 0;
  flags ← be16 b 2;
  qd ← be16 b 4;
  qs ← readQuestions (Z.to_nat qd) b 12;
  Ret (Msg id flags qd qs b).

(** ** Responses *)

(** [nil] is [None]. *)
Definition buildNXDomain (query : bytes) : go (option bytes) :=
  if decide (length query < 12)%nat then Ret None else
  flags ← be16 query 2;
  let flags := Z.lor (Z.lor (Z.lor flags 0x8000) 0x0080) 0x0003 in
  resp ← put16 query 2 flags;
  resp ← put16 resp 6 0;
  resp ← put16 resp 8 0;
  resp ← put16 resp 10 0;
  Ret (Some resp).

Definition buildServFail (query : bytes) : go (option bytes) :=
  if decide (length query < 12)%nat then Ret None else
  resp ← slice query 0 12;
  flags ← be16 query 2;
  let flags := Z.lor (Z.land (Z.lor flags 0x8000) 0xFFF0) 0x0002 in
  resp ← put16 resp 2 flags;
  Ret (Some (take 4 resp ++ replicate 8 x00)).

(** The labels of a name in wire format (empty labels are skipped). *)
Fixpoint encode_labels (ls : list string) : bytes :=
  match ls with
  | [] => []
  | l :: ls =>
      if bool_decide (l = ""%string) then encode_labels ls
      else z2b (Z.of_nat (String.length l)) :: to_bytes l ++ encode_labels ls
  end.

Definition buildSinkholeA (query sinkholeIP : bytes) : go (option bytes) :=
  if decide (length query < 12)%nat then buildNXDomain query else
  match parseQuery query with
  | Ret m =>
      match m_questions m with
      | [] => buildNXDomain query
      | q :: _ =>
          let qSection :=
            encode_labels (split_byte "." (q_name q)) ++ [x00] ++ [x00; x01] ++ [x00; x01] in
          hdr ← slice query 0 12;
          flags ← be16 query 2;
          let flags := Z.ldiff (Z.lor (Z.lor flags 0x8000) 0x0080) 0x000F in
          hdr ← put16 hdr 2 flags;
          hdr ← put16 hdr 4 1;
          hdr ← put16 hdr 6 1;
          hdr ← put16 hdr 8 0;
          hdr ← put16 hdr 10 0;
          Ret (Some (hdr ++ qSection ++
            ([xc0; x0c; x00; x01; x00; x01; x00; x00; x00; x05; x00; x04] ++ sinkholeIP)))
      end
  | Err _ => buildNXDomain query
  | Panic => Panic
  | Loop => Loop
  end.

(** [net.ParseIP("10.10.0.254").To4()] *)
Definition SinkholeIP : bytes := map z2b [10; 10; 0; 254].

Definition BuildSinkholeAFromBytes (query : bytes) : go (option bytes) :=
  buildSinkholeA query SinkholeIP.

(** ** readName: no panics, termination *)

Lemma readName_loop_no_panic fuel b start offset visited ls :
  no_panic (readName_loop fuel b start offset visited ls).
Proof.
  revert offset visited ls. induction fuel as [|fuel IH]; intros offset visited ls; simpl; [done|].
  case_decide; [done|]. destruct (idx_lt b offset) as (x & -> & _); [lia|]. simpl.
  case_bool_decide; [done|]. case_bool_decide.
  - case_decide; [done|]. destruct (idx_lt b (offset + 1)) as (y & -> & _); [lia|]. apply IH.
  - case_decide; [done|]. rewrite slice_Ret by lia. apply IH.
Qed.

(** Where the loop continues from [offset]; [None] when it returns. *)
Definition readName_next (b : bytes) (offset : nat) : option nat :=
  match b !! offset with
  | None => None
  | Some x =>
      let len := b2z x in
      if bool_decide (len = 0) then None
      else if bool_decide (Z.land len 0xC0 = 0xC0) then
        match b !! (offset + 1)%nat with
        | None => None
        | Some y => Some (Z.to_nat (Z.land len 0x3F * 256 + b2z y))
        end
      else if decide (length b < S offset + Z.to_nat len)%nat then None
      else Some (S offset + Z.to_nat len)%nat
  end.

Lemma readName_next_lt b p q : readName_next b p = Some q → (p < length b)%nat.
Proof.
  unfold readName_next. destruct (b !! p) eqn:E; [|done]. intros _.
  by eapply lookup_lt_Some.
Qed.

(** The loop runs out of fuel exactly when the offsets it visits do not stop. *)
Lemma readName_loop_Loop fuel b start offset visited ls :
  readName_loop fuel b start offset visited ls = Loop ↔
  is_Some (iter_opt (readName_next b) fuel offset).
Proof.
  revert offset visited ls. induction fuel as [|fuel IH]; intros offset visited ls; simpl.
  { split; eauto. }
  unfold readName_next at 1. case_decide as Hlen.
  { rewrite lookup_ge_None_2 by lia. split; [done|]. by intros [? ?]. }
  destruct (idx_lt b offset) as (x & Hx & Hb); [lia|]. rewrite Hx, Hb. simpl.
  case_bool_decide; [split; [done | by intros [? ?]]|]. case_bool_decide.
  - case_decide.
    { rewrite lookup_ge_None_2 by lia. split; [done | by intros [? ?]]. }
    destruct (idx_lt b (offset + 1)) as (y & Hy & Hby); [lia|]. rewrite Hy, Hby. apply IH.
  - case_decide; [split; [done | by intros [? ?]]|].
    rewrite slice_Ret by lia. simpl. apply IH.
Qed.

(** Fuel beyond what a run needs does not change its result. *)
Lemma readName_loop_mono n m b start offset visited ls :
  (n ≤ m)%nat → readName_loop n b start offset visited ls ≠ Loop →
  readName_loop m b start offset visited ls = readName_loop n b start offset visited ls.
Proof.
  revert m offset visited ls. induction n as [|n IH]; intros m offset visited ls Hle; [done|].
  destruct m as [|m]; [lia|]. simpl.
  case_decide; [done|]. destruct (idx b offset); simpl; [|done..].
  case_bool_decide; [done|]. case_bool_decide.
  - case_decide; [done|]. destruct (idx b (offset + 1)); simpl; [|done..].
    apply IH. lia.
  - case_decide; [done|]. destruct (slice b _ _); simpl; [|done..]. apply IH. lia.
Qed.

Lemma readName_Loop_forever b offset :
  readName b offset = Loop → ∀ n, readName_loop n b offset offset 0 [] = Loop.
Proof.
  unfold readName. rewrite readName_loop_Loop. intros Hs n. rewrite readName_loop_Loop.
  by apply (iter_opt_forever _ (length b)); [apply readName_next_lt|].
Qed.

(** [readName] makes at most [S (len(b))] iterations or never returns:
    whatever the message and offset, running the loop for [S (length b)]
    iterations either gives the result of every longer run, or no number of
    iterations gives one. *)
Theorem readName_fuel b offset :
  (∀ n, S (length b) ≤ n →
     readName_loop n b offset offset 0 [] = readName b offset)%nat ∧
  (readName b offset = Loop →
     ∀ n, readName_loop n b offset offset 0 [] = Loop).
Proof.
  split; [|apply readName_Loop_forever]. intros n Hn. destruct (decide (readName b offset = Loop)) as [HL|HL].
  - rewrite HL. by apply readName_Loop_forever.
  - by apply readName_loop_mono.
Qed.

(** A 12-byte header with one question whose name is a compression pointer to
    itself (offset 12): 18 bytes from any client. *)
Definition self_pointer_query : bytes :=
  map z2b [0x12; 0x34; 1; 0; 0; 1; 0; 0; 0; 0; 0; 0; 0xC0; 12; 0; 1; 0; 1].

(** A compression pointer to its own offset makes the parser loop forever:
    no number of iterations lets [readName] return on this 18-byte query, so
    [parseQuery] does not return either. *)
Theorem self_pointer_diverges :
  (∀ n, readName_loop n self_pointer_query 12 12 0 [] = Loop) ∧
  parseQuery self_pointer_query = Loop.
Proof.
  split; [|by vm_compute]. apply readName_Loop_forever.
  by vm_compute.
Qed.

(** C38. Termination of [readName]: it returns exactly when the positions that its
    loop visits are all different, and then within [S (len(b))] iterations; any
    number of iterations more gives the same result. It always returns on a
    message whose continuations only go forward, as those of a message without
    compression pointers; a pointer to itself makes [parseQuery] loop for ever. *)
Theorem readName_termination b offset :
  let visits n := iter_opt (readName_next b) n offset in
  (readName b offset ≠ Loop ↔ ¬ ∃ i j p, i < j ∧ visits i = Some p ∧ visits j = Some p)%nat ∧
  (readName b offset ≠ Loop ↔ ∃ n, readName_loop n b offset offset 0 [] ≠ Loop) ∧
  (∀ n, S (length b) ≤ n → readName_loop n b offset offset 0 [] = readName b offset)%nat ∧
  ((∀ p q, readName_next b p = Some q → p < q)%nat → readName b offset ≠ Loop) ∧
  parseQuery self_pointer_query = Loop.
Proof.
  cbv zeta. destruct (readName_fuel b offset) as [Hf Hl].
  assert (Hr : readName b offset ≠ Loop ↔ ¬ ∃ i j p, (i < j)%nat ∧ iter_opt (readName_next b) i offset = Some p ∧
    iter_opt (readName_next b) j offset = Some p).
  { unfold readName. rewrite readName_loop_Loop. split; intros Hn; contradict Hn.
    - destruct Hn as (i & j & p & Hij & Hi & Hj). by eapply iter_opt_cycle.
    - eapply iter_opt_repeats; [apply readName_next_lt|exact Hn]. }
  split; [exact Hr|]. split; [|split; [exact Hf|split; [|by vm_compute]]].
  - split; [by exists (S (length b))|]. intros [n Hn] HL. by apply Hn, Hl.
  - intros Hup. apply Hr. intros (i & j & p & Hij & Hi & Hj).
    pose proof (iter_opt_increasing _ i j offset p p Hup Hij Hi Hj). lia.
Qed.

Lemma readQuestions_no_panic n b offset : no_panic (readQuestions n b offset).
Proof.
  revert offset. induction n as [|n IH]; intros offset; simpl; [done|].
  apply no_panic_bind; [apply readName_loop_no_panic|]. intros [name k] _.
  case_decide; [done|].
  destruct (be16_lt b (offset + k)) as (t & -> & _); [lia|].
  destruct (be16_lt b (offset + k + 2)) as (c & -> & _); [lia|]. simpl.
  apply no_panic_bind; [apply IH | done].
Qed.

Lemma parseQuery_no_panic_aux b : no_panic (parseQuery b).
Proof.
  unfold parseQuery. case_decide; [done|].
  destruct (be16_lt b 0) as (? & -> & _); [lia|].
  destruct (be16_lt b 2) as (? & -> & _); [lia|].
  destruct (be16_lt b 4) as (? & -> & _); [lia|]. simpl.
  apply no_panic_bind; [apply readQuestions_no_panic | done].
Qed.

(** ** Round trips *)

Lemma pointer_byte x : Z.land (b2z x) 0xC0 = 0xC0 ↔ 192 ≤ b2z x.
Proof. by destruct x. Qed.

Lemma b2z_x00 : b2z x00 = 0.
Proof. done. Qed.

(** Every label the parser returns has 1 to 191 bytes. *)
Lemma readName_loop_labels fuel b start offset visited ls name k :
  Forall (λ l, String.length l ≤ 191)%nat ls →
  readName_loop fuel b start offset visited ls = Ret (name, k) →
  ∃ ls', name = join "." ls' ∧ Forall (λ l, String.length l ≤ 191)%nat ls'.
Proof.
  revert offset visited ls. induction fuel as [|fuel IH]; intros offset visited ls Hls; simpl; [done|].
  case_decide; [done|]. destruct (idx_lt b offset) as (x & -> & _); [lia|]. simpl.
  case_bool_decide; [intros [= <- <-]; eauto|]. case_bool_decide as Hp.
  - case_decide; [done|]. destruct (idx_lt b (offset + 1)) as (y & -> & _); [lia|].
    simpl. by apply IH.
  - case_decide; [done|]. rewrite slice_Ret by lia. simpl. apply IH.
    apply Forall_app; split; [done|]. constructor; [|done].
    rewrite <- length_to_bytes, to_of_bytes, length_take, length_drop.
    rewrite pointer_byte in Hp. pose proof (b2z_range x). lia.
Qed.

Lemma encode_labels_head l ls :
  l ≠ ""%string →
  encode_labels (l :: ls) = z2b (Z.of_nat (String.length l)) :: to_bytes l ++ encode_labels ls.
Proof. intros. simpl. by rewrite bool_decide_false. Qed.

(** Reading back labels written by [encode_labels]. *)
Lemma readName_loop_encode ls fuel p s start acc :
  Forall (λ l, String.length l ≤ 191)%nat ls →
  (length (encode_labels ls) < fuel)%nat → (start ≤ length p)%nat →
  readName_loop fuel (p ++ encode_labels ls ++ x00 :: s) start (length p) 0 acc =
  Ret (join "." (acc ++ nonempty ls), length p + length (encode_labels ls) + 1 - start)%nat.
Proof.
  intros Hls. revert fuel p acc. induction Hls as [|l ls Hl Hls IH]; intros fuel p acc Hfuel Hstart.
  - destruct fuel as [|fuel]; [simpl in Hfuel; lia|]. simpl.
    rewrite decide_False by (rewrite length_app; simpl; lia).
    rewrite idx_middle. simpl.
    rewrite app_nil_r. do 2 f_equal. lia.
  - destruct (decide (l = ""%string)) as [->|Hne]; [by apply IH|].
    rewrite encode_labels_head in Hfuel |- * by done. rewrite <- app_comm_cons.
    destruct fuel as [|fuel]; [lia|]. cbn [readName_loop].
    simpl in Hfuel. rewrite length_app, length_to_bytes in Hfuel.
    assert (0 < String.length l)%nat by (destruct l; simpl; [done|lia]).
    assert (Hx : b2z (z2b (Z.of_nat (String.length l))) = Z.of_nat (String.length l))
      by (apply b2z_z2b_small; lia).
    rewrite decide_False by (rewrite !length_app; simpl; lia).
    rewrite idx_middle.
    cbn [mbind go_bind]. rewrite bool_decide_false by lia.
    rewrite bool_decide_false by (rewrite pointer_byte; lia).
    rewrite Hx, Nat2Z.id.
    rewrite decide_False by (rewrite !length_app; simpl; rewrite !length_app, length_to_bytes; lia).
    rewrite slice_Ret by (rewrite ?length_app; simpl; rewrite ?length_app, ?length_to_bytes; lia).
    cbn [mbind go_bind].
    set (h := z2b (Z.of_nat (String.length l))).
    replace (p ++ h :: (to_bytes l ++ encode_labels ls) ++ x00 :: s)
      with ((p ++ [h]) ++ to_bytes l ++ (encode_labels ls ++ x00 :: s))
      by (by rewrite <- !app_assoc).
    replace (S (length p) + String.length l - S (length p))%nat with (length (to_bytes l))
      by (rewrite length_to_bytes; lia).
    replace (S (length p)) with (length (p ++ [h])) by (rewrite length_app; simpl; lia).
    rewrite take_drop_app, of_to_bytes, app_assoc.
    replace (length (p ++ [h]) + String.length l)%nat with (length ((p ++ [h]) ++ to_bytes l))
      by (rewrite !length_app, length_to_bytes; lia).
    rewrite IH by (rewrite ?length_app; simpl; lia).
    rewrite <- app_assoc. unfold nonempty at 2. cbn [List.filter].
    rewrite (proj2 (String.eqb_neq l "")) by done. simpl.
    do 2 f_equal. rewrite !length_app, length_to_bytes. simpl. lia.
Qed.

Lemma readName_encode ls p s :
  Forall (λ l, String.length l ≤ 191)%nat ls →
  readName (p ++ encode_labels ls ++ x00 :: s) (length p) =
  Ret (join "." (nonempty ls), length (encode_labels ls) + 1)%nat.
Proof.
  intros H. unfold readName. rewrite readName_loop_encode; [|done|rewrite !length_app; simpl; lia|lia].
  do 2 f_equal. lia.
Qed.

(** ** The responses *)

(** The header flags of each kind of response. *)
Definition sinkhole_flags (f : Z) : Z := Z.ldiff (Z.lor (Z.lor f 0x8000) 0x0080) 0x000F.
Definition nxdomain_flags (f : Z) : Z := Z.lor (Z.lor (Z.lor f 0x8000) 0x0080) 0x0003.
Definition servfail_flags (f : Z) : Z := Z.lor (Z.land (Z.lor f 0x8000) 0xFFF0) 0x0002.

Lemma flags_range f :
  0 ≤ f < 65536 → 0 ≤ sinkhole_flags f < 65536 ∧
  0 ≤ nxdomain_flags f < 65536 ∧ 0 ≤ servfail_flags f < 65536.
Proof.
  intros H. unfold sinkhole_flags, nxdomain_flags, servfail_flags. change 65536 with (2 ^ 16) in *.
  split; [|split]; repeat first [apply ldiff_bound | apply lor_bound | apply land_bound | lia].
Qed.

(** A message with its 12 header bytes exposed. *)
Lemma header_split (b : bytes) :
  (12 ≤ length b)%nat → ∃ a0 a1 a2 a3 a4 a5 a6 a7 a8 a9 a10 a11 r,
    b = a0 :: a1 :: a2 :: a3 :: a4 :: a5 :: a6 :: a7 :: a8 :: a9 :: a10 :: a11 :: r.
Proof. intros H. do 12 (destruct b as [|? b]; [simpl in H; lia|]). by repeat eexists. Qed.

Definition answer_record (ip : bytes) : bytes :=
  [xc0; x0c; x00; x01; x00; x01; x00; x00; x00; x05; x00; x04] ++ ip.

Definition canonical_name (name : string) : string :=
  join "." (nonempty (split_byte "." name)).

(** The header of a message decides the header fields [parseQuery] reports. *)
Lemma parseQuery_header b m :
  parseQuery b = Ret m →
  be16 b 0 = Ret (m_id m) ∧ be16 b 2 = Ret (m_flags m) ∧ be16 b 4 = Ret (m_qdCount m) ∧
  m_body m = b ∧ (12 ≤ length b)%nat ∧ 0 ≤ m_flags m < 65536 ∧
  readQuestions (Z.to_nat (m_qdCount m)) b 12 = Ret (m_questions m).
Proof.
  unfold parseQuery. case_decide; [done|]. intros Hp. bind_inv Hp. bind_inv Hp. bind_inv Hp. bind_inv Hp.
  injection Hp as <-. simpl. repeat split; try done; try lia; eapply be16_range; eauto.
Qed.

Lemma readQuestions_names n b offset qs :
  readQuestions n b offset = Ret qs →
  Forall (λ q, ∃ ls, q_name q = join "." ls ∧ Forall (λ l, String.length l ≤ 191)%nat ls) qs.
Proof.
  revert offset qs. induction n as [|n IH]; intros offset qs; simpl; [by intros [= <-]|].
  intros Hp. bind_inv Hp. destruct v as [name k]. case_decide; [done|].
  bind_inv Hp. bind_inv Hp. bind_inv Hp. injection Hp as <-. constructor; [|by eapply IH].
  simpl. by eapply readName_loop_labels; [|unfold readName in *; eauto].
Qed.

Definition reply_header (a0 a1 : byte) (f : Z) : bytes :=
  [a0; a1; hi8 f; lo8 f; x00; x01; x00; x01; x00; x00; x00; x00].

Lemma buildSinkholeA_Ret query m q qs ip :
  parseQuery query = Ret m → m_questions m = q :: qs →
  ∃ a0 a1, be16 [a0; a1] 0 = Ret (m_id m) ∧
    buildSinkholeA query ip = Ret (Some (reply_header a0 a1 (sinkhole_flags (m_flags m)) ++
      encode_labels (split_byte "." (q_name q)) ++ x00 :: [x00; x01; x00; x01] ++ answer_record ip)).
Proof.
  intros Hm Hq. pose proof (parseQuery_header _ _ Hm) as (Hid & Hfl & _ & _ & Hlen & _ & _).
  destruct (header_split query Hlen) as (a0&a1&a2&a3&a4&a5&a6&a7&a8&a9&a10&a11&r&->).
  exists a0, a1. split; [exact Hid|].
  unfold buildSinkholeA. rewrite decide_False by lia. rewrite Hm, Hq, Hfl.
  fold (sinkhole_flags (m_flags m)). unfold reply_header. cbn. do 2 f_equal.
  rewrite <- app_assoc. reflexivity.
Qed.

(** C22. Sinkhole responses answer the query.  For every query that
    [parseQuery] accepts with a first question, [buildSinkholeA] returns a
    message which itself parses: same transaction id, QR and RA set and RCODE
    cleared in the flags, exactly one question for the queried name (type A,
    class IN), one answer, and as its last 16 bytes an A record that points at
    the question (0xC00C) with TTL 5 and the sinkhole address. *)
Theorem sinkhole_reply query m q qs ip :
  parseQuery query = Ret m → m_questions m = q :: qs → length ip = 4%nat →
  ∃ resp, buildSinkholeA query ip = Ret (Some resp) ∧
    parseQuery resp = Ret (Msg (m_id m) (sinkhole_flags (m_flags m)) 1
      [Question (canonical_name (q_name q)) 1 1] resp) ∧
    be16 resp 6 = Ret 1 ∧
    drop (length resp - 16) resp = answer_record ip.
Proof.
  intros Hm Hq Hip. destruct (buildSinkholeA_Ret query m q qs ip Hm Hq) as (a0 & a1 & Hid & ->).
  pose proof (parseQuery_header _ _ Hm) as (_ & _ & _ & _ & _ & Hrange & Hqs).
  apply readQuestions_names in Hqs. rewrite Hq in Hqs.
  inversion Hqs as [|? ? (ls & Hname & Hls) _]; subst.
  assert (Hlen : Forall (λ l, String.length l ≤ 191)%nat (split_byte "." (q_name q))).
  { rewrite Hname. by apply split_join_length. }
  set (f := sinkhole_flags (m_flags m)). assert (Hf : 0 ≤ f < 65536) by (by apply flags_range).
  set (hdr := reply_header a0 a1 f). set (ls' := split_byte "." (q_name q)) in *.
  set (tl := [x00; x01; x00; x01] ++ answer_record ip).
  exists (hdr ++ encode_labels ls' ++ x00 :: tl). split; [done|].
  assert (Hname' := readName_encode ls' hdr tl Hlen).
  assert (Hbody : length (hdr ++ encode_labels ls' ++ x00 :: tl) =
    (12 + length (encode_labels ls') + 21)%nat).
  { unfold tl, answer_record. rewrite !length_app. simpl. rewrite Hip. lia. }
  split; [|split].
  - unfold parseQuery. rewrite decide_False by lia.
    change (be16 (hdr ++ _) 0) with (be16 [a0; a1] 0). rewrite Hid.
    change (be16 (hdr ++ _) 2) with (be16 (enc16 f) 0). rewrite (be16_pair f Hf).
    change (be16 (hdr ++ _) 4) with (Ret 1). cbn [mbind go_bind].
    change (Z.to_nat 1) with 1%nat. cbn [readQuestions]. change 12%nat with (length hdr).
    rewrite Hname'. cbn [mbind go_bind]. rewrite decide_False by (rewrite Hbody; simpl; lia).
    replace (hdr ++ encode_labels ls' ++ x00 :: tl)
      with ((hdr ++ encode_labels ls' ++ [x00]) ++ enc16 1 ++ enc16 1 ++ answer_record ip)
      by (by rewrite <- !app_assoc).
    replace (length hdr + (length (encode_labels ls') + 1))%nat
      with (length (hdr ++ encode_labels ls' ++ [x00])) by (rewrite !length_app; simpl; lia).
    rewrite be16_enc16 by lia. cbn [mbind go_bind].
    set (p := hdr ++ encode_labels ls' ++ [x00]).
    replace (p ++ enc16 1 ++ enc16 1 ++ answer_record ip)
      with ((p ++ enc16 1) ++ enc16 1 ++ answer_record ip) by (by rewrite <- app_assoc).
    replace (length p + 2)%nat with (length (p ++ enc16 1)) by (rewrite length_app; simpl; lia).
    by rewrite be16_enc16 by lia.
  - done.
  - set (p := hdr ++ encode_labels ls' ++ [x00; x00; x01; x00; x01]).
    replace (hdr ++ encode_labels ls' ++ x00 :: tl) with (p ++ answer_record ip)
      by (unfold p, tl; by rewrite <- !app_assoc).
    apply drop_app_length'. rewrite length_app. unfold answer_record. simpl. lia.
Qed.

(** An NXDOMAIN response is the query with QR, RA and RCODE 3 set in its
    flags and its answer, authority and additional counts zeroed: every other
    byte, the question section included, is unchanged. *)
Theorem nxdomain_reply query f :
  (12 ≤ length query)%nat → be16 query 2 = Ret f →
  buildNXDomain query = Ret (Some (take 2 query ++ enc16 (nxdomain_flags f) ++
    take 2 (drop 4 query) ++ replicate 6 x00 ++ drop 12 query)).
Proof.
  intros Hlen Hf. destruct (header_split query Hlen) as (a0&a1&a2&a3&a4&a5&a6&a7&a8&a9&a10&a11&r&->).
  unfold buildNXDomain. rewrite decide_False by lia. by rewrite Hf.
Qed.

Lemma buildServFail_no_panic query : no_panic (buildServFail query).
Proof.
  unfold buildServFail. case_decide; [done|].
  destruct (header_split query) as (a0&a1&a2&a3&a4&a5&a6&a7&a8&a9&a10&a11&r&->); [lia|done].
Qed.

(** A SERVFAIL response is a bare 12-byte header: the query's id, QR and
    RCODE 2 in the flags, and four zero counts, so [parseQuery] reads a
    message without questions from it. *)
Theorem servfail_reply query f :
  (12 ≤ length query)%nat → be16 query 2 = Ret f →
  ∃ resp id, buildServFail query = Ret (Some resp) ∧ be16 query 0 = Ret id ∧
    parseQuery resp = Ret (Msg id (servfail_flags f) 0 [] resp).
Proof.
  intros Hlen Hf. destruct (header_split query Hlen) as (a0&a1&a2&a3&a4&a5&a6&a7&a8&a9&a10&a11&r&->).
  unfold buildServFail. rewrite decide_False by lia. rewrite slice_Ret by (simpl; lia). rewrite Hf.
  pose proof (be16_range _ _ _ Hf) as Hr.
  eexists _, _. split; [reflexivity|]. split; [reflexivity|].
  fold (servfail_flags f). set (g := servfail_flags f). assert (Hg : 0 ≤ g < 65536) by (by apply flags_range).
  unfold parseQuery. cbn [mbind go_bind]. rewrite decide_False by (simpl; lia).
  change (be16 (take 4 _ ++ _) 2) with (be16 (enc16 g) 0).
  change (be16 (take 4 _ ++ _) 4) with (Ret 0).
  change (be16 (take 4 _ ++ _) 0) with (Ret (b2z a0 * 256 + b2z a1)).
  by rewrite (be16_pair g Hg).
Qed.

Lemma buildNXDomain_no_panic b : no_panic (buildNXDomain b).
Proof.
  unfold buildNXDomain. case_decide; [done|].
  destruct (header_split b) as (a0&a1&a2&a3&a4&a5&a6&a7&a8&a9&a10&a11&r&->); [lia|done].
Qed.

Lemma buildSinkholeA_no_panic b ip : no_panic (buildSinkholeA b ip).
Proof.
  unfold buildSinkholeA. case_decide; [apply buildNXDomain_no_panic|].
  pose proof (parseQuery_no_panic_aux b) as Hp. pose proof (buildNXDomain_no_panic b) as Hnx.
  destruct (parseQuery b) as [m|e| |] eqn:Hm; try done.
  destruct (m_questions m) as [|q qs] eqn:Hq; [done|].
  destruct (buildSinkholeA_Ret b m q qs ip Hm Hq) as (a0 & a1 & _ & Heq).
  unfold buildSinkholeA in Heq. rewrite decide_False, Hm, Hq in Heq by done. by rewrite Heq.
Qed.
#[export] Hint Resolve buildSinkholeA_no_panic : go.

(** None of the message functions can panic, whatever bytes a client
    sends: not the parser, not the three response builders. *)
Theorem wire_no_panic b ip :
  no_panic (parseQuery b) ∧ no_panic (buildNXDomain b) ∧ no_panic (buildServFail b) ∧
  no_panic (buildSinkholeA b ip).
Proof.
  auto using parseQuery_no_panic_aux, buildNXDomain_no_panic, buildServFail_no_panic, buildSinkholeA_no_panic.
Qed.

(** ** Concrete instances: an A query for "x.bad" *)

Definition sample : bytes :=
  map z2b [1; 2; 1; 0; 0; 1; 0; 0; 0; 0; 0; 0; 1; 120; 3; 98; 97; 100; 0; 0; 1; 0; 1].

Lemma sinkhole_reply_witness :
  ∃ resp, buildSinkholeA sample SinkholeIP = Ret (Some resp) ∧ be16 resp 6 = Ret 1.
Proof.
  destruct (sinkhole_reply sample (Msg 258 256 1 [Question "x.bad" 1 1] sample) (Question "x.bad" 1 1) [] SinkholeIP)
    as (resp & H & _ & Ha & _); [by vm_compute|done|done|]. exact (ex_intro _ resp (conj H Ha)).
Defined.

Lemma servfail_reply_witness :
  ∃ resp id, buildServFail sample = Ret (Some resp) ∧ parseQuery resp = Ret (Msg id (servfail_flags 256) 0 [] resp).
Proof.
  destruct (servfail_reply sample 256) as (resp & id & H & _ & Hp); [simpl; lia|done|].
  exact (ex_intro _ resp (ex_intro _ id (conj H Hp))).
Defined.
