(* ===== verification/Blocklist.v ===== *)
(** [internal/dns/blocklist.go] and [internal/dns/nrd_blocklist.go]: the
    bloom-gated domain blocklist, its loader, and the newly-registered-domain
    list. *)
From stdpp Require Import gmap.
From S2P Require Import Prelude GoString.

Local Open Scope Z_scope.

(** ** FNV-1a, 64 bits ([hash/fnv.New64a]) *)

Definition fnv_offset : Z := 14695981039346656037.
Definition fnv_prime : Z := 1099511628211.

Definition fnv_write (h : Z) (s : bytes) : Z :=
  fold_left (λ h c, w64 (Z.lxor h (b2z c) * fnv_prime)) s h.

(** ** Bloom filter

    [bits] is the slice of 64-bit words; a word that was never written is 0
    (as [make] leaves it), so absent keys of the map stand for 0. *)
Record bloomFilter := Bloom { bf_bits : gmap Z Z; bf_m : Z; bf_k : Z }.

Definition bloomBits : Z := 28755176.
Definition bloomHashFuncs : Z := 10.

Definition newBloom (bits k : Z) : bloomFilter := Bloom ∅ bits k.

Definition word (bf : bloomFilter) (i : Z) : Z := default 0 (bf_bits bf !! i).

Definition hashes (s : string) : Z * Z :=
  let h1 := fnv_write fnv_offset (to_bytes s) in
  let h2 := fnv_write (fnv_write fnv_offset [x5a]) (to_bytes s) in
  (h1, h2).

(** [idx := (h1 + i*h2) % bf.m], in 64-bit arithmetic. *)
Definition bit_index (bf : bloomFilter) (h1 h2 i : Z) : Z := w64 (h1 + w64 (i * h2)) mod bf_m bf.

Definition set_bit (bf : bloomFilter) (j : Z) : bloomFilter :=
  Bloom (<[j / 64 := Z.lor (word bf (j / 64)) (Z.shiftl 1 (j mod 64))]> (bf_bits bf)) (bf_m bf) (bf_k bf).

Fixpoint add_loop (n : nat) (i : Z) (h1 h2 : Z) (bf : bloomFilter) : bloomFilter :=
  match n with
  | O => bf
  | S n => add_loop n (i + 1) h1 h2 (set_bit bf (bit_index bf h1 h2 i))
  end.

Definition bloom_add (bf : bloomFilter) (s : string) : bloomFilter :=
  let '(h1, h2) := hashes s in add_loop (Z.to_nat (bf_k bf)) 0 h1 h2 bf.

Definition get_bit (bf : bloomFilter) (j : Z) : bool :=
  negb (bool_decide (Z.land (word bf (j / 64)) (Z.shiftl 1 (j mod 64)) = 0)).

Fixpoint test_loop (n : nat) (i : Z) (h1 h2 : Z) (bf : bloomFilter) : bool :=
  match n with
  | O => true
  | S n => if negb (get_bit bf (bit_index bf h1 h2 i)) then false else test_loop n (i + 1) h1 h2 bf
  end.

Definition maybeContains (bf : bloomFilter) (s : string) : bool :=
  let '(h1, h2) := hashes s in test_loop (Z.to_nat (bf_k bf)) 0 h1 h2 bf.

(** ** No false negatives *)

Lemma land_shiftl_testbit w n :
  0 ≤ n → (Z.land w (Z.shiftl 1 n) = 0 ↔ Z.testbit w n = false).
Proof.
  intros Hn. split; intros H.
  - assert (Z.testbit (Z.land w (Z.shiftl 1 n)) n = false) as Hb by (rewrite H; apply Z.testbit_0_l).
    rewrite Z.land_spec, Z.shiftl_spec, Z.sub_diag in Hb by done. by rewrite andb_true_r in Hb.
  - apply Z.bits_inj'. intros m Hm. rewrite Z.land_spec, Z.testbit_0_l.
    destruct (decide (m = n)) as [->|Hne]; [by rewrite H|].
    rewrite Z.shiftl_spec by done. destruct (decide (m < n)).
    + rewrite (Z.testbit_neg_r 1 (m - n)) by lia. apply andb_false_r.
    + rewrite (Z.bits_above_log2 1 (m - n)) by (simpl; lia). apply andb_false_r.
Qed.

Lemma get_bit_spec bf j : get_bit bf j = Z.testbit (word bf (j / 64)) (j mod 64).
Proof.
  unfold get_bit. pose proof (Z.mod_pos_bound j 64).
  pose proof (land_shiftl_testbit (word bf (j / 64)) (j mod 64) ltac:(lia)).
  destruct (Z.testbit _ _) eqn:E; case_bool_decide; intuition congruence.
Qed.

Lemma get_set_bit bf j l : get_bit (set_bit bf j) l = bool_decide (l = j) || get_bit bf l.
Proof.
  rewrite !get_bit_spec. unfold set_bit, word at 1. simpl.
  pose proof (Z.mod_pos_bound l 64). pose proof (Z.mod_pos_bound j 64).
  pose proof (Z.div_mod l 64). pose proof (Z.div_mod j 64).
  destruct (decide (l / 64 = j / 64)) as [Hd|Hd].
  - rewrite Hd, lookup_insert_eq. simpl. rewrite Z.lor_spec, orb_comm, Z.shiftl_spec by lia.
    f_equal. case_bool_decide as Hl.
    + subst. by rewrite Z.sub_diag.
    + destruct (decide (l mod 64 < j mod 64)).
      * apply Z.testbit_neg_r. lia.
      * apply Z.bits_above_log2; [lia|]. simpl. lia.
  - rewrite lookup_insert_ne by congruence. rewrite bool_decide_false by congruence. done.
Qed.

Lemma set_bit_shape bf j : bf_m (set_bit bf j) = bf_m bf ∧ bf_k (set_bit bf j) = bf_k bf.
Proof. done. Qed.

Lemma add_loop_shape n i h1 h2 bf :
  bf_m (add_loop n i h1 h2 bf) = bf_m bf ∧ bf_k (add_loop n i h1 h2 bf) = bf_k bf.
Proof. revert i bf. induction n; intros i bf; simpl; [done|]. by rewrite !(proj1 (IHn _ _)), !(proj2 (IHn _ _)). Qed.

Lemma add_loop_mono n i h1 h2 bf l :
  get_bit bf l = true → get_bit (add_loop n i h1 h2 bf) l = true.
Proof.
  revert i bf. induction n; intros i bf Hl; simpl; [done|].
  apply IHn. by rewrite get_set_bit, Hl, orb_true_r.
Qed.

Lemma test_loop_spec n i h1 h2 bf :
  test_loop n i h1 h2 bf = true ↔
  ∀ d, 0 ≤ d < Z.of_nat n → get_bit bf (bit_index bf h1 h2 (i + d)) = true.
Proof.
  revert i. induction n as [|n IH]; intros i; simpl.
  - split; [lia|done].
  - destruct (get_bit bf (bit_index bf h1 h2 i)) eqn:E; simpl.
    + rewrite IH. split; intros H d Hd.
      * destruct (decide (d = 0)) as [->|]; [by rewrite Z.add_0_r|].
        replace (i + d) with (i + 1 + (d - 1)) by lia. apply H. lia.
      * replace (i + 1 + d) with (i + (d + 1)) by lia. apply H. lia.
    + split; [done|]. intros H. specialize (H 0 ltac:(lia)). rewrite Z.add_0_r in H. congruence.
Qed.

Lemma add_loop_test n i h1 h2 bf d :
  0 ≤ d < Z.of_nat n → get_bit (add_loop n i h1 h2 bf) (bit_index bf h1 h2 (i + d)) = true.
Proof.
  revert i bf d. induction n as [|n IH]; intros i bf d Hd; simpl; [lia|].
  destruct (decide (d = 0)) as [->|].
  - rewrite Z.add_0_r. apply add_loop_mono. by rewrite get_set_bit, bool_decide_true.
  - replace (i + d) with (i + 1 + (d - 1)) by lia.
    exact (IH (i + 1) (set_bit bf (bit_index bf h1 h2 i)) (d - 1) ltac:(lia)).
Qed.

Lemma bloom_add_mono bf s t : maybeContains bf t = true → maybeContains (bloom_add bf s) t = true.
Proof.
  unfold maybeContains, bloom_add. destruct (hashes s) as [h1 h2], (hashes t) as [g1 g2].
  destruct (add_loop_shape (Z.to_nat (bf_k bf)) 0 h1 h2 bf) as [Hm Hk]. rewrite Hk.
  rewrite !test_loop_spec. intros H d Hd. unfold bit_index. rewrite Hm.
  apply add_loop_mono. by apply H.
Qed.

Lemma bloom_add_contains bf s : maybeContains (bloom_add bf s) s = true.
Proof.
  unfold maybeContains, bloom_add. destruct (hashes s) as [h1 h2].
  destruct (add_loop_shape (Z.to_nat (bf_k bf)) 0 h1 h2 bf) as [Hm Hk]. rewrite Hk.
  rewrite test_loop_spec. intros d Hd. unfold bit_index at 1. rewrite Hm.
  by apply (add_loop_test (Z.to_nat (bf_k bf)) 0 h1 h2 bf d).
Qed.
#[export] Hint Resolve bloom_add_contains bloom_add_mono : go.

(** The bloom filter has no false negatives: a string added at any point
    of a sequence of additions is reported as possibly present at the end,
    whatever the size and the number of hash functions of the filter. *)
Theorem bloom_no_false_negatives bits k ss s :
  In s ss → maybeContains (fold_left bloom_add ss (newBloom bits k)) s = true.
Proof.
  generalize (newBloom bits k). induction ss as [|t ss IH]; intros bf; [done|].
  intros [->|Hin]; simpl; [|by apply IH].
  assert (∀ l bf, maybeContains bf s = true → maybeContains (fold_left bloom_add l bf) s = true) as Hmono.
  { clear. induction l; simpl; auto with go. }
  apply Hmono. auto with go.
Qed.

(** ** Category priorities *)

Definition categoryPriority : list (string * Z) :=
  [("malware", 1); ("phishing", 2); ("scam", 3); ("ransomware", 4); ("cryptojacking", 5);
   ("fake_banking", 6); ("newly_registered", 7);
   ("gambling", 20); ("adult", 21); ("social_media", 22); ("games", 23); ("entertainment", 24);
   ("browsing", 25);
   ("ads", 50); ("tracking", 51); ("telemetry", 52); ("doh_bypass", 53)]%string.

Definition assoc {A} (l : list (string * A)) (k : string) : option A :=
  snd <$> List.find (λ p, String.eqb p.1 k) l.

Definition priorityOf (cat : string) : Z := default (Z.shiftl 1 30) (assoc categoryPriority cat).

(** ** The blocklist *)

Record Blocklist := MkBlocklist {
  domains : gset string;
  catDomains : gmap string (gset string);
  domainCategory : gmap string string;
  bloom : bloomFilter;
}.

Definition NewBlocklist : Blocklist := MkBlocklist ∅ ∅ ∅ (newBloom bloomBits bloomHashFuncs).

(** ** The parent walk

    [for { probe(d); dot := Index(d, "."); if dot < 0 { return }; d = d[dot+1:] }] *)
Fixpoint walk {A} (probe : string → option A) (fuel : nat) (d : string) : option A :=
  match fuel with
  | O => None
  | S n =>
      match probe d with
      | Some a => Some a
      | None => match after_byte "." d with None => None | Some d' => walk probe n d' end
      end
  end.

Definition parent_walk {A} (probe : string → option A) (d : string) : option A :=
  walk probe (S (String.length d)) d.

(** The labels suffixes the walk visits: [d] and what follows each dot. *)
Inductive parent : string → string → Prop :=
| parent_self d : parent d d
| parent_up d d' p : after_byte "." d = Some d' → parent d' p → parent d p.

Lemma walk_None {A} (probe : string → option A) n d :
  (String.length d < n)%nat → walk probe n d = None ↔ ∀ p, parent d p → probe p = None.
Proof.
  revert d. induction n as [|n IH]; intros d Hn; [lia|]. simpl. split.
  - destruct (probe d) eqn:E; [done|]. intros Hw p Hp. inversion Hp as [|? d' ? Hd' Hp']; subst; [done|].
    rewrite Hd' in Hw. apply after_byte_length in Hd' as Hl. apply (IH d'); [lia|done|done].
  - intros H. rewrite H by constructor. destruct (after_byte "." d) as [d'|] eqn:E; [|done].
    apply after_byte_length in E as Hl. apply IH; [lia|]. intros p Hp. apply H. by econstructor.
Qed.

(** Nothing found on the walk exactly when no visited suffix is a hit. *)
Lemma parent_walk_None {A} (probe : string → option A) d :
  parent_walk probe d = None ↔ ∀ p, parent d p → probe p = None.
Proof. apply walk_None. lia. Qed.

Lemma parent_walk_Some {A} (probe : string → option A) d a :
  parent_walk probe d = Some a → ∃ p, parent d p ∧ probe p = Some a.
Proof.
  unfold parent_walk. generalize (S (String.length d)). intros n. revert d.
  induction n as [|n IH]; intros d; simpl; [done|].
  destruct (probe d) eqn:E; [intros [= ->]; eauto using parent|].
  destruct (after_byte "." d) as [d'|] eqn:E'; [|done]. intros (p & Hp & Ha)%IH. eauto using parent.
Qed.

Lemma parent_walk_ext {A} (f g : string → option A) d :
  (∀ p, f p = g p) → parent_walk f d = parent_walk g d.
Proof.
  intros Hfg. unfold parent_walk. generalize (S (String.length d)). intros n. revert d.
  induction n as [|n IH]; intros d; simpl; [done|]. rewrite Hfg.
  destruct (g d); [done|]. destruct (after_byte "." d); [apply IH|done].
Qed.

Definition guard_hit (b : bool) : option unit := if b then Some tt else None.

Section Lookup.
Context `{U : UnicodeTables}.

(** [strings.ToLower(strings.TrimSuffix(domain, "."))] *)
Definition norm_domain (domain : string) : string := to_lower (trim_suffix domain ".").

Definition IsBlocked (b : Blocklist) (domain : string) : bool :=
  let domain := norm_domain domain in
  if bool_decide (domain = ""%string) then false else
  match parent_walk (λ d,
    if maybeContains (bloom b) d then guard_hit (bool_decide (d ∈ domains b)) else None) domain with
  | Some _ => true
  | None => false
  end.

(** [for cat, domains := range b.catDomains { if !wantCat continue; if blocked return true }] *)
Definition cat_hit (b : Blocklist) (catSet : gset string) (d : string) : bool :=
  existsb (λ p : string * gset string, bool_decide (p.1 ∈ catSet) && bool_decide (d ∈ p.2))
    (map_to_list (catDomains b)).

Definition IsBlockedForCategories (b : Blocklist) (domain : string) (cats : list string) : bool :=
  if bool_decide (length cats = 0%nat) then false else
  let domain := norm_domain domain in
  if bool_decide (domain = ""%string) then false else
  let catSet : gset string := list_to_set (map to_lower cats) in
  match parent_walk (λ d,
    if maybeContains (bloom b) d then guard_hit (cat_hit b catSet d) else None) domain with
  | Some _ => true
  | None => false
  end.

Definition CategoryFor (b : Blocklist) (domain : string) : string :=
  let domain := norm_domain domain in
  if bool_decide (domain = ""%string) then "" else
  default ""%string (parent_walk (λ d,
    if maybeContains (bloom b) d then domainCategory b !! d else None) domain).

(** One iteration of the row loop of [Load]; [None] is a row whose [Scan]
    fails. *)
Definition load_row (b : Blocklist) (row : option (string * string)) : Blocklist :=
  match row with
  | None => b
  | Some (d, cat) =>
      let d := norm_domain d in
      if bool_decide (d = ""%string) then b else
      let cat := to_lower cat in
      let ds := default ∅ (catDomains b !! cat) in
      MkBlocklist
        ({[d]} ∪ domains b)
        (<[cat := {[d]} ∪ ds]> (catDomains b))
        (match domainCategory b !! d with
         | Some existing =>
             if bool_decide (priorityOf cat < priorityOf existing)
             then <[d := cat]> (domainCategory b) else domainCategory b
         | None => <[d := cat]> (domainCategory b)
         end)
        (bloom_add (bloom b) d)
  end.

(** [Load]: [query] is the result of the SELECT, [rows_err] of [rows.Err()].
    On an error the blocklist in use is kept. *)
Definition Load (b : Blocklist) (query : go (list (option (string * string))))
    (rows_err : option string) : Blocklist * option string :=
  match query with
  | Ret rows =>
      let fresh := fold_left load_row rows NewBlocklist in
      match rows_err with
      | Some e => (b, Some e)
      | None => (fresh, None)
      end
  | Err e => (b, Some e)
  | Panic | Loop => (b, None)
  end.
End Lookup.

Definition Size (b : Blocklist) : nat := size (domains b).
Definition Categories (b : Blocklist) : list string := (map_to_list (catDomains b)).*1.

(** ** The newly-registered-domain list *)

Section NRD.
Context `{U : UnicodeTables}.

Fixpoint nrd_walk (fuel : nat) (m : gset string) (current : string) : bool :=
  match fuel with
  | O => false
  | S n =>
      if bool_decide (current ∈ m) then true else
      match after_byte "." current with
      | None => false
      | Some next =>
          if negb (contains_byte "." next) then bool_decide (next ∈ m)
          else nrd_walk n m next
      end
  end.

Definition IsNRD (m : gset string) (domain : string) : bool :=
  let domain := norm_domain domain in
  if bool_decide (domain = ""%string) then false else
  if bool_decide (size m = 0%nat) then false else
  nrd_walk (S (String.length domain)) m domain.
End NRD.

(** [NRDBlocklist.Reload]: unlike [Load], a row whose [Scan] fails aborts the
    reload; on any error the list in use is kept. *)
Definition nrd_reload (current : gset string) (query : go (list (option string)))
    (rows_err : option string) : gset string * option string :=
  match query with
  | Ret rows =>
      match mapM id rows with
      | None => (current, Some "scan"%string)
      | Some ds =>
          match rows_err with
          | Some e => (current, Some e)
          | None => (list_to_set ds, None)
          end
      end
  | Err e => (current, Some e)
  | Panic | Loop => (current, None)
  end.

(** ** What a load establishes *)

Section LoadSpec.
Context `{U : UnicodeTables}.
Implicit Types (rows : list (option (string * string))) (b : Blocklist).

(** The scanned rows list [d] (a normalised, non-empty domain) under [cat]. *)
Definition listed rows (d cat : string) : Prop :=
  d ≠ ""%string ∧ ∃ d0 c0, Some (d0, c0) ∈ rows ∧ norm_domain d0 = d ∧ to_lower c0 = cat.

(** The in-memory indexes agree with the rows. *)
Record loaded rows b : Prop := {
  ld_domains : ∀ d, d ∈ domains b ↔ ∃ cat, listed rows d cat;
  ld_cats : ∀ d cat, d ∈ default ∅ (catDomains b !! cat) ↔ listed rows d cat;
  ld_category : ∀ d c, domainCategory b !! d = Some c →
    listed rows d c ∧ ∀ c', listed rows d c' → priorityOf c ≤ priorityOf c';
  ld_category_some : ∀ d cat, listed rows d cat → is_Some (domainCategory b !! d);
  ld_bloom : ∀ d, d ∈ domains b → maybeContains (bloom b) d = true;
}.

Lemma listed_snoc rows row d cat :
  listed (rows ++ [row]) d cat ↔
  listed rows d cat ∨
  (d ≠ ""%string ∧ ∃ d0 c0, row = Some (d0, c0) ∧ norm_domain d0 = d ∧ to_lower c0 = cat).
Proof.
  unfold listed. setoid_rewrite elem_of_app. setoid_rewrite list_elem_of_singleton.
  naive_solver.
Qed.

Lemma listed_nil d cat : ¬ listed [] d cat.
Proof. intros (_ & d0 & c0 & Hin & _). by apply elem_of_nil in Hin. Qed.

Lemma loaded_nil : loaded [] NewBlocklist.
Proof.
  split; simpl.
  - intros d. split; [set_solver|]. by intros [cat ?%listed_nil].
  - intros d cat. rewrite lookup_empty. simpl. split; [set_solver|]. by intros ?%listed_nil.
  - intros d c. by rewrite lookup_empty.
  - by intros d cat ?%listed_nil.
  - set_solver.
Qed.

Lemma loaded_ext rows rows' b :
  (∀ d c, listed rows' d c ↔ listed rows d c) → loaded rows b → loaded rows' b.
Proof.
  intros He [H1 H2 H3 H4 H5]. split; try done.
  - intros d. rewrite H1. by setoid_rewrite He.
  - intros d cat. by rewrite H2, He.
  - intros d c Hc. rewrite He. destruct (H3 d c Hc). split; [done|].
    intros c'. rewrite He. auto.
  - intros d cat. rewrite He. eauto.
Qed.

Lemma loaded_snoc rows b row : loaded rows b → loaded (rows ++ [row]) (load_row b row).
Proof.
  intros [H1 H2 H3 H4 H5]. destruct row as [[d0 c0]|]; simpl.
  2:{ apply (loaded_ext rows); [|done]. intros d c. rewrite listed_snoc. naive_solver. }
  case_bool_decide as Hne.
  { apply (loaded_ext rows); [|done]. intros d c. rewrite listed_snoc. naive_solver. }
  split; simpl.
  - intros d. rewrite elem_of_union, elem_of_singleton, H1. setoid_rewrite listed_snoc. naive_solver.
  - intros d cat. rewrite listed_snoc.
    destruct (decide (cat = to_lower c0)) as [->|Hc].
    + rewrite lookup_insert_eq. simpl. rewrite elem_of_union, elem_of_singleton, H2. naive_solver.
    + rewrite lookup_insert_ne by done. rewrite H2. naive_solver.
  - intros d c. setoid_rewrite listed_snoc. destruct (decide (d = norm_domain d0)) as [->|Hd].
    + destruct (domainCategory b !! norm_domain d0) as [e|] eqn:E.
      * destruct (H3 _ _ E) as [He Hmin]. case_bool_decide as Hlt.
        -- rewrite lookup_insert_eq. intros [= <-]. split; [naive_solver|].
           intros c' [Hc'%Hmin|(_ & ? & ? & [= <- <-] & _ & <-)]; lia.
        -- rewrite E. intros [= <-]. split; [naive_solver|].
           intros c' [Hc'%Hmin|(_ & ? & ? & [= <- <-] & _ & <-)]; lia.
      * rewrite lookup_insert_eq. intros [= <-]. split; [naive_solver|].
        intros c' [Hc'%H4|(_ & ? & ? & [= <- <-] & _ & <-)]; [|lia].
        rewrite E in Hc'. by destruct Hc'.
    + intros Hl. assert (domainCategory b !! d = Some c) as Hl'.
      { destruct (domainCategory b !! norm_domain d0); [case_bool_decide|];
          by rewrite ?lookup_insert_ne in Hl by done. }
      destruct (H3 _ _ Hl') as [He Hmin]. split; [naive_solver|].
      intros c' [Hc'%Hmin|(_ & ? & ? & [= <- <-] & ? & <-)]; [lia|congruence].
  - intros d cat. rewrite listed_snoc. intros Hl.
    destruct (decide (d = norm_domain d0)) as [->|Hd].
    + destruct (domainCategory b !! norm_domain d0) eqn:E; [case_bool_decide|];
        rewrite ?lookup_insert_eq, ?E; eauto.
    + assert (is_Some (domainCategory b !! d)) as Hs by naive_solver.
      destruct (domainCategory b !! norm_domain d0); [case_bool_decide|];
        by rewrite ?lookup_insert_ne by done.
  - intros d. rewrite elem_of_union, elem_of_singleton. intros [->|Hd]; auto with go.
Qed.

Lemma loaded_rows rows : loaded rows (fold_left load_row rows NewBlocklist).
Proof.
  induction rows as [|row rows IH] using rev_ind; [apply loaded_nil|].
  rewrite fold_left_app. by apply loaded_snoc.
Qed.

(** The bloom gate never hides a domain of the list. *)
Lemma gated_domains rows b p : loaded rows b →
  (if maybeContains (bloom b) p then guard_hit (bool_decide (p ∈ domains b)) else None) =
  guard_hit (bool_decide (p ∈ domains b)).
Proof.
  intros Hb. destruct (maybeContains (bloom b) p) eqn:E; [done|].
  rewrite bool_decide_false; [done|]. intros Hp. apply (ld_bloom _ _ Hb) in Hp. congruence.
Qed.

Lemma gated_category rows b p : loaded rows b →
  (if maybeContains (bloom b) p then domainCategory b !! p else None) = domainCategory b !! p.
Proof.
  intros Hb. destruct (maybeContains (bloom b) p) eqn:E; [done|].
  destruct (domainCategory b !! p) as [c|] eqn:Ec; [|done].
  destruct (ld_category _ _ Hb _ _ Ec) as [Hl _].
  assert (p ∈ domains b) as Hp by (apply (ld_domains _ _ Hb); eauto).
  apply (ld_bloom _ _ Hb) in Hp. congruence.
Qed.

Lemma cat_hit_spec rows b catSet p : loaded rows b →
  cat_hit b catSet p = true ↔ ∃ cat, cat ∈ catSet ∧ listed rows p cat.
Proof.
  intros Hb. unfold cat_hit. rewrite existsb_exists. split.
  - intros ([cat ds] & Hin & Hh). apply andb_true_iff in Hh as [Hc Hd].
    apply bool_decide_eq_true in Hc, Hd. exists cat. split; [done|].
    apply list_elem_of_In, elem_of_map_to_list in Hin.
    apply (ld_cats _ _ Hb). by rewrite Hin.
  - intros (cat & Hc & Hl). apply (ld_cats _ _ Hb) in Hl.
    destruct (catDomains b !! cat) as [ds|] eqn:E; [|set_solver]. simpl in Hl. exists (cat, ds). split.
    + by apply list_elem_of_In, elem_of_map_to_list.
    + apply andb_true_iff. rewrite !bool_decide_eq_true. done.
Qed.

Lemma gated_cat_hit rows b catSet p : loaded rows b →
  (if maybeContains (bloom b) p then guard_hit (cat_hit b catSet p) else None) =
  guard_hit (cat_hit b catSet p).
Proof.
  intros Hb. destruct (maybeContains (bloom b) p) eqn:E; [done|].
  destruct (cat_hit b catSet p) eqn:Eh; [|done].
  apply (cat_hit_spec rows) in Eh as (cat & _ & Hl); [|done].
  assert (p ∈ domains b) as Hp by (apply (ld_domains _ _ Hb); eauto).
  apply (ld_bloom _ _ Hb) in Hp. congruence.
Qed.
End LoadSpec.

(** ** The lookups refine the row semantics *)

Section Refinement.
Context `{U : UnicodeTables}.
Implicit Types (rows : list (option (string * string))).

Lemma guard_hit_Some (b : bool) : guard_hit b = None ↔ b = false.
Proof. by destruct b. Qed.

Lemma walk_exists (f : string → bool) d :
  match parent_walk (λ p, guard_hit (f p)) d with Some _ => true | None => false end = true ↔
  ∃ p, parent d p ∧ f p = true.
Proof.
  destruct (parent_walk _ d) as [[]|] eqn:E; split; try done.
  - intros _. apply parent_walk_Some in E as (p & Hp & Hf). exists p. split; [done|].
    by destruct (f p).
  - intros (p & Hp & Hf). rewrite parent_walk_None in E. specialize (E p Hp). by rewrite Hf in E.
Qed.

Lemma IsBlocked_loaded rows b domain : loaded rows b →
  IsBlocked b domain = true ↔
  norm_domain domain ≠ ""%string ∧
  ∃ p cat, parent (norm_domain domain) p ∧ listed rows p cat.
Proof.
  intros Hb. unfold IsBlocked. case_bool_decide as Hne; [naive_solver|].
  rewrite (parent_walk_ext _ (λ p, guard_hit (bool_decide (p ∈ domains b)))) by (intros; by apply (gated_domains rows)).
  rewrite walk_exists. setoid_rewrite bool_decide_eq_true. setoid_rewrite (ld_domains _ _ Hb).
  naive_solver.
Qed.

(** C23. [IsBlocked] after a load means exactly what the rows say: a domain is
    blocked when it is non-empty and it or one of its parent domains
    (case-folded, one trailing dot removed) is a domain of some scanned row.
    The bloom filter in front of the map changes no answer. *)
Theorem IsBlocked_spec old rows domain :
  let b := fst (Load old (Ret rows) None) in
  IsBlocked b domain = true ↔
  norm_domain domain ≠ ""%string ∧
  ∃ p cat, parent (norm_domain domain) p ∧ listed rows p cat.
Proof.
  apply IsBlocked_loaded, loaded_rows.
Qed.

(** Category blocking after a load: a domain is blocked for a list of
    categories exactly when it or a parent is listed by a row whose category,
    case-folded, is one of them.  In particular an empty list blocks
    nothing, and whatever is blocked for categories is blocked outright. *)
Theorem IsBlockedForCategories_spec old rows domain cats :
  let b := fst (Load old (Ret rows) None) in
  (IsBlockedForCategories b domain cats = true ↔
   norm_domain domain ≠ ""%string ∧
   ∃ p cat, parent (norm_domain domain) p ∧ cat ∈ map to_lower cats ∧ listed rows p cat) ∧
  (IsBlockedForCategories b domain cats = true → IsBlocked b domain = true).
Proof.
  simpl. pose proof (loaded_rows rows) as Hb.
  assert (Hspec : IsBlockedForCategories (fold_left load_row rows NewBlocklist) domain cats = true ↔
    norm_domain domain ≠ ""%string ∧
    ∃ p cat, parent (norm_domain domain) p ∧ cat ∈ map to_lower cats ∧ listed rows p cat).
  { set (b := fold_left load_row rows NewBlocklist) in *. unfold IsBlockedForCategories.
    case_bool_decide as Hlen.
    { destruct cats; [|done]. split; [done|]. intros (_ & p & c & _ & Hc & _). by apply elem_of_nil in Hc. }
    case_bool_decide as Hne; [naive_solver|].
    set (cs := list_to_set (map to_lower cats)).
    rewrite (parent_walk_ext _ (λ p, guard_hit (cat_hit b cs p))) by (intros; by apply (gated_cat_hit rows)).
    rewrite walk_exists. setoid_rewrite (cat_hit_spec rows b cs); [|done]. unfold cs.
    setoid_rewrite elem_of_list_to_set. naive_solver. }
  split; [exact Hspec|]. rewrite Hspec. intros (Hne & p & cat & Hp & _ & Hl).
  apply (IsBlocked_loaded rows); [done|]. split; [done|]. eauto.
Qed.

Lemma CategoryFor_gated rows b domain : loaded rows b →
  CategoryFor b domain = if bool_decide (norm_domain domain = ""%string) then ""%string
    else default ""%string (parent_walk (λ p, domainCategory b !! p) (norm_domain domain)).
Proof.
  intros Hb. unfold CategoryFor. case_bool_decide; [done|]. f_equal.
  apply parent_walk_ext. intros p. by apply (gated_category rows).
Qed.

Lemma CategoryFor_loaded rows b domain : loaded rows b → IsBlocked b domain = true →
  ∃ p, parent (norm_domain domain) p ∧ listed rows p (CategoryFor b domain) ∧
    ∀ c, listed rows p c → priorityOf (CategoryFor b domain) ≤ priorityOf c.
Proof.
  intros Hb (Hne & p & cat & Hp & Hl)%(IsBlocked_loaded rows); [|done].
  rewrite (CategoryFor_gated rows) by done. rewrite bool_decide_false by done.
  destruct (parent_walk _ _) as [c|] eqn:E; simpl.
  - apply parent_walk_Some in E as (p' & Hp' & Hc). exists p'.
    destruct (ld_category _ _ Hb _ _ Hc). auto.
  - rewrite parent_walk_None in E. specialize (E p Hp).
    destruct (ld_category_some _ _ Hb _ _ Hl) as [? ?]. congruence.
Qed.

(** [CategoryFor] after a load reports a category of the domain or of
    one of its parents: some row lists that parent under it, and no row lists
    the same parent under a category of higher priority.  It is the empty
    string when the domain is not blocked. *)
Theorem CategoryFor_spec old rows domain :
  let b := fst (Load old (Ret rows) None) in
  (IsBlocked b domain = true →
   ∃ p, parent (norm_domain domain) p ∧ listed rows p (CategoryFor b domain) ∧
     ∀ c, listed rows p c → priorityOf (CategoryFor b domain) ≤ priorityOf c) ∧
  (IsBlocked b domain = false → CategoryFor b domain = ""%string).
Proof.
  simpl. pose proof (loaded_rows rows) as Hb. split; [by apply CategoryFor_loaded|].
  intros Hf. rewrite (CategoryFor_gated rows) by done. case_bool_decide as Hne; [done|].
  destruct (parent_walk _ _) as [c|] eqn:E; [|done]. exfalso.
  apply parent_walk_Some in E as (p & Hp & Hc).
  rewrite (proj2 (IsBlocked_loaded rows _ domain Hb)) in Hf; [done|]. split; [done|].
  exists p, c. split; [done|]. by apply (ld_category _ _ Hb).
Qed.

(** A failed load keeps the blocklist that was in use: a query error or
    an error reported after the rows changes nothing. *)
Theorem Load_error_keeps old query e rows_err :
  snd (Load old query rows_err) = Some e → fst (Load old query rows_err) = old.
Proof. unfold Load. destruct query; [destruct rows_err|..]; naive_solver. Qed.
End Refinement.

(** ** The NRD walk visits every suffix, the bare TLD included *)

Section NRDSpec.
Context `{U : UnicodeTables}.

Lemma nrd_walk_spec n m d : (String.length d < n)%nat →
  nrd_walk n m d = true ↔ ∃ p, parent d p ∧ p ∈ m.
Proof.
  revert d. induction n as [|n IH]; intros d Hn; [lia|]. simpl.
  case_bool_decide as Hd; [split; eauto using parent|].
  destruct (after_byte "." d) as [d'|] eqn:E.
  2:{ split; [done|]. intros (p & Hp & Hm). by inversion Hp; simplify_eq. }
  apply after_byte_length in E as Hl.
  assert (Hup : (∃ p, parent d p ∧ p ∈ m) ↔ ∃ p, parent d' p ∧ p ∈ m).
  { split; intros (p & Hp & Hm); [|eauto using parent].
    inversion Hp as [|? d'' ? E']; simplify_eq; [done|eauto]. }
  rewrite Hup. destruct (contains_byte "." d') eqn:Ec; simpl; [apply IH; lia|].
  rewrite bool_decide_eq_true. split; [eauto using parent|]. intros (p & Hp & Hm).
  inversion Hp as [|? d'' ? E']; simplify_eq; [done|].
  by rewrite after_byte_none in E'.
Qed.

(** The NRD list blocks a domain exactly when it is non-empty and the
    domain or any of its parents, the bare top-level label included, is an
    entry: a feed that lists "com" blocks every name under it. *)
Theorem IsNRD_spec m domain :
  IsNRD m domain = true ↔
  norm_domain domain ≠ ""%string ∧ ∃ p, parent (norm_domain domain) p ∧ p ∈ m.
Proof.
  unfold IsNRD. case_bool_decide as Hne; [naive_solver|]. case_bool_decide as Hs.
  - apply size_empty_inv in Hs. split; [done|]. set_solver.
  - rewrite nrd_walk_spec by lia. naive_solver.
Qed.
End NRDSpec.

(** ** Concrete instances *)

Lemma bloom_no_false_negatives_witness :
  maybeContains (fold_left bloom_add ["a.example"; "b.example"]%string (newBloom 640 3)) "a.example" = true.
Proof. apply bloom_no_false_negatives. by left. Defined.

Lemma Load_error_keeps_witness :
  fst (Load (U := ascii_tables) NewBlocklist (Ret [Some ("bad", "malware")]%string) (Some "I/O error"%string)) = NewBlocklist.
Proof. by apply (Load_error_keeps (U := ascii_tables) _ _ "I/O error"). Defined.
