(* ===== verification/EcsStrip.v ===== *)
(** [internal/dns/ecs_strip.go]: removal of the EDNS client-subnet option from
    outbound queries, on the bytes of the message. *)
From S2P Require Import Prelude.

Local Open Scope nat_scope.

Definition ednsOptCodeECS : Z := 8.
Definition errTruncated : string := "truncated DNS message".
Definition errBadLabel : string := "invalid label byte".

(** ** Walking over names and records *)

Fixpoint skipName_loop (fuel : nat) (msg : bytes) (offset : nat) : go nat :=
  match fuel with
  | O => Loop
  | S fuel =>
      if decide (length msg ≤ offset) then Err errTruncated else
      l ← idx msg offset;
      if bool_decide (b2z l = 0%Z) then Ret (offset + 1)
      else if bool_decide (Z.land (b2z l) 0xC0 = 0xC0%Z) then
        if decide (length msg < offset + 2) then Err errTruncated else Ret (offset + 2)
      else if bool_decide (Z.land (b2z l) 0xC0 ≠ 0%Z) then Err errBadLabel
      else skipName_loop fuel msg (offset + (1 + Z.to_nat (b2z l)))
  end.

(** Each iteration moves forward, so [S (length msg)] of them are enough. *)
Definition skipName (msg : bytes) (offset : nat) : go nat :=
  skipName_loop (S (length msg)) msg offset.

Definition skipRR (msg : bytes) (offset : nat) : go nat :=
  endn ← skipName msg offset;
  if decide (length msg < endn + 10) then Err errTruncated else
  rdLen ← be16 msg (endn + 8);
  let next := endn + 10 + Z.to_nat rdLen in
  if decide (length msg < next) then Err errTruncated else Ret next.

(** The loops of [StripECS] over the question, answer and authority sections;
    [None] is the early [return msg, false]. *)
Fixpoint skip_questions (n : nat) (msg : bytes) (offset : nat) : go (option nat) :=
  match n with
  | O => Ret (Some offset)
  | S n =>
      go_try (skipName msg offset)
        (λ nameEnd,
          let offset := nameEnd + 4 in
          if decide (length msg < offset) then Ret None else skip_questions n msg offset)
        (λ _, Ret None)
  end.

Fixpoint skip_rrs (n : nat) (msg : bytes) (offset : nat) : go (option nat) :=
  match n with
  | O => Ret (Some offset)
  | S n => go_try (skipRR msg offset) (λ next, skip_rrs n msg next) (λ _, Ret None)
  end.

(** ** stripOPTOption *)

(** The option walk: the kept byte ranges in order and whether the option was
    seen; [None] is the early [return msg, false]. *)
Fixpoint opt_walk (fuel : nat) (msg : bytes) (pos rdEnd : nat) (optCode : Z)
    (ranges : list (nat * nat)) (stripped : bool) : go (option (list (nat * nat) * bool)) :=
  match fuel with
  | O => Loop
  | S fuel =>
      if decide (pos < rdEnd) then
        if decide (rdEnd < pos + 4) then Ret None else
        code ← be16 msg pos;
        olen ← be16 msg (pos + 2);
        let nextPos := pos + 4 + Z.to_nat olen in
        if decide (rdEnd < nextPos) then Ret None else
        if bool_decide (code = optCode)
        then opt_walk fuel msg nextPos rdEnd optCode ranges true
        else opt_walk fuel msg nextPos rdEnd optCode (ranges ++ [(pos, nextPos)]) stripped
      else Ret (Some (ranges, stripped))
  end.

Fixpoint append_ranges (msg : bytes) (ranges : list (nat * nat)) (out : bytes) : go bytes :=
  match ranges with
  | [] => Ret out
  | (i, j) :: rs => s ← slice msg i j; append_ranges msg rs (out ++ s)
  end.

Definition stripOPTOption (msg : bytes) (rdStart rdEnd : nat) (optCode : Z) : go (bytes * bool) :=
  w ← opt_walk (S rdEnd) msg rdStart rdEnd optCode [] false;
  match w with
  | None => Ret (msg, false)
  | Some (ranges, stripped) =>
      if negb stripped then Ret (msg, false) else
      let keptLen := sum_list ((λ r, r.2 - r.1) <$> ranges) in
      out ← slice msg 0 rdStart;
      out ← append_ranges msg ranges out;
      tail ← slice msg rdEnd (length msg);
      out ← put16 (out ++ tail) (rdStart - 2) (w16 (Z.of_nat keptLen));
      Ret (out, true)
  end.

(** ** StripECS *)

Fixpoint walk_additional (n : nat) (msg : bytes) (offset : nat) : go (bytes * bool) :=
  match n with
  | O => Ret (msg, false)
  | S n =>
      go_try (skipName msg offset)
        (λ nameEnd,
          if decide (length msg < nameEnd + 10) then Ret (msg, false) else
          rrType ← be16 msg nameEnd;
          rdLen ← be16 msg (nameEnd + 8);
          let rdStart := nameEnd + 10 in
          let rdEnd := rdStart + Z.to_nat rdLen in
          if decide (length msg < rdEnd) then Ret (msg, false) else
          if bool_decide (rrType = 41%Z) then
            r ← stripOPTOption msg rdStart rdEnd ednsOptCodeECS;
            if r.2 : bool then Ret (r.1, true) else Ret (msg, false)
          else walk_additional n msg rdEnd)
        (λ _, Ret (msg, false))
  end.

Definition StripECS (msg : bytes) : go (bytes * bool) :=
  if decide (length msg < 12) then Ret (msg, false) else
  qdCount ← be16 msg 4;
  anCount ← be16 msg 6;
  nsCount ← be16 msg 8;
  arCount ← be16 msg 10;
  if bool_decide (arCount = 0%Z) then Ret (msg, false) else
  q ← skip_questions (Z.to_nat qdCount) msg 12;
  match q with
  | None => Ret (msg, false)
  | Some offset =>
      r ← skip_rrs (Z.to_nat (w16 (anCount + nsCount))) msg offset;
      match r with
      | None => Ret (msg, false)
      | Some offset => walk_additional (Z.to_nat arCount) msg offset
      end
  end.

(** ** Well-formed pieces of a message *)

(** The bytes of a name: labels of 1 to 63 bytes, closed by the root label or
    by a compression pointer. *)
Inductive wire_name : bytes → Prop :=
| wn_root : wire_name [x00]
| wn_pointer a b : Z.land (b2z a) 0xC0 = 0xC0%Z → wire_name [a; b]
| wn_label l s nm : (0 < b2z l < 64)%Z → length s = Z.to_nat (b2z l) →
    wire_name nm → wire_name (l :: s ++ nm).

(** A question is a name followed by type and class. *)
Definition wire_question (q : bytes) : Prop :=
  ∃ nm tc, q = nm ++ tc ∧ wire_name nm ∧ length tc = 4.

(** A record: name, type, class and TTL, length, data. *)
Definition rr (nm : bytes) (ty : Z) (ct data : bytes) : bytes :=
  nm ++ enc16 ty ++ ct ++ enc16 (Z.of_nat (length data)) ++ data.

Definition wire_rr (not_opt : bool) (r : bytes) : Prop :=
  ∃ nm ty ct data, r = rr nm ty ct data ∧ wire_name nm ∧ (0 ≤ ty < 65536)%Z ∧ length ct = 6 ∧
    (Z.of_nat (length data) < 65536)%Z ∧ (not_opt = true → ty ≠ 41%Z).

(** An option of the OPT record: code and data. *)
Definition opt_bytes (o : Z * bytes) : bytes :=
  enc16 o.1 ++ enc16 (Z.of_nat (length o.2)) ++ o.2.

Definition wire_opt (o : Z * bytes) : Prop :=
  (0 ≤ o.1 < 65536)%Z ∧ (Z.of_nat (length o.2) < 65536)%Z.

Definition keep_opt (o : Z * bytes) : bool := negb (bool_decide (o.1 = ednsOptCodeECS)).

(** ** The walks on well-formed pieces *)

Lemma be16_at (p s : bytes) v i :
  i = length p → (0 ≤ v < 65536)%Z → be16 (p ++ enc16 v ++ s) i = Ret v.
Proof. intros -> Hv. by apply be16_enc16. Qed.

Lemma be16_at' (m p s : bytes) v i :
  m = p ++ enc16 v ++ s → i = length p → (0 ≤ v < 65536)%Z → be16 m i = Ret v.
Proof. intros -> -> Hv. by apply be16_enc16. Qed.

Lemma land_c0_small l : (0 ≤ l < 64)%Z → Z.land l 0xC0 = 0%Z.
Proof.
  intros Hl. apply Z.bits_inj'. intros n Hn. rewrite Z.land_spec, Z.testbit_0_l.
  destruct (decide (n < 6)%Z).
  - replace (Z.testbit 0xC0 n) with false; [apply andb_false_r|].
    assert (n = 0 ∨ n = 1 ∨ n = 2 ∨ n = 3 ∨ n = 4 ∨ n = 5)%Z as H by lia.
    by repeat destruct H as [->|H]; [..|rewrite H].
  - rewrite (proj1 (Z.bounded_iff_bits_nonneg' 6 l ltac:(lia) ltac:(lia))); [done|lia|lia].
Qed.

Lemma skipName_loop_wire nm : wire_name nm → ∀ n p s,
  length nm < n → skipName_loop n (p ++ nm ++ s) (length p) = Ret (length p + length nm).
Proof.
  induction 1 as [|a b Hab|l s' nm Hl Hs Hnm IH]; intros [|n] p s Hn; simpl in Hn |- *; try lia.
  - rewrite decide_False by (rewrite length_app; simpl; lia).
    by rewrite (idx_middle p).
  - rewrite decide_False by (rewrite length_app; simpl; lia).
    rewrite (idx_middle p). simpl. rewrite bool_decide_false by (intros Hz; by rewrite Hz in Hab).
    rewrite bool_decide_true by done.
    by rewrite decide_False by (rewrite length_app; simpl; lia).
  - rewrite decide_False by (rewrite length_app; simpl; lia).
    rewrite (idx_middle p). simpl. rewrite bool_decide_false by lia.
    rewrite land_c0_small by lia. rewrite !bool_decide_false by naive_solver.
    specialize (IH n (p ++ l :: s') s). rewrite length_app in Hn.
    replace (p ++ l :: (s' ++ nm) ++ s) with ((p ++ l :: s') ++ nm ++ s) by (by rewrite <- !app_assoc).
    replace (length p + S (Z.to_nat (b2z l))) with (length (p ++ l :: s')) by (rewrite length_app; simpl; lia).
    rewrite IH by lia. f_equal. rewrite !length_app. simpl. lia.
Qed.

Lemma skipName_wire nm p s : wire_name nm →
  skipName (p ++ nm ++ s) (length p) = Ret (length p + length nm).
Proof. intros H. apply skipName_loop_wire; [done|]. rewrite !length_app. lia. Qed.

Lemma skip_questions_wire qs p s : Forall wire_question qs →
  skip_questions (length qs) (p ++ concat qs ++ s) (length p) =
  Ret (Some (length p + length (concat qs))).
Proof.
  intros Hqs. revert p. induction Hqs as [|q qs (nm & tc & -> & Hnm & Htc) Hqs IH]; intros p; simpl.
  - by rewrite Nat.add_0_r.
  - rewrite <- !app_assoc, skipName_wire by done. simpl.
    rewrite decide_False by (rewrite !length_app; lia).
    specialize (IH (p ++ nm ++ tc)). rewrite !length_app, Htc, <- !app_assoc in IH.
    rewrite <- !Nat.add_assoc, IH. do 2 f_equal. rewrite !length_app. lia.
Qed.

Lemma length_rr nm ty ct data : length (rr nm ty ct data) = length nm + 4 + length ct + length data.
Proof. unfold rr. rewrite !length_app. simpl. lia. Qed.

(** The length field of a record. *)
Lemma rr_len p nm ty ct data s : length ct = 6 → (Z.of_nat (length data) < 65536)%Z →
  be16 (p ++ rr nm ty ct data ++ s) (length p + length nm + 8) = Ret (Z.of_nat (length data)).
Proof.
  intros Hct Hd. apply (be16_at' _ (p ++ nm ++ enc16 ty ++ ct) (data ++ s)); [|rewrite !length_app; simpl; lia|lia].
  unfold rr. by rewrite <- !app_assoc.
Qed.

Lemma rr_type p nm ty ct data s : (0 ≤ ty < 65536)%Z →
  be16 (p ++ rr nm ty ct data ++ s) (length p + length nm) = Ret ty.
Proof.
  intros Hd. apply (be16_at' _ (p ++ nm) (ct ++ enc16 (Z.of_nat (length data)) ++ data ++ s));
    [|by rewrite length_app|done].
  unfold rr. by rewrite <- !app_assoc.
Qed.

Lemma skipName_rr p nm ty ct data s : wire_name nm →
  skipName (p ++ rr nm ty ct data ++ s) (length p) = Ret (length p + length nm).
Proof. intros H. unfold rr. rewrite <- !app_assoc. by apply skipName_wire. Qed.

Lemma skip_rrs_wire rs p s : Forall (wire_rr false) rs →
  skip_rrs (length rs) (p ++ concat rs ++ s) (length p) = Ret (Some (length p + length (concat rs))).
Proof.
  intros Hrs. revert p.
  induction Hrs as [|r rs (nm & ty & ct & data & -> & Hnm & Hty & Hct & Hd & _) Hrs IH]; intros p; simpl.
  - by rewrite Nat.add_0_r.
  - rewrite <- !app_assoc. unfold skipRR. rewrite skipName_rr by done. simpl.
    rewrite decide_False by (rewrite !length_app, length_rr; lia).
    rewrite rr_len by done. simpl. rewrite decide_False by (rewrite !length_app, length_rr; lia). simpl.
    specialize (IH (p ++ rr nm ty ct data)). rewrite length_app, length_rr, <- app_assoc in IH.
    replace (length p + length nm + 10 + Z.to_nat (Z.of_nat (length data)))
      with (length p + (length nm + 4 + length ct + length data)) by lia.
    rewrite IH. do 2 f_equal. rewrite length_app, length_rr. lia.
Qed.

(** ** The option walk *)

Fixpoint kept_ranges (pos : nat) (opts : list (Z * bytes)) : list (nat * nat) :=
  match opts with
  | [] => []
  | o :: opts =>
      let next := pos + length (opt_bytes o) in
      (if keep_opt o then [(pos, next)] else []) ++ kept_ranges next opts
  end.

Definition opts_bytes (opts : list (Z * bytes)) : bytes := concat (opt_bytes <$> opts).

Lemma length_opt_bytes o : length (opt_bytes o) = 4 + length o.2.
Proof. unfold opt_bytes. rewrite !length_app. simpl. lia. Qed.

Lemma opts_bytes_cons o opts : opts_bytes (o :: opts) = opt_bytes o ++ opts_bytes opts.
Proof. done. Qed.

Lemma opt_walk_wire opts n p s ranges st : Forall wire_opt opts → length (opts_bytes opts) < n →
  opt_walk n (p ++ opts_bytes opts ++ s) (length p) (length p + length (opts_bytes opts)) ednsOptCodeECS ranges st =
  Ret (Some (ranges ++ kept_ranges (length p) opts, st || existsb (λ o, negb (keep_opt o)) opts)).
Proof.
  intros Ho. revert n p ranges st.
  induction Ho as [|o opts [Hc Hd] Ho IH]; intros [|n] p ranges st Hn; [lia| |lia|].
  - simpl. rewrite decide_False by lia. by rewrite app_nil_r, orb_false_r.
  - rewrite opts_bytes_cons, length_app, length_opt_bytes in Hn. cbn [opt_walk].
    rewrite opts_bytes_cons, length_app, length_opt_bytes. rewrite decide_True by lia. rewrite decide_False by lia.
    rewrite (be16_at' _ p (enc16 (Z.of_nat (length o.2)) ++ o.2 ++ opts_bytes opts ++ s) o.1 (length p));
      [|unfold opt_bytes; by rewrite <- !app_assoc|done|lia].
    cbn [mbind go_bind].
    rewrite (be16_at' _ (p ++ enc16 o.1) (o.2 ++ opts_bytes opts ++ s) (Z.of_nat (length o.2)) (length p + 2));
      [|unfold opt_bytes; by rewrite <- !app_assoc|by rewrite length_app|lia].
    cbn [mbind go_bind]. rewrite decide_False by lia.
    specialize (IH n (p ++ opt_bytes o)). rewrite length_app, length_opt_bytes, <- app_assoc in IH.
    rewrite <- app_assoc. cbn [kept_ranges existsb]. rewrite length_opt_bytes.
    replace (length p + 4 + Z.to_nat (Z.of_nat (length o.2))) with (length p + (4 + length o.2)) by lia.
    replace (length p + (4 + length o.2 + length (opts_bytes opts)))
      with (length p + (4 + length o.2) + length (opts_bytes opts)) by lia.
    destruct (keep_opt o) eqn:Hk; unfold keep_opt in Hk; case_bool_decide; try done; cbn [negb app]; rewrite IH by lia.
    + by rewrite <- app_assoc.
    + by destruct st.
Qed.

Lemma append_kept opts p s out : 
  append_ranges (p ++ opts_bytes opts ++ s) (kept_ranges (length p) opts) out =
  Ret (out ++ opts_bytes (List.filter keep_opt opts)).
Proof.
  revert p out. induction opts as [|o opts IH]; intros p out; [simpl; by rewrite app_nil_r|].
  specialize (IH (p ++ opt_bytes o)). rewrite length_app, <- app_assoc in IH. rewrite opts_bytes_cons, <- app_assoc.
  cbn [kept_ranges List.filter]. destruct (keep_opt o); cbn [app append_ranges]; [|apply IH].
  rewrite slice_Ret by (rewrite ?length_app; lia). cbn [mbind go_bind].
  replace (length p + length (opt_bytes o) - length p) with (length (opt_bytes o)) by lia.
  rewrite take_drop_app, IH, opts_bytes_cons. by rewrite <- app_assoc.
Qed.

Lemma sum_kept opts pos :
  sum_list ((λ r, r.2 - r.1) <$> kept_ranges pos opts) = length (opts_bytes (List.filter keep_opt opts)).
Proof.
  revert pos. induction opts as [|o opts IH]; intros pos; [done|]. cbn [kept_ranges List.filter].
  destruct (keep_opt o); [|apply IH]. rewrite opts_bytes_cons, length_app, <- (IH (pos + length (opt_bytes o))).
  cbn [app fmap list_fmap sum_list sum_list_with fst snd id]. lia.
Qed.

Lemma opts_bytes_filter_le opts : length (opts_bytes (List.filter keep_opt opts)) ≤ length (opts_bytes opts).
Proof.
  induction opts as [|o opts IH]; [done|]. cbn [List.filter].
  destruct (keep_opt o); rewrite !opts_bytes_cons, ?opts_bytes_cons, !length_app; lia.
Qed.

Lemma stripOPT_wire p0 ol opts s : length ol = 2 → Forall wire_opt opts →
  (Z.of_nat (length (opts_bytes opts)) < 65536)%Z →
  let kept := opts_bytes (List.filter keep_opt opts) in
  let msg := p0 ++ ol ++ opts_bytes opts ++ s in
  stripOPTOption msg (length p0 + 2) (length p0 + 2 + length (opts_bytes opts)) ednsOptCodeECS =
  Ret (if existsb (λ o, negb (keep_opt o)) opts
       then (p0 ++ enc16 (Z.of_nat (length kept)) ++ kept ++ s, true) else (msg, false)).
Proof.
  intros Hol Ho Hlen kept msg. unfold stripOPTOption.
  assert (Hm : msg = (p0 ++ ol) ++ opts_bytes opts ++ s) by (unfold msg; by rewrite <- app_assoc).
  assert (Hp : length p0 + 2 = length (p0 ++ ol)) by (rewrite length_app; lia).
  rewrite Hm, Hp, opt_walk_wire by (done || lia). cbn [mbind go_bind]. simpl.
  destruct (existsb _ opts); simpl; [|done].
  rewrite slice_prefix by done. cbn [mbind go_bind]. rewrite append_kept. cbn [mbind go_bind].
  rewrite (app_assoc (p0 ++ ol)), slice_suffix by (rewrite ?length_app; lia). cbn [mbind go_bind].
  rewrite sum_kept. fold kept.
  pose proof (opts_bytes_filter_le opts) as Hle. fold kept in Hle.
  unfold w16. rewrite Z.mod_small by lia.
  rewrite <- Hp. replace (length p0 + 2 - 2) with (length p0) by lia.
  rewrite <- !app_assoc, put16_app by done. done.
Qed.

(** ** The whole message *)

(** A query with counts [qd], [an], [ns], [ar]. *)
Definition message (h4 : bytes) (qs an ns pre : list bytes) (nm ct : bytes)
    (opts : list (Z * bytes)) (ar : Z) (rest : bytes) : bytes :=
  h4 ++ enc16 (Z.of_nat (length qs)) ++ enc16 (Z.of_nat (length an)) ++
  enc16 (Z.of_nat (length ns)) ++ enc16 ar ++
  concat qs ++ concat (an ++ ns) ++ concat pre ++ rr nm 41 ct (opts_bytes opts) ++ rest.

Record wire_message (h4 : bytes) (qs an ns pre : list bytes) (nm ct : bytes)
    (opts : list (Z * bytes)) (ar : Z) : Prop := {
  wm_h4 : length h4 = 4;
  wm_qs : Forall wire_question qs;
  wm_nqs : (Z.of_nat (length qs) < 65536)%Z;
  wm_an : Forall (wire_rr false) (an ++ ns);
  wm_nan : (Z.of_nat (length an + length ns) < 65536)%Z;
  wm_pre : Forall (wire_rr true) pre;
  wm_ar : (Z.of_nat (length pre) < ar < 65536)%Z;
  wm_nm : wire_name nm;
  wm_ct : length ct = 6;
  wm_opts : Forall wire_opt opts;
  wm_len : (Z.of_nat (length (opts_bytes opts)) < 65536)%Z;
}.

Lemma walk_additional_wire n pre p nm ct opts rest :
  length pre < n → Forall (wire_rr true) pre → wire_name nm → length ct = 6 →
  Forall wire_opt opts → (Z.of_nat (length (opts_bytes opts)) < 65536)%Z →
  let msg := p ++ concat pre ++ rr nm 41 ct (opts_bytes opts) ++ rest in
  walk_additional n msg (length p) =
  Ret (if existsb (λ o, negb (keep_opt o)) opts
       then (p ++ concat pre ++ rr nm 41 ct (opts_bytes (List.filter keep_opt opts)) ++ rest, true)
       else (msg, false)).
Proof.
  intros Hn Hpre Hnm Hct Ho Hlen. revert n p Hn.
  induction Hpre as [|r pre (nm' & ty & ct' & data & -> & Hnm' & Hty & Hct' & Hd & Hne) Hpre IH];
    intros [|n] p Hn; [simpl in Hn; lia| |simpl in Hn; lia|].
  - cbn zeta. cbn [walk_additional concat app]. rewrite skipName_rr by done. cbn [go_try].
    rewrite decide_False by (rewrite !length_app, length_rr; lia).
    rewrite rr_type by lia. cbn [mbind go_bind]. rewrite rr_len by done. cbn [mbind go_bind].
    rewrite decide_False by (rewrite !length_app, length_rr; lia).
    rewrite bool_decide_true by done.
    pose proof (stripOPT_wire (p ++ nm ++ enc16 41 ++ ct) (enc16 (Z.of_nat (length (opts_bytes opts))))
      opts rest eq_refl Ho Hlen) as Hs. cbn zeta in Hs.
    replace ((p ++ nm ++ enc16 41 ++ ct) ++ enc16 (Z.of_nat (length (opts_bytes opts))) ++ opts_bytes opts ++ rest)
      with (p ++ rr nm 41 ct (opts_bytes opts) ++ rest) in Hs by (unfold rr; by rewrite <- !app_assoc).
    replace (length (p ++ nm ++ enc16 41 ++ ct) + 2) with (length p + length nm + 10) in Hs
      by (rewrite !length_app; simpl; lia).
    rewrite Nat2Z.id, Hs. cbn [mbind go_bind]. destruct (existsb _ opts); [|done].
    cbn [fst snd]. do 2 f_equal. unfold rr. by rewrite <- !app_assoc.
  - cbn zeta. cbn [walk_additional concat]. rewrite <- !app_assoc.
    rewrite skipName_rr by done. cbn [go_try].
    rewrite decide_False by (rewrite !length_app, length_rr; lia).
    rewrite rr_type by lia. cbn [mbind go_bind]. rewrite rr_len by done. cbn [mbind go_bind].
    rewrite decide_False by (rewrite !length_app, length_rr; lia).
    rewrite bool_decide_false by auto.
    specialize (IH n (p ++ rr nm' ty ct' data)). cbn zeta in IH.
    rewrite length_app, length_rr in IH.
    replace (length p + length nm' + 10 + Z.to_nat (Z.of_nat (length data)))
      with (length p + (length nm' + 4 + length ct' + length data)) by lia.
    rewrite <- !app_assoc in IH. apply IH. simpl in Hn. lia.
Qed.

(** On a well-formed query with an OPT record, [StripECS] returns the same
    message with exactly the client-subnet options taken out of that record
    and the record's length field rewritten; without such an option it returns
    the message itself and reports false. *)
Theorem StripECS_strips h4 qs an ns pre nm ct opts ar rest :
  wire_message h4 qs an ns pre nm ct opts ar →
  StripECS (message h4 qs an ns pre nm ct opts ar rest) =
  Ret (if existsb (λ o, negb (keep_opt o)) opts
       then (message h4 qs an ns pre nm ct (List.filter keep_opt opts) ar rest, true)
       else (message h4 qs an ns pre nm ct opts ar rest, false)).
Proof.
  intros [Hh Hqs Hnq Han Hnan Hpre Har Hnm Hct Ho Hlen]. unfold StripECS, message.
  set (body := concat qs ++ _). rewrite decide_False by (rewrite !length_app; simpl; lia).
  rewrite (be16_at h4 _ (Z.of_nat (length qs)) 4) by lia. cbn [mbind go_bind].
  rewrite (be16_at' _ (h4 ++ enc16 (Z.of_nat (length qs))) (enc16 (Z.of_nat (length ns)) ++ enc16 ar ++ body)
    (Z.of_nat (length an)) 6); [|by rewrite <- !app_assoc|by rewrite length_app, Hh|lia]. cbn [mbind go_bind].
  rewrite (be16_at' _ (h4 ++ enc16 (Z.of_nat (length qs)) ++ enc16 (Z.of_nat (length an))) (enc16 ar ++ body)
    (Z.of_nat (length ns)) 8); [|by rewrite <- !app_assoc|by rewrite !length_app, Hh|lia]. cbn [mbind go_bind].
  rewrite (be16_at' _ (h4 ++ enc16 (Z.of_nat (length qs)) ++ enc16 (Z.of_nat (length an)) ++ enc16 (Z.of_nat (length ns)))
    body ar 10); [|by rewrite <- !app_assoc|by rewrite !length_app, Hh|lia]. cbn [mbind go_bind].
  rewrite bool_decide_false by lia. unfold body. clear body.
  set (hdr := h4 ++ enc16 (Z.of_nat (length qs)) ++ enc16 (Z.of_nat (length an)) ++ enc16 (Z.of_nat (length ns)) ++ enc16 ar).
  assert (Hhdr : ∀ t, h4 ++ enc16 (Z.of_nat (length qs)) ++ enc16 (Z.of_nat (length an)) ++
    enc16 (Z.of_nat (length ns)) ++ enc16 ar ++ t = hdr ++ t) by (intros t; unfold hdr; by rewrite <- !app_assoc).
  rewrite !Hhdr. assert (Hlh : length hdr = 12) by (unfold hdr; rewrite !length_app, Hh; done).
  rewrite <- Hlh at 1. rewrite Nat2Z.id, skip_questions_wire by done. cbn [mbind go_bind].
  rewrite (app_assoc hdr), <- length_app.
  unfold w16. rewrite Z.mod_small by lia.
  replace (Z.to_nat (Z.of_nat (length an) + Z.of_nat (length ns))) with (length (an ++ ns)) by (rewrite length_app; lia).
  rewrite skip_rrs_wire by done. cbn [mbind go_bind].
  rewrite (app_assoc (hdr ++ concat qs)), <- length_app.
  rewrite walk_additional_wire by (done || lia).
  destruct (existsb _ opts); [|by rewrite <- !app_assoc].
  do 2 f_equal. by rewrite <- !app_assoc.
Qed.

(** A query for the root with an OPT record holding a client subnet and a
    cookie. *)
Lemma StripECS_strips_witness :
  StripECS (message [x00;x01;x01;x00] [x00 :: enc16 1 ++ enc16 1] [] [] [] [x00] [x10;x00;x00;x00;x00;x00]
    [(8, [x00;x01;x18;x00]); (10, [x01;x02])]%Z 1 []) =
  Ret (message [x00;x01;x01;x00] [x00 :: enc16 1 ++ enc16 1] [] [] [] [x00] [x10;x00;x00;x00;x00;x00]
    [(10, [x01;x02])]%Z 1 [], true).
Proof.
  refine (StripECS_strips _ _ _ _ _ _ _ _ _ _ _).
  split; try done; try (repeat constructor; simpl; lia).
  - constructor; [|done]. exists [x00], (enc16 1 ++ enc16 1). split; [done|]. split; [constructor|done].
Defined.

(** ** Safety on arbitrary bytes *)

Lemma skipName_loop_safe n msg o : length msg < n + o → n ≠ 0 → safe (skipName_loop n msg o).
Proof.
  revert o. induction n as [|n IH]; intros o Hn Hz; [done|]. simpl.
  case_decide; [apply safe_Err|]. apply safe_bind; [apply safe_idx; lia|]. intros l _.
  case_bool_decide; [done|]. case_bool_decide; [by case_decide|].
  case_bool_decide; [done|]. apply IH; lia.
Qed.

Lemma skipName_safe msg o : safe (skipName msg o).
Proof. apply skipName_loop_safe; lia. Qed.

Lemma skipRR_safe msg o : safe (skipRR msg o).
Proof.
  unfold skipRR. apply safe_bind; [apply skipName_safe|]. intros e _. case_decide; [done|].
  apply safe_bind; [apply safe_be16; lia|]. intros l _. by case_decide.
Qed.

Lemma skip_questions_total n msg o : returns (skip_questions n msg o).
Proof.
  revert o. induction n as [|n IH]; intros o; simpl; [apply returns_Ret|].
  apply returns_try; [apply skipName_safe|intros a _|intros; apply returns_Ret]. case_decide; [apply returns_Ret|apply IH].
Qed.

Lemma skip_rrs_total n msg o : returns (skip_rrs n msg o).
Proof.
  revert o. induction n as [|n IH]; intros o; simpl; [apply returns_Ret|].
  apply returns_try; [apply skipRR_safe|intros a _; apply IH|intros; apply returns_Ret].
Qed.

Definition in_range (hi : nat) (r : nat * nat) : Prop := r.1 ≤ r.2 ∧ r.2 ≤ hi.

Lemma opt_walk_total n msg pos e c rs st : e ≤ length msg → e < n + pos → n ≠ 0 → returns (opt_walk n msg pos e c rs st).
Proof.
  intros He. revert pos rs st. induction n as [|n IH]; intros pos rs st Hn Hz; [done|]. simpl.
  case_decide; [|apply returns_Ret]. case_decide; [apply returns_Ret|].
  apply returns_bind; [apply returns_be16; lia|]. intros cd _.
  apply returns_bind; [apply returns_be16; lia|]. intros ol _.
  case_decide; [apply returns_Ret|]. case_bool_decide; apply IH; lia.
Qed.

Lemma opt_walk_ranges n msg pos e c rs st rs' st' : Forall (in_range e) rs →
  opt_walk n msg pos e c rs st = Ret (Some (rs', st')) → Forall (in_range e) rs'.
Proof.
  revert pos rs st. induction n as [|n IH]; intros pos rs st Hrs; [done|]. simpl.
  case_decide; [|naive_solver]. case_decide; [done|]. intros Hw. bind_inv Hw. bind_inv Hw.
  case_decide; [done|]. case_bool_decide; [by eapply IH|].
  eapply IH in Hw; [done|]. apply Forall_app. split; [done|]. repeat constructor; simpl; lia.
Qed.

Lemma append_ranges_Ret msg e rs out : e ≤ length msg → Forall (in_range e) rs →
  ∃ out', append_ranges msg rs out = Ret out' ∧ length out ≤ length out'.
Proof.
  intros He Hrs. revert out. induction Hrs as [|[i j] rs [Hij Hj] Hrs IH]; intros out; simpl in *; [eauto|].
  rewrite slice_Ret by lia. cbn [mbind go_bind].
  destruct (IH (out ++ take (j - i) (drop i msg))) as (o & -> & Ho).
  exists o. split; [done|]. rewrite length_app in Ho. lia.
Qed.

Lemma stripOPT_total msg a e c : 2 ≤ a → a ≤ e → e ≤ length msg → returns (stripOPTOption msg a e c).
Proof.
  intros Ha Hae He. unfold stripOPTOption. apply returns_bind; [apply opt_walk_total; lia|].
  intros [[rs st]|] Hw; [|apply returns_Ret]. destruct st; simpl; [|apply returns_Ret].
  apply opt_walk_ranges in Hw; [|constructor].
  rewrite (slice_Ret msg 0 a) by lia. cbn [mbind go_bind].
  rewrite Nat.sub_0_r, drop_0.
  destruct (append_ranges_Ret msg e rs (take a msg)) as (o & -> & Ho); [done|done|].
  cbn [mbind go_bind]. rewrite slice_Ret by lia. cbn [mbind go_bind].
  rewrite put16_Ret; [apply returns_Ret|]. rewrite !length_app. rewrite length_take in Ho. lia.
Qed.

Lemma walk_additional_total n msg o : returns (walk_additional n msg o).
Proof.
  revert o. induction n as [|n IH]; intros o; simpl; [apply returns_Ret|].
  apply returns_try; [apply skipName_safe|intros a Ha|intros; apply returns_Ret]. case_decide; [apply returns_Ret|].
  apply returns_bind; [apply returns_be16; lia|]. intros ty _.
  apply returns_bind; [apply returns_be16; lia|]. intros l _. case_decide; [apply returns_Ret|].
  case_bool_decide; [|apply IH]. apply returns_bind; [apply stripOPT_total; lia|]. intros [m []] _; simpl; apply returns_Ret.
Qed.

(** [StripECS] returns on every byte string: it never indexes or slices
    out of range, and none of its loops runs forever, including the name walk
    that [readName] of the parser does not finish on pointer cycles. *)
Theorem StripECS_total msg : ∃ out stripped, StripECS msg = Ret (out, stripped).
Proof.
  assert (Hs : returns (StripECS msg)).
  { unfold StripECS. case_decide; [apply returns_Ret|].
    do 4 (match goal with |- context [be16 msg ?i] =>
      destruct (be16_lt msg i) as (? & -> & _); [lia|]; cbn [mbind go_bind] end).
    case_bool_decide; [apply returns_Ret|].
    apply returns_bind; [apply skip_questions_total|]. intros [o|] _; [|apply returns_Ret].
    apply returns_bind; [apply skip_rrs_total|]. intros [o'|] _; [|apply returns_Ret].
    apply walk_additional_total. }
  destruct Hs as [[m b] ->]. eauto.
Qed.
