(* ===== verification/SafeSearch.v ===== *)
(** [internal/dns/safesearch.go]: the table of search-engine hosts whose
    queries are answered with the address of the restricted variant. *)
From stdpp Require Import gmap.
From S2P Require Import Prelude GoString.

Local Open Scope string_scope.

(** An IPv4 address, [[4]byte]. *)
Definition ip4 : Type := Z * Z * Z * Z.

Record safeTarget := SafeTarget { safeHost : string; fallback : ip4; triggers : list string }.

Definition google_host : string := "forcesafesearch.google.com".

Definition safeTargets : list safeTarget := [
  SafeTarget google_host (216, 239, 38, 120)%Z
    ["google.com"; "www.google.com"; "images.google.com"; "www.images.google.com";
     "encrypted.google.com"];
  SafeTarget "strict.bing.com" (150, 171, 27, 16)%Z ["bing.com"; "www.bing.com"];
  SafeTarget "safe.duckduckgo.com" (40, 89, 244, 237)%Z ["duckduckgo.com"; "www.duckduckgo.com"];
  SafeTarget "restrict.youtube.com" (216, 239, 38, 120)%Z
    ["youtube.com"; "www.youtube.com"; "m.youtube.com";
     "youtubei.googleapis.com"; "youtube.googleapis.com";
     "www.youtube-nocookie.com"; "youtube-nocookie.com"]
].

Definition googleSuffixes : list string :=
  [".google.co.uk"; ".google.com.au"; ".google.ca"; ".google.de";
   ".google.fr"; ".google.it"; ".google.es"; ".google.nl";
   ".google.com.br"; ".google.co.in"; ".google.co.jp"; ".google.co.nz";
   ".google.ie"; ".google.com.mx"; ".google.pl"; ".google.ru";
   ".google.com.sg"; ".google.com.hk"; ".google.com.tw"; ".google.co.za"].

(** The fields [exact] and [google] of the [SafeSearch] struct. *)
Record table := Table { exact : gmap string ip4; google : ip4 }.

Section SafeSearch.
Context `{U : UnicodeTables}.

(** The system resolver: the addresses of [LookupIP(ctx, "ip4", host)] as
    byte strings, or its error. *)
Variable LookupIP : string → go (list bytes).

(** [net.IP.To4]: a 4-byte address, or a 16-byte one under the IPv4 prefix. *)
Definition To4 (ip : bytes) : option ip4 :=
  let quad b := match b with
    | [a; b; c; d] => Some (b2z a, b2z b, b2z c, b2z d)
    | _ => None
    end in
  if decide (length ip = 4) then quad ip
  else if decide (length ip = 16 ∧ take 12 ip = (replicate 10 x00 ++ [xff; xff])%list) then quad (drop 12 ip)
  else None.

Definition resolveOrFallback (host : string) (fb : ip4) : ip4 :=
  match LookupIP host with
  | Ret (ip :: _) => default fb (To4 ip)
  | _ => fb
  end.

Definition refresh : table :=
  fold_left (λ s t,
    let ip := resolveOrFallback (safeHost t) (fallback t) in
    Table (fold_left (λ m name, <[to_lower name := ip]> m) (triggers t) (exact s))
      (if String.eqb (safeHost t) google_host then ip else google s))
    safeTargets (Table ∅ (0, 0, 0, 0)%Z).

Definition is_cctld (name : string) : bool :=
  existsb (λ suffix, let bare := trim_prefix suffix "." in
    String.eqb name bare || String.eqb name ("www." +:+ bare) || String.eqb name ("images." +:+ bare))
    googleSuffixes.

Definition Lookup (s : table) (name : string) : option ip4 :=
  if String.eqb name "" then None else
  let name := to_lower name in
  match exact s !! name with
  | Some ip => Some ip
  | None => if is_cctld name then Some (google s) else None
  end.

(** The rewrite target of a host name, read off the static table alone. *)
Definition target_of (name : string) : option safeTarget :=
  match List.find (λ t, existsb (String.eqb name) (triggers t)) safeTargets with
  | Some t => Some t
  | None => if is_cctld name then List.find (λ t, String.eqb (safeHost t) google_host) safeTargets else None
  end.

(** ** The table built by [refresh] *)

Lemma insert_names (names : list string) (ip : ip4) (m : gmap string ip4) n :
  fold_left (λ m name, <[to_lower name := ip]> m) names m !! n =
  if existsb (String.eqb n) (map to_lower names) then Some ip else m !! n.
Proof.
  revert m. induction names as [|x names IH]; intros m; simpl; [done|]. rewrite IH.
  destruct (existsb _ _) eqn:E; [by rewrite orb_true_r|]. rewrite orb_false_r.
  destruct (String.eqb_spec n (to_lower x)) as [->|Hn]; [by rewrite lookup_insert_eq|].
  by rewrite lookup_insert_ne by congruence.
Qed.

Lemma triggers_lower : Forall (λ t, map to_lower (triggers t) = triggers t) safeTargets.
Proof.
  assert (H : Forall (λ t, Forall (λ x, is_lower x = true) (triggers t)) safeTargets)
    by (repeat constructor).
  eapply Forall_impl; [exact H|]. intros t Ht. induction Ht as [|x l Hx Ht IH]; [done|].
  simpl. by rewrite (is_lower_id x Hx), IH.
Qed.

Definition known (name : string) (t : safeTarget) : bool := existsb (String.eqb name) (triggers t).

Lemma triggers_disjoint name :
  ForallOrdPairs (λ t u, known name t && known name u = false) safeTargets.
Proof.
  assert (H : ∀ t u, forallb (λ x, negb (existsb (String.eqb x) (triggers u))) (triggers t) = true →
    known name t && known name u = false).
  { intros t u Ht. destruct (known name t) eqn:E; [simpl|done]. unfold known in E.
    apply existsb_exists in E as (x & Hx & Heq%String.eqb_eq). subst.
    rewrite forallb_forall in Ht. apply negb_true_iff. by apply Ht. }
  repeat constructor; apply H; reflexivity.
Qed.

Lemma refresh_exact name :
  exact refresh !! name =
  (λ t, resolveOrFallback (safeHost t) (fallback t)) <$> List.find (known name) safeTargets.
Proof.
  unfold refresh.
  pose proof triggers_lower as Hl. pose proof (triggers_disjoint name) as Hd.
  revert Hl Hd. generalize safeTargets. intros ts.
  assert (Hgen : ∀ s, Forall (λ t, map to_lower (triggers t) = triggers t) ts →
    ForallOrdPairs (λ t u, known name t && known name u = false) ts →
    (is_Some (exact s !! name) → Forall (λ t, known name t = false) ts) →
    exact (fold_left (λ s t, let ip := resolveOrFallback (safeHost t) (fallback t) in
      Table (fold_left (λ m n, <[to_lower n := ip]> m) (triggers t) (exact s))
        (if String.eqb (safeHost t) google_host then ip else google s)) ts s) !! name =
    match (λ t, resolveOrFallback (safeHost t) (fallback t)) <$> List.find (known name) ts with
    | Some ip => Some ip
    | None => exact s !! name
    end).
  { induction ts as [|t ts IH]; intros s Hl Hd Hs; [done|].
    inversion Hl as [|?? Ht Hl']; inversion Hd as [|?? Hdt Hd']; subst. cbn [fold_left].
    rewrite IH; [|done|done|].
    - cbn [exact List.find]. rewrite insert_names, Ht. fold (known name t).
      destruct (known name t) eqn:E; [|done]. simpl.
      destruct (List.find (known name) ts) as [u|] eqn:Hu; [|done].
      apply find_some in Hu as [Hu1 Hu2].
      rewrite List.Forall_forall in Hdt. specialize (Hdt u Hu1). cbn beta in Hdt.
      by rewrite Hu2 in Hdt.
    - cbn [exact]. rewrite insert_names, Ht. fold (known name t).
      destruct (known name t) eqn:E; intros H.
      + eapply Forall_impl; [exact Hdt|]. intros u. done.
      + apply Hs in H. by inversion H. }
  intros Hl Hd. rewrite Hgen; [|done|done|].
  - simpl. rewrite lookup_empty. by destruct (_ <$> _).
  - simpl. rewrite lookup_empty. by intros [].
Qed.

Lemma refresh_google :
  google refresh = resolveOrFallback google_host (216, 239, 38, 120)%Z.
Proof. done. Qed.

(** Which host names are rewritten, and to which restricted service,
    depends only on the static lists and not on the resolver: after any
    refresh, successful or not, [Lookup] of a non-empty name is the current
    address of the name's target, and nothing when it has none. *)
Theorem Lookup_targets name :
  Lookup refresh name =
  if String.eqb name "" then None
  else (λ t, resolveOrFallback (safeHost t) (fallback t)) <$> target_of (to_lower name).
Proof.
  unfold Lookup. destruct (String.eqb name ""); [done|]. cbn zeta.
  rewrite refresh_exact. unfold target_of.
  change (List.find (λ t, existsb (String.eqb (to_lower name)) (triggers t)) safeTargets)
    with (List.find (known (to_lower name)) safeTargets).
  destruct (List.find _ safeTargets); [done|]. destruct (is_cctld _); [|done].
  by rewrite refresh_google.
Qed.
End SafeSearch.

(** ** The refreshing goroutine *)

Section Refreshing.
Context `{U : UnicodeTables}.

(** What the system resolver answers at some moment. *)
Definition answers : Type := string → go (list bytes).

(** The table, whether [stopCh] is closed, and whether the loop still runs. *)
Record SafeSearch := MkSafeSearch { tbl : table; stopped : bool; refreshing : bool }.

Definition NewSafeSearch (ip : answers) : SafeSearch := MkSafeSearch (refresh ip) false true.

(** Closing a closed channel panics. *)
Definition Stop (s : SafeSearch) : go SafeSearch :=
  if stopped s then Panic else Ret (MkSafeSearch (tbl s) true (refreshing s)).

(** [refreshLoop]: at a tick the table is rebuilt; when both the tick and the
    end are ready, either may be taken. *)
Inductive refresh_step : SafeSearch → SafeSearch → Prop :=
| refresh_tick s ip : refreshing s = true → refresh_step s (MkSafeSearch (refresh ip) (stopped s) true)
| refresh_stops s : refreshing s = true → stopped s = true → refresh_step s (MkSafeSearch (tbl s) true false)
| stop_called s s' : Stop s = Ret s' → refresh_step s s'.

(** Whatever the resolver answered at the start and at the refreshes so far,
    the same names are rewritten, to the same services, each at the address of
    one of the refreshes or at its built-in one; the loop can end once [Stop]
    has been called, and a second [Stop] panics. *)
Theorem rewrites_stable ip0 s name : star refresh_step (NewSafeSearch ip0) s →
  (∃ ip, Lookup (tbl s) name = if String.eqb name "" then None
    else (λ t, resolveOrFallback ip (safeHost t) (fallback t)) <$> target_of (to_lower name)) ∧
  (refreshing s = false → stopped s = true) ∧
  (stopped s = true → Stop s = Panic ∧ ∃ s', star refresh_step s s' ∧ refreshing s' = false).
Proof.
  intros Hs.
  assert (Hi : (∃ ip, tbl s = refresh ip) ∧ (refreshing s = false → stopped s = true)).
  { revert Hs. apply (star_invariant refresh_step (λ s, (∃ ip, tbl s = refresh ip) ∧ (refreshing s = false → stopped s = true))); [|split; [by exists ip0|done]].
    intros x y [[ip Hx] Hy] Hst. destruct Hst as [x ip' Hr|x Hr Hst|x x' Hst]; simpl; [by split; [exists ip'|]|by split; [exists ip|]|].
    unfold Stop in Hst. destruct (stopped x); [done|]. injection Hst as <-. by split; [exists ip|]. }
  destruct Hi as [[ip Ht] Hr]. split; [|split; [done|]].
  - exists ip. by rewrite Ht, Lookup_targets.
  - intros Hst. split; [unfold Stop; by rewrite Hst|]. destruct (refreshing s) eqn:E; [|exists s; split; [apply star_refl|done]].
    eexists. split; [eapply star_step; [by apply refresh_stops|apply star_refl]|done].
Qed.
End Refreshing.

Section Witness.
#[local] Existing Instance ascii_tables.

Lemma rewrites_stable_witness :
  ∃ s, Stop (NewSafeSearch (λ _, Err "offline")) = Ret s ∧ Stop s = Panic.
Proof.
  eexists. split; [reflexivity|].
  apply (rewrites_stable (λ _, Err "offline") _ "bing.com"); [|reflexivity].
  eapply star_step; [by apply stop_called|apply star_refl].
Defined.
End Witness.
