(* ===== verification/Failsafe.v ===== *)
(** [internal/enforcer/failsafe_enforcer.go]: the process-wide fail-safe state
    entered when the policy bundle has expired and the cloud is unreachable. *)
From S2P Require Import Prelude GoString.

Local Open Scope Z_scope.

Record FailsafeState := Failsafe {
  Active : bool;
  TriggeredAt : time;
  TriggerReason : string;
  BundleExpiredAt : time;
  OfflineSince : time;
  EmergencyDomains : list string;
  reporter : bool;  (** a reporter is installed *)
}.

(** The call [reporter(ctx, entry, reason, bundleExpiredAt, offlineSince)]. It
    is made by a goroutine of its own, so two calls can reach the reporter in the
    other order; nothing in the program installs a reporter. *)
Record report := Report {
  r_entry : bool;
  r_reason : string;
  r_bundleExpiredAt : time;
  r_offlineSince : time;
}.

Definition globalFailsafe : FailsafeState :=
  Failsafe false 0 "" 0 0
    ["google.com"; "apple.com"; "microsoft.com"; "icloud.com"; "gmail.com"; "outlook.com"]%string false.

Definition SetReporter (s : FailsafeState) (fn : bool) : FailsafeState :=
  Failsafe (Active s) (TriggeredAt s) (TriggerReason s) (BundleExpiredAt s) (OfflineSince s)
    (EmergencyDomains s) fn.

Definition GetFailsafeState (s : FailsafeState) : bool * list string := (Active s, EmergencyDomains s).
Definition IsActive (s : FailsafeState) : bool := Active s.
Definition IsDenyAll (s : FailsafeState) : bool := Active s && is_zero (BundleExpiredAt s).

Definition UpdateEmergencyDomains (s : FailsafeState) (domains : list string) : FailsafeState :=
  if bool_decide (0 < Z.of_nat (length domains))
  then Failsafe (Active s) (TriggeredAt s) (TriggerReason s) (BundleExpiredAt s) (OfflineSince s)
         domains (reporter s)
  else s.

Definition noBundleEver (bundleExpiresAt : time) : bool := is_zero bundleExpiresAt.

Definition bundleExpired (now bundleExpiresAt : time) (gracePeriod : duration) : bool :=
  noBundleEver bundleExpiresAt || bool_decide (bundleExpiresAt + gracePeriod < now).

Definition shouldBeActive (now bundleExpiresAt : time) (cloudReachable : bool) (gracePeriod : duration) : bool :=
  bundleExpired now bundleExpiresAt gracePeriod && negb cloudReachable.

(** One check at time [now]; the second component is the report for which a
    goroutine is started. *)
Definition CheckAndEnterFailsafe (s : FailsafeState) (now bundleExpiresAt : time)
    (cloudReachable : bool) (gracePeriod : duration) : FailsafeState * option report :=
  let noBundle := noBundleEver bundleExpiresAt in
  let should := shouldBeActive now bundleExpiresAt cloudReachable gracePeriod in
  if should && negb (Active s) then
    let offlineSince := if is_zero (OfflineSince s) then now else OfflineSince s in
    let reason := if noBundle then "no_bundle_cloud_unreachable" else "bundle_expired_cloud_unreachable" in
    (Failsafe true now reason bundleExpiresAt offlineSince (EmergencyDomains s) (reporter s),
     if reporter s
     then Some (Report true "bundle_expired_cloud_unreachable" bundleExpiresAt offlineSince)
     else None)
  else if negb should && Active s then
    (Failsafe false (TriggeredAt s) (TriggerReason s) (BundleExpiredAt s) 0 (EmergencyDomains s) (reporter s),
     if reporter s then Some (Report false "recovered" 0 0) else None)
  else
    let offlineSince :=
      if negb cloudReachable && is_zero (OfflineSince s) then now
      else if cloudReachable then 0 else OfflineSince s in
    (Failsafe (Active s) (TriggeredAt s) (TriggerReason s) (BundleExpiredAt s) offlineSince
       (EmergencyDomains s) (reporter s), None).

Definition IsAllowedInFailsafe (domain : string) (emergencyDomains : list string) : bool :=
  let domain := trim_suffix domain "." in
  existsb (λ allowed, String.eqb domain allowed || has_suffix domain ("." +:+ allowed)) emergencyDomains.

(** ** Runs of checks *)

Record input := Input { i_now : time; i_expires : time; i_reachable : bool; i_grace : duration }.

Definition check_step (s : FailsafeState) (i : input) : FailsafeState * option report :=
  CheckAndEnterFailsafe s (i_now i) (i_expires i) (i_reachable i) (i_grace i).

Definition wanted (i : input) : bool := shouldBeActive (i_now i) (i_expires i) (i_reachable i) (i_grace i).

Fixpoint run (s : FailsafeState) (ins : list input) : FailsafeState * list report :=
  match ins with
  | [] => (s, [])
  | i :: ins =>
      let '(s', r) := check_step s i in
      let '(s'', rs) := run s' ins in
      (s'', match r with Some r => r :: rs | None => rs end)
  end.

Lemma check_Active s i : Active (fst (check_step s i)) = wanted i.
Proof.
  unfold check_step, CheckAndEnterFailsafe. fold (wanted i).
  destruct (wanted i), (Active s) eqn:E; simpl; by rewrite ?E.
Qed.

Lemma check_reporter s i : reporter (fst (check_step s i)) = reporter s.
Proof.
  unfold check_step, CheckAndEnterFailsafe. fold (wanted i).
  by destruct (wanted i), (Active s).
Qed.

Lemma check_report s i :
  r_entry <$> snd (check_step s i) = if reporter s && negb (Bool.eqb (Active s) (wanted i)) then Some (wanted i) else None.
Proof.
  unfold check_step, CheckAndEnterFailsafe. fold (wanted i).
  by destruct (wanted i), (Active s), (reporter s).
Qed.

(** The positions where a sequence of booleans changes value. *)
Fixpoint changes (b : bool) (bs : list bool) : list bool :=
  match bs with
  | [] => []
  | c :: bs => if Bool.eqb b c then changes c bs else c :: changes c bs
  end.

Lemma run_reports s ins :
  r_entry <$> snd (run s ins) = if reporter s then changes (Active s) (wanted <$> ins) else [].
Proof.
  revert s. induction ins as [|i ins IH]; intros s; [by destruct (reporter s)|]. simpl.
  pose proof (check_report s i) as Hrep. pose proof (check_Active s i) as Ha.
  pose proof (check_reporter s i) as Hrr. destruct (check_step s i) as [s' r]. simpl in *.
  specialize (IH s'). rewrite Hrr, Ha in IH. destruct (run s' ins) as [s'' rs]. simpl in *.
  destruct (reporter s); simpl in Hrep; [|by destruct r].
  destruct (Bool.eqb (Active s) (wanted i)) eqn:E; destruct r as [r|]; simplify_eq/=.
  - exact IH.
  - by rewrite IH, Hrep.
Qed.

Lemma run_app s l k : fst (run s (l ++ k)) = fst (run (fst (run s l)) k).
Proof.
  revert s. induction l as [|i l IH]; intros s; [done|]. simpl. destruct (check_step s i) as [s' r].
  specialize (IH s'). destruct (run s' (l ++ k)), (run s' l). exact IH.
Qed.

(** What a state records of its entry. *)
Definition entry_of (s : FailsafeState) : time * time * string := (TriggeredAt s, BundleExpiredAt s, TriggerReason s).

Lemma check_enters s i : wanted i = true → Active s = false → entry_of (fst (check_step s i)) =
  (i_now i, i_expires i, if noBundleEver (i_expires i) then "no_bundle_cloud_unreachable"%string else "bundle_expired_cloud_unreachable"%string).
Proof. intros Hw Ha. unfold check_step, CheckAndEnterFailsafe. fold (wanted i). by rewrite Hw, Ha. Qed.

Lemma run_stays s ins : Forall (λ k, wanted k = true) ins → Active s = true →
  Active (fst (run s ins)) = true ∧ entry_of (fst (run s ins)) = entry_of s.
Proof.
  intros Hw. revert s. induction Hw as [|i ins Hi Hw IH]; intros s Ha; [done|]. simpl.
  assert (Hc : Active (fst (check_step s i)) = true ∧ entry_of (fst (check_step s i)) = entry_of s).
  { unfold check_step, CheckAndEnterFailsafe. fold (wanted i). by rewrite Hi, Ha. }
  destruct (check_step s i) as [s' r]. destruct Hc as [H1 H2]. simpl in H1, H2. destruct (IH s' H1) as [H3 H4].
  destruct (run s' ins). simpl in *. by rewrite H4.
Qed.

(** C36. Over any run of checks the fail-safe is active exactly when the last
    check found the bundle expired, past its grace, and the cloud unreachable.
    What the state says of its entry (time, expiry of the bundle, reason) is that
    of the check that began the current stretch, and so is whether everything is
    denied: only if at that check there had never been a bundle. For a reporter
    a goroutine is started at each change of the condition and at no other check,
    entries and exits alternating; without one, as the program runs, none is. *)
Theorem failsafe_transitions s ins i :
  let '(s', started) := run s (ins ++ [i]) in
  Active s' = wanted i ∧
  (∀ pre j post, ins ++ [i] = pre ++ j :: post → Forall (λ k, wanted k = true) (j :: post) → Active (fst (run s pre)) = false →
    TriggeredAt s' = i_now j ∧ BundleExpiredAt s' = i_expires j ∧ IsDenyAll s' = noBundleEver (i_expires j) ∧
    TriggerReason s' = if noBundleEver (i_expires j) then "no_bundle_cloud_unreachable"%string else "bundle_expired_cloud_unreachable"%string) ∧
  r_entry <$> started = if reporter s then changes (Active s) (wanted <$> (ins ++ [i])) else [].
Proof.
  pose proof (run_reports s (ins ++ [i])) as Hr.
  assert (Ha : Active (fst (run s (ins ++ [i]))) = wanted i).
  { rewrite run_app. simpl. pose proof (check_Active (fst (run s ins)) i). by destruct (check_step _ i). }
  assert (He : ∀ pre j post, ins ++ [i] = pre ++ j :: post → Forall (λ k, wanted k = true) (j :: post) → Active (fst (run s pre)) = false →
    Active (fst (run s (ins ++ [i]))) = true ∧ entry_of (fst (run s (ins ++ [i]))) = entry_of (fst (check_step (fst (run s pre)) j))).
  { intros pre j post -> [Hj Hp]%Forall_cons Hpre. rewrite run_app. simpl. pose proof (check_Active (fst (run s pre)) j) as Hc.
    destruct (check_step (fst (run s pre)) j) as [s1 r1]. simpl in *. rewrite Hj in Hc.
    destruct (run_stays s1 post Hp Hc) as [K1 K2]. by destruct (run s1 post). }
  destruct (run s (ins ++ [i])) as [s' started]. simpl in *. split; [done|]. split; [|done].
  intros pre j post E Hf Hpre. destruct (He pre j post E Hf Hpre) as [Hs' K]. apply Forall_cons in Hf as [Hj _].
  rewrite check_enters in K by done. injection K as K1 K2 K3. unfold IsDenyAll. by rewrite Hs', K1, K2, K3.
Qed.

(** With a reporter, and as the program starts. *)
Lemma failsafe_transitions_witness :
  let ins := [Input 1 0 false 0; Input 2 0 false 0; Input 3 0 true 0] in
  r_entry <$> snd (run (SetReporter globalFailsafe true) (ins ++ [Input 4 0 false 0])) = [true; false; true] ∧
  snd (run globalFailsafe (ins ++ [Input 4 0 false 0])) = [] ∧
  TriggeredAt (fst (run globalFailsafe (ins ++ [Input 4 0 false 0]))) = 4.
Proof.
  intros ins. pose proof (failsafe_transitions (SetReporter globalFailsafe true) ins (Input 4 0 false 0)) as H1.
  pose proof (failsafe_transitions globalFailsafe ins (Input 4 0 false 0)) as H2.
  destruct (run (SetReporter globalFailsafe true) _) as [s1 l1]. destruct (run globalFailsafe _) as [s2 l2].
  destruct H1 as (_ & _ & H1). destruct H2 as (_ & H2 & H3). split; [etransitivity; [exact H1|by vm_compute]|]. split; [by destruct l2|].
  apply (H2 ins (Input 4 0 false 0) []); [reflexivity|repeat constructor|by vm_compute].
Defined.

(** Fail closed without a policy: a node that has never received a bundle
    (zero expiry) and cannot reach the cloud is, after the check, in fail-safe
    deny-all, whatever the grace period, provided it was not already in
    fail-safe for an expired bundle; and deny-all is never in force while the
    cloud is reachable. *)
Theorem failsafe_deny_all s now expires reachable grace :
  (expires = 0 → reachable = false → Active s = false →
     IsDenyAll (fst (CheckAndEnterFailsafe s now expires reachable grace)) = true ∧
     TriggerReason (fst (CheckAndEnterFailsafe s now expires reachable grace)) =
       "no_bundle_cloud_unreachable"%string) ∧
  (reachable = true →
     IsDenyAll (fst (CheckAndEnterFailsafe s now expires reachable grace)) = false ∧
     OfflineSince (fst (CheckAndEnterFailsafe s now expires reachable grace)) = 0).
Proof.
  unfold CheckAndEnterFailsafe, shouldBeActive, bundleExpired, noBundleEver, IsDenyAll. split.
  - intros -> -> ->. by destruct (is_zero (OfflineSince s)).
  - intros ->. rewrite andb_false_r. simpl. by destruct (Active s) eqn:E; simpl; rewrite ?E.
Qed.

Lemma failsafe_deny_all_witness :
  IsDenyAll (fst (CheckAndEnterFailsafe globalFailsafe (3 * hour) 0 false hour)) = true.
Proof. apply failsafe_deny_all; reflexivity. Defined.

(** The reason the reporter is given for a node without a bundle is not the
    reason the state records. *)
Lemma failsafe_reason_mismatch :
  let '(s, r) := CheckAndEnterFailsafe (SetReporter globalFailsafe true) hour 0 false minute in
  TriggerReason s = "no_bundle_cloud_unreachable"%string ∧
  r_reason <$> r = Some "bundle_expired_cloud_unreachable"%string.
Proof. by vm_compute. Qed.

(** The allow-list covers a domain and its subdomains, one trailing dot
    ignored. *)
Lemma IsAllowedInFailsafe_spec domain ds :
  IsAllowedInFailsafe domain ds = true ↔
  ∃ a, a ∈ ds ∧ (trim_suffix domain "." = a ∨ ∃ p, trim_suffix domain "." = p +:+ "." +:+ a).
Proof.
  unfold IsAllowedInFailsafe. rewrite existsb_exists. split.
  - intros (a & Ha & H). exists a. split; [by apply list_elem_of_In|].
    apply orb_true_iff in H as [->%String.eqb_eq|[p Hp]%has_suffix_spec]; eauto.
  - intros (a & Ha & H). exists a. split; [by apply list_elem_of_In|]. apply orb_true_iff.
    destruct H as [->|H]; [left; by apply String.eqb_eq|right; by apply has_suffix_spec].
Qed.
