(* ===== verification/Policy.v ===== *)
(** [pkg/contract/policybundle/types.go] and [internal/policy/runtime.go]: the
    policy bundle, its persistence and the per-device lookups. *)
From stdpp Require Import gmap.
From S2P Require Import Prelude GoString.

Local Open Scope string_scope.

Record ChildEffectiveState := Child {
  ChildID : string;
  DeviceMAC : string;
  WireGuardPublicKey : string;
  WireguardIP : string;
  Mode : string;
  LockEnabled : bool;
  DNSProfileID : string;
  AllowedServices : list string;
  BlockedCategories : list string;
}.

Record Bundle := MkBundle {
  Version : string;
  IssuedAt : Z;
  ExpiresAt : Z;
  Signature : string;
  BundleEmergencyDomains : list string;
  Children : list ChildEffectiveState;
}.

(** [strings.TrimSuffix(ip, "/32")] *)
Definition cleanIP (ip : string) : string := trim_suffix ip "/32".

(** The first child whose tunnel address is [ip]. *)
Definition child_for_ip (b : Bundle) (ip : string) : option ChildEffectiveState :=
  List.find (λ c, String.eqb (cleanIP (WireguardIP c)) (cleanIP ip)) (Children b).

Section Runtime.
(** [payload_json] is an encoding of the bundle; [Marshal] may fail. *)
Context {Json : Type} (Marshal : Bundle → go Json) (Unmarshal : Json → go Bundle).

(** The columns of the single row [id = 1] of [active_policy_bundle]. *)
Record row := Row { row_version : string; row_issued : Z; row_expires : Z; row_signature : string; row_payload : Json }.

(** The database outlives the process; [active] and [onSwap] do not.
    [swaps] counts the calls of the swap callback. *)
Record Runtime := MkRuntime { db : option row; active : option Bundle; onSwap : bool; swaps : nat }.

Definition DNSProfileForMAC (r : Runtime) (mac : string) : string :=
  match active r with
  | None => "default"
  | Some b =>
      match List.find (λ c, String.eqb (DeviceMAC c) mac) (Children b) with
      | Some c => if String.eqb (DNSProfileID c) "" then "default" else DNSProfileID c
      | None => "default"
      end
  end.

Definition BlockedCategoriesForIP (r : Runtime) (ip : string) : list string :=
  match active r with
  | None => []
  | Some b => match child_for_ip b ip with Some c => BlockedCategories c | None => [] end
  end.

Definition InternetPausedForIP (r : Runtime) (ip : string) : bool :=
  match active r with
  | None => false
  | Some b =>
      match child_for_ip b ip with
      | Some c => LockEnabled c || String.eqb (Mode c) "paused"
      | None => false
      end
  end.

Definition EnrolledMACs (r : Runtime) : gset string :=
  match active r with
  | None => ∅
  | Some b => list_to_set (List.filter (λ m, negb (String.eqb m "")) (map DeviceMAC (Children b)))
  end.

Definition ActiveBundle (r : Runtime) : go Bundle :=
  match active r with Some b => Ret b | None => Err "no active bundle" end.

(** [write_fails]: the upsert returns an error. *)
Definition SwapBundle (write_fails : bool) (r : Runtime) (b : option Bundle) : Runtime * option string :=
  match b with
  | None => (r, Some "bundle cannot be nil")
  | Some b =>
      match Marshal b with
      | Ret raw =>
          if write_fails then (r, Some "upsert bundle") else
          (MkRuntime (Some (Row (Version b) (IssuedAt b) (ExpiresAt b) (Signature b) raw)) (Some b)
             (onSwap r) (if onSwap r then S (swaps r) else swaps r), None)
      | _ => (r, Some "marshal bundle")
      end
  end.

(** [query_fails]: the SELECT returns an error other than [ErrNoRows]. *)
Definition loadActive (query_fails : bool) (r : Runtime) : Runtime * option string :=
  if query_fails then (r, Some "query active bundle") else
  match db r with
  | None => (r, None)
  | Some row =>
      match Unmarshal (row_payload row) with
      | Ret b => (MkRuntime (db r) (Some b) (onSwap r) (swaps r), None)
      | _ => (r, Some "unmarshal active bundle")
      end
  end.

(** A new process on the same database: [NewRuntime] then [Start]. *)
Definition NewRuntime (stored : option row) : Runtime := MkRuntime stored None false 0.
Definition restart (query_fails : bool) (r : Runtime) : Runtime * option string :=
  loadActive query_fails (NewRuntime (db r)).

(** ** Persistence *)

(** The memory and the database agree: what a restart would load is what is
    active. *)
Definition consistent (r : Runtime) : Prop :=
  match db r, active r with
  | None, None => True
  | Some row, Some b => Unmarshal (row_payload row) = Ret b
  | _, _ => False
  end.

(** C18. The runtime survives a restart: as long as the JSON codec decodes
    what it encoded, from a state in agreement with its database any sequence
    of swaps, with any of them failing on the way, leaves a state that a new
    process reloads to the same active bundle, and a swap that reported an
    error changed nothing. *)
Theorem swap_survives_restart (r : Runtime) (ops : list (bool * option Bundle)) :
  (∀ b raw, Marshal b = Ret raw → Unmarshal raw = Ret b) →
  consistent r →
  let r' := fold_left (λ r op, fst (SwapBundle op.1 r op.2)) ops r in
  consistent r' ∧
  snd (restart false r') = None ∧ active (fst (restart false r')) = active r' ∧
  (∀ f b e, snd (SwapBundle f r' b) = Some e → fst (SwapBundle f r' b) = r').
Proof.
  intros Hcodec Hc r'.
  assert (Hc' : consistent r').
  { unfold r'. clear r'. revert r Hc. induction ops as [|[f b] ops IH]; intros r Hc; [done|].
    simpl. apply IH. destruct b as [b|]; simpl; [|done].
    destruct (Marshal b) eqn:E; [|done..]. destruct f; [done|]. by apply Hcodec. }
  split; [done|]. unfold restart, loadActive. simpl.
  assert (Hr : active (NewRuntime (db r')) = None) by done.
  unfold consistent in Hc'. destruct (db r'), (active r') eqn:Ea; try done.
  - rewrite Hc'. split; [done|]. split; [done|].
    intros f [b'|] e; simpl; [|done]. destruct (Marshal b'), f; naive_solver.
  - split; [done|]. split; [done|].
    intros f [b'|] e; simpl; [|done]. destruct (Marshal b'), f; naive_solver.
Qed.

(** What the resolver asks about a device is answered from the first child
    with that tunnel address, with or without the "/32" on either side. *)
Lemma policy_prefix_irrelevant r ip :
  cleanIP ip = ip →
  InternetPausedForIP r (ip +:+ "/32") = InternetPausedForIP r ip ∧
  BlockedCategoriesForIP r (ip +:+ "/32") = BlockedCategoriesForIP r ip.
Proof.
  intros H. unfold InternetPausedForIP, BlockedCategoriesForIP, child_for_ip.
  replace (cleanIP (ip +:+ "/32")) with (cleanIP ip); [done|].
  rewrite H. symmetry. apply trim_suffix_append.
Qed.
End Runtime.
Arguments Runtime : clear implicits.
Arguments row : clear implicits.

Definition sample_child : ChildEffectiveState :=
  Child "c1" "aa:bb" "key" "10.10.0.5/32" "paused" false "" [] ["adult"].
Definition sample_bundle : Bundle := MkBundle "v1" 0 hour "sig" [] [sample_child].

Lemma swap_survives_restart_witness :
  active (fst (restart Ret false (fst (SwapBundle Ret false (NewRuntime None) (Some sample_bundle))))) = Some sample_bundle.
Proof.
  destruct (swap_survives_restart Ret Ret (NewRuntime None) [(false, Some sample_bundle)])
    as (_ & _ & H & _); [by intros ? ? [= ->]|exact I|exact H].
Defined.
