(* ===== verification/Resolver.v ===== *)
(** [internal/dns/resolver.go], [block_sink.go] and the request handlers of
    [server.go]: the decision made for each DNS query and its transport
    framing. *)
From stdpp Require Import gmap.
From S2P Require Import Prelude GoString Wire Blocklist Policy.

Local Open Scope Z_scope.

(** What the resolver asks of the policy engine. *)
Class PolicyReader (P : Type) := {
  pr_DNSProfileForMAC : P → string → string;
  pr_InternetPausedForIP : P → string → bool;
  pr_BlockedCategoriesForIP : P → string → list string;
}.

#[export] Instance runtime_reader {Json} : PolicyReader (Policy.Runtime Json) := {|
  pr_DNSProfileForMAC := DNSProfileForMAC;
  pr_InternetPausedForIP := InternetPausedForIP;
  pr_BlockedCategoriesForIP := BlockedCategoriesForIP;
|}.

Record BlockEvent := MkBlockEvent { be_Domain : string; be_SrcIP : string; be_Category : string }.

(** What a resolution does besides returning: block events recorded in the
    sink and upstream servers contacted, in order. *)
Inductive event :=
| RecordBlock (e : BlockEvent)
| Contact (upstream : string).

Definition qTypeA : Z := 1.
Definition sinkholeIP : bytes := [z2b 10; z2b 10; z2b 0; z2b 254].

Section Resolver.
Context `{U : UnicodeTables} {P : Type} `{PR : PolicyReader P}.

Record Resolver := MkResolver {
  blocklist : Blocklist;
  policy : option P;
  upstreams : list string;
}.

Definition NewResolver (bl : Blocklist) (p : option P) : Resolver :=
  MkResolver bl p ["1.1.1.1:53"; "8.8.8.8:53"]%string.

(** One UDP exchange with an upstream server: its datagram or an error. *)
Variable forwardOnce : string → bytes → go bytes.

(** [forward]: the servers in order until one answers, then the last error. *)
Fixpoint forward_loop (ups : list string) (query : bytes) (lastErr : option string)
    : list event * go (option bytes) :=
  match ups with
  | [] => ([], match lastErr with Some e => Err e | None => Ret None end)
  | u :: ups =>
      match forwardOnce u query with
      | Ret resp => ([Contact u], Ret (Some resp))
      | Err e => let '(evs, out) := forward_loop ups query (Some e) in (Contact u :: evs, out)
      | Panic => ([Contact u], Panic)
      | Loop => ([Contact u], Loop)
      end
  end.

Definition forward (r : Resolver) (query : bytes) : list event * go (option bytes) :=
  forward_loop (upstreams r) query None.

(** The reply to a blocked query. *)
Definition block_reply (isAQuery : bool) (query : bytes) : go (option bytes) :=
  if isAQuery then buildSinkholeA query sinkholeIP else buildNXDomain query.

Definition paused (r : Resolver) (srcIP : string) : bool :=
  match policy r with Some p => pr_InternetPausedForIP p srcIP | None => false end.

Definition categories (r : Resolver) (srcIP : string) : list string :=
  match policy r with Some p => pr_BlockedCategoriesForIP p srcIP | None => [] end.

Definition Resolve (r : Resolver) (query : bytes) (srcIP : string) : list event * go (option bytes) :=
  match parseQuery query with
  | Err _ => ([], buildServFail query)
  | Panic => ([], Panic)
  | Loop => ([], Loop)
  | Ret m =>
      match m_questions m with
      | [] => ([], buildServFail query)
      | q :: _ =>
          let domain := q_name q in
          let isAQuery := bool_decide (q_type q = qTypeA) in
          if paused r srcIP then ([], block_reply isAQuery query)
          else if IsBlocked (blocklist r) domain then
            let cat := CategoryFor (blocklist r) domain in
            ([RecordBlock (MkBlockEvent domain srcIP cat)], block_reply isAQuery query)
          else
            let cats := categories r srcIP in
            if bool_decide (0 < Z.of_nat (length cats)) && IsBlockedForCategories (blocklist r) domain cats then
              let cat := CategoryFor (blocklist r) domain in
              ([RecordBlock (MkBlockEvent domain srcIP cat)], block_reply isAQuery query)
            else
              let '(evs, out) := forward r query in
              (evs, match out with Err _ => buildServFail query | _ => out end)
      end
  end.

(** ** The transports *)

(** One UDP datagram: the read buffer holds 4096 bytes, and a [nil] reply is
    not sent. *)
Definition handle_udp (r : Resolver) (datagram : bytes) (srcIP : string) : list event * go (option bytes) :=
  Resolve r (take 4096 datagram) srcIP.

(** One TCP connection: [stream] is what the client sends before it closes
    or the deadline passes, the result what is written back. *)
Definition handleTCP (r : Resolver) (stream : bytes) (srcIP : string) : list event * go (option bytes) :=
  if decide (length stream < 2)%nat then ([], Ret None) else
  match be16 stream 0 with
  | Ret len =>
      if decide (length stream < 2 + Z.to_nat len)%nat then ([], Ret None) else
      let query := take (Z.to_nat len) (drop 2 stream) in
      let '(evs, out) := Resolve r query srcIP in
      (evs, out ≫= λ resp,
        match resp with
        | None => Ret None
        | Some resp => Ret (Some (enc16 (w16 (Z.of_nat (length resp))) ++ resp))
        end)
  | _ => ([], Panic)
  end.

(** ** Which queries leave the house *)

Definition contacts (evs : list event) : list string :=
  omap (λ e, match e with Contact u => Some u | _ => None end) evs.

Lemma block_reply_Ret query m q qs isA :
  parseQuery query = Ret m → m_questions m = q :: qs →
  ∃ resp, block_reply isA query = Ret (Some resp).
Proof.
  intros Hm Hq. unfold block_reply. destruct isA.
  - destruct (buildSinkholeA_Ret query m q qs sinkholeIP Hm Hq) as (a0 & a1 & _ & ->). eauto.
  - destruct (parseQuery_header _ _ Hm) as (_ & Hf & _ & _ & Hlen & _).
    unfold buildNXDomain. rewrite decide_False by lia.
    destruct (header_split query Hlen) as (a0&a1&a2&a3&a4&a5&a6&a7&a8&a9&a10&a11&rest&->).
    rewrite Hf. eauto.
Qed.

Lemma blocked_resolution r query m q qs srcIP :
  parseQuery query = Ret m → m_questions m = q :: qs →
  paused r srcIP = true ∨ IsBlocked (blocklist r) (q_name q) = true →
  ∃ resp, block_reply (bool_decide (q_type q = qTypeA)) query = Ret (Some resp) ∧
    Resolve r query srcIP =
    (if paused r srcIP then [] else
       [RecordBlock (MkBlockEvent (q_name q) srcIP (CategoryFor (blocklist r) (q_name q)))], Ret (Some resp)).
Proof.
  intros Hm Hq Hb.
  destruct (block_reply_Ret query m q qs (bool_decide (q_type q = qTypeA)) Hm Hq) as [resp Hr].
  exists resp. split; [done|]. unfold Resolve. rewrite Hm, Hq.
  destruct (paused r srcIP); [by rewrite Hr|]. destruct Hb as [Hb|Hb]; [done|]. by rewrite Hb, Hr.
Qed.

(** C1. No blocked name is ever sent upstream.  With the blocklist loaded
    from a set of rows, a query whose first question names a listed domain or
    a subdomain of one (or any query of a paused device that has a question)
    gets the block reply, whatever the upstream servers would say: no server is
    contacted. A paused device leaves no event; for any other exactly one block
    event is recorded, whose category is one the rows give to a parent of the
    name. *)
Theorem blocked_never_forwarded r old rows query m q qs srcIP :
  blocklist r = fst (Load old (Ret rows) None) →
  parseQuery query = Ret m → m_questions m = q :: qs →
  paused r srcIP = true ∨
    (norm_domain (q_name q) ≠ ""%string ∧ ∃ p cat, parent (norm_domain (q_name q)) p ∧ listed rows p cat) →
  ∃ resp evs, Resolve r query srcIP = (evs, Ret (Some resp)) ∧
    block_reply (bool_decide (q_type q = qTypeA)) query = Ret (Some resp) ∧
    contacts evs = [] ∧ (paused r srcIP = true → evs = []) ∧
    (paused r srcIP = false → ∃ e p, evs = [RecordBlock e] ∧ be_Domain e = q_name q ∧ be_SrcIP e = srcIP ∧
       parent (norm_domain (q_name q)) p ∧ listed rows p (be_Category e)).
Proof.
  intros Hbl Hm Hq Hb. simpl in Hbl. pose proof (loaded_rows rows) as Hl. rewrite <- Hbl in Hl.
  assert (Hb' : paused r srcIP = true ∨ IsBlocked (blocklist r) (q_name q) = true).
  { destruct Hb as [?|Hb]; [by left|right]. by apply (IsBlocked_loaded rows). }
  destruct (blocked_resolution r query m q qs srcIP Hm Hq Hb') as (resp & Hr & ->).
  eexists resp, _. split; [done|]. split; [done|]. split; [by destruct (paused r srcIP)|].
  split; [by intros ->|]. intros Hp. rewrite Hp in Hb' |- *. destruct Hb' as [Hb'|Hb']; [done|].
  destruct (CategoryFor_loaded rows _ (q_name q) Hl Hb') as (p & Hpar & Hlist & _).
  eexists _, p. split; [done|]. by simpl.
Qed.

(** A server that gives no answer. *)
Definition fails (query : bytes) (u : string) : Prop := ∃ e, forwardOnce u query = Err e.

(** The servers are asked in order up to the first that answers. *)
Lemma forward_loop_first query ups e :
  (∀ u, u ∈ ups → safe (forwardOnce u query)) →
  (∃ pre u post resp, ups = pre ++ u :: post ∧ Forall (fails query) pre ∧ forwardOnce u query = Ret resp ∧
     forward_loop ups query e = (map Contact (pre ++ [u]), Ret (Some resp))) ∨
  (Forall (fails query) ups ∧ (ups ≠ [] ∨ e ≠ None → ∃ e', forward_loop ups query e = (map Contact ups, Err e'))).
Proof.
  revert e. induction ups as [|u ups IH]; intros e Hs; simpl.
  { right. split; [done|]. intros [?|He]; [done|]. destruct e as [e|]; [by exists e|done]. }
  destruct (Hs u) as [H1 H2]; [by left|].
  destruct (forwardOnce u query) as [resp|e'| |] eqn:E; try done.
  { left. by exists [], u, ups, resp. }
  destruct (IH (Some e') ltac:(intros; apply Hs; by right)) as [(pre & v & post & resp & -> & Hp & Hv & ->)|[Hf Hr]].
  - left. exists (u :: pre), v, post, resp. split; [done|]. split; [constructor; [by exists e'|done]|]. by split.
  - right. split; [constructor; [by exists e'|done]|]. intros _. destruct Hr as [e'' ->]; [by right|]. by exists e''.
Qed.

Lemma buildServFail_Some query : (12 ≤ length query)%nat → ∃ resp, buildServFail query = Ret (Some resp).
Proof.
  intros Hlen. destruct (header_split query Hlen) as (a0&a1&a2&a3&a4&a5&a6&a7&a8&a9&a10&a11&rest&->).
  unfold buildServFail. rewrite decide_False by (simpl; lia). rewrite slice_Ret by (simpl; lia). eauto.
Qed.

(** The query is not to be forwarded: the device is paused, the name is listed,
    or it is listed in a category the device may not use. *)
Definition refused (r : Resolver) (q : question) (srcIP : string) : bool :=
  paused r srcIP || IsBlocked (blocklist r) (q_name q) ||
  (bool_decide (0 < Z.of_nat (length (categories r srcIP))) && IsBlockedForCategories (blocklist r) (q_name q) (categories r srcIP)).

Lemma refused_resolution r query m q qs srcIP :
  parseQuery query = Ret m → m_questions m = q :: qs → refused r q srcIP = true →
  ∃ evs, contacts evs = [] ∧ Resolve r query srcIP = (evs, block_reply (bool_decide (q_type q = qTypeA)) query).
Proof.
  intros Hm Hq. unfold refused, Resolve. rewrite Hm, Hq. destruct (paused r srcIP); [intros _; by exists []|].
  destruct (IsBlocked _ _); simpl; [intros _|intros ->]; (eexists; split; [|reflexivity]; done).
Qed.

Lemma open_resolution r query m q qs srcIP :
  parseQuery query = Ret m → m_questions m = q :: qs → refused r q srcIP = false →
  Resolve r query srcIP = let '(evs, out) := forward r query in (evs, match out with Err _ => buildServFail query | _ => out end).
Proof.
  intros Hm Hq. unfold refused, Resolve. rewrite Hm, Hq. destruct (paused r srcIP); [done|].
  destruct (IsBlocked _ _); [done|]. simpl. by intros ->.
Qed.

(** C8. Every query that has a header is answered, when the parser returns on it
    and at least one upstream is configured. A malformed message and one without
    a question get a SERVFAIL, and no server is asked; a query that is to be
    refused (paused device, listed name, forbidden category) gets the block
    reply, and no server is asked; any other gets the answer of the first server
    that gives one, after those before it have failed and no other is asked, and
    a SERVFAIL exactly when all have been asked and failed. A datagram shorter
    than a header gets no reply. *)
Theorem every_query_answered r query srcIP :
  upstreams r ≠ [] → (∀ u, u ∈ upstreams r → safe (forwardOnce u query)) →
  parseQuery query ≠ Loop →
  ((12 ≤ length query)%nat → ∃ evs resp, Resolve r query srcIP = (evs, Ret (Some resp)) ∧
     match m_questions <$> (match parseQuery query with Ret m => Some m | _ => None end) with
     | None | Some [] => evs = [] ∧ buildServFail query = Ret (Some resp)
     | Some (q :: _) =>
         if refused r q srcIP
         then contacts evs = [] ∧ block_reply (bool_decide (q_type q = qTypeA)) query = Ret (Some resp)
         else (∃ pre u post, upstreams r = pre ++ u :: post ∧ Forall (fails query) pre ∧
                 forwardOnce u query = Ret resp ∧ evs = map Contact (pre ++ [u])) ∨
              (Forall (fails query) (upstreams r) ∧ evs = map Contact (upstreams r) ∧ buildServFail query = Ret (Some resp))
     end) ∧
  ((length query < 12)%nat → Resolve r query srcIP = ([], Ret None)).
Proof.
  intros Hne Hs HL. split.
  2:{ intros Hlen. unfold Resolve. assert (parseQuery query = Err errShort) as ->
        by (unfold parseQuery; by rewrite decide_True).
      unfold buildServFail. by rewrite decide_True. }
  intros Hlen. destruct (buildServFail_Some query Hlen) as [sf Hsf].
  pose proof (parseQuery_no_panic_aux query) as HP.
  destruct (parseQuery query) as [m|e| |] eqn:Hm; try done; simpl.
  2:{ exists [], sf. unfold Resolve. by rewrite Hm, Hsf. }
  destruct (m_questions m) as [|q qs] eqn:Hq.
  { exists [], sf. unfold Resolve. by rewrite Hm, Hq, Hsf. }
  destruct (refused r q srcIP) eqn:Hr.
  - destruct (block_reply_Ret query m q qs (bool_decide (q_type q = qTypeA)) Hm Hq) as [resp Hb].
    destruct (refused_resolution r query m q qs srcIP Hm Hq Hr) as (evs & He & HR). exists evs, resp. by rewrite HR, Hb.
  - rewrite (open_resolution r query m q qs srcIP Hm Hq Hr). unfold forward.
    destruct (forward_loop_first query (upstreams r) None Hs) as [(pre & u & post & resp & E & Hp & Hu & HF)|[Hf HF]].
    + rewrite HF. exists (map Contact (pre ++ [u])), resp. split; [done|]. left. by exists pre, u, post.
    + destruct (HF (or_introl Hne)) as [e' ->]. exists (map Contact (upstreams r)), sf. split; [by rewrite Hsf|]. by right.
Qed.

(** TCP framing: the handler resolves exactly the framed query,
    ignoring what follows it, and what it writes is the reply behind its
    two-byte length, which a client reads back when the reply is shorter
    than 64 KiB; a truncated frame gets nothing. *)
Theorem tcp_framing r query rest srcIP evs resp :
  (Z.of_nat (length query) < 65536) → Resolve r query srcIP = (evs, Ret (Some resp)) →
  (Z.of_nat (length resp) < 65536) →
  ∃ out, handleTCP r (enc16 (Z.of_nat (length query)) ++ query ++ rest) srcIP = (evs, Ret (Some out)) ∧
    be16 out 0 = Ret (Z.of_nat (length resp)) ∧ drop 2 out = resp ∧
    ∀ k, (k < length query)%nat →
      handleTCP r (enc16 (Z.of_nat (length query)) ++ take k query) srcIP = ([], Ret None).
Proof.
  intros Hq Hr Hlen. exists (enc16 (Z.of_nat (length resp)) ++ resp). split; [|split; [|split]].
  - unfold handleTCP. rewrite decide_False by (simpl; lia).
    rewrite be16_head by lia.
    rewrite decide_False by (rewrite !length_app; simpl; lia).
    change (drop 2 (enc16 _ ++ query ++ rest)) with (query ++ rest).
    rewrite Nat2Z.id, take_app_length, Hr. simpl. unfold w16. by rewrite Z.mod_small by lia.
  - apply be16_head. lia.
  - done.
  - intros k Hk. unfold handleTCP. rewrite decide_False by (simpl; lia).
    rewrite be16_head by lia.
    rewrite decide_True; [done|]. rewrite length_app, length_take. simpl. lia.
Qed.
End Resolver.
Arguments Resolver : clear implicits.

(** ** Concrete instances *)

(** An A query for "x.bad". *)
Definition sample_query : bytes :=
  map z2b [1; 2; 1; 0; 0; 1; 0; 0; 0; 0; 0; 0; 1; 120; 3; 98; 97; 100; 0; 0; 1; 0; 1].

Definition sample_rows : list (option (string * string)) :=
  [Some ("Bad.", "Malware"); None]%string.

#[local] Existing Instance ascii_tables.

Definition sample_resolver : Resolver (Policy.Runtime string) :=
  MkResolver (fst (Load NewBlocklist (Ret sample_rows) None)) None ["1.1.1.1:53"]%string.

Lemma blocked_never_forwarded_witness :
  ∃ resp evs, Resolve (λ _ q, Ret q) sample_resolver sample_query "10.10.0.5" = (evs, Ret (Some resp)) ∧
    contacts evs = [].
Proof.
  destruct (blocked_never_forwarded (λ _ q, Ret q) sample_resolver NewBlocklist sample_rows sample_query
    (Msg 258 256 1 [Question "x.bad" 1 1] sample_query) (Question "x.bad" 1 1) [] "10.10.0.5")
    as (resp & evs & Hr & _ & Hc & _ & _).
  - reflexivity.
  - vm_compute. reflexivity.
  - reflexivity.
  - right. split; [done|]. exists "bad"%string, "malware"%string. split.
    + eapply parent_up; [reflexivity|]. apply parent_self.
    + split; [done|]. exists "Bad."%string, "Malware"%string. split; [by left|]. by vm_compute.
  - exact (ex_intro _ resp (ex_intro _ evs (conj Hr Hc))).
Defined.

(** The same resolver with an empty blocklist: the query is forwarded. *)
Definition open_resolver : Resolver (Policy.Runtime string) :=
  MkResolver NewBlocklist None ["1.1.1.1:53"; "8.8.8.8:53"]%string.

Definition flaky (u : string) (q : bytes) : go bytes :=
  if String.eqb u "1.1.1.1:53" then Err "timeout" else Ret (x2a :: q).

(** The first server fails and the second answers. *)
Lemma every_query_answered_witness :
  ∃ evs resp, Resolve flaky open_resolver sample_query "10.10.0.5" = (evs, Ret (Some resp)) ∧
    ∃ pre u post, upstreams open_resolver = pre ++ u :: post ∧ flaky u sample_query = Ret resp.
Proof.
  destruct (every_query_answered flaky open_resolver sample_query "10.10.0.5") as [H _].
  - done.
  - intros u _. unfold flaky. by destruct (String.eqb _ _).
  - by vm_compute.
  - destruct H as (evs & resp & H & Hc); [simpl; lia|]. exists evs, resp. split; [exact H|].
    replace (parseQuery sample_query) with (Ret (Msg 258 256 1 [Question "x.bad" 1 1] sample_query)) in Hc by (by vm_compute).
    cbn [fmap option_fmap option_map m_questions] in Hc.
    replace (refused open_resolver _ _) with false in Hc by (by vm_compute).
    destruct Hc as [(pre & u & post & E & _ & Hu & _)|(Hf & _)]; [by exists pre, u, post|].
    rewrite Forall_forall in Hf. destruct (Hf "8.8.8.8:53"%string) as [e He]; [right; left|]. exfalso. unfold flaky in He. simpl in He. discriminate He.
Defined.

Lemma tcp_framing_witness :
  ∃ out, snd (handleTCP flaky open_resolver (enc16 23 ++ sample_query ++ [x01; x02]) "10.10.0.5") = Ret (Some out) ∧
    drop 2 out = x2a :: sample_query.
Proof.
  destruct (tcp_framing flaky open_resolver sample_query [x01; x02] "10.10.0.5"
    [Contact "1.1.1.1:53"; Contact "8.8.8.8:53"] (x2a :: sample_query)) as (out & H & _ & Hd & _).
  - simpl. lia.
  - by vm_compute.
  - simpl. lia.
  - exists out. split; [|exact Hd]. change 23 with (Z.of_nat (length sample_query)). by rewrite H.
Defined.
