(* ===== verification/SniProxy.v ===== *)
(** [internal/sniproxy/sniproxy.go]: the transparent TLS proxy that blocks by
    server name, and its agreement with the DNS resolver. *)
From stdpp Require Import gmap.
From S2P Require Import Prelude GoString Wire Blocklist Policy Resolver.

Local Open Scope Z_scope.

Definition protectiveCategories : list string :=
  ["phishing"; "malware"; "scam"; "ransomware"; "cryptojacking"; "newly_registered"]%string.

(** What becomes of a connection: closed, spliced to its original destination,
    or answered with a TLS alert and reset. *)
Inductive outcome := Closed | PassThrough | Alert (reply : bytes).

Definition alert_bytes : bytes := [x15; x03; x03; x00; x02; x02; x28].

(** The capacity of the [bufio.Reader] of a connection. *)
Definition reader_size : nat := Z.to_nat 16384.

(** [br.Peek(n)] on what the client sends before the peek deadline: an error
    when the stream ends before [n] bytes, and when [n] exceeds the buffer
    ([bufio.ErrBufferFull]). *)
Definition Peek (stream : bytes) (n : nat) : option bytes :=
  if decide (reader_size < n)%nat then None
  else if decide (length stream < n)%nat then None
  else Some (take n stream).

Section SniProxy.
Context `{U : UnicodeTables} {P : Type} `{PR : PolicyReader P}.

Definition isProtective (category : string) : bool :=
  existsb (String.eqb (to_lower category)) protectiveCategories.

Record Server := MkServer { s_blocklist : Blocklist; s_policy : option P }.

Definition sni_paused (s : Server) (srcIP : string) : bool :=
  match s_policy s with Some p => pr_InternetPausedForIP p srcIP | None => false end.

Definition sni_categories (s : Server) (srcIP : string) : list string :=
  match s_policy s with Some p => pr_BlockedCategoriesForIP p srcIP | None => [] end.

(** The decision part of [handle], from the lower-cased name on. *)
Definition decide_sni (s : Server) (srcIP : string) (sni : string) : list BlockEvent * outcome :=
  let cats := sni_categories s srcIP in
  let known := bool_decide (0 < Z.of_nat (length cats)) in
  if sni_paused s srcIP then ([MkBlockEvent sni srcIP "paused"], Alert alert_bytes)
  else if IsBlocked (s_blocklist s) sni then
    let cat := CategoryFor (s_blocklist s) sni in
    if negb known && negb (isProtective cat) then ([], PassThrough)
    else ([MkBlockEvent sni srcIP cat], Alert alert_bytes)
  else if known && IsBlockedForCategories (s_blocklist s) sni cats then
    ([MkBlockEvent sni srcIP (CategoryFor (s_blocklist s) sni)], Alert alert_bytes)
  else ([], PassThrough).

(** [extractSNI] is the server name that [crypto/tls] reads from one record,
    empty when there is none. *)
Definition handle (extractSNI : bytes → string) (s : Server) (srcIP : string) (stream : bytes) : list BlockEvent * outcome :=
  match Peek stream 5 with
  | None => ([], Closed)
  | Some hdr =>
      match hdr with
      | t :: _ :: _ :: hi :: lo :: _ =>
          if negb (bool_decide (b2z t = 0x16)) then ([], PassThrough) else
          let recLen := Z.lor (Z.shiftl (b2z hi) 8) (b2z lo) in
          if bool_decide (recLen ≤ 0 ∨ 16384 < recLen) then ([], Closed) else
          match Peek stream (5 + Z.to_nat recLen) with
          | None => ([], PassThrough)
          | Some full =>
              let sni := extractSNI full in
              if String.eqb sni "" then ([], PassThrough)
              else decide_sni s srcIP (to_lower sni)
          end
      | _ => ([], Closed)
      end
  end.

(** ** Agreement with the resolver *)

(** The resolver over the same blocklist and policy. *)
Definition as_resolver (s : Server) (ups : list string) : Resolver.Resolver P :=
  MkResolver (s_blocklist s) (s_policy s) ups.

Definition dns_blocks (s : Server) (srcIP name : string) : bool :=
  sni_paused s srcIP || IsBlocked (s_blocklist s) name ||
  (bool_decide (0 < Z.of_nat (length (sni_categories s srcIP))) &&
   IsBlockedForCategories (s_blocklist s) name (sni_categories s srcIP)).

Lemma Resolve_dns_blocks fwd s ups query m q qs srcIP :
  parseQuery query = Ret m → m_questions m = q :: qs → ups ≠ [] →
  contacts (fst (Resolve fwd (as_resolver s ups) query srcIP)) = [] ↔
  dns_blocks s srcIP (q_name q) = true.
Proof.
  intros Hm Hq Hne. unfold Resolve. rewrite Hm, Hq. unfold dns_blocks, as_resolver, paused, categories.
  simpl. fold (sni_paused s srcIP). fold (sni_categories s srcIP).
  destruct (sni_paused s srcIP); [done|].
  destruct (IsBlocked (s_blocklist s) (q_name q)); [done|].
  destruct (bool_decide _ && _); [done|]. simpl. unfold forward. simpl.
  destruct ups as [|u ups]; [done|]. simpl.
  destruct (fwd u query); simpl; try done.
  destruct (forward_loop fwd ups query _). done.
Qed.

Definition passes (d : list BlockEvent * outcome) : Prop := snd d = PassThrough.

(** C14. The proxy and the resolver agree: over one blocklist and policy, the
    proxy resets a connection for a name exactly when the resolver blocks a
    query for that name, except that for a device without category rules a
    globally listed name whose category is not a protective one is let
    through by the proxy; and every reset records exactly one event. *)
Theorem sni_agrees_with_dns fwd s ups query m q qs srcIP :
  parseQuery query = Ret m → m_questions m = q :: qs → ups ≠ [] →
  let exempt := sni_paused s srcIP = false ∧ IsBlocked (s_blocklist s) (q_name q) = true ∧
    sni_categories s srcIP = [] ∧ isProtective (CategoryFor (s_blocklist s) (q_name q)) = false in
  (snd (decide_sni s srcIP (q_name q)) = Alert alert_bytes ↔
    contacts (fst (Resolve fwd (as_resolver s ups) query srcIP)) = [] ∧ ¬ exempt) ∧
  (snd (decide_sni s srcIP (q_name q)) = Alert alert_bytes →
    ∃ cat, fst (decide_sni s srcIP (q_name q)) = [MkBlockEvent (q_name q) srcIP cat]).
Proof.
  intros Hm Hq Hne exempt. rewrite (Resolve_dns_blocks fwd s ups query m q qs srcIP Hm Hq Hne).
  unfold exempt, decide_sni, dns_blocks.
  assert (Hlen : bool_decide (0 < Z.of_nat (length (sni_categories s srcIP))) = true ↔
    sni_categories s srcIP ≠ []).
  { rewrite bool_decide_eq_true. destruct (sni_categories s srcIP); simpl; [done|].
    split; [done|]. intros _. lia. }
  destruct (sni_paused s srcIP); simpl; [naive_solver|].
  destruct (IsBlocked (s_blocklist s) (q_name q)); simpl.
  - destruct (bool_decide _); simpl; [naive_solver|].
    assert (sni_categories s srcIP = []) by (destruct (sni_categories s srcIP); naive_solver).
    destruct (isProtective _); simpl; naive_solver.
  - destruct (bool_decide _ && _); simpl; naive_solver.
Qed.

(** ** Records that are inspected, and one that is not *)

(** Every handshake record of up to 16379 bytes that carries a server
    name is decided on that name, whatever follows it on the connection. *)
Theorem record_inspected extractSNI s srcIP a b body rest :
  let n := Z.of_nat (length body) in
  let record := x16 :: a :: b :: enc16 n ++ body in
  0 < n < 16380 → extractSNI record ≠ ""%string →
  handle extractSNI s srcIP (record ++ rest) = decide_sni s srcIP (to_lower (extractSNI record)).
Proof.
  intros n record Hn Hsni. unfold handle, Peek.
  rewrite decide_False by (unfold reader_size; lia).
  rewrite decide_False by (unfold record; rewrite length_app; simpl; lia).
  change (take 5 (record ++ rest)) with (x16 :: a :: b :: enc16 n). cbn [enc16].
  rewrite bool_decide_true by done. cbn [negb].
  rewrite hi8_lo8_lor by lia. rewrite bool_decide_false by lia.
  rewrite decide_False by (unfold reader_size; lia).
  rewrite decide_False by (unfold record; rewrite length_app; simpl; lia).
  replace (5 + Z.to_nat n)%nat with (length record) by (unfold record, n; simpl; lia).
  rewrite take_app_length. destruct (String.eqb_spec (extractSNI record) ""); done.
Qed.

(** The peek buffer is five bytes too small: a handshake record whose
    length is 16380 to 16384 passes the length check, but the reader can
    never peek header and body together, so the connection is spliced
    through unexamined, whatever the server name in it, even for a paused
    device. *)
Theorem oversized_record_bypasses extractSNI s srcIP a b body rest :
  let n := Z.of_nat (length body) in
  let record := x16 :: a :: b :: enc16 n ++ body in
  16380 ≤ n ≤ 16384 →
  handle extractSNI s srcIP (record ++ rest) = ([], PassThrough).
Proof.
  intros n record Hn. unfold handle, Peek.
  rewrite decide_False by (unfold reader_size; lia).
  rewrite decide_False by (unfold record; rewrite length_app; simpl; lia).
  change (take 5 (record ++ rest)) with (x16 :: a :: b :: enc16 n). cbn [enc16].
  rewrite bool_decide_true by done. cbn [negb].
  rewrite hi8_lo8_lor by lia. rewrite bool_decide_false by lia.
  by rewrite decide_True by (unfold reader_size; lia).
Qed.
End SniProxy.
Arguments Server : clear implicits.

(** ** Concrete instances *)

#[local] Existing Instance ascii_tables.

Definition sample_server : Server (Policy.Runtime string) :=
  MkServer (fst (Load NewBlocklist (Ret [Some ("bank.example", "fake_banking")]%string) None)) None.

(** A one-byte record whose "name" is its body. *)
Definition name_of (record : bytes) : string := of_bytes (drop 5 record).

Definition bank_query : bytes :=
  map z2b [1; 2; 1; 0; 0; 1; 0; 0; 0; 0; 0; 0; 4; 98; 97; 110; 107; 7; 101; 120; 97; 109; 112; 108; 101; 0; 0; 1; 0; 1].

(** The category "fake_banking", protective in the comments of the blocklist,
    is not in the proxy's list: the resolver blocks the name, the proxy does
    not. *)
Lemma sni_agrees_with_dns_witness :
  ¬ (snd (decide_sni sample_server "10.10.0.5" "bank.example") = Alert alert_bytes) ∧
  contacts (fst (Resolve (λ _ q, Ret q) (as_resolver sample_server ["1.1.1.1:53"]%string) bank_query "10.10.0.5")) = [].
Proof.
  destruct (sni_agrees_with_dns (λ _ q, Ret q) sample_server ["1.1.1.1:53"]%string bank_query
    (Msg 258 256 1 [Question "bank.example" 1 1] bank_query) (Question "bank.example" 1 1) [] "10.10.0.5")
    as [[H _] _]; [by vm_compute|done|done|].
  split; [|by vm_compute]. intros Ha. destruct (H Ha) as [_ Hn]. apply Hn.
  repeat split; by vm_compute.
Defined.

Lemma record_inspected_witness :
  handle name_of sample_server "10.10.0.5" (x16 :: x03 :: x01 :: enc16 1 ++ [x41; x00]) =
  decide_sni sample_server "10.10.0.5" "a".
Proof. exact (record_inspected name_of sample_server "10.10.0.5" x03 x01 [x41] [x00] ltac:(simpl; lia) ltac:(done)). Defined.

Lemma oversized_record_bypasses_witness :
  handle name_of sample_server "10.10.0.5"
    ((x16 :: x03 :: x01 :: enc16 (Z.of_nat (length (replicate (Z.to_nat 16380) x41))) ++
      replicate (Z.to_nat 16380) x41) ++ []) = ([], PassThrough).
Proof. apply oversized_record_bypasses. rewrite length_replicate. lia. Defined.
