(* ===== verification/Splice.v ===== *)
(** [internal/sniproxy/sniproxy.go], [original_dst.go]: the connection under
    the decision of [SniProxy]: its buffered reader, the read deadline, the
    original destination and the two copies of a spliced connection. *)
From S2P Require Import Prelude Wire Blocklist Policy Resolver SniProxy Net GoString.

Local Open Scope nat_scope.

(** ** Reading from a connection

    A connection is the list of chunks that its [Read]s find, in order; no chunk
    is empty, and the empty list is the end of the stream. *)
Abbreviation stream := (list bytes).

(** [conn.Read(p)] with [len(p) = n]; [None] is [io.EOF]. *)
Definition conn_read (n : nat) (s : stream) : option (bytes * stream) :=
  match s with
  | [] => None
  | c :: s => Some (take n c, if decide (length c ≤ n) then s else drop n c :: s)
  end.

(** [bufio.Reader]: its buffer; the connection, what arrives before the read
    deadline and what arrives later (without a deadline all is early); and
    whether a read error is remembered: it is reported by the next call that
    finds the buffer empty, even when the deadline is lifted in between. *)
Record reader := Reader { buffered : bytes; early : stream; late : stream; sticky : bool }.

Definition NewReaderSize (e l : stream) : reader := Reader [] e l false.

(** [conn.SetReadDeadline(time.Time{})] *)
Definition clear_deadline (r : reader) : reader := Reader (buffered r) (early r ++ late r) [] (sticky r).

(** The loop of [Peek]: [fill] reads once into the free part of the buffer; the
    last component tells whether it ended with an error of the read (the end of
    the stream, or the deadline). *)
Fixpoint fill (n : nat) (buf : bytes) (s : stream) : bytes * stream * bool :=
  if decide (n ≤ length buf ∨ reader_size ≤ length buf) then (buf, s, false) else
  match s with
  | [] => (buf, [], true)
  | c :: s' =>
      let room := reader_size - length buf in
      if decide (length c ≤ room) then fill n (buf ++ c) s'
      else (buf ++ take room c, drop room c :: s', false)
  end.

(** [br.Peek(n)]: [None] for an error. More than the buffer holds is refused with
    [ErrBufferFull], which leaves the error of the read where it is; otherwise
    what is missing is reported by that error, which is then forgotten. *)
Definition peek (n : nat) (r : reader) : option bytes * reader :=
  let '(buf, e, err) := if sticky r then (buffered r, early r, true) else fill n (buffered r) (early r) in
  if decide (reader_size < n) then (None, Reader buf e (late r) err)
  else if decide (length buf < n) then (None, Reader buf e (late r) false)
  else (Some (take n buf), Reader buf e (late r) err).

(** [br.Read(p)]: what is buffered, then the error remembered, or one read,
    straight into a large [p]. *)
Definition read (n : nat) (r : reader) : option (bytes * reader) :=
  match buffered r with
  | _ :: _ => Some (take n (buffered r), Reader (drop n (buffered r)) (early r) (late r) (sticky r))
  | [] =>
      if sticky r then None else
      let wanted := if decide (reader_size ≤ n) then n else reader_size in
      p ← conn_read wanted (early r);
      Some (take n p.1, Reader (drop n p.1) p.2 (late r) false)
  end.

(** ** The original destination *)

(** [RawSockaddrInet4] as the kernel fills it: family, then the port in network
    order, read back as a number of a little-endian machine, then the address. *)
Definition port_field (raw : bytes) : go Z :=
  lo ← idx raw 2; hi ← idx raw 3; Ret (Z.lor (Z.shiftl (b2z hi) 8) (b2z lo)).

Definition originalDst (getsockopt : go bytes) : go string :=
  raw ← getsockopt;
  field ← port_field raw;
  addr ← slice raw 4 8;
  let port := Z.lor (Z.shiftr field 8) (Z.shiftl (Z.land field 255) 8) in
  Ret (show_quad (map b2z addr) +:+ ":" +:+ pretty port)%string.

(** ** The connection *)

(** [io.Copy]'s buffer. *)
Definition copy_size : nat := Z.to_nat 32768.

(** The two copies of [passThroughWrapped]: what each still reads, what it has
    written, and whether it has returned. *)
Record pipes := Pipes { client : reader; to_server : bytes; up_over : bool; server : stream; to_client : bytes; down_over : bool }.

(** [<-done]: the handler goes on when the first copy has returned, and closes
    both connections; the other copy may go on until it notices. *)
Definition finished (p : pipes) : bool := up_over p || down_over p.

Inductive copy_step : pipes → pipes → Prop :=
| up_copy r c r' o s o' d : read copy_size r = Some (c, r') →
    copy_step (Pipes r o false s o' d) (Pipes r' (o ++ c) false s o' d)
| up_write_fails r c r' o s o' d k : read copy_size r = Some (c, r') →
    copy_step (Pipes r o false s o' d) (Pipes r' (o ++ take k c) true s o' d)
| up_read_fails r o s o' d : copy_step (Pipes r o false s o' d) (Pipes r o true s o' d)
| up_eof r o s o' d : read copy_size r = None → copy_step (Pipes r o false s o' d) (Pipes r o true s o' d)
| down_copy r o u s c s' o' : conn_read copy_size s = Some (c, s') →
    copy_step (Pipes r o u s o' false) (Pipes r o u s' (o' ++ c) false)
| down_write_fails r o u s c s' o' k : conn_read copy_size s = Some (c, s') →
    copy_step (Pipes r o u s o' false) (Pipes r o u s' (o' ++ take k c) true)
| down_read_fails r o u s o' : copy_step (Pipes r o u s o' false) (Pipes r o u s o' true)
| down_eof r o u o' : copy_step (Pipes r o u [] o' false) (Pipes r o u [] o' true).

(** What a connection does: the address dialled, and the bytes that reach the
    destination and the client. *)
Record transcript := Transcript { dialled : option string; sent : bytes; received : bytes }.

Section Connection.
Context `{U : UnicodeTables} {P : Type} `{PR : PolicyReader P}.
Variable extractSNI : bytes → string.

(** [handle] up to its decision, with the reader as it leaves it. *)
Definition examine (s : SniProxy.Server P) (srcIP : string) (r : reader) : list BlockEvent * outcome * reader :=
  let '(hdr, r) := peek 5 r in
  match hdr with
  | Some (t :: _ :: _ :: hi :: lo :: _) =>
      if negb (bool_decide (b2z t = 0x16)%Z) then ([], PassThrough, clear_deadline r) else
      let recLen := Z.lor (Z.shiftl (b2z hi) 8) (b2z lo) in
      if bool_decide (recLen ≤ 0 ∨ 16384 < recLen)%Z then ([], Closed, clear_deadline r) else
      let '(full, r) := peek (5 + Z.to_nat recLen) r in
      let r := clear_deadline r in
      match full with
      | None => ([], PassThrough, r)
      | Some full =>
          let sni := extractSNI full in
          if String.eqb sni "" then ([], PassThrough, r)
          else (decide_sni s srcIP (to_lower sni), r)
      end
  | _ => ([], Closed, clear_deadline r)
  end.

(** A connection from beginning to end: [getsockopt] is the system call's
    answer, [dial] the stream of the server if it can be reached. *)
Inductive connection (s : SniProxy.Server P) (srcIP : string) (getsockopt : go bytes) (dial : string → option stream)
    (r : reader) : list BlockEvent → transcript → Prop :=
| conn_closed evs r' : examine s srcIP r = (evs, Closed, r') →
    connection s srcIP getsockopt dial r evs (Transcript None [] [])
| conn_alert evs a r' : examine s srcIP r = (evs, Alert a, r') →
    connection s srcIP getsockopt dial r evs (Transcript None [] a)
| conn_no_destination evs r' e : examine s srcIP r = (evs, PassThrough, r') → originalDst getsockopt = Err e →
    connection s srcIP getsockopt dial r evs (Transcript None [] [])
| conn_no_server evs r' dst : examine s srcIP r = (evs, PassThrough, r') → originalDst getsockopt = Ret dst →
    dial dst = None → connection s srcIP getsockopt dial r evs (Transcript (Some dst) [] [])
| conn_spliced evs r' dst srv p : examine s srcIP r = (evs, PassThrough, r') → originalDst getsockopt = Ret dst →
    dial dst = Some srv → star copy_step (Pipes r' [] false srv [] false) p → finished p = true →
    connection s srcIP getsockopt dial r evs (Transcript (Some dst) (to_server p) (to_client p)).
End Connection.

(** The port is swapped back and the address printed: the destination is the
    one the kernel recorded. *)
Lemma swap_port x y : (0 ≤ x < 256 → 0 ≤ y < 256 →
  Z.lor (Z.shiftr (Z.lor (Z.shiftl x 8) y) 8) (Z.shiftl (Z.land (Z.lor (Z.shiftl x 8) y) 255) 8) = y * 256 + x)%Z.
Proof.
  intros Hx Hy. rewrite (Z.shiftl_mul_pow2 x) by lia. change (2 ^ 8)%Z with 256%Z. rewrite lor_disjoint_add by done.
  rewrite Z.shiftr_div_pow2, Z.shiftl_mul_pow2 by lia. change 255%Z with (Z.ones 8). rewrite Z.land_ones by lia.
  change (2 ^ 8)%Z with 256%Z. rewrite Z.div_add_l, Z.div_small by lia. rewrite (Z.add_comm (x * 256)), Z.mod_add, Z.mod_small by lia.
  rewrite Z.add_0_r, Z.lor_comm. by rewrite lor_disjoint_add.
Qed.

Lemma originalDst_recorded f g port a b c d rest : (0 ≤ port < 65536)%Z →
  originalDst (Ret (f :: g :: enc16 port ++ a :: b :: c :: d :: rest)) =
  Ret (show_quad (map b2z [a; b; c; d]) +:+ ":" +:+ pretty port)%string.
Proof.
  intros Hp. unfold originalDst, port_field. cbn [enc16 app mbind go_bind].
  rewrite (idx_Ret _ 2 (hi8 port)), (idx_Ret _ 3 (lo8 port)) by done. rewrite slice_Ret by (simpl; lia).
  cbn [mbind go_bind drop take Nat.sub]. rewrite swap_port by apply b2z_range. by rewrite hi8_lo8.
Qed.

(** ** The reader *)

Lemma copy_size_large : reader_size ≤ copy_size.
Proof. unfold reader_size, copy_size. lia. Qed.

Lemma copy_size_pos : 0 < copy_size.
Proof. unfold copy_size. lia. Qed.

Lemma Peek_prefix p rest k : length p = k → (Z.of_nat k ≤ 16384)%Z → Peek (p ++ rest) k = Some p.
Proof.
  intros Hp Hk. unfold Peek. rewrite decide_False by (unfold reader_size; lia).
  rewrite decide_False by (rewrite length_app; lia). by rewrite <- Hp, take_app_length.
Qed.

Lemma Peek_short b k : length b < k → Peek b k = None.
Proof. intros H. unfold Peek. destruct (decide _); [done|]. by rewrite decide_True. Qed.

Lemma reader_size_eq : reader_size = Z.to_nat 16384.
Proof. done. Qed.

Lemma reader_size_5 : 5 < reader_size.
Proof. rewrite reader_size_eq. lia. Qed.

#[local] Opaque reader_size copy_size.

Definition flat (r : reader) : bytes := buffered r ++ concat (early r ++ late r).

(** What can still be read, once no deadline is set. *)
Definition remaining (r : reader) : bytes := if sticky r then buffered r else flat r.

(** What [Peek] can see. *)
Definition visible (r : reader) : bytes := buffered r ++ concat (early r).

Lemma fill_spec n s : ∀ buf buf' s' err, fill n buf s = (buf', s', err) →
  buf' ++ concat s' = buf ++ concat s ∧ (n ≤ reader_size → n ≤ length buf' ∨ s' = []) ∧
  (err = true → s' = []) ∧ (err = false ↔ n ≤ length (buf ++ concat s) ∨ reader_size ≤ length (buf ++ concat s)).
Proof.
  induction s as [|c s IH]; intros buf buf' s' err; simpl.
  - rewrite !app_nil_r. destruct (decide _) as [Hd|Hd]; intros [= <- <- <-]; (split; [by rewrite app_nil_r|]); split_and!; try done; auto.
  - destruct (decide _) as [Hd|Hd].
    { intros [= <- <- <-]. split; [done|]. split; [intros; left; lia|]. split; [done|]. rewrite length_app. split; [intros _; lia|done]. }
    destruct (decide _) as [Hc|Hc].
    + intros H%IH. by rewrite <- !app_assoc in H.
    + intros [= <- <- <-]. split.
      { simpl. rewrite <- !app_assoc, (app_assoc (take _ c)). by rewrite take_drop. }
      rewrite !length_app, length_take. split; [intros; left; lia|]. split; [done|]. split; [intros _; lia|done].
Qed.

(** On a reader without a remembered error. *)
Lemma peek_spec n r : sticky r = false →
  fst (peek n r) = Peek (visible r) n ∧ visible (snd (peek n r)) = visible r ∧
  flat (snd (peek n r)) = flat r ∧ late (snd (peek n r)) = late r ∧
  sticky (snd (peek n r)) = bool_decide (reader_size < n ∧ length (visible r) < reader_size) ∧
  (sticky (snd (peek n r)) = true → buffered (snd (peek n r)) = visible r).
Proof.
  intros Hs. unfold peek, Peek, visible, flat. rewrite Hs. destruct (fill n (buffered r) (early r)) as [[buf e] err] eqn:E.
  destruct (fill_spec _ _ _ _ _ _ E) as (H1 & H2 & H3 & H4).
  assert (Hf : buf ++ concat (e ++ late r) = buffered r ++ concat (early r ++ late r)) by (by rewrite !concat_app, !app_assoc, H1).
  destruct (decide (reader_size < n)) as [Hn|Hn]; simpl.
  { split_and!; try done.
    - destruct err; symmetry.
      + apply bool_decide_eq_true_2. split; [done|]. destruct (decide (length (buffered r ++ concat (early r)) < reader_size)) as [|Hl]; [done|].
        exfalso. assert (true = false) by (apply H4; lia). done.
      + apply bool_decide_eq_false_2. intros [_ Hl]. destruct (proj1 H4 eq_refl); lia.
    - intros ->. rewrite H3 in H1 by done. by rewrite app_nil_r in H1. }
  rewrite (bool_decide_eq_false_2 (reader_size < n ∧ _)) by lia. rewrite <- H1.
  destruct H2 as [H2|H2]; [lia| |].
  - rewrite !decide_False by (rewrite ?length_app; lia). simpl. split_and!; try done; [by rewrite take_app_le|..];
      (assert (err = false) as -> by (apply H4; left; rewrite <- H1, length_app; lia); done).
  - subst e. simpl. rewrite app_nil_r in *. destruct (decide (length buf < n)); simpl; split_and!; try done; try (by rewrite app_nil_r);
      (assert (err = false) as -> by (apply H4; left; rewrite <- H1; lia); done).
Qed.

Lemma read_spec r c r' : late r = [] → read copy_size r = Some (c, r') → c ++ remaining r' = remaining r ∧ late r' = [].
Proof.
  intros Hl. unfold read, remaining, flat. destruct r as [buf e l st]. simpl in *. subst l. destruct buf as [|x buf].
  - destruct st; [done|]. rewrite decide_True by apply copy_size_large.
    destruct e as [|d e]; [done|]. simpl. intros [= <- <-]. simpl. rewrite take_take, Nat.min_id, drop_ge by (rewrite length_take; lia).
    simpl. rewrite !app_nil_r. split; [|done]. destruct (decide _); [by rewrite take_ge by lia|]. simpl. by rewrite app_assoc, take_drop.
  - intros [= <- <-]. simpl. split; [|done]. destruct st; [by rewrite take_drop|]. by rewrite app_assoc, take_drop.
Qed.

Lemma conn_read_spec n s c s' : conn_read n s = Some (c, s') → c ++ concat s' = concat s.
Proof.
  destruct s as [|d s]; [done|]. simpl. intros [= <- <-].
  destruct (decide _); [by rewrite take_ge by lia|]. simpl. by rewrite app_assoc, take_drop.
Qed.

Lemma clear_flat r : flat (clear_deadline r) = flat r ∧ late (clear_deadline r) = [].
Proof. unfold flat, clear_deadline. simpl. by rewrite app_nil_r. Qed.

Lemma clear_remaining r : remaining (clear_deadline r) = remaining r.
Proof. unfold remaining. rewrite (proj1 (clear_flat r)). done. Qed.

(** ** The copies *)

(** [F] and [G]: what the client and the server send. *)
Record copy_inv (F G : bytes) (p : pipes) : Prop := {
  ci_late : late (client p) = [];
  ci_up : ∃ rest, to_server p ++ rest = F ∧ (up_over p = false → rest = remaining (client p));
  ci_down : ∃ rest, to_client p ++ rest = G ∧ (down_over p = false → rest = concat (server p)) }.

Lemma copy_step_inv F G p p' : copy_inv F G p → copy_step p p' → copy_inv F G p'.
Proof.
  intros [Hl (x & Hx & Ex) (y & Hy & Ey)] Hs.
  destruct Hs as [r c r' o s o' d Hr|r c r' o s o' d k Hr|r o s o' d|r o s o' d Hr|r o u s c s' o' Hr|r o u s c s' o' k Hr|r o u s o'|r o u o'];
    simpl in *; split; simpl; try done; try (by exists x); try (by exists y).
  - by destruct (read_spec _ _ _ Hl Hr).
  - specialize (Ex eq_refl) as ->. destruct (read_spec _ _ _ Hl Hr) as [E _]. exists (remaining r'). by rewrite <- app_assoc, E.
  - by destruct (read_spec _ _ _ Hl Hr).
  - specialize (Ex eq_refl) as ->. destruct (read_spec _ _ _ Hl Hr) as [E _]. exists (drop k c ++ remaining r').
    by rewrite <- app_assoc, (app_assoc (take k c)), take_drop, E.
  - specialize (Ey eq_refl) as ->. exists (concat s'). by rewrite <- app_assoc, (conn_read_spec _ _ _ _ Hr).
  - specialize (Ey eq_refl) as ->. exists (drop k c ++ concat s').
    by rewrite <- app_assoc, (app_assoc (take k c)), take_drop, (conn_read_spec _ _ _ _ Hr).
Qed.

Lemma conn_read_shorter n s c s' : 0 < n → conn_read n s = Some (c, s') → length (concat s') + length s' < length (concat s) + length s.
Proof.
  intros Hn. destruct s as [|d s]; [done|]. simpl. intros [= <- <-]. destruct (decide _); simpl; rewrite !length_app; [lia|].
  rewrite length_drop. lia.
Qed.

Lemma read_shorter r c r' : late r = [] → read copy_size r = Some (c, r') →
  length (flat r') + length (early r') < length (flat r) + length (early r).
Proof.
  intros Hl. unfold read, flat. destruct r as [buf e l st]. simpl in *. subst l. pose proof copy_size_pos. destruct buf as [|x buf].
  - destruct st; [done|]. rewrite decide_True by apply copy_size_large. destruct (conn_read copy_size e) as [[d e']|] eqn:E; [|done]. simpl.
    intros [= <- <-]. simpl. pose proof (conn_read_shorter _ _ _ _ H E).
    assert (Hd : length d ≤ copy_size) by (destruct e; [done|]; injection E as <- _; rewrite length_take; lia).
    rewrite drop_ge by done. simpl. rewrite !app_nil_r. lia.
  - intros [= <- <-]. simpl. rewrite length_app, length_drop, (length_app buf). simpl. lia.
Qed.

(** The copy from the client can go on until nothing more is to be read. *)
Lemma up_all s o' d n : ∀ r o, late r = [] → length (flat r) + length (early r) < n →
  ∃ r', star copy_step (Pipes r o false s o' d) (Pipes r' (o ++ remaining r) false s o' d) ∧ read copy_size r' = None.
Proof.
  induction n as [|n IH]; intros r o Hl Hn; [lia|]. destruct (read copy_size r) as [[c r']|] eqn:E.
  - destruct (read_spec _ _ _ Hl E) as [E1 E2]. pose proof (read_shorter _ _ _ Hl E).
    destruct (IH r' (o ++ c) E2 ltac:(lia)) as (r'' & Hs & He). exists r''. split; [|done].
    rewrite <- E1, app_assoc. eapply star_step; [by apply up_copy|]. exact Hs.
  - exists r. split; [|done]. assert (remaining r = []) as ->; [|rewrite app_nil_r; apply star_refl].
    destruct r as [buf e l st]. simpl in *. subst l. unfold read in E. simpl in E. destruct buf; [|done].
    unfold remaining, flat. simpl. destruct st; [done|]. by destruct e.
Qed.

Lemma down_all r o u n : ∀ s o', length (concat s) + length s < n →
  star copy_step (Pipes r o u s o' false) (Pipes r o u [] (o' ++ concat s) false).
Proof.
  induction n as [|n IH]; intros s o' Hn; [lia|]. destruct (conn_read copy_size s) as [[c s']|] eqn:E.
  - pose proof (conn_read_shorter _ _ _ _ copy_size_pos E). rewrite <- (conn_read_spec _ _ _ _ E), app_assoc.
    eapply star_step; [by apply down_copy|]. apply IH. lia.
  - destruct s; [|done]. rewrite app_nil_r. apply star_refl.
Qed.

(** ** The connection *)

Section Connection.
Context `{U : UnicodeTables} {P : Type} `{PR : PolicyReader P}.
Variable extractSNI : bytes → string.

(** Whether the inspection leaves the deadline's error in the reader: a handshake
    record that does not fit the buffer with its header, of which less than the
    buffer holds arrives in time. *)
Definition cut (e : bytes) : bool :=
  match e with
  | t :: _ :: _ :: hi :: lo :: _ =>
      let recLen := Z.lor (Z.shiftl (b2z hi) 8) (b2z lo) in
      bool_decide (b2z t = 0x16)%Z && bool_decide (16379 < recLen ≤ 16384)%Z && bool_decide (length e < reader_size)
  | _ => false
  end.

Lemma cut_head hdr e : Peek e 5 = Some hdr → ∃ t a b hi lo rest,
  hdr = [t; a; b; hi; lo] ∧ e = t :: a :: b :: hi :: lo :: rest.
Proof.
  unfold Peek. destruct (decide _); [done|]. destruct (decide _); [done|]. intros [= <-].
  do 5 (destruct e as [|? e]; [simpl in *; lia|]). simpl. rewrite take_0. by eexists _, _, _, _, _, e.
Qed.

(** The reader level implements the decision of [SniProxy] on the bytes that
    arrive before the deadline; it loses none, but those that come later cannot
    be read when the error stays behind. *)
Lemma examine_handle (s : SniProxy.Server P) srcIP e l evs o r' : examine extractSNI s srcIP (NewReaderSize e l) = (evs, o, r') →
  handle extractSNI s srcIP (concat e) = (evs, o) ∧ late r' = [] ∧
  (o = PassThrough → remaining r' = if cut (concat e) then concat e else concat (e ++ l)).
Proof.
  unfold examine, handle. set (r := NewReaderSize e l).
  destruct (peek_spec 5 r eq_refl) as (H1 & H2 & H3 & H4 & H5 & _).
  change (visible r) with (concat e) in *. change (flat r) with (concat (e ++ l)) in *.
  destruct (peek 5 r) as [hdr r1]. simpl in H1, H2, H3, H4, H5. subst hdr.
  rewrite bool_decide_eq_false_2 in H5 by (intros [? _]; by apply (Nat.lt_irrefl reader_size); apply (Nat.lt_trans _ 5); [|apply reader_size_5]).
  assert (Hr1 : remaining (clear_deadline r1) = concat (e ++ l)) by (rewrite clear_remaining; unfold remaining; by rewrite H5).
  destruct (Peek (concat e) 5) as [hdr|] eqn:Eh; [|by intros [= <- <- <-]].
  destruct (cut_head _ _ Eh) as (t & a & b & hi & lo & rest & -> & Ee). cbn [length]. 
  assert (Hcut : cut (concat e) = bool_decide (b2z t = 0x16)%Z && bool_decide (16379 < Z.lor (Z.shiftl (b2z hi) 8) (b2z lo) ≤ 16384)%Z &&
    bool_decide (length (concat e) < reader_size)) by (by rewrite Ee). rewrite Hcut.
  destruct (bool_decide (b2z t = 0x16)%Z); [|by intros [= <- <- <-]]. cbn [negb andb].
  set (n := Z.lor _ _). destruct (bool_decide (n ≤ 0 ∨ 16384 < n)%Z) eqn:En; [by intros [= <- <- <-]|].
  apply bool_decide_eq_false_1 in En. set (k := 5 + Z.to_nat n).
  destruct (peek_spec k r1 H5) as (K1 & K2 & K3 & K4 & K5 & K6). rewrite H2 in *. rewrite H3 in *.
  destruct (peek k r1) as [full r2]. simpl in K1, K2, K3, K4, K5, K6. subst full.
  assert (Hst : sticky r2 = bool_decide (16379 < n ≤ 16384)%Z && bool_decide (length (concat e) < reader_size)).
  { rewrite K5. unfold k. rewrite <- bool_decide_and. apply bool_decide_ext. rewrite reader_size_eq. lia. }
  assert (Hr2 : remaining (clear_deadline r2) = if bool_decide (16379 < n ≤ 16384)%Z && bool_decide (length (concat e) < reader_size) then concat e else concat (e ++ l)).
  { rewrite clear_remaining, <- Hst. unfold remaining. destruct (sticky r2); [by apply K6|done]. }
  destruct (clear_flat r2) as [_ D2].
  destruct (Peek (concat e) k) as [full|]; [|by intros [= <- <- <-]].
  destruct (String.eqb _ _); [by intros [= <- <- <-]|]. destruct (decide_sni _ _ _) as [e0 o0]. by intros [= <- <- <-].
Qed.

(** What passes can all be copied, in both directions. *)
Lemma pass_all (s : SniProxy.Server P) srcIP gs dial e l dst srv :
  snd (handle extractSNI s srcIP (concat e)) = PassThrough → originalDst gs = Ret dst → dial dst = Some srv →
  connection extractSNI s srcIP gs dial (NewReaderSize e l) (fst (handle extractSNI s srcIP (concat e)))
    (Transcript (Some dst) (if cut (concat e) then concat e else concat (e ++ l)) (concat srv)).
Proof.
  intros Hp Ho Hd. destruct (examine extractSNI s srcIP (NewReaderSize e l)) as [[evs o] r'] eqn:He.
  destruct (examine_handle _ _ _ _ _ _ _ He) as (Hh & Hl & Hr). rewrite Hh in Hp |- *. simpl in Hp |- *. subst o. rewrite <- Hr by done.
  destruct (up_all srv [] false (S (length (flat r') + length (early r'))) r' [] Hl ltac:(lia)) as (r'' & Hs & Hn).
  refine (conn_spliced _ _ _ _ _ _ _ r' dst srv (Pipes r'' (remaining r') true [] (concat srv) false) He Ho Hd _ eq_refl).
  eapply star_trans; [exact Hs|]. eapply star_trans; [eapply (down_all _ _ _ (S (length (concat srv) + length srv))); lia|].
  eapply star_step; [by apply up_eof|]. apply star_refl.
Qed.

(** C6. The proxy is transparent. Its decision is that of the handler on the
    bytes that arrived before the peek deadline, with the same events, and then
    a connection that is closed or reset reaches no server and carries nothing
    but the alert; one that is passed is dialled to its original destination
    only, the server gets the client's bytes from the first one on, those read
    for the inspection included, without gap or change, and the client those of
    the server; and all of them can get through, in both directions. One case is
    cut short: of a handshake record of 16380 to 16384 bytes of which, with its
    header, less than 16384 bytes arrive in time, the server gets what arrived by
    then and nothing after it. *)
Theorem splice_transparent (s : SniProxy.Server P) srcIP gs dial e l :
  let through := if cut (concat e) then concat e else concat (e ++ l) in
  (∀ evs t, connection extractSNI s srcIP gs dial (NewReaderSize e l) evs t →
    evs = fst (handle extractSNI s srcIP (concat e)) ∧
    match snd (handle extractSNI s srcIP (concat e)) with
    | Closed => t = Transcript None [] []
    | Alert a => t = Transcript None [] a
    | PassThrough =>
        match dialled t ≫= λ dst, pair dst <$> dial dst with
        | Some (dst, srv) => originalDst gs = Ret dst ∧ sent t `prefix_of` through ∧ received t `prefix_of` concat srv
        | None => sent t = [] ∧ received t = []
        end
    end) ∧
  (∀ dst srv, snd (handle extractSNI s srcIP (concat e)) = PassThrough → originalDst gs = Ret dst → dial dst = Some srv →
    connection extractSNI s srcIP gs dial (NewReaderSize e l) (fst (handle extractSNI s srcIP (concat e)))
      (Transcript (Some dst) through (concat srv))).
Proof.
  intros through. split.
  - intros evs t Hc. inversion Hc as [? r' He|? a r' He|? r' err He Ho|? r' dst He Ho Hd|? r' dst srv p He Ho Hd Hs Hf]; subst;
      apply examine_handle in He as (Hh & Hl & Hr); rewrite Hh; simpl.
    1-3: done. { by rewrite Hd. }
    split; [done|]. rewrite Hd. simpl. split; [done|].
    assert (I : copy_inv through (concat srv) p).
    { revert Hs. apply star_invariant; [intros ? ?; apply copy_step_inv|].
      split; simpl; [done|exists (remaining r'); split; [by apply Hr|done]|by exists (concat srv)]. }
    destruct I as [_ (x & Hx & _) (y & Hy & _)]. split; [by exists x|by exists y].
  - apply pass_all.
Qed.

(** A handshake whose record is not complete when the peek deadline passes is
    spliced to its destination without a look at its name, however it ends: a
    paused device that sends its first five bytes at once and the rest after
    the deadline has the connection it wants. *)
Theorem late_hello_bypasses (s : SniProxy.Server P) srcIP gs dial a b n body l dst srv :
  (0 < n < 16380)%Z → (Z.of_nat (length body) < n)%Z → originalDst gs = Ret dst → dial dst = Some srv →
  connection extractSNI s srcIP gs dial (NewReaderSize [x16 :: a :: b :: enc16 n ++ body] l) []
    (Transcript (Some dst) (concat ((x16 :: a :: b :: enc16 n ++ body) :: l)) (concat srv)).
Proof.
  intros Hn Hb Ho Hd. set (e := [x16 :: a :: b :: enc16 n ++ body]).
  assert (Ee : concat e = (x16 :: a :: b :: enc16 n) ++ body) by (simpl; by rewrite app_nil_r).
  assert (Hh : handle extractSNI s srcIP (concat e) = ([], PassThrough)).
  { rewrite Ee. unfold handle. rewrite (Peek_prefix _ body 5) by done.
    cbn [enc16]. rewrite bool_decide_true by done. cbn [negb]. rewrite hi8_lo8_lor by lia. rewrite bool_decide_false by lia.
    rewrite Peek_short; [done|]. rewrite length_app. simpl. lia. }
  assert (Hc : cut (concat e) = false).
  { rewrite Ee. cbn [enc16 app cut]. rewrite hi8_lo8_lor by lia. rewrite (bool_decide_eq_false_2 (16379 < n ≤ 16384)%Z) by lia. by rewrite andb_false_r. }
  pose proof (pass_all s srcIP gs dial e l dst srv) as H. rewrite Hh, Hc in H. by apply H.
Qed.

(** The first copy to return ends both: a client that closes its sending side
    after the request, and waits for the answer, may get none of it. *)
Theorem half_close_cuts (s : SniProxy.Server P) srcIP gs dial e l dst srv :
  snd (handle extractSNI s srcIP (concat e)) = PassThrough → originalDst gs = Ret dst → dial dst = Some srv → cut (concat e) = false →
  connection extractSNI s srcIP gs dial (NewReaderSize e l) (fst (handle extractSNI s srcIP (concat e)))
    (Transcript (Some dst) (concat (e ++ l)) []).
Proof.
  intros Hp Ho Hd Hcut. destruct (examine extractSNI s srcIP (NewReaderSize e l)) as [[evs o] r'] eqn:He.
  destruct (examine_handle _ _ _ _ _ _ _ He) as (Hh & Hl & Hr). rewrite Hh in Hp |- *. simpl in Hp |- *. subst o.
  rewrite Hcut in Hr. rewrite <- Hr by done.
  destruct (up_all srv [] false (S (length (flat r') + length (early r'))) r' [] Hl ltac:(lia)) as (r'' & Hs & Hn).
  refine (conn_spliced _ _ _ _ _ _ _ r' dst srv (Pipes r'' (remaining r') true srv [] false) He Ho Hd _ eq_refl).
  eapply star_trans; [exact Hs|]. eapply star_step; [by apply up_eof|]. apply star_refl.
Qed.
End Connection.

(** ** Concrete instances *)

#[local] Existing Instance ascii_tables.

(** A request for an address without a name, for 93.184.216.34:443, which
    arrives in two pieces. *)
Definition sockaddr : bytes := map z2b [2; 0; 1; 187; 93; 184; 216; 34; 0; 0; 0; 0; 0; 0; 0; 0]%Z.
Definition plain_server : SniProxy.Server (Policy.Runtime string) := MkServer NewBlocklist None.
Definition answer_all (dst : string) : option stream := Some [[x48; x49]].

Lemma splice_transparent_witness :
  connection name_of plain_server "10.10.0.5" (Ret sockaddr) answer_all (NewReaderSize [[x47; x45]; [x54; x20; x2f]] [[x0d; x0a]])
    [] (Transcript (Some "93.184.216.34:443"%string) [x47; x45; x54; x20; x2f; x0d; x0a] [x48; x49]).
Proof.
  exact (proj2 (splice_transparent name_of plain_server "10.10.0.5" (Ret sockaddr) answer_all [[x47; x45]; [x54; x20; x2f]] [[x0d; x0a]])
    "93.184.216.34:443"%string [[x48; x49]] eq_refl eq_refl eq_refl).
Defined.

Lemma late_hello_bypasses_witness :
  connection name_of plain_server "10.10.0.5" (Ret sockaddr) answer_all (NewReaderSize [[x16; x03; x01; x00; x02; x41]] [[x42]])
    [] (Transcript (Some "93.184.216.34:443"%string) [x16; x03; x01; x00; x02; x41; x42] [x48; x49]).
Proof.
  apply (late_hello_bypasses name_of plain_server "10.10.0.5" (Ret sockaddr) answer_all x03 x01 2 [x41] [[x42]]
    "93.184.216.34:443"%string [[x48; x49]]); [lia|simpl; lia|reflexivity|reflexivity].
Defined.

Lemma half_close_cuts_witness :
  connection name_of plain_server "10.10.0.5" (Ret sockaddr) answer_all (NewReaderSize [[x47; x45]; [x54; x20; x2f]] [[x0d; x0a]])
    [] (Transcript (Some "93.184.216.34:443"%string) [x47; x45; x54; x20; x2f; x0d; x0a] []).
Proof.
  exact (half_close_cuts name_of plain_server "10.10.0.5" (Ret sockaddr) answer_all [[x47; x45]; [x54; x20; x2f]] [[x0d; x0a]]
    "93.184.216.34:443"%string [[x48; x49]] eq_refl eq_refl eq_refl eq_refl).
Defined.
