(* ===== verification/Registry.v ===== *)
(** [internal/relay/registry.go]: the health-aware index of connected home
    nodes, with the store of [NodeHealth] objects its two maps share. *)
From stdpp Require Import gmap sorting.
From S2P Require Import Prelude GoString.

Local Open Scope Z_scope.

(** ** Stable sort by a strict order ([sort.SliceStable]) *)

Section InsertionSort.
Context {A : Type} (less : A → A → bool).

Fixpoint insert_after (x : A) (l : list A) : list A :=
  match l with
  | [] => [x]
  | y :: l' => if less x y then x :: l else y :: insert_after x l'
  end.

Definition slice_stable (l : list A) : list A := fold_left (λ acc x, insert_after x acc) l [].

Lemma insert_after_perm x l : insert_after x l ≡ₚ x :: l.
Proof.
  induction l as [|y l IH]; simpl; [done|]. destruct (less x y); [done|].
  rewrite IH. apply Permutation_swap.
Qed.

Lemma slice_stable_perm l : slice_stable l ≡ₚ l.
Proof.
  unfold slice_stable. assert (H : ∀ acc, fold_left (λ acc x, insert_after x acc) l acc ≡ₚ acc ++ l).
  { induction l as [|x l IH]; intros acc; simpl; [by rewrite app_nil_r|].
    rewrite IH, insert_after_perm. simpl. by rewrite Permutation_middle. }
  apply H.
Qed.

Definition not_after (a b : A) : Prop := less b a = false.

(** [P] holds of the elements on which the order behaves. *)
Context (P : A → Prop) (less_asym : ∀ x y, less x y = true → less y x = false).
Context (less_negtrans : ∀ a b c, P b → not_after a b → not_after b c → not_after a c).

Lemma insert_after_sorted x l : P x → Forall P l →
  StronglySorted not_after l → StronglySorted not_after (insert_after x l).
Proof.
  intros Hx HP. induction 1 as [|y l Hl IH Hy]; simpl; [repeat constructor|].
  inversion HP as [|?? HPy HPl]; subst. destruct (less x y) eqn:E.
  - constructor; [by constructor|]. constructor; [by apply less_asym|].
    eapply Forall_impl; [exact Hy|]. intros z Hz. eapply (less_negtrans _ y); [done| |exact Hz]. by apply less_asym.
  - constructor; [by apply IH|]. rewrite insert_after_perm. by constructor.
Qed.

Lemma slice_stable_sorted l : Forall P l → StronglySorted not_after (slice_stable l).
Proof.
  unfold slice_stable. intros HP. assert (H : ∀ acc, Forall P acc → StronglySorted not_after acc →
    StronglySorted not_after (fold_left (λ acc x, insert_after x acc) l acc)).
  { induction HP as [|x l Hx HP IH]; intros acc HPa Hacc; simpl; [done|]. apply IH.
    - rewrite insert_after_perm. by constructor.
    - by apply insert_after_sorted. }
  apply H; constructor.
Qed.
End InsertionSort.

(** ** Data *)

Inductive NodePreference := PrefSecondary | PrefPrimary.
#[export] Instance NodePreference_eq_dec : EqDecision NodePreference.
Proof. solve_decision. Defined.

(** [nodes[i].Pref > nodes[j].Pref] *)
Definition pref_gt (a b : NodePreference) : bool :=
  match a, b with PrefPrimary, PrefSecondary => true | _, _ => false end.

(** [Conn] is the identity of the node's connection. *)
Record NodeHealth := MkNode {
  NodeID : string;
  FamilyID : string;
  Conn : nat;
  Pref : NodePreference;
  LastSeen : time;
  JoinedAt : time;
}.

Definition stalenessThreshold : duration := 60 * second.

(** The store of [NodeHealth] objects; both maps hold references into it, so
    an update through one is seen through the other. *)
Record NodeRegistry := MkRegistry {
  heap : gmap nat NodeHealth;
  next : nat;
  byNode : gmap string nat;
  byFamily : gmap string (list nat);
}.

Definition NewNodeRegistry : NodeRegistry := MkRegistry ∅ 0 ∅ ∅.

Definition healthy (now : time) (h : NodeHealth) : bool :=
  bool_decide (time_sub now (LastSeen h) ≤ stalenessThreshold).

Definition less (hp : gmap nat NodeHealth) (i j : nat) : bool :=
  match hp !! i, hp !! j with
  | Some a, Some b =>
      if bool_decide (Pref a ≠ Pref b) then pref_gt (Pref a) (Pref b)
      else bool_decide (JoinedAt a < JoinedAt b)
  | _, _ => false
  end.

Section Registry.
(** The order in which a [range] over the node map visits it: some
    permutation of the entries, different on every loop. *)
Variable iter : gmap string nat → list (string * nat).

Definition family_of (hp : gmap nat NodeHealth) (i : nat) : option string := FamilyID <$> hp !! i.

Definition rebuildFamilyIndex (r : NodeRegistry) (familyID : string) : NodeRegistry :=
  let nodes := List.filter (λ i, bool_decide (family_of (heap r) i = Some familyID)) (iter (byNode r)).*2 in
  MkRegistry (heap r) (next r) (byNode r)
    (if bool_decide (nodes = []) then delete familyID (byFamily r)
     else <[familyID := slice_stable (less (heap r)) nodes]> (byFamily r)).

(** [Add]: the caller's object gets a fresh reference. *)
Definition Add (r : NodeRegistry) (now : time) (h : NodeHealth) : NodeRegistry :=
  let joined := if is_zero (JoinedAt h) then now else JoinedAt h in
  let seen := if is_zero (LastSeen h) then joined else LastSeen h in
  let h := MkNode (NodeID h) (FamilyID h) (Conn h) (Pref h) seen joined in
  rebuildFamilyIndex
    (MkRegistry (<[next r := h]> (heap r)) (S (next r)) (<[NodeID h := next r]> (byNode r)) (byFamily r))
    (FamilyID h).

Definition Remove (r : NodeRegistry) (nodeID : string) : NodeRegistry * option nat :=
  match byNode r !! nodeID with
  | None => (r, None)
  | Some i =>
      let r' := MkRegistry (heap r) (next r) (delete nodeID (byNode r)) (byFamily r) in
      match heap r !! i with
      | Some h => (rebuildFamilyIndex r' (FamilyID h), Some i)
      | None => (r', Some i)
      end
  end.

Definition set_LastSeen (t : time) (h : NodeHealth) : NodeHealth :=
  MkNode (NodeID h) (FamilyID h) (Conn h) (Pref h) t (JoinedAt h).
Definition set_Pref (p : NodePreference) (h : NodeHealth) : NodeHealth :=
  MkNode (NodeID h) (FamilyID h) (Conn h) p (LastSeen h) (JoinedAt h).

Definition Touch (r : NodeRegistry) (now : time) (nodeID : string) : NodeRegistry :=
  match byNode r !! nodeID with
  | Some i => MkRegistry (alter (set_LastSeen now) i (heap r)) (next r) (byNode r) (byFamily r)
  | None => r
  end.

Definition SetPreference (r : NodeRegistry) (nodeID : string) (p : NodePreference) : NodeRegistry :=
  match byNode r !! nodeID with
  | None => r
  | Some i =>
      match heap r !! i with
      | None => r
      | Some h =>
          if bool_decide (Pref h = p) then r
          else rebuildFamilyIndex
                 (MkRegistry (<[i := set_Pref p h]> (heap r)) (next r) (byNode r) (byFamily r)) (FamilyID h)
      end
  end.

Definition family_nodes (r : NodeRegistry) (familyID : string) : list nat :=
  default [] (byFamily r !! familyID).

Definition healthy_ref (r : NodeRegistry) (now : time) (i : nat) : bool :=
  match heap r !! i with Some h => healthy now h | None => false end.

(** [PickHealthyNode] returns the object of the first healthy reference. *)
Definition PickHealthyNode (r : NodeRegistry) (now : time) (familyID : string) : option NodeHealth :=
  List.find (healthy_ref r now) (family_nodes r familyID) ≫= λ i, heap r !! i.

Record FamilyStatus := MkStatus {
  HealthyCount : nat;
  TotalCount : nat;
  LastSeenAgo : duration;
  HasFallback : bool;
}.

Definition Status (r : NodeRegistry) (now : time) (familyID : string) : FamilyStatus :=
  let nodes := family_nodes r familyID in
  let freshest := fold_left (λ f i, match heap r !! i with
    | Some h => if bool_decide (f < LastSeen h) then LastSeen h else f
    | None => f end) nodes 0 in
  MkStatus (length (List.filter (healthy_ref r now) nodes)) (length nodes)
    (if is_zero freshest then 0 else time_sub now freshest)
    (bool_decide (0 < length nodes)%nat).

Definition SweepStale (r : NodeRegistry) (now : time) : list string :=
  (List.filter (λ p, match heap r !! p.2 with
    | Some h => negb (bool_decide (time_sub now (LastSeen h) ≤ stalenessThreshold))
    | None => false end) (iter (byNode r))).*1.

(** ** The invariant *)

Hypothesis iter_perm : ∀ m, iter m ≡ₚ map_to_list m.

(** A registered node of the family. *)
Definition member (r : NodeRegistry) (fam : string) (i : nat) : Prop :=
  ∃ h, heap r !! i = Some h ∧ byNode r !! NodeID h = Some i ∧ FamilyID h = fam.

Record wf_nodes (r : NodeRegistry) : Prop := {
  wf_byNode : ∀ id i, byNode r !! id = Some i → ∃ h, heap r !! i = Some h ∧ NodeID h = id;
  wf_next : ∀ i, is_Some (heap r !! i) → (i < next r)%nat;
}.

(** The family index: exactly the registered nodes, each once, in
    preference order, and no empty entry. *)
Record wf_family (r : NodeRegistry) (fam : string) : Prop := {
  wf_NoDup : NoDup (family_nodes r fam);
  wf_members : ∀ i, i ∈ family_nodes r fam ↔ member r fam i;
  wf_sorted : StronglySorted (not_after (less (heap r))) (family_nodes r fam);
  wf_nonempty : byFamily r !! fam ≠ Some [];
}.

Record wf (r : NodeRegistry) : Prop := {
  wf_n : wf_nodes r;
  wf_f : ∀ fam, wf_family r fam;
}.

Lemma less_asym hp x y : less hp x y = true → less hp y x = false.
Proof.
  unfold less. destruct (hp !! x) as [a|], (hp !! y) as [b|]; try done.
  repeat case_bool_decide; try done; try lia; try congruence.
  by destruct (Pref a), (Pref b).
Qed.

Lemma less_negtrans hp a b c : is_Some (hp !! b) →
  not_after (less hp) a b → not_after (less hp) b c → not_after (less hp) a c.
Proof.
  unfold not_after, less. intros [nb ->]. destruct (hp !! a) as [na|], (hp !! c) as [nc|]; try done.
  repeat case_bool_decide; try lia; try congruence;
    destruct (Pref na), (Pref nb), (Pref nc); simpl; try done; try congruence; try lia.
Qed.

Lemma sorted_ext {A} (R R' : A → A → Prop) l :
  (∀ x y, x ∈ l → y ∈ l → R x y → R' x y) → StronglySorted R l → StronglySorted R' l.
Proof.
  intros H. induction 1 as [|x l Hl IH Hx]; [constructor|]. constructor.
  - apply IH. intros y z Hy Hz. apply H; by right.
  - rewrite List.Forall_forall in Hx |- *. intros y Hy. apply H; [by left|right; by apply list_elem_of_In|by apply Hx].
Qed.

(** *** Rebuilding one family restores the index *)

Lemma family_nodes_rebuild r fam fam' :
  family_nodes (rebuildFamilyIndex r fam) fam' =
  if decide (fam' = fam) then slice_stable (less (heap r))
    (List.filter (λ i, bool_decide (family_of (heap r) i = Some fam)) (iter (byNode r)).*2)
  else family_nodes r fam'.
Proof.
  unfold family_nodes, rebuildFamilyIndex. simpl. set (nodes := List.filter _ _).
  case_bool_decide as Hn; case_decide as Hf; subst.
  - rewrite lookup_delete_eq. by rewrite Hn.
  - by rewrite lookup_delete_ne by congruence.
  - by rewrite lookup_insert_eq.
  - by rewrite lookup_insert_ne by congruence.
Qed.

Lemma refs_NoDup r : wf_nodes r → NoDup (iter (byNode r)).*2.
Proof.
  intros [Hb _]. apply NoDup_fmap_2_strong.
  - intros [id i] [id' i'] H1 H2. rewrite iter_perm, elem_of_map_to_list in H1, H2. simpl.
    intros ->. destruct (Hb _ _ H1) as (h & Hh & <-), (Hb _ _ H2) as (h' & Hh' & <-). congruence.
  - rewrite iter_perm. apply NoDup_map_to_list.
Qed.

Lemma family_filter_spec r fam i : wf_nodes r →
  i ∈ List.filter (λ i, bool_decide (family_of (heap r) i = Some fam)) (iter (byNode r)).*2 ↔ member r fam i.
Proof.
  intros [Hb _]. rewrite list_elem_of_In, filter_In, bool_decide_eq_true, <- list_elem_of_In, list_elem_of_fmap.
  unfold family_of, member. split.
  - intros [([id j] & -> & Hj) Hf]. rewrite iter_perm, elem_of_map_to_list in Hj. simpl in *.
    destruct (Hb _ _ Hj) as (h & Hh & <-). rewrite Hh in Hf. exists h. naive_solver.
  - intros (h & Hh & Hn & Hf). split.
    + exists (NodeID h, i). split; [done|]. by rewrite iter_perm, elem_of_map_to_list.
    + rewrite Hh. simpl. by rewrite Hf.
Qed.

Lemma rebuild_wf r fam : wf_nodes r → (∀ fam', fam' ≠ fam → wf_family r fam') →
  wf (rebuildFamilyIndex r fam).
Proof.
  intros Hn Hf. split; [by destruct Hn; split|]. intros fam'.
  assert (Hm : ∀ i, member (rebuildFamilyIndex r fam) fam' i ↔ member r fam' i) by done.
  destruct (decide (fam' = fam)) as [->|Hne].
  - split.
    + rewrite family_nodes_rebuild, decide_True by done. rewrite slice_stable_perm.
      by apply NoDup_ListNoDup, List.NoDup_filter, NoDup_ListNoDup, refs_NoDup.
    + intros i. rewrite Hm, family_nodes_rebuild, decide_True by done.
      by rewrite slice_stable_perm, family_filter_spec.
    + rewrite family_nodes_rebuild, decide_True by done. simpl.
      apply (slice_stable_sorted _ (λ i, is_Some (heap r !! i))).
      * apply less_asym.
      * apply less_negtrans.
      * apply List.Forall_forall. intros i Hi%list_elem_of_In%family_filter_spec; [|done].
        destruct Hi as (h & Hh & _). eauto.
    + unfold rebuildFamilyIndex. simpl. case_bool_decide as Hnil.
      * by rewrite lookup_delete_eq.
      * rewrite lookup_insert_eq. intros [= Hs]. apply Hnil, Permutation_nil.
        by rewrite <- Hs, slice_stable_perm.
  - destruct (Hf fam' Hne) as [H1 H2 H3 H4]. split.
    + by rewrite family_nodes_rebuild, decide_False.
    + intros i. by rewrite Hm, family_nodes_rebuild, decide_False.
    + by rewrite family_nodes_rebuild, decide_False.
    + unfold rebuildFamilyIndex. simpl. case_bool_decide.
      * by rewrite lookup_delete_ne by congruence.
      * by rewrite lookup_insert_ne by congruence.
Qed.

(** A change that keeps the members of a family and their order keeps its
    index. *)
Lemma wf_family_ext r r' fam :
  wf_family r fam → byFamily r' !! fam = byFamily r !! fam →
  (∀ i, member r' fam i ↔ member r fam i) →
  (∀ i j, member r fam i → member r fam j → less (heap r') i j = less (heap r) i j) →
  wf_family r' fam.
Proof.
  intros [H1 H2 H3 H4] Hb Hm Hl. assert (Hn : family_nodes r' fam = family_nodes r fam)
    by (unfold family_nodes; by rewrite Hb). split.
  - by rewrite Hn.
  - intros i. by rewrite Hn, Hm.
  - rewrite Hn. eapply sorted_ext; [|exact H3]. intros x y Hx%H2 Hy%H2. unfold not_after. by rewrite Hl.
  - by rewrite Hb.
Qed.

Lemma less_agree hp hp' i j : hp' !! i = hp !! i → hp' !! j = hp !! j → less hp' i j = less hp i j.
Proof. unfold less. by intros -> ->. Qed.

(** *** Every operation preserves the invariant *)

Lemma wf_New : wf NewNodeRegistry.
Proof.
  split.
  - split; intros ?; simpl; [intros ? H; by rewrite lookup_empty in H|intros [? H]; by rewrite lookup_empty in H].
  - intros fam. split; unfold family_nodes; simpl; rewrite lookup_empty; simpl; try constructor; try done.
    + intros Hi. by apply elem_of_nil in Hi.
    + intros (h & Hh & _). simpl in Hh. by rewrite lookup_empty in Hh.
Qed.

Lemma touch_less hp t i x y : less (alter (set_LastSeen t) i hp) x y = less hp x y.
Proof.
  unfold less. destruct (decide (x = i)) as [->|Hx], (decide (y = i)) as [->|Hy];
    rewrite ?lookup_alter_eq, ?lookup_alter_ne by done;
    repeat match goal with |- context [hp !! ?k] => destruct (hp !! k) end; done.
Qed.

Lemma Touch_wf r now id : wf r → wf (Touch r now id).
Proof.
  unfold Touch. destruct (byNode r !! id) as [i|] eqn:Hi; [|done]. intros [[Hb Hx] Hf]. split.
  - split; simpl.
    + intros id' j Hj. destruct (Hb _ _ Hj) as (h & Hh & <-). destruct (decide (i = j)) as [->|Hne].
      * exists (set_LastSeen now h). by rewrite lookup_alter_eq, Hh.
      * exists h. by rewrite lookup_alter_ne.
    + intros j [h Hh]. apply Hx. destruct (decide (i = j)) as [->|Hne].
      * rewrite lookup_alter_eq in Hh. destruct (heap r !! j); [eauto|done].
      * rewrite lookup_alter_ne in Hh by done. eauto.
  - intros fam. apply (wf_family_ext r); [done|done| |].
    + intros j. unfold member. simpl. destruct (decide (i = j)) as [->|Hne].
      * rewrite lookup_alter_eq. destruct (heap r !! j) as [h|]; simpl; [|naive_solver].
        split; intros (h' & [= <-] & ? & ?); eexists; (split; [done|]); done.
      * by rewrite lookup_alter_ne.
    + intros x y _ _. simpl. apply touch_less.
Qed.

(** Re-registering a node under the family it already had. *)
Definition same_family (r : NodeRegistry) (h : NodeHealth) : Prop :=
  ∀ i h', byNode r !! NodeID h = Some i → heap r !! i = Some h' → FamilyID h' = FamilyID h.

Lemma Add_wf r now h : wf r → same_family r h → wf (Add r now h).
Proof.
  intros [[Hb Hx] Hf] Hsame. unfold Add. set (h1 := MkNode _ _ _ _ _ _). apply rebuild_wf.
  - split; simpl.
    + intros id j. destruct (decide (id = NodeID h)) as [->|Hid].
      * rewrite lookup_insert_eq. intros [= <-]. exists h1. by rewrite lookup_insert_eq.
      * rewrite lookup_insert_ne by done. intros Hj. destruct (Hb _ _ Hj) as (h' & Hh' & <-).
        exists h'. rewrite lookup_insert_ne; [done|]. specialize (Hx j). rewrite Hh' in Hx.
        specialize (Hx ltac:(eauto)). lia.
    + intros j Hj. destruct (decide (j = next r)) as [->|Hne]; [lia|].
      rewrite lookup_insert_ne in Hj by done. apply Hx in Hj. lia.
  - intros fam Hfam. apply (wf_family_ext r); [done|done| |].
    + intros j. unfold member. simpl. split.
      * intros (h' & Hh' & Hn & Hf'). destruct (decide (j = next r)) as [->|Hne].
        { rewrite lookup_insert_eq in Hh'. injection Hh' as <-. by destruct Hfam. }
        rewrite lookup_insert_ne in Hh' by done. exists h'. split; [done|]. split; [|done].
        rewrite lookup_insert_ne in Hn; [done|]. intros He. rewrite He, lookup_insert_eq in Hn. congruence.
      * intros (h' & Hh' & Hn & Hf'). exists h'.
        assert (j ≠ next r) by (specialize (Hx j ltac:(eauto)); lia).
        split; [by rewrite lookup_insert_ne|]. split; [|done].
        rewrite lookup_insert_ne; [done|]. intros He. apply Hfam. rewrite <- Hf'.
        apply (Hsame j h'); [by rewrite He|done].
    + intros x y (hx & Hhx & _) (hy & Hhy & _). simpl. apply less_agree.
      * rewrite lookup_insert_ne; [done|]. specialize (Hx x ltac:(eauto)). lia.
      * rewrite lookup_insert_ne; [done|]. specialize (Hx y ltac:(eauto)). lia.
Qed.

Lemma Remove_wf r id : wf r → wf (fst (Remove r id)).
Proof.
  unfold Remove. destruct (byNode r !! id) as [i|] eqn:Hi; [|done]. intros [[Hb Hx] Hf].
  destruct (Hb _ _ Hi) as (h & Hh & Hid). rewrite Hh. simpl. apply rebuild_wf.
  - split; simpl; [|done]. intros id' j. destruct (decide (id' = id)) as [->|Hne].
    + by rewrite lookup_delete_eq.
    + rewrite lookup_delete_ne by done. apply Hb.
  - intros fam Hfam. apply (wf_family_ext r); [done|done| |done].
    intros j. unfold member. simpl. split; intros (h' & Hh' & Hn & Hf').
    + exists h'. split; [done|]. split; [|done]. destruct (decide (NodeID h' = id)) as [He|Hne].
      * by rewrite He, lookup_delete_eq in Hn.
      * by rewrite lookup_delete_ne in Hn.
    + exists h'. split; [done|]. split; [|done]. rewrite lookup_delete_ne; [done|].
      intros He. rewrite <- He in Hn. rewrite Hi in Hn. injection Hn as ->. congruence.
Qed.

Lemma SetPreference_wf r id p : wf r → wf (SetPreference r id p).
Proof.
  unfold SetPreference. destruct (byNode r !! id) as [i|] eqn:Hi; [|done].
  destruct (heap r !! i) as [h|] eqn:Hh; [|done]. case_bool_decide; [done|]. intros [[Hb Hx] Hf].
  apply rebuild_wf.
  - split; simpl.
    + intros id' j Hj. destruct (Hb _ _ Hj) as (h' & Hh' & <-). destruct (decide (i = j)) as [->|Hne].
      * exists (set_Pref p h). rewrite lookup_insert_eq. split; [done|]. simpl. congruence.
      * exists h'. by rewrite lookup_insert_ne.
    + intros j Hj. apply Hx. destruct (decide (i = j)) as [->|Hne]; [eauto|]. by rewrite lookup_insert_ne in Hj.
  - intros fam Hfam.
    assert (Hni : ∀ j, member r fam j → i ≠ j).
    { intros j (h' & Hh' & _ & Hf') ->. congruence. }
    apply (wf_family_ext r); [done|done| |].
    + intros j. unfold member. simpl. split.
      * intros (h' & Hh' & Hn & Hf'). destruct (decide (i = j)) as [->|Hne].
        { rewrite lookup_insert_eq in Hh'. injection Hh' as <-. by destruct Hfam. }
        rewrite lookup_insert_ne in Hh' by done. eauto.
      * intros Hm. specialize (Hni j Hm). destruct Hm as (h' & Hh' & Hn & Hf').
        exists h'. by rewrite lookup_insert_ne.
    + intros x y Hmx%Hni Hmy%Hni. simpl. apply less_agree; by rewrite lookup_insert_ne.
Qed.

(** *** Operations and their sequences *)

Inductive op :=
| OpAdd (now : time) (h : NodeHealth)
| OpRemove (nodeID : string)
| OpTouch (now : time) (nodeID : string)
| OpSetPreference (nodeID : string) (p : NodePreference).

Definition apply_op (r : NodeRegistry) (o : op) : NodeRegistry :=
  match o with
  | OpAdd now h => Add r now h
  | OpRemove id => fst (Remove r id)
  | OpTouch now id => Touch r now id
  | OpSetPreference id p => SetPreference r id p
  end.

(** One operation in which no node changes family while registered. *)
Inductive registry_step : NodeRegistry → NodeRegistry → Prop :=
| rs_op r o : (∀ now h, o = OpAdd now h → same_family r h) → registry_step r (apply_op r o).

Lemma step_wf r r' : wf r → registry_step r r' → wf r'.
Proof.
  intros Hw Hs. destruct Hs as [r o Ho]. destruct o; simpl; [apply Add_wf|apply Remove_wf|apply Touch_wf|apply SetPreference_wf]; eauto.
Qed.

Lemma find_first {A} (f : A → bool) l x :
  List.find f l = Some x → ∃ l1 l2, l = l1 ++ x :: l2 ∧ f x = true ∧ Forall (λ y, f y = false) l1.
Proof.
  induction l as [|y l IH]; simpl; [done|]. destruct (f y) eqn:E.
  - intros [= ->]. by exists [], l.
  - intros (l1 & l2 & -> & Hx & Hl)%IH. exists (y :: l1), l2. split; [done|]. split; [done|]. by constructor.
Qed.

(** [h] is at least as preferred as [h']. *)
Definition preferred (h h' : NodeHealth) : Prop :=
  pref_gt (Pref h') (Pref h) = false ∧ (Pref h = Pref h' → JoinedAt h ≤ JoinedAt h').

(** C15. Routing is optimal: in any registry reached by registering nodes
    (each again only under its family, or [family_change_leaves_stale_entry]),
    removing, touching and re-ranking them,
    for every iteration order of the maps, [PickHealthyNode] returns a
    registered healthy node of the family that no other registered healthy
    node of the family outranks, primary first and then the longest
    connected; it returns nothing only when the family has no healthy node. *)
Theorem PickHealthyNode_optimal r now fam :
  star registry_step NewNodeRegistry r →
  match PickHealthyNode r now fam with
  | Some h => ∃ i, member r fam i ∧ heap r !! i = Some h ∧ healthy now h = true ∧
      ∀ j h', member r fam j → heap r !! j = Some h' → healthy now h' = true → preferred h h'
  | None => ∀ j h', member r fam j → heap r !! j = Some h' → healthy now h' = false
  end.
Proof.
  intros Hr. assert (Hw : wf r) by (eapply (star_invariant registry_step wf); eauto using step_wf, wf_New).
  destruct (wf_f _ Hw fam) as [_ Hm Hs _]. unfold PickHealthyNode.
  destruct (List.find _ _) as [i|] eqn:Hfind; simpl.
  - apply find_first in Hfind as (l1 & l2 & Hl & Hi & Hl1). unfold healthy_ref in Hi.
    destruct (heap r !! i) as [h|] eqn:Hh; [|done]. exists i.
    split; [apply Hm; rewrite Hl; set_solver|]. split; [done|]. split; [done|].
    intros j h' Hj Hh' Hhealthy. apply Hm in Hj. rewrite Hl in Hj.
    rewrite Hl in Hs. apply StronglySorted_app in Hs as (_ & _ & Hs).
    apply elem_of_app in Hj as [Hj|[->|Hj]%elem_of_cons].
    + rewrite List.Forall_forall in Hl1. specialize (Hl1 j (proj1 (list_elem_of_In _ _) Hj)).
      unfold healthy_ref in Hl1. rewrite Hh' in Hl1. congruence.
    + rewrite Hh in Hh'. injection Hh' as <-. split; [by destruct (Pref h)|lia].
    + inversion Hs as [|?? _ Hall]; subst. rewrite List.Forall_forall in Hall.
      specialize (Hall j (proj1 (list_elem_of_In _ _) Hj)). unfold not_after, less in Hall.
      rewrite Hh, Hh' in Hall. unfold preferred. case_bool_decide as Hp.
      * split; [done|]. intros He. congruence.
      * case_bool_decide; [done|]. split; [|lia]. destruct (Pref h), (Pref h'); done.
  - intros j h' Hj%Hm Hh'. apply list_elem_of_In in Hj.
    pose proof (find_none _ _ Hfind j Hj) as Hn. unfold healthy_ref in Hn. by rewrite Hh' in Hn.
Qed.
End Registry.

(** ** Concrete instances *)

Definition pi_node : NodeHealth := MkNode "pi" "smith" 1 PrefPrimary 0 0.
Definition laptop_node : NodeHealth := MkNode "laptop" "smith" 2 PrefPrimary 0 0.

Definition sample_registry : NodeRegistry :=
  apply_op map_to_list
    (apply_op map_to_list
      (apply_op map_to_list NewNodeRegistry (OpAdd (10 * second) laptop_node))
      (OpAdd (20 * second) pi_node))
    (OpSetPreference "laptop" PrefSecondary).

Lemma OpAdd_inj now h now' h' : OpAdd now h = OpAdd now' h' → h = h'.
Proof. intros H. by inversion H. Qed.

Lemma PickHealthyNode_optimal_witness :
  ∃ i, member sample_registry "smith" i ∧ Conn <$> PickHealthyNode sample_registry (30 * second) "smith" = Some 1%nat.
Proof.
  pose proof (PickHealthyNode_optimal map_to_list (λ m, Permutation_refl _) sample_registry (30 * second) "smith") as H.
  assert (Hr : star (registry_step map_to_list) NewNodeRegistry sample_registry).
  { eapply star_step; [|eapply star_step; [|eapply star_step; [|apply star_refl]]].
    - apply (rs_op _ _ (OpAdd (10 * second) laptop_node)). intros now h Heq i h' Hi. apply OpAdd_inj in Heq. subst h. by vm_compute in Hi.
    - apply (rs_op _ _ (OpAdd (20 * second) pi_node)). intros now h Heq i h' Hi. apply OpAdd_inj in Heq. subst h. by vm_compute in Hi.
    - by apply (rs_op _ _ (OpSetPreference "laptop" PrefSecondary)). }
  specialize (H Hr). assert (He : Conn <$> PickHealthyNode sample_registry (30 * second) "smith" = Some 1%nat)
    by (by vm_compute).
  destruct (PickHealthyNode sample_registry (30 * second) "smith"); [|done].
  destruct H as (i & Hm & _). exists i. split; [exact Hm|exact He].
Defined.

(** A node that reconnects under another family stays in the index of the
    first one, and still does after it is removed. *)
Lemma family_change_leaves_stale_entry :
  let r1 := Add map_to_list NewNodeRegistry (10 * second) pi_node in
  let r2 := Add map_to_list r1 (20 * second) (MkNode "pi" "jones" 3 PrefPrimary 0 0) in
  let r3 := fst (Remove map_to_list r2 "pi") in
  byNode r3 = ∅ ∧ Conn <$> PickHealthyNode r3 (30 * second) "smith" = Some 1%nat.
Proof. by vm_compute. Qed.
