(* ===== verification/Fallback.v ===== *)
(** [internal/relay/fallback.go]: which families are in degraded mode. *)
From stdpp Require Import gmap.
From S2P Require Import Prelude GoString.

Local Open Scope Z_scope.

Record FallbackResolver := MkFallback {
  fallbackEndpoint : string;
  active : gmap string time;
  packetsForwarded : Z;
  packetsDropped : Z;
  familiesDegraded : Z;
}.

Definition NewFallbackResolver (endpoint : string) : FallbackResolver := MkFallback endpoint ∅ 0 0 0.

Definition EnterFallback (f : FallbackResolver) (now : time) (familyID : string) : FallbackResolver * bool :=
  match active f !! familyID with
  | Some _ => (f, false)
  | None => (MkFallback (fallbackEndpoint f) (<[familyID := now]> (active f)) (packetsForwarded f)
               (packetsDropped f) (familiesDegraded f + 1), true)
  end.

Definition ExitFallback (f : FallbackResolver) (familyID : string) : FallbackResolver * bool :=
  match active f !! familyID with
  | None => (f, false)
  | Some _ => (MkFallback (fallbackEndpoint f) (delete familyID (active f)) (packetsForwarded f)
                 (packetsDropped f) (familiesDegraded f - 1), true)
  end.

Definition IsActive (f : FallbackResolver) (familyID : string) : bool :=
  bool_decide (is_Some (active f !! familyID)).

Definition RecordForwarded (f : FallbackResolver) : FallbackResolver :=
  MkFallback (fallbackEndpoint f) (active f) (w64 (packetsForwarded f + 1)) (packetsDropped f) (familiesDegraded f).
Definition RecordDropped (f : FallbackResolver) : FallbackResolver :=
  MkFallback (fallbackEndpoint f) (active f) (packetsForwarded f) (w64 (packetsDropped f + 1)) (familiesDegraded f).

Record FallbackStats := MkStats {
  st_forwarded : Z; st_dropped : Z; st_degraded : Z; st_families : list string; st_oldest : duration }.

Definition Stats (f : FallbackResolver) (now : time) : FallbackStats :=
  let oldest := map_fold (λ _ since o, if is_zero o || bool_decide (since < o) then since else o) 0 (active f) in
  MkStats (packetsForwarded f) (packetsDropped f) (familiesDegraded f) (map_to_list (active f)).*1
    (if is_zero oldest then 0 else time_sub now oldest).

(** The gauge counts the degraded families. *)
Definition gauge_ok (f : FallbackResolver) : Prop := familiesDegraded f = Z.of_nat (size (active f)).

Lemma EnterFallback_spec f now fam :
  let '(f', b) := EnterFallback f now fam in
  IsActive f' fam = true ∧ b = negb (IsActive f fam) ∧
  (∀ fam', fam' ≠ fam → active f' !! fam' = active f !! fam') ∧ (gauge_ok f → gauge_ok f').
Proof.
  unfold EnterFallback, IsActive, gauge_ok. destruct (active f !! fam) as [t|] eqn:E; simpl.
  - rewrite E. by rewrite bool_decide_true.
  - rewrite lookup_insert_eq. 
    split; [by apply bool_decide_true; eauto|]. split; [done|]. split.
    + intros fam' Hne. by rewrite lookup_insert_ne by congruence.
    + intros ->. rewrite map_size_insert_None by done. lia.
Qed.

Lemma ExitFallback_spec f fam :
  let '(f', b) := ExitFallback f fam in
  IsActive f' fam = false ∧ b = IsActive f fam ∧
  (∀ fam', fam' ≠ fam → active f' !! fam' = active f !! fam') ∧ (gauge_ok f → gauge_ok f').
Proof.
  unfold ExitFallback, IsActive, gauge_ok. destruct (active f !! fam) as [t|] eqn:E; simpl.
  - rewrite lookup_delete_eq. 
    split; [by apply bool_decide_false; intros [? [=]]|]. split; [done|]. split.
    + intros fam' Hne. by rewrite lookup_delete_ne by congruence.
    + intros ->. rewrite map_size_delete_Some by eauto.
      assert (size (active f) ≠ 0)%nat; [|lia]. intros H0%map_size_empty_inv. by rewrite H0, lookup_empty in E.
  - rewrite E. by rewrite bool_decide_false by (by intros [? [=]]).
Qed.

Inductive fop := FEnter (now : time) (fam : string) | FExit (fam : string) | FForwarded | FDropped.

Definition apply_fop (f : FallbackResolver) (o : fop) : FallbackResolver :=
  match o with
  | FEnter now fam => fst (EnterFallback f now fam)
  | FExit fam => fst (ExitFallback f fam)
  | FForwarded => RecordForwarded f
  | FDropped => RecordDropped f
  end.

(** The degraded-families gauge is exact after any sequence of operations:
    it equals the number of families reported as active, which are the keys of
    the active map. *)
Theorem gauge_exact endpoint ops now :
  let f := fold_left apply_fop ops (NewFallbackResolver endpoint) in
  st_degraded (Stats f now) = Z.of_nat (length (st_families (Stats f now))) ∧
  ∀ fam, IsActive f fam = true ↔ fam ∈ st_families (Stats f now).
Proof.
  intros f. assert (Hg : gauge_ok f).
  { unfold f. clear f. assert (H0 : gauge_ok (NewFallbackResolver endpoint)) by done. revert H0.
    generalize (NewFallbackResolver endpoint). induction ops as [|o ops IH]; intros f Hf; simpl; [done|].
    apply IH. destruct o as [t fam|fam| |]; simpl; [| |done|done].
    - pose proof (EnterFallback_spec f t fam). destruct (EnterFallback f t fam); simpl. naive_solver.
    - pose proof (ExitFallback_spec f fam). destruct (ExitFallback f fam); simpl. naive_solver. }
  split.
  - simpl. by rewrite Hg, length_fmap, length_map_to_list.
  - intros fam. unfold IsActive. rewrite bool_decide_eq_true. simpl. rewrite list_elem_of_fmap. split.
    + intros [t Ht]. exists (fam, t). split; [done|]. by apply elem_of_map_to_list.
    + intros ([fam' t] & -> & Ht%elem_of_map_to_list). eauto.
Qed.
