(* ===== verification/Frame.v ===== *)
(** The relay's frame format ([wrapFrame] and its readers in
    [internal/relay/handler.go], [client.go], [relay_udp_bridge.go]) and the
    packet handling of the node-side client. *)
From S2P Require Import Prelude GoString.

Local Open Scope Z_scope.

Definition frameTypeData : byte := x01.
Definition frameTypePing : byte := x02.
Definition frameTypePong : byte := x03.

(** [type=0x01][2-byte id length][id][payload]; [PutUint16] keeps the low 16
    bits of the id length. *)
Definition wrapFrame (deviceID : string) (payload : bytes) : bytes :=
  let idBytes := to_bytes deviceID in
  frameTypeData :: enc16 (w16 (Z.of_nat (length idBytes))) ++ idBytes ++ payload.

Definition wrapUDPFrame (deviceTag : string) (payload : bytes) : bytes :=
  let tagBytes := to_bytes deviceTag in
  frameTypeData :: enc16 (w16 (Z.of_nat (length tagBytes))) ++ tagBytes ++ payload.

Definition wrapClientFrame (deviceID : string) (payload : bytes) : bytes :=
  let idBytes := to_bytes deviceID in
  frameTypeData :: enc16 (w16 (Z.of_nat (length idBytes))) ++ idBytes ++ payload.

(** The reader shared by the node handler, the device handler and the client:
    [None] when the packet is too short for its header. *)
Definition unwrap (pkt : bytes) : go (option (string * bytes)) :=
  if decide (length pkt < 3)%nat then Ret None else
  devIDLen ← be16 pkt 1;
  let n := Z.to_nat devIDLen in
  if decide (length pkt < 3 + n)%nat then Ret None else
  id ← slice pkt 3 (3 + n);
  payload ← slice pkt (3 + n) (length pkt);
  Ret (Some (of_bytes id, payload)).

(** ** One message from a WebSocket ([runRelayLoop], reader side) *)

Inductive recv :=
| Ignore
| ReplyPong
| Data (pkt : bytes).

Definition classify (pkt : bytes) : recv :=
  match pkt with
  | [] => Ignore
  | t :: _ =>
      if decide (t = frameTypePing) then ReplyPong
      else if decide (t = frameTypeData) then Data pkt
      else Ignore
  end.

Definition pong : bytes := [frameTypePong; x00; x00].
Definition ping : bytes := [frameTypePing; x00; x00].

(** ** The client on the home node ([runSession]) *)

(** A message from the broker: what is queued back and what is written to the
    local WireGuard socket. *)
Definition client_recv (pkt : bytes) : go (list bytes * list bytes) :=
  match classify pkt with
  | Ignore => Ret ([], [])
  | ReplyPong => Ret ([pong], [])
  | Data pkt =>
      u ← unwrap pkt;
      match u with
      | None => Ret ([], [])
      | Some (_, payload) => Ret ([], [payload])
      end
  end.

(** A datagram read from the WireGuard socket, a UDP socket connected to
    [wgAddr]: its source is [wgAddr], which becomes the device tag. *)
Definition client_from_wg (wgAddr : string) (payload : bytes) : bytes := wrapClientFrame wgAddr payload.

(** Delays of [connectLoop], in ns. *)
Definition clientReconnectBase : duration := 5 * second.
Definition clientReconnectMax : duration := 30 * second.
Definition next_delay (delay : duration) : duration :=
  let delay := delay * 2 in if bool_decide (clientReconnectMax < delay) then clientReconnectMax else delay.

(** ** Round trip *)

Lemma unwrap_parts id payload :
  (Z.of_nat (length id) < 65536) →
  unwrap (frameTypeData :: enc16 (w16 (Z.of_nat (length id))) ++ id ++ payload) =
  Ret (Some (of_bytes id, payload)).
Proof.
  intros Hl. unfold w16. rewrite Z.mod_small by lia. unfold unwrap.
  rewrite decide_False by (simpl; lia).
  change (frameTypeData :: enc16 (Z.of_nat (length id)) ++ id ++ payload)
    with ([frameTypeData] ++ enc16 (Z.of_nat (length id)) ++ id ++ payload).
  change 1%nat with (length [frameTypeData]) at 1.
  rewrite be16_enc16 by lia. cbn [mbind go_bind]. rewrite Nat2Z.id.
  set (hdr := [frameTypeData] ++ enc16 (Z.of_nat (length id))).
  assert (Heq : [frameTypeData] ++ enc16 (Z.of_nat (length id)) ++ id ++ payload = hdr ++ id ++ payload) by done.
  rewrite Heq. assert (Hh : 3%nat = length hdr) by done.
  rewrite decide_False by (rewrite !length_app; lia).
  rewrite (slice_middle hdr id payload 3 (3 + length id)) by lia. cbn [mbind go_bind].
  rewrite (app_assoc hdr). rewrite slice_suffix; [done|rewrite length_app; lia|done].
Qed.

(** Frames round-trip: what any of the three writers wraps under a device
    id shorter than 64 KiB, the reader unwraps to that id and payload, and a
    strict prefix that cuts the id is rejected without a panic. *)
Theorem frame_roundtrip id payload :
  Z.of_nat (String.length id) < 65536 →
  unwrap (wrapFrame id payload) = Ret (Some (id, payload)) ∧
  unwrap (wrapUDPFrame id payload) = Ret (Some (id, payload)) ∧
  unwrap (wrapClientFrame id payload) = Ret (Some (id, payload)) ∧
  (∀ k, (k < 3 + String.length id)%nat → unwrap (take k (wrapFrame id payload)) = Ret None).
Proof.
  intros Hl. assert (H : unwrap (wrapFrame id payload) = Ret (Some (id, payload))).
  { unfold wrapFrame. rewrite unwrap_parts by (by rewrite length_to_bytes). by rewrite of_to_bytes. }
  do 3 (split; [exact H|]). intros k Hk. unfold unwrap, wrapFrame.
  assert (Hlen : length (to_bytes id) = String.length id) by apply length_to_bytes.
  destruct (decide (k < 3)%nat).
  { rewrite decide_True; [done|]. rewrite length_take. lia. }
  rewrite decide_False by (rewrite length_take; simpl; rewrite length_app; lia).
  do 3 (destruct k as [|k]; [lia|]). unfold w16. rewrite Hlen, Z.mod_small by lia.
  cbn [enc16 app take].
  change (frameTypeData :: hi8 (Z.of_nat (String.length id)) :: lo8 (Z.of_nat (String.length id)) ::
    take k (to_bytes id ++ payload)) with ([frameTypeData] ++ enc16 (Z.of_nat (String.length id)) ++
    take k (to_bytes id ++ payload)).
  change 1%nat with (length [frameTypeData]) at 1. rewrite be16_enc16 by lia. cbn [mbind go_bind].
  rewrite decide_True; [done|]. rewrite !length_app, length_take. simpl. lia.
Qed.

Lemma frame_roundtrip_witness :
  unwrap (wrapFrame "10.0.0.7:4000" [x01; x02]) = Ret (Some ("10.0.0.7:4000"%string, [x01; x02])).
Proof. apply frame_roundtrip. simpl. lia. Defined.

Lemma classify_wrapFrame id payload : classify (wrapFrame id payload) = Data (wrapFrame id payload).
Proof. done. Qed.

Lemma unwrap_wrapFrame id payload : Z.of_nat (String.length id) < 65536 →
  unwrap (wrapFrame id payload) = Ret (Some (id, payload)).
Proof. intros H. unfold wrapFrame. rewrite unwrap_parts by (by rewrite length_to_bytes). by rewrite of_to_bytes. Qed.

Lemma unwrap_total pkt : returns (unwrap pkt).
Proof.
  unfold unwrap. case_decide; [apply returns_Ret|].
  apply returns_bind; [apply returns_be16; lia|]. intros l _. case_decide; [apply returns_Ret|].
  rewrite !slice_Ret by lia. apply returns_Ret.
Qed.
#[export] Hint Resolve unwrap_total : go.

Lemma client_recv_total pkt : returns (client_recv pkt).
Proof.
  unfold client_recv. destruct (classify pkt) as [| |m]; [apply returns_Ret..|].
  apply returns_bind; [apply unwrap_total|]. intros [[id p]|] _; apply returns_Ret.
Qed.
