(* ===== verification/Broker.v ===== *)
(** [internal/relay/broker.go] and [internal/relay/relay_udp_bridge.go]: the
    broker's node table, device sessions and channels, the staleness sweep, and
    the routing of the children's UDP packets. *)
From stdpp Require Import gmap.
From S2P Require Import Prelude GoString Registry Fallback Frame.

Local Open Scope Z_scope.

(** ** Channels

    A [Conn] owns a buffered channel; [make(chan []byte, sendBufSize)]. *)
Definition sendBufSize : nat := 256.

Record channel := MkChan { c_nodeID : string; c_buf : list bytes; c_closed : bool }.

Abbreviation chans := (gmap nat channel).

(** [select { case ch <- pkt: default: }]: a send on a closed channel panics,
    a full buffer drops the packet ([false]). *)
Definition try_send (cs : chans) (c : nat) (pkt : bytes) : go (chans * bool) :=
  match cs !! c with
  | None => Ret (cs, false)
  | Some ch =>
      if c_closed ch then Panic
      else if decide (length (c_buf ch) < sendBufSize)%nat
      then Ret (<[c := MkChan (c_nodeID ch) (c_buf ch ++ [pkt]) false]> cs, true)
      else Ret (cs, false)
  end.

(** [close(ch)]: closing a closed channel panics. *)
Definition close_chan (cs : chans) (c : nat) : go chans :=
  match cs !! c with
  | None => Ret cs
  | Some ch => if c_closed ch then Panic else Ret (<[c := MkChan (c_nodeID ch) (c_buf ch) true]> cs)
  end.

(** ** State *)

Abbreviation SessionKey := (string * string)%type.

Record Session := MkSession { NodeConn : nat; DevConn : option nat; CreatedAt : time }.
Record nodeEntry := MkEntry { ne_FamilyID : string; ne_Conn : nat }.

(** The UDP bridge: the family it is pinned to, the last address seen for each
    device tag, and the endpoint each device's fallback socket was dialled to. *)
Record UDPBridge := MkBridge {
  br_familyID : string;
  clientAddrs : gmap string string;
  fallbackConns : gmap string string;
}.

Record Broker := MkBroker {
  nodeConns : gmap string nodeEntry;
  sessions : gmap SessionKey Session;
  registry : NodeRegistry;
  fallback : FallbackResolver;
  notifier : bool;
  udpBridge : option UDPBridge;
  channels : chans;
}.

(** What the relay does towards the outside. *)
Inductive effect :=
| NotifyFallback (familyID : string) (inFallback : bool)
| ToTerminator (endpoint : string) (deviceTag : string) (payload : bytes)
| ToClient (addr : string) (payload : bytes).

Definition NewBroker : Broker :=
  MkBroker ∅ ∅ NewNodeRegistry (NewFallbackResolver "") false None ∅.

Definition with_registry (b : Broker) (r : NodeRegistry) : Broker :=
  MkBroker (nodeConns b) (sessions b) r (fallback b) (notifier b) (udpBridge b) (channels b).
Definition with_fallback (b : Broker) (f : FallbackResolver) : Broker :=
  MkBroker (nodeConns b) (sessions b) (registry b) f (notifier b) (udpBridge b) (channels b).
Definition with_channels (b : Broker) (cs : chans) : Broker :=
  MkBroker (nodeConns b) (sessions b) (registry b) (fallback b) (notifier b) (udpBridge b) cs.
Definition with_sessions (b : Broker) (s : gmap SessionKey Session) : Broker :=
  MkBroker (nodeConns b) s (registry b) (fallback b) (notifier b) (udpBridge b) (channels b).
Definition with_bridge (b : Broker) (u : option UDPBridge) : Broker :=
  MkBroker (nodeConns b) (sessions b) (registry b) (fallback b) (notifier b) u (channels b).

Definition SetFallbackEndpoint (b : Broker) (endpoint : string) : Broker :=
  with_fallback b (NewFallbackResolver endpoint).
Definition SetUDPBridge (b : Broker) (u : option UDPBridge) : Broker := with_bridge b u.
Definition SetCloudNotifier (b : Broker) (n : bool) : Broker :=
  MkBroker (nodeConns b) (sessions b) (registry b) (fallback b) n (udpBridge b) (channels b).

Definition notifyFallback (b : Broker) (familyID : string) (inFallback : bool) : list effect :=
  if notifier b then [NotifyFallback familyID inFallback] else [].

(** What a family's fallback endpoint comes from ([*terminator.Service]). *)
Class FamilyEndpointResolver (T : Type) := EnsureFamily : T → string → T * go string.

Section Broker.
(** The iteration orders of the maps ranged over. *)
Variable iter : gmap string nat → list (string * nat).
Variable iter_nodes : gmap string nodeEntry → list (string * nodeEntry).
Variable iter_sessions : gmap SessionKey Session → list (SessionKey * Session).

(** [RegisterNode]: [c] is the fresh [Conn] of the WebSocket handler. *)
Definition RegisterNode (b : Broker) (now : time) (nodeID familyID : string) (c : nat) : Broker :=
  MkBroker (<[nodeID := MkEntry familyID c]> (nodeConns b)) (sessions b)
    (Add iter (registry b) now (MkNode nodeID familyID c PrefPrimary 0 0))
    (fallback b) (notifier b) (udpBridge b) (<[c := MkChan nodeID [] false]> (channels b)).

(** The session loop of [UnregisterNode]. *)
Fixpoint drop_sessions (l : list (SessionKey * Session)) (nodeID : string)
    (ss : gmap SessionKey Session) (cs : chans) : go (gmap SessionKey Session * chans) :=
  match l with
  | [] => Ret (ss, cs)
  | (key, sess) :: l =>
      if bool_decide (c_nodeID <$> cs !! NodeConn sess = Some nodeID) then
        cs ← close_chan cs (NodeConn sess);
        cs ← match DevConn sess with Some d => close_chan cs d | None => Ret cs end;
        drop_sessions l nodeID (delete key ss) cs
      else drop_sessions l nodeID ss cs
  end.

Definition UnregisterNode (b : Broker) (nodeID : string) : go Broker :=
  let reg := fst (Remove iter (registry b) nodeID) in
  r ← drop_sessions (iter_sessions (sessions b)) nodeID (sessions b) (channels b);
  Ret (MkBroker (delete nodeID (nodeConns b)) r.1 reg (fallback b) (notifier b) (udpBridge b) r.2).

Definition TouchNode (b : Broker) (now : time) (nodeID : string) : Broker :=
  with_registry b (Touch (registry b) now nodeID).

(** [RegisterDevice]: the first node of the family in the iteration. *)
Definition RegisterDevice (b : Broker) (now : time) (familyID deviceID : string) (c : nat) : Broker * option string :=
  match List.find (λ e, String.eqb (ne_FamilyID e.2) familyID) (iter_nodes (nodeConns b)) with
  | None => (b, Some "no home node online for family"%string)
  | Some (_, entry) =>
      (with_sessions (with_channels b (<[c := MkChan "" [] false]> (channels b)))
         (<[(familyID, deviceID) := MkSession (ne_Conn entry) (Some c) now]> (sessions b)), None)
  end.

Definition UnregisterDevice (b : Broker) (familyID deviceID : string) : go Broker :=
  match sessions b !! (familyID, deviceID) with
  | None => Ret b
  | Some sess =>
      cs ← match DevConn sess with Some d => close_chan (channels b) d | None => Ret (channels b) end;
      Ret (with_sessions (with_channels b cs) (delete (familyID, deviceID) (sessions b)))
  end.

Definition ForwardToNode (b : Broker) (familyID deviceID : string) (pkt : bytes) : go Broker :=
  match sessions b !! (familyID, deviceID) with
  | None => Ret b
  | Some sess => r ← try_send (channels b) (NodeConn sess) pkt; Ret (with_channels b r.1)
  end.

(** [net.ResolveUDPAddr("udp4", s)]: the address, if [s] is one. *)
Variable ResolveUDPAddr : string → option string.

Definition DeliverToClient (u : UDPBridge) (deviceTag : string) (payload : bytes) : list effect :=
  match clientAddrs u !! deviceTag with
  | Some addr => [ToClient addr payload]
  | None => match ResolveUDPAddr deviceTag with Some addr => [ToClient addr payload] | None => [] end
  end.

Definition ForwardToDevice (b : Broker) (familyID deviceID : string) (pkt : bytes) : go (Broker * list effect) :=
  let via_bridge :=
    match udpBridge b with
    | Some u =>
        p ← unwrap pkt;
        match p with
        | Some (_, payload) => Ret (b, DeliverToClient u deviceID payload)
        | None => Ret (b, [])
        end
    | None => Ret (b, [])
    end in
  match sessions b !! (familyID, deviceID) with
  | Some sess =>
      match DevConn sess with
      | Some d => r ← try_send (channels b) d pkt; Ret (with_channels b r.1, [])
      | None => via_bridge
      end
  | None => via_bridge
  end.

(** [cleanup], one tick. *)
Definition cleanup_tick (b : Broker) (now : time) : Broker :=
  with_sessions b (filter (λ p : SessionKey * Session,
    ¬ (10 * minute < time_sub now (CreatedAt p.2) ∧ DevConn p.2 = None)) (sessions b)).

(** One family of [sweepStaleFamilies]. *)
Definition sweep_family (now : time) (b : Broker) (fam : string) : Broker * list effect :=
  let status := Status (registry b) now fam in
  let '(b, e1) :=
    if bool_decide (HealthyCount status = 0%nat) && HasFallback status then
      let '(f, entered) := EnterFallback (fallback b) now fam in
      (with_fallback b f, if entered : bool then notifyFallback b fam true else [])
    else (b, []) in
  let '(b, e2) :=
    if bool_decide (0 < HealthyCount status)%nat then
      let '(f, exited) := ExitFallback (fallback b) fam in
      (with_fallback b f, if exited : bool then notifyFallback b fam false else [])
    else (b, []) in
  (b, e1 ++ e2).

Fixpoint sweep_families (now : time) (b : Broker) (fams : list string) : Broker * list effect :=
  match fams with
  | [] => (b, [])
  | f :: fams =>
      let '(b, e) := sweep_family now b f in
      let '(b, es) := sweep_families now b fams in (b, e ++ es)
  end.

Definition sweepStaleFamilies (b : Broker) (now : time) : Broker * list effect :=
  sweep_families now b (remove_dups (map (λ e, ne_FamilyID e.2) (iter_nodes (nodeConns b)))).

(** ** The WebSocket handlers *)

(** A data frame read from the node's WebSocket ([handleNodeConn]). *)
Definition node_frame (b : Broker) (familyID : string) (pkt : bytes) : go (Broker * list effect) :=
  p ← unwrap pkt;
  match p with
  | None => Ret (b, [])
  | Some (deviceID, payload) => ForwardToDevice b familyID deviceID (wrapFrame deviceID payload)
  end.

(** A message on a node's WebSocket: pings are answered on its channel. *)
Definition node_message (b : Broker) (familyID : string) (c : nat) (pkt : bytes) : go (Broker * list effect) :=
  match classify pkt with
  | Ignore => Ret (b, [])
  | ReplyPong => r ← try_send (channels b) c pong; Ret (with_channels b r.1, [])
  | Data pkt => node_frame b familyID pkt
  end.

(** A message on a device's WebSocket ([handleDeviceConn]). *)
Definition device_message (b : Broker) (familyID deviceID : string) (c : nat) (pkt : bytes) : go Broker :=
  match classify pkt with
  | Ignore => Ret b
  | ReplyPong => r ← try_send (channels b) c pong; Ret (with_channels b r.1)
  | Data pkt =>
      p ← unwrap pkt;
      match p with
      | None => Ret b
      | Some (_, payload) => ForwardToNode b familyID deviceID (wrapFrame deviceID payload)
      end
  end.

(** ** The bridge *)

Context {T : Type} `{FamilyEndpointResolver T}.

(** [net.DialUDP] of an endpoint, and [conn.Write] on a dialled socket. *)
Variable dial_ok : string → bool.
Variable write_ok : string → bool.

(** [forwardToFallback]; the terminator, when wired, is asked only for a
    device without a socket. *)
Definition forwardToFallback (term : option T) (u : UDPBridge) (familyID deviceTag staticEndpoint : string)
    (payload : bytes) : option T * UDPBridge * list effect * option string :=
  let write endpoint u term :=
    if write_ok endpoint then (term, u, [ToTerminator endpoint deviceTag payload], None)
    else (term, u, [], Some "write"%string) in
  match fallbackConns u !! deviceTag with
  | Some endpoint => write endpoint u term
  | None =>
      let '(term, r) :=
        match term with
        | Some t => let '(t, r) := EnsureFamily t familyID in (Some t, r)
        | None => (None, Ret staticEndpoint)
        end in
      match r with
      | Ret endpoint =>
          if String.eqb endpoint "" then (term, u, [], Some "no fallback endpoint"%string) else
          match ResolveUDPAddr endpoint with
          | None => (term, u, [], Some "resolve fallback endpoint"%string)
          | Some ep =>
              if negb (dial_ok ep) then (term, u, [], Some "dial fallback"%string) else
              write ep (MkBridge (br_familyID u) (clientAddrs u) (<[deviceTag := ep]> (fallbackConns u))) term
          end
      | _ => (term, u, [], Some "ensure family"%string)
      end
  end.

(** One datagram of [readLoop], from client address [addr]; the bridge runs
    once it is registered with the broker. *)
Definition handle_packet (term : option T) (b : Broker) (now : time) (addr : string)
    (payload : bytes) : go (option T * Broker * list effect) :=
  match udpBridge b with
  | None => Ret (term, b, [])
  | Some u =>
      let deviceTag := addr in
      let u := MkBridge (br_familyID u) (<[deviceTag := addr]> (clientAddrs u)) (fallbackConns u) in
      let b := with_bridge b (Some u) in
      let fam := br_familyID u in
      if String.eqb fam "" then Ret (term, b, []) else
      match PickHealthyNode (registry b) now fam with
      | Some node =>
          let b := with_fallback b (fst (ExitFallback (fallback b) fam)) in
          r ← try_send (channels b) (Conn node) (wrapFrame deviceTag payload);
          Ret (term, with_channels b r.1, [])
      | None =>
          let '(f, entered) := EnterFallback (fallback b) now fam in
          let effs := if entered : bool then notifyFallback b fam true else [] in
          let endpoint := fallbackEndpoint f in
          if String.eqb endpoint "" && negb (bool_decide (is_Some term))
          then Ret (term, with_fallback b (RecordDropped f), effs)
          else
            let '(term, u, es, err) := forwardToFallback term u fam deviceTag endpoint payload in
            let f := match err with None => RecordForwarded f | Some _ => RecordDropped f end in
            Ret (term, with_fallback (with_bridge b (Some u)) f, effs ++ es)
      end
  end.

(** ** All events *)

(** One event at the broker, with whatever effects it has. *)
Inductive broker_step : Broker → Broker → Prop :=
| bs_register b now n fam c : broker_step b (RegisterNode b now n fam c)
| bs_unregister b n b' : UnregisterNode b n = Ret b' → broker_step b b'
| bs_node_message b fam c pkt b' es : node_message b fam c pkt = Ret (b', es) → broker_step b b'
| bs_device b now fam d c : broker_step b (fst (RegisterDevice b now fam d c))
| bs_device_gone b fam d b' : UnregisterDevice b fam d = Ret b' → broker_step b b'
| bs_device_message b fam d c pkt b' : device_message b fam d c pkt = Ret b' → broker_step b b'
| bs_cleanup b now : broker_step b (cleanup_tick b now)
| bs_sweep b now : broker_step b (fst (sweepStaleFamilies b now))
| bs_packet term b now addr payload term' b' es :
    handle_packet term b now addr payload = Ret (term', b', es) → broker_step b b'
| bs_bridge b u : broker_step b (SetUDPBridge b u)
| bs_endpoint b e : broker_step b (SetFallbackEndpoint b e)
| bs_notifier b n : broker_step b (SetCloudNotifier b n).

(** ** No received frame refreshes a node *)

Lemma try_send_registry b cs c pkt r : try_send cs c pkt = Ret r → registry (with_channels b r.1) = registry b.
Proof. done. Qed.

Lemma ForwardToDevice_registry b fam d pkt b' es :
  ForwardToDevice b fam d pkt = Ret (b', es) → registry b' = registry b.
Proof.
  unfold ForwardToDevice. set (v := match udpBridge b with Some _ => _ | None => _ end).
  assert (Hv : v = Ret (b', es) → registry b' = registry b).
  { unfold v. destruct (udpBridge b); [|naive_solver]. intros Hb. bind_inv Hb.
    destruct v0 as [[? ?]|]; naive_solver. }
  destruct (sessions b !! (fam, d)) as [sess|]; [|done]. destruct (DevConn sess); [|done].
  intros Hb. bind_inv Hb. by injection Hb as <- <-.
Qed.

Lemma sweep_families_registry now b fams : registry (fst (sweep_families now b fams)) = registry b.
Proof.
  revert b. induction fams as [|f fams IH]; intros b; simpl; [done|].
  assert (Hs : registry (fst (sweep_family now b f)) = registry b).
  { unfold sweep_family. destruct (_ && _).
    - destruct (EnterFallback _ _ _). destruct (bool_decide _); [|done]. by destruct (ExitFallback _ _).
    - destruct (bool_decide _); [|done]. by destruct (ExitFallback _ _). }
  destruct (sweep_family now b f) as [b1 e1]. simpl in Hs. specialize (IH b1).
  destruct (sweep_families now b1 fams). simpl in *. congruence.
Qed.

(** Every event but registering and removing a node leaves the registry as
    it is. *)
Lemma step_registry b b' : broker_step b b' →
  registry b' = registry b ∨
  (∃ now n fam c, registry b' = Add iter (registry b) now (MkNode n fam c PrefPrimary 0 0)) ∨
  (∃ n, registry b' = fst (Remove iter (registry b) n)).
Proof.
  intros Hs. destruct Hs as [b now n fam c|b n b' Hs|b fam c pkt b' es Hs|b now fam d c|b fam d b' Hs
    |b fam d c pkt b' Hs|b now|b now|term b now addr payload term' b' es Hs|b u|b e|b n]; try (left; done).
  - right. left. by repeat eexists.
  - right. right. unfold UnregisterNode in Hs. bind_inv Hs. injection Hs as <-. by eexists.
  - left. unfold node_message in Hs. destruct (classify pkt); [naive_solver|..].
    + bind_inv Hs. by injection Hs as <- <-.
    + unfold node_frame in Hs. bind_inv Hs. destruct v as [[d p]|]; [|naive_solver].
      by apply ForwardToDevice_registry in Hs.
  - left. unfold RegisterDevice. by destruct (List.find _ _) as [[? ?]|].
  - left. unfold UnregisterDevice in Hs. destruct (sessions b !! _); [|naive_solver].
    bind_inv Hs. by injection Hs as <-.
  - left. unfold device_message in Hs. destruct (classify pkt); [naive_solver|..].
    + bind_inv Hs. by injection Hs as <-.
    + bind_inv Hs. destruct v as [[d' p]|]; [|naive_solver]. unfold ForwardToNode in Hs.
      destruct (sessions b !! _); [|naive_solver]. bind_inv Hs. by injection Hs as <-.
  - left. apply sweep_families_registry.
  - left. unfold handle_packet in Hs. destruct (udpBridge b) as [u|]; [|naive_solver].
    destruct (String.eqb _ _); [naive_solver|]. destruct (PickHealthyNode _ _ _).
    + bind_inv Hs. by injection Hs as <- <- <-.
    + destruct (EnterFallback _ _ _). destruct (_ && _); [by injection Hs as <- <- <-|].
      destruct (forwardToFallback _ _ _ _ _ _) as [[[? ?] ?] ?]. by injection Hs as <- <- <-.
Qed.

Definition never_seen_again (r : NodeRegistry) : Prop :=
  ∀ i h, heap r !! i = Some h → LastSeen h = JoinedAt h.

Lemma step_never_seen b b' : never_seen_again (registry b) → broker_step b b' → never_seen_again (registry b').
Proof.
  intros Hn Hs. apply step_registry in Hs as [->|[(now & n & fam & c & ->)|(n & ->)]]; [done|..].
  - intros i h. unfold Add, rebuildFamilyIndex. simpl. destruct (decide (i = next (registry b))) as [->|Hne].
    + rewrite lookup_insert_eq. by intros [= <-].
    + rewrite lookup_insert_ne by done. apply Hn.
  - unfold Remove. destruct (byNode (registry b) !! n); [|done]. destruct (heap (registry b) !! _) eqn:E; [|done].
    intros i h'. unfold rebuildFamilyIndex. simpl. apply Hn.
Qed.

(** A node is routed to for one minute only: in every state the broker
    reaches by any events, including any frames and pings received from the
    nodes, a node whose connection is older than the staleness threshold is
    not healthy, so when all of a family's nodes joined more than 60 s ago no
    node is picked for it. *)
Theorem nodes_go_stale b now fam :
  star broker_step NewBroker b →
  (∀ i h, i ∈ family_nodes (registry b) fam → heap (registry b) !! i = Some h →
     stalenessThreshold < now - JoinedAt h) →
  PickHealthyNode (registry b) now fam = None.
Proof.
  intros Hb Hold. assert (Hn : never_seen_again (registry b)).
  { eapply (star_invariant broker_step (λ b, never_seen_again (registry b))); eauto using step_never_seen.
    intros i h Hi. simpl in Hi. by rewrite lookup_empty in Hi. }
  unfold PickHealthyNode. destruct (List.find _ _) as [i|] eqn:Hf; [|done]. exfalso.
  apply find_some in Hf as [Hin%list_elem_of_In Hi]. unfold healthy_ref in Hi.
  destruct (heap (registry b) !! i) as [h|] eqn:Hh; [|done].
  unfold healthy in Hi. apply bool_decide_eq_true in Hi.
  specialize (Hold i h Hin Hh). specialize (Hn i h Hh). rewrite Hn in Hi.
  apply time_sub_le in Hi; unfold stalenessThreshold, second, max_duration in *; lia.
Qed.

(** ** Routing of a child's packet *)

Definition degraded (b : Broker) (fam : string) : bool := IsActive (fallback b) fam.

(** The channel of a connection can take a packet. *)
Definition can_send (b : Broker) (c : nat) : Prop :=
  ∃ ch, channels b !! c = Some ch ∧ c_closed ch = false ∧ (length (c_buf ch) < sendBufSize)%nat.

Lemma try_send_ok b c pkt : can_send b c →
  ∃ ch, channels b !! c = Some ch ∧
    try_send (channels b) c pkt = Ret (<[c := MkChan (c_nodeID ch) (c_buf ch ++ [pkt]) false]> (channels b), true).
Proof.
  intros (ch & Hch & Hcl & Hlen). exists ch. split; [done|]. unfold try_send.
  by rewrite Hch, Hcl, decide_True.
Qed.

(** Routing with a healthy node: the packet, framed under the client's
    address, is the last one queued on the channel of the node that was
    picked, the family is no longer degraded, and nothing goes to the
    fallback terminator. *)
Theorem packet_to_node term b u now addr payload node :
  udpBridge b = Some u → br_familyID u ≠ ""%string →
  PickHealthyNode (registry b) now (br_familyID u) = Some node → can_send b (Conn node) →
  ∃ b' ch, handle_packet term b now addr payload = Ret (term, b', []) ∧
    degraded b' (br_familyID u) = false ∧
    channels b' !! Conn node = Some ch ∧ last (c_buf ch) = Some (wrapFrame addr payload) ∧
    (clientAddrs <$> udpBridge b') ≫= (λ m, m !! addr) = Some addr.
Proof.
  intros Hu Hf Hp Hs. destruct (try_send_ok b _ (wrapFrame addr payload) Hs) as (ch & Hch & Hts).
  unfold handle_packet. rewrite Hu. cbn zeta. simpl br_familyID.
  destruct (String.eqb_spec (br_familyID u) ""); [done|]. simpl registry. rewrite Hp. simpl channels. rewrite Hts.
  cbn [mbind go_bind fst]. eexists _, _. split; [done|]. simpl. split; [|split; [by rewrite lookup_insert_eq|split]].
  - unfold degraded. simpl. pose proof (ExitFallback_spec (fallback b) (br_familyID u)) as He.
    destruct (ExitFallback _ _). simpl. by destruct He.
  - simpl. by rewrite last_snoc.
  - by rewrite lookup_insert_eq.
Qed.

(** C25. Routing without a healthy node: the family becomes degraded, the
    cloud is told exactly when it was not and a notifier is wired, and the
    packet either reaches the terminator endpoint or is counted as dropped,
    never both, whatever the terminator, the dialling and the write do. *)
Theorem packet_to_fallback term b u now addr payload :
  udpBridge b = Some u → br_familyID u ≠ ""%string →
  PickHealthyNode (registry b) now (br_familyID u) = None →
  ∃ term' b' es, handle_packet term b now addr payload =
      Ret (term', b', (if negb (degraded b (br_familyID u)) && notifier b
                       then [NotifyFallback (br_familyID u) true] else []) ++ es) ∧
    degraded b' (br_familyID u) = true ∧ channels b' = channels b ∧
    ((∃ ep, es = [ToTerminator ep addr payload] ∧
        packetsForwarded (fallback b') = w64 (packetsForwarded (fallback b) + 1) ∧
        packetsDropped (fallback b') = packetsDropped (fallback b)) ∨
     (es = [] ∧ packetsDropped (fallback b') = w64 (packetsDropped (fallback b) + 1) ∧
        packetsForwarded (fallback b') = packetsForwarded (fallback b))).
Proof.
  intros Hu Hf Hp. unfold handle_packet. rewrite Hu. cbn zeta. simpl br_familyID.
  destruct (String.eqb_spec (br_familyID u) ""); [done|]. simpl registry. rewrite Hp. simpl fallback.
  pose proof (EnterFallback_spec (fallback b) now (br_familyID u)) as He.
  assert (Hcnt : packetsForwarded (fst (EnterFallback (fallback b) now (br_familyID u))) = packetsForwarded (fallback b) ∧
    packetsDropped (fst (EnterFallback (fallback b) now (br_familyID u))) = packetsDropped (fallback b)).
  { unfold EnterFallback. by destruct (active _ !! _). }
  destruct (EnterFallback (fallback b) now (br_familyID u)) as [f entered].
  destruct He as (Ha & -> & _). destruct Hcnt as [Hc1 Hc2]. simpl in Hc1, Hc2.
  assert (Heff : (if negb (IsActive (fallback b) (br_familyID u)) then notifyFallback (with_bridge b (Some
      (MkBridge (br_familyID u) (<[addr:=addr]> (clientAddrs u)) (fallbackConns u)))) (br_familyID u) true else []) =
    if negb (degraded b (br_familyID u)) && notifier b then [NotifyFallback (br_familyID u) true] else []).
  { unfold notifyFallback, degraded. simpl. by destruct (IsActive (fallback b) _), (notifier b). }
  simpl in Heff |- *. rewrite Heff. destruct (String.eqb _ _ && _).
  { eexists _, _, []. rewrite app_nil_r. split; [done|]. split; [exact Ha|]. split; [done|]. right.
    simpl. by rewrite Hc1, Hc2. }
  destruct (forwardToFallback _ _ _ _ _ _) as [[[term' u'] es] err] eqn:Hfwd.
  eexists _, _, es. split; [done|]. simpl. unfold degraded. simpl.
  assert (Hes : (∃ ep, es = [ToTerminator ep addr payload] ∧ err = None) ∨ (es = [] ∧ is_Some err)).
  { revert Hfwd. unfold forwardToFallback. simpl. destruct (fallbackConns u !! addr).
    - destruct (write_ok _); intros [= <- <- <- <-]; eauto.
    - destruct (match term with Some _ => _ | None => _ end) as [term1 r].
      destruct r as [ep|e| |]; try (intros [= <- <- <- <-]; by eauto).
      destruct (String.eqb ep ""); [intros [= <- <- <- <-]; by eauto|].
      destruct (ResolveUDPAddr ep); [|intros [= <- <- <- <-]; by eauto].
      destruct (negb (dial_ok _)); [intros [= <- <- <- <-]; by eauto|].
      destruct (write_ok _); intros [= <- <- <- <-]; by eauto. }
  destruct Hes as [(ep & -> & ->)|[-> [e ->]]]; simpl.
  - split; [done|]. split; [done|]. left. exists ep. by rewrite Hc1, Hc2.
  - split; [done|]. split; [done|]. right. by rewrite Hc1, Hc2.
Qed.

Lemma sweep_healthy now b fam :
  (0 < HealthyCount (Status (registry b) now fam))%nat → degraded b fam = false →
  snd (sweep_family now b fam) = [].
Proof.
  intros Hc Ha. unfold sweep_family. rewrite bool_decide_false by lia. cbn [andb].
  rewrite bool_decide_true by done. unfold degraded, IsActive in Ha. apply bool_decide_eq_false in Ha.
  unfold ExitFallback. destruct (active (fallback b) !! fam); [destruct Ha; eauto|done].
Qed.

(** The recovery of a family through its traffic is not reported: when a
    node is healthy again, the first packet clears the degraded flag without
    a notification, and the next sweep, finding nothing to clear, sends none
    either, so the cloud keeps the family marked as running on backup. *)
Theorem recovery_not_reported term b u now addr payload term' b' es :
  udpBridge b = Some u → br_familyID u ≠ ""%string → degraded b (br_familyID u) = true →
  is_Some (PickHealthyNode (registry b) now (br_familyID u)) →
  handle_packet term b now addr payload = Ret (term', b', es) →
  es = [] ∧ degraded b' (br_familyID u) = false ∧ snd (sweep_family now b' (br_familyID u)) = [].
Proof.
  intros Hu Hf Hd [node Hp] Hh. unfold handle_packet in Hh. rewrite Hu in Hh. cbn zeta in Hh. simpl br_familyID in Hh.
  destruct (String.eqb_spec (br_familyID u) ""); [done|]. simpl registry in Hh. rewrite Hp in Hh. bind_inv Hh.
  pose proof (ExitFallback_spec (fallback b) (br_familyID u)) as He.
  injection Hh as <- <- <-. split; [done|].
  assert (Ha : IsActive (fst (ExitFallback (fallback b) (br_familyID u))) (br_familyID u) = false)
    by (destruct (ExitFallback _ _); by destruct He).
  split; [exact Ha|]. apply sweep_healthy; [|exact Ha].
  unfold PickHealthyNode in Hp. destruct (List.find _ _) as [i|] eqn:Hfind; [|done].
  apply find_some in Hfind as [Hin Hok]. simpl.
  assert (Hin' : In i (List.filter (healthy_ref (registry b) now) (family_nodes (registry b) (br_familyID u))))
    by (by apply filter_In). destruct (List.filter _ _); [done|]. simpl. lia.
Qed.

(** ** Disconnections *)

(** No panic, no result: a step of the session loop is one or the other. *)
Lemma close_chan_cases cs c :
  close_chan cs c = Panic ∨ ∃ cs', close_chan cs c = Ret cs' ∧
    (∀ d, c_nodeID <$> cs' !! d = c_nodeID <$> cs !! d) ∧
    (∀ d, c_closed <$> cs !! d = Some true → c_closed <$> cs' !! d = Some true) ∧
    (is_Some (cs !! c) → c_closed <$> cs' !! c = Some true).
Proof.
  unfold close_chan. destruct (cs !! c) as [ch|] eqn:E.
  2:{ right. eexists. split; [done|]. split; [done|]. split; [done|]. by intros [? [=]]. }
  destruct (c_closed ch) eqn:Ec; [by left|]. right. eexists. split; [done|]. split; [|split].
  - intros d. destruct (decide (d = c)) as [->|Hd]; [by rewrite lookup_insert_eq, E|by rewrite lookup_insert_ne].
  - intros d. destruct (decide (d = c)) as [->|Hd]; [by rewrite lookup_insert_eq|by rewrite lookup_insert_ne].
  - intros _. by rewrite lookup_insert_eq.
Qed.

Lemma close_dev_cases cs (d : option nat) :
  let m := match d with Some d => close_chan cs d | None => Ret cs end in
  m = Panic ∨ ∃ cs', m = Ret cs' ∧ (∀ e, c_nodeID <$> cs' !! e = c_nodeID <$> cs !! e) ∧
    (∀ e, c_closed <$> cs !! e = Some true → c_closed <$> cs' !! e = Some true).
Proof.
  destruct d as [d|]; simpl; [|right; eexists; done].
  destruct (close_chan_cases cs d) as [->|(cs' & -> & H1 & H2 & _)]; [by left|right]. eauto.
Qed.

(** A session of the node whose channel is already closed makes the loop
    panic. *)
Lemma drop_sessions_closed l n ss cs c :
  c_nodeID <$> cs !! c = Some n → c_closed <$> cs !! c = Some true →
  Exists (λ p, NodeConn p.2 = c) l → drop_sessions l n ss cs = Panic.
Proof.
  revert ss cs. induction l as [|[key sess] l IH]; intros ss cs Hn Hc Hex; [by inversion Hex|].
  simpl. case_bool_decide as Hs.
  - destruct (decide (NodeConn sess = c)) as [He|Hne].
    { unfold close_chan. rewrite He. destruct (cs !! c) as [ch|]; [|done]. simpl in Hc. injection Hc as ->. done. }
    apply Exists_cons in Hex as [?|Hex]; [done|].
    destruct (close_chan_cases cs (NodeConn sess)) as [->|(cs1 & -> & H1 & H2 & _)]; [done|]. cbn [mbind go_bind].
    destruct (close_dev_cases cs1 (DevConn sess)) as [->|(cs2 & -> & H3 & H4)]; [done|]. cbn [mbind go_bind].
    apply IH; [by rewrite H3, H1|by apply H4, H2|done].
  - apply Exists_cons in Hex as [He|Hex]; [|by apply IH]. simpl in He. rewrite He in Hs. done.
Qed.

Lemma drop_sessions_shared l n ss cs c p q l1 l2 l3 :
  l = l1 ++ p :: l2 ++ q :: l3 → NodeConn p.2 = c → NodeConn q.2 = c →
  c_nodeID <$> cs !! c = Some n → drop_sessions l n ss cs = Panic.
Proof.
  intros -> Hp Hq. revert ss cs. induction l1 as [|[key sess] l1 IH]; intros ss cs Hn; simpl.
  - destruct p as [kp sp]. simpl in Hp. rewrite Hp, bool_decide_true by done.
    destruct (close_chan_cases cs c) as [->|(cs1 & -> & H1 & _ & H2)]; [done|]. cbn [mbind go_bind].
    destruct (close_dev_cases cs1 (DevConn sp)) as [->|(cs2 & -> & H3 & H4)]; [done|]. cbn [mbind go_bind].
    apply (drop_sessions_closed _ _ _ _ c); [by rewrite H3, H1| |].
    + apply H4, H2. destruct (cs !! c); [eauto|done].
    + apply Exists_app. right. by constructor.
  - case_bool_decide; [|by apply IH].
    destruct (close_chan_cases cs (NodeConn sess)) as [->|(cs1 & -> & H1 & _)]; [done|]. cbn [mbind go_bind].
    destruct (close_dev_cases cs1 (DevConn sess)) as [->|(cs2 & -> & H3 & _)]; [done|]. cbn [mbind go_bind].
    apply IH. by rewrite H3, H1.
Qed.

Hypothesis iter_perm : ∀ m, iter m ≡ₚ map_to_list m.
Hypothesis iter_nodes_perm : ∀ m, iter_nodes m ≡ₚ map_to_list m.
Hypothesis iter_sessions_perm : ∀ m, iter_sessions m ≡ₚ map_to_list m.

(** A node with two device sessions crashes the relay when it
    disconnects: both sessions hold the node's connection, and the loop
    closes its channel once per session, which panics on the second, in
    every broker state and for every iteration order. *)
Theorem two_sessions_panic b n k1 k2 s1 s2 c :
  k1 ≠ k2 → sessions b !! k1 = Some s1 → sessions b !! k2 = Some s2 →
  NodeConn s1 = c → NodeConn s2 = c → c_nodeID <$> channels b !! c = Some n →
  UnregisterNode b n = Panic.
Proof.
  intros Hne H1 H2 Hc1 Hc2 Hn. unfold UnregisterNode.
  assert (Hin1 : (k1, s1) ∈ iter_sessions (sessions b)) by (by rewrite iter_sessions_perm, elem_of_map_to_list).
  assert (Hin2 : (k2, s2) ∈ iter_sessions (sessions b)) by (by rewrite iter_sessions_perm, elem_of_map_to_list).
  assert (Hd : ∃ p q l1 l2 l3, iter_sessions (sessions b) = l1 ++ p :: l2 ++ q :: l3 ∧
    NodeConn p.2 = c ∧ NodeConn q.2 = c).
  { apply list_elem_of_split in Hin1 as (l1 & l2 & Hl). rewrite Hl in Hin2.
    apply elem_of_app in Hin2 as [Hin2|[[= He ?]|Hin2]%elem_of_cons]; [|by destruct Hne|].
    - apply list_elem_of_split in Hin2 as (l3 & l4 & ->). exists (k2, s2), (k1, s1), l3, l4, l2.
      by rewrite Hl, <- app_assoc.
    - apply list_elem_of_split in Hin2 as (l3 & l4 & ->). by exists (k1, s1), (k2, s2), l1, l3, l4. }
  destruct Hd as (p & q & l1 & l2 & l3 & Hl & Hp & Hq).
  by rewrite (drop_sessions_shared _ _ _ _ c p q l1 l2 l3 Hl Hp Hq Hn).
Qed.

(** A reconnected node is forgotten: when a node opens a second
    connection before the handler of the first one has returned, that
    handler's unregistration removes the new registration, and no packet of
    the family is routed to the live connection. *)
Theorem reconnect_forgotten t1 t2 now n fam c1 c2 b :
  UnregisterNode (RegisterNode (RegisterNode NewBroker t1 n fam c1) t2 n fam c2) n = Ret b →
  nodeConns b !! n = None ∧ PickHealthyNode (registry b) now fam = None ∧
  c_closed <$> channels b !! c2 = Some false.
Proof.
  intros Hu. unfold UnregisterNode in Hu. bind_inv Hu. injection Hu as <-. simpl in Hstep |- *.
  assert (Hnil : iter_sessions (∅ : gmap SessionKey Session) = []).
  { apply Permutation_nil. by rewrite iter_sessions_perm, map_to_list_empty. }
  rewrite Hnil in Hstep. injection Hstep as <-. simpl.
  split; [by rewrite lookup_delete_eq|]. split; [|by rewrite lookup_insert_eq].
  set (r1 := Add iter NewNodeRegistry t1 (MkNode n fam c1 PrefPrimary 0 0)).
  assert (Hw1 : wf r1).
  { apply Add_wf; [done|apply wf_New|]. intros i h Hi. simpl in Hi. by rewrite lookup_empty in Hi. }
  set (r2 := Add iter r1 t2 (MkNode n fam c2 PrefPrimary 0 0)).
  assert (Hw2 : wf r2).
  { apply Add_wf; [done|done|]. intros i h Hi Hh. unfold r1, Add, rebuildFamilyIndex in Hi, Hh. simpl in Hi, Hh.
    rewrite lookup_insert_eq in Hi. injection Hi as <-. rewrite lookup_insert_eq in Hh. by injection Hh as <-. }
  assert (Hw3 : wf (fst (Remove iter r2 n))) by (by apply Remove_wf).
  assert (Hbn : byNode (fst (Remove iter r2 n)) = ∅).
  { unfold Remove. assert (byNode r2 !! n = Some 1%nat) as -> by (simpl; by rewrite lookup_insert_eq).
    simpl. rewrite lookup_insert_eq. simpl. rewrite insert_insert_eq, delete_insert_eq. apply delete_empty || done. }
  unfold PickHealthyNode. destruct (List.find _ _) as [i|] eqn:Hf; [|done]. exfalso.
  apply find_some in Hf as [Hin%list_elem_of_In _]. apply (wf_members _ _ (wf_f _ Hw3 fam)) in Hin as (h & _ & Hin & _).
  by rewrite Hbn, lookup_empty in Hin.
Qed.

(** ** Replies of a home node *)

(** A node's replies cannot reach a child: the client tags every
    datagram it reads from its WireGuard socket with that socket's own peer
    address, so whatever the child the packet was for, the broker delivers
    it to what that address denotes on the relay host, and a child at any
    other address receives nothing. *)
Theorem node_reply_misdelivered b u fam wgAddr payload b' es :
  Z.of_nat (String.length wgAddr) < 65536 →
  udpBridge b = Some u → sessions b !! (fam, wgAddr) = None →
  node_message b fam 0 (client_from_wg wgAddr payload) = Ret (b', es) →
  b' = b ∧ ∀ addr p, ToClient addr p ∈ es →
    p = payload ∧ (clientAddrs u !! wgAddr = Some addr ∨
      (clientAddrs u !! wgAddr = None ∧ ResolveUDPAddr wgAddr = Some addr)).
Proof.
  intros Hl Hu Hs. unfold node_message, client_from_wg.
  change (wrapClientFrame wgAddr payload) with (wrapFrame wgAddr payload).
  pose proof (unwrap_wrapFrame wgAddr payload Hl) as Hw.
  rewrite classify_wrapFrame. unfold node_frame. rewrite Hw. cbn [mbind go_bind].
  unfold ForwardToDevice. rewrite Hs, Hu, Hw. cbn [mbind go_bind]. intros [= <- <-].
  split; [done|]. intros addr p. unfold DeliverToClient.
  destruct (clientAddrs u !! wgAddr) as [a|] eqn:E.
  - intros [= -> ->]%list_elem_of_singleton. auto.
  - destruct (ResolveUDPAddr wgAddr) as [a|]; [|by intros ?%elem_of_nil].
    intros [= -> ->]%list_elem_of_singleton. auto.
Qed.
End Broker.

(** ** Concrete instances *)

Definition sample_bridge : UDPBridge := MkBridge "smith" ∅ ∅.
Definition sample_broker : Broker :=
  RegisterNode map_to_list
    (SetCloudNotifier (SetUDPBridge (SetFallbackEndpoint NewBroker "127.0.0.1:51900") (Some sample_bridge)) true)
    (10 * second) "pi" "smith" 1.

#[local] Instance no_terminator : FamilyEndpointResolver unit := λ t _, (t, Err "none").

Lemma nodes_go_stale_witness : PickHealthyNode (registry sample_broker) (100 * second) "smith" = None.
Proof.
  apply (nodes_go_stale map_to_list map_to_list map_to_list Some (T:=unit) (λ _, true) (λ _, true)).
  - unfold sample_broker. eapply star_step; [apply bs_endpoint|]. eapply star_step; [apply bs_bridge|].
    eapply star_step; [apply bs_notifier|]. eapply star_step; [apply bs_register|]. apply star_refl.
  - intros i h Hi. vm_compute in Hi. apply elem_of_cons in Hi as [->|Hi]; [|by apply elem_of_nil in Hi].
    intros Hh. vm_compute in Hh. injection Hh as <-. by vm_compute.
Defined.

Lemma packet_to_node_witness :
  ∃ b' ch, handle_packet Some (T:=unit) (λ _, true) (λ _, true) None sample_broker (20 * second) "203.0.113.9:4000" [x04] =
    Ret (None, b', []) ∧ channels b' !! 1%nat = Some ch ∧ last (c_buf ch) = Some (wrapFrame "203.0.113.9:4000" [x04]).
Proof.
  destruct (packet_to_node Some (T:=unit) (λ _, true) (λ _, true) None sample_broker sample_bridge (20 * second)
    "203.0.113.9:4000" [x04] (MkNode "pi" "smith" 1 PrefPrimary (10 * second) (10 * second)))
    as (b' & ch & H1 & _ & H2 & H3 & _); [done|done|by vm_compute| |].
  - exists (MkChan "pi" [] false). split; [by vm_compute|]. split; [done|]. unfold sendBufSize. simpl. lia.
  - exact (ex_intro _ b' (ex_intro _ ch (conj H1 (conj H2 H3)))).
Defined.

Lemma packet_to_fallback_witness :
  ∃ term' b' es, handle_packet Some (T:=unit) (λ _, true) (λ _, true) None sample_broker (100 * second) "203.0.113.9:4000" [x04] =
    Ret (term', b', [NotifyFallback "smith" true] ++ es).
Proof.
  destruct (packet_to_fallback Some (T:=unit) (λ _, true) (λ _, true) None sample_broker sample_bridge (100 * second)
    "203.0.113.9:4000" [x04]) as (t & b' & es & H & _); [done|done|by vm_compute|].
  exists t, b', es. exact H.
Defined.

(** The family is degraded, then its node reconnects. *)
Definition recovering_broker : Broker :=
  with_fallback sample_broker (fst (EnterFallback (fallback sample_broker) (5 * second) "smith")).

Definition recovered : Broker :=
  match handle_packet Some (T:=unit) (λ _, true) (λ _, true) None recovering_broker (20 * second) "203.0.113.9:4000" [x04] with
  | Ret (_, b, _) => b
  | _ => NewBroker
  end.

Lemma recovery_not_reported_witness :
  degraded recovering_broker "smith" = true ∧ degraded recovered "smith" = false ∧
  snd (sweep_family (20 * second) recovered "smith") = [].
Proof.
  split; [by vm_compute|].
  refine (proj2 (recovery_not_reported Some (T:=unit) (λ _, true) (λ _, true) None recovering_broker sample_bridge (20 * second)
    "203.0.113.9:4000" [x04] None recovered [] _ _ _ _ _)).
  - done.
  - done.
  - by vm_compute.
  - eexists. by vm_compute.
  - by vm_compute.
Defined.

Definition two_devices : Broker :=
  fst (RegisterDevice map_to_list (fst (RegisterDevice map_to_list sample_broker (11 * second) "smith" "tablet" 2))
    (12 * second) "smith" "phone" 3).

Lemma two_sessions_panic_witness : UnregisterNode map_to_list map_to_list two_devices "pi" = Panic.
Proof.
  apply (two_sessions_panic map_to_list map_to_list (λ m, Permutation_refl _) two_devices "pi"
    ("smith", "tablet")%string ("smith", "phone")%string
    (MkSession 1 (Some 2%nat) (11 * second)) (MkSession 1 (Some 3%nat) (12 * second)) 1);
    first [done | by vm_compute].
Defined.

Lemma reconnect_forgotten_witness :
  ∃ b, UnregisterNode map_to_list map_to_list
    (RegisterNode map_to_list (RegisterNode map_to_list NewBroker second "pi" "smith" 1) (2 * second) "pi" "smith" 2) "pi" = Ret b ∧
    PickHealthyNode (registry b) (3 * second) "smith" = None.
Proof.
  destruct (UnregisterNode map_to_list map_to_list
    (RegisterNode map_to_list (RegisterNode map_to_list NewBroker second "pi" "smith" 1) (2 * second) "pi" "smith" 2) "pi")
    as [b|e| |] eqn:Hu; [|by vm_compute in Hu..].
  exists b. split; [done|].
  exact (proj1 (proj2 (reconnect_forgotten map_to_list map_to_list (λ m, Permutation_refl _) (λ m, Permutation_refl _)
    second (2 * second) (3 * second) "pi" "smith" 1 2 b Hu))).
Defined.

Lemma node_reply_misdelivered_witness :
  ∃ b' es, node_message Some sample_broker "smith" 0 (client_from_wg "127.0.0.1:51820" [x04]) = Ret (b', es) ∧
    b' = sample_broker ∧ es = [ToClient "127.0.0.1:51820" [x04]].
Proof.
  destruct (node_message Some sample_broker "smith" 0 (client_from_wg "127.0.0.1:51820" [x04]))
    as [[b' es]|e| |] eqn:H; [|by vm_compute in H..].
  exists b', es. split; [done|].
  destruct (node_reply_misdelivered Some sample_broker sample_bridge "smith" "127.0.0.1:51820" [x04] b' es)
    as [Hb _]; [simpl; lia|done|done|exact H|].
  split; [exact Hb|]. vm_compute in H. by injection H.
Defined.
