(* ===== verification/RelaySession.v ===== *)
(** [internal/relay/client.go], [handler.go]: the goroutines of one relay
    connection, at the home node ([runSession]) and at the relay
    ([runRelayLoop]): send queues, pings, and how a connection ends. *)
From stdpp Require Import gmap.
From S2P Require Import Prelude GoString Registry Fallback Frame Broker.

Local Open Scope nat_scope.

(** ** The queue of a connection and its writer

    [make(chan []byte, 256)] with one goroutine that receives from it and writes
    to the WebSocket. [accepted] records what was put into it. *)
Record outbox := Outbox { written : list bytes; writing : option bytes; queue : list bytes; accepted : list bytes }.

Definition new_outbox : outbox := Outbox [] None [] [].

(** [select { case send <- pkt: default: }]: the packet and whether it went in. *)
Definition offer (pkt : bytes) (o : outbox) : outbox * bool :=
  if decide (length (queue o) < sendBufSize)
  then (Outbox (written o) (writing o) (queue o ++ [pkt]) (accepted o ++ [pkt]), true)
  else (o, false).

Inductive writer_move : outbox → outbox → Prop :=
| take_next w p q a : writer_move (Outbox w None (p :: q) a) (Outbox w (Some p) q a)
| write_done w p q a : writer_move (Outbox w (Some p) q a) (Outbox (w ++ [p]) None q a).

Record outbox_ok (o : outbox) : Prop := {
  ob_order : accepted o = written o ++ option_list (writing o) ++ queue o;
  ob_bound : length (queue o) ≤ sendBufSize }.

Lemma offer_ok pkt o : outbox_ok o → outbox_ok (offer pkt o).1.
Proof.
  intros [H1 H2]. unfold offer. destruct (decide _); [|done]. split; simpl; [by rewrite H1, <- !app_assoc|].
  rewrite length_app. simpl. lia.
Qed.

Lemma writer_move_ok o o' : writer_move o o' → outbox_ok o → outbox_ok o' ∧ accepted o' = accepted o.
Proof. intros [] [H1 H2]; (split; [split|]); simpl in *; [done|lia|done|by rewrite H1, <- app_assoc|done|done]. Qed.

Lemma offer_accepted pkt o : accepted (offer pkt o).1 = accepted o ++ (if (offer pkt o).2 then [pkt] else []).
Proof. unfold offer. destruct (decide _); simpl; [done|]. by rewrite app_nil_r. Qed.

Lemma offer_refused pkt o : (offer pkt o).2 = false → sendBufSize ≤ length (queue o).
Proof. unfold offer. destruct (decide _); simpl; [done|lia]. Qed.

(** ** The node's side: [runSession]

    [wg_in]: the datagrams read from WireGuard, [taken] those that were queued;
    [ws_in]: the messages received; [wg_out]: the packets given to WireGuard. *)
Record session := Session {
  out : outbox;
  wg_in : list bytes; taken : list bytes;
  ws_in : list bytes; wg_out : list bytes;
  over : option string }.

Definition dial_session : session := Session new_outbox [] [] [] [] None.

Inductive session_step (wgAddr : string) : session → session → Prop :=
| ss_datagram s p o ok : over s = None → offer (client_from_wg wgAddr p) (out s) = (o, ok) →
    session_step wgAddr s (Session o (wg_in s ++ [p]) (taken s ++ if ok : bool then [p] else []) (ws_in s) (wg_out s) None)
| ss_wg_read_fails s : over s = None →
    session_step wgAddr s (Session (out s) (wg_in s) (taken s) (ws_in s) (wg_out s) (Some "wg read"%string))
| ss_message s m pongs payloads k : over s = None → client_recv m = Ret (pongs, payloads) →
    session_step wgAddr s (Session (foldl (λ o p, (offer p o).1) (out s) pongs) (wg_in s) (taken s)
      (ws_in s ++ [m]) (wg_out s ++ take k payloads) None)
| ss_ws_read_fails s : over s = None →
    session_step wgAddr s (Session (out s) (wg_in s) (taken s) (ws_in s) (wg_out s) (Some "ws read"%string))
| ss_ping s : over s = None →
    session_step wgAddr s (Session (offer ping (out s)).1 (wg_in s) (taken s) (ws_in s) (wg_out s) None)
| ss_writer s o : over s = None → writer_move (out s) o →
    session_step wgAddr s (Session o (wg_in s) (taken s) (ws_in s) (wg_out s) None)
| ss_write_fails s p : over s = None → writing (out s) = Some p →
    session_step wgAddr s (Session (out s) (wg_in s) (taken s) (ws_in s) (wg_out s) (Some "ws write"%string))
| ss_cancelled s : over s = None →
    session_step wgAddr s (Session (out s) (wg_in s) (taken s) (ws_in s) (wg_out s) (Some ""%string)).

(** What the other end makes of a message: its payload, if it is a data frame. *)
Definition payload_of (m : bytes) : option bytes :=
  match classify m with
  | Data pkt => match unwrap pkt with Ret (Some (_, p)) => Some p | _ => None end
  | _ => None
  end.

Record session_inv (s : session) : Prop := {
  si_out : outbox_ok (out s);
  si_taken : omap payload_of (accepted (out s)) = taken s;
  si_sub : taken s `sublist_of` wg_in s;
  si_wg : wg_out s `sublist_of` omap payload_of (ws_in s) }.

Lemma payload_of_wrapped id p : (Z.of_nat (String.length id) < 65536)%Z → payload_of (wrapClientFrame id p) = Some p.
Proof.
  intros H. unfold payload_of. change (classify (wrapClientFrame id p)) with (Data (wrapClientFrame id p)). unfold wrapClientFrame.
  by rewrite unwrap_parts by (by rewrite length_to_bytes).
Qed.

Lemma client_recv_cases m pongs payloads : client_recv m = Ret (pongs, payloads) →
  Forall (λ p, p = pong) pongs ∧ payloads = option_list (payload_of m).
Proof.
  unfold client_recv, payload_of. destruct (classify m) as [| |pkt]; [by intros [= <- <-]|intros [= <- <-]; by repeat constructor|].
  destruct (unwrap pkt) as [[[id p]|]| | |]; simpl; by intros [= <- <-].
Qed.

Lemma offer_pongs l : ∀ o, Forall (λ p, p = pong) l → outbox_ok o →
  outbox_ok (foldl (λ o p, (offer p o).1) o l) ∧ omap payload_of (accepted (foldl (λ o p, (offer p o).1) o l)) = omap payload_of (accepted o).
Proof.
  induction l as [|p l IH]; intros o Hf Ho; [done|]. apply Forall_cons in Hf as [-> Hf]. simpl.
  destruct (IH (offer pong o).1 Hf (offer_ok _ _ Ho)) as [H1 H2]. split; [done|]. rewrite H2, offer_accepted, omap_app.
  destruct (offer pong o).2; simpl; by rewrite app_nil_r.
Qed.

Lemma session_step_inv wgAddr s s' : (Z.of_nat (String.length wgAddr) < 65536)%Z →
  session_inv s → session_step wgAddr s s' → session_inv s'.
Proof.
  intros Hw [Ho Ht Hs Hg] Hst.
  destruct Hst as [s p o ok _ E|s _|s m pongs payloads k _ E|s _|s _|s o _ E|s p _ _|s _]; split; simpl; try done.
  - change o with (o, ok).1. rewrite <- E. by apply offer_ok.
  - assert (Ha : accepted o = accepted (out s) ++ if ok then [client_from_wg wgAddr p] else []).
    { change o with (o, ok).1. change ok with (o, ok).2 at 2. rewrite <- E. apply offer_accepted. }
    rewrite Ha, omap_app, Ht. f_equal. destruct ok; [|done]. simpl. unfold client_from_wg. by rewrite payload_of_wrapped.
  - apply sublist_app; [done|]. destruct ok; [done|apply sublist_nil_l].
  - apply offer_pongs; [exact (proj1 (client_recv_cases _ _ _ E))|done].
  - rewrite <- Ht. apply offer_pongs; [exact (proj1 (client_recv_cases _ _ _ E))|done].
  - apply client_recv_cases in E as [_ ->]. rewrite omap_app. apply sublist_app; [done|]. simpl.
    destruct (payload_of m); [apply sublist_take|by destruct k].
  - by apply offer_ok.
  - rewrite offer_accepted, omap_app, Ht. destruct (offer ping (out s)).2; simpl; by rewrite app_nil_r.
  - by apply (writer_move_ok (out s)).
  - by rewrite (proj2 (writer_move_ok _ _ E Ho)).
Qed.

Lemma session_reachable wgAddr s : (Z.of_nat (String.length wgAddr) < 65536)%Z →
  star (session_step wgAddr) dial_session s → session_inv s.
Proof.
  intros Hw. apply star_invariant; [intros ? ?; by apply session_step_inv|]. split; simpl; [split; simpl; [done|lia]|done..].
Qed.

(** C27. A session of the node carries packets faithfully in both directions:
    what the relay decodes from the messages written so far is, in order, a
    prefix of the datagrams taken from WireGuard, which are all those read
    except ones refused by a full queue; what WireGuard is given are payloads of
    the messages received, in order; the queue holds at most 256 frames; and no
    message makes the session panic. *)
Theorem session_faithful wgAddr s : (Z.of_nat (String.length wgAddr) < 65536)%Z →
  star (session_step wgAddr) dial_session s →
  omap payload_of (written (out s)) `prefix_of` taken s ∧ taken s `sublist_of` wg_in s ∧
  wg_out s `sublist_of` omap payload_of (ws_in s) ∧ length (queue (out s)) ≤ sendBufSize ∧
  (length (queue (out s)) < sendBufSize → over s = None → ∀ p, ∃ s', session_step wgAddr s s' ∧
    wg_in s' = wg_in s ++ [p] ∧ taken s' = taken s ++ [p]) ∧
  (over s = None → ∀ m, ∃ s', session_step wgAddr s s' ∧ ws_in s' = ws_in s ++ [m] ∧
    wg_out s' = wg_out s ++ option_list (payload_of m)).
Proof.
  intros Hw Hs. pose proof (session_reachable wgAddr s Hw Hs) as I.
  destruct I as [[Ho Hb] Ht Hsub Hg]. rewrite Ho, omap_app in Ht. split; [by eexists|]. split; [done|]. split; [done|]. split; [done|].
  split.
  - intros Hq Hover p. destruct (offer (client_from_wg wgAddr p) (out s)) as [o ok] eqn:E.
    eexists. split; [by eapply ss_datagram|]. simpl. split; [done|]. unfold offer in E. rewrite decide_True in E by done. by simplify_eq.
  - intros Hover m. destruct (client_recv m) as [[pongs payloads]|e| |] eqn:E.
    2-4: by destruct (client_recv_total m) as [r Hr]; rewrite E in Hr.
    eexists. split; [eapply (ss_message _ _ _ _ _ (length payloads)); eassumption|]. simpl. split; [done|].
    destruct (client_recv_cases _ _ _ E) as [_ ->]. by rewrite firstn_all.
Qed.

(** ** The relay's side: [runRelayLoop]

    The goroutines of one connection: the writer, which closes [done] when it
    ends; the ping ticker; and the reader, which runs in the goroutine of the
    HTTP handler. The broker closes the queue when the node or the device is
    unregistered. [crashed]: a panic in a goroutine of the program; [dropped]:
    one in the handler, which net/http recovers. *)
Record relay_loop := RelayLoop {
  r_out : outbox; r_closed : bool; w_done : bool; pinging : bool; reading : bool;
  delivered : list bytes; crashed : bool; dropped : bool }.

Definition open_loop : relay_loop := RelayLoop new_outbox false false true true [] false false.

Inductive loop_step : relay_loop → relay_loop → Prop :=
| ls_writer o o' c p r d x y : writer_move o o' →
    loop_step (RelayLoop o c false p r d x y) (RelayLoop o' c false p r d x y)
| ls_write_fails o c p r d x y m : writing o = Some m →
    loop_step (RelayLoop o c false p r d x y) (RelayLoop o c true p r d x y)
| ls_drained o p r d x y : writing o = None → queue o = [] →
    loop_step (RelayLoop o true false p r d x y) (RelayLoop o true true p r d x y)
| ls_tick o w r d x y :
    loop_step (RelayLoop o false w true r d x y) (RelayLoop (offer ping o).1 false w true r d x y)
| ls_tick_closed o w r d x y :
    loop_step (RelayLoop o true w true r d x y) (RelayLoop o true w true r d true y)
| ls_ticker_stops o c r d x y :
    loop_step (RelayLoop o c true true r d x y) (RelayLoop o c true false r d x y)
| ls_ping o w p d x y m : classify m = ReplyPong →
    loop_step (RelayLoop o false w p true d x y) (RelayLoop (offer pong o).1 false w p true d x y)
| ls_ping_closed o w p d x y m : classify m = ReplyPong →
    loop_step (RelayLoop o true w p true d x y) (RelayLoop o true w p false d x true)
| ls_data o c w p d x y m : classify m = Data m →
    loop_step (RelayLoop o c w p true d x y) (RelayLoop o c w p true (d ++ [m]) x y)
| ls_read_fails o c w p d x y :
    loop_step (RelayLoop o c w p true d x y) (RelayLoop o c w p false d x y)
| ls_forward o w p r d x y pkt :
    loop_step (RelayLoop o false w p r d x y) (RelayLoop (offer pkt o).1 false w p r d x y)
| ls_close o w p r d x y :
    loop_step (RelayLoop o false w p r d x y) (RelayLoop o true w p r d x y).

Record loop_inv (s : relay_loop) : Prop := {
  li_out : outbox_ok (r_out s);
  li_panic : crashed s || dropped s = true → r_closed s = true;
  li_ping : pinging s = false → w_done s = true }.

Lemma loop_step_inv s s' : loop_inv s → loop_step s s' → loop_inv s'.
Proof.
  intros [Ho Hp Hw] Hs.
  destruct Hs; split; simpl in *; try done; try (by apply offer_ok); try (by apply (writer_move_ok o)).
Qed.

(** The messages of a connection are written in the order in which they were
    queued, at most 256 wait, and while nobody closes the queue no goroutine
    panics. When it is closed the ticker is alive until the writer has ended,
    which a slow peer can hold up, and a tick in between panics outside any
    handler and ends the process; a ping of the peer ends the connection by a
    panic of the handler. *)
Theorem closed_queue_crashes s : star loop_step open_loop s →
  written (r_out s) `prefix_of` accepted (r_out s) ∧ length (queue (r_out s)) ≤ sendBufSize ∧
  (r_closed s = false → crashed s = false ∧ dropped s = false) ∧
  (r_closed s = true → w_done s = false → ∃ s', loop_step s s' ∧ crashed s' = true) ∧
  (r_closed s = true → reading s = true → ∃ s', loop_step s s' ∧ dropped s' = true).
Proof.
  intros Hs. assert (I : loop_inv s).
  { revert Hs. apply star_invariant; [intros ? ?; apply loop_step_inv|]. split; [split; simpl; [done|lia]|done|done]. }
  destruct I as [[Ho Hb] Hp Hw]. split; [rewrite Ho; by eexists|]. split; [done|].
  destruct s as [o c w p r d x y]; simpl in *. split; [|split].
  - intros ->. destruct x, y; simpl in Hp; try done; by specialize (Hp eq_refl).
  - intros -> ->. destruct p; [|by specialize (Hw eq_refl)]. eexists. split; [apply ls_tick_closed|done].
  - intros -> ->. eexists. split; [by apply (ls_ping_closed _ _ _ _ _ _ ping)|done].
Qed.

(** ** Who closes the queue of a live connection *)

Lemma drop_sessions_keeps l n : ∀ ss cs ss' cs' d, drop_sessions l n ss cs = Ret (ss', cs') →
  c_closed <$> cs !! d = Some true → c_closed <$> cs' !! d = Some true.
Proof.
  induction l as [|[key sess] l IH]; intros ss cs ss' cs' d; simpl; [by intros [= <- <-]|].
  case_bool_decide as Hm; [|apply IH]. intros H Hd.
  destruct (close_chan_cases cs (NodeConn sess)) as [E|(cs1 & E & _ & K1 & _)]; rewrite E in H; [done|]. cbn [mbind go_bind] in H.
  destruct (close_dev_cases cs1 (DevConn sess)) as [E2|(cs2 & E2 & _ & K2)]; rewrite E2 in H; [done|]. cbn [mbind go_bind] in H.
  eapply IH; [exact H|]. by apply K2, K1.
Qed.

Lemma drop_sessions_closes l n p d : ∀ ss cs ss' cs', drop_sessions l n ss cs = Ret (ss', cs') → p ∈ l →
  c_nodeID <$> cs !! NodeConn p.2 = Some n → DevConn p.2 = Some d → is_Some (cs !! d) → c_closed <$> cs' !! d = Some true.
Proof.
  induction l as [|[key sess] l IH]; intros ss cs ss' cs' H Hin Hn Hd Hc; [by apply elem_of_nil in Hin|].
  assert (Hsome : ∀ cs1 : chans, (∀ e, c_nodeID <$> cs1 !! e = c_nodeID <$> cs !! e) → is_Some (cs1 !! d)).
  { intros cs1 K. specialize (K d). destruct Hc as [ch Hc]. rewrite Hc in K. destruct (cs1 !! d); [by eexists|done]. }
  simpl in H. case_bool_decide as Hs.
  - destruct (close_chan_cases cs (NodeConn sess)) as [E|(cs1 & E & N1 & _)]; rewrite E in H; [done|]. cbn [mbind go_bind] in H.
    apply elem_of_cons in Hin as [->|Hin].
    + simpl in *. rewrite Hd in H. destruct (close_chan_cases cs1 d) as [E2|(cs2 & E2 & _ & _ & K)]; rewrite E2 in H; [done|].
      cbn [mbind go_bind] in H. eapply drop_sessions_keeps; [exact H|]. by apply K, Hsome.
    + destruct (close_dev_cases cs1 (DevConn sess)) as [E2|(cs2 & E2 & N2 & _)]; rewrite E2 in H; [done|]. cbn [mbind go_bind] in H.
      eapply IH; [exact H|done|by rewrite N2, N1|done|]. apply Hsome. intros e. by rewrite N2, N1.
  - apply elem_of_cons in Hin as [->|Hin]; [by simpl in *|]. by eapply IH.
Qed.

(** When a node disconnects, the queue of every device connected through it is
    closed although the device's handler is still reading: the device's next
    ping is a send on a closed channel. *)
Theorem device_outlives_node iter iter_sessions b b' n fam d sess c :
  (∀ m, iter_sessions m ≡ₚ map_to_list m) → UnregisterNode iter iter_sessions b n = Ret b' →
  sessions b !! (fam, d) = Some sess → c_nodeID <$> channels b !! NodeConn sess = Some n →
  DevConn sess = Some c → is_Some (channels b !! c) → device_message b' fam d c ping = Panic.
Proof.
  intros Hp Hu Hs Hn Hc Hsome. unfold UnregisterNode in Hu.
  destruct (drop_sessions _ _ _ _) as [[ss cs]|e| |] eqn:E; try done. injection Hu as <-.
  assert (Hcl : c_closed <$> cs !! c = Some true).
  { eapply (drop_sessions_closes _ _ (fam, d, sess)); [exact E| |done..]. by rewrite Hp, elem_of_map_to_list. }
  unfold device_message. change (classify ping) with ReplyPong. simpl. unfold try_send.
  destruct (cs !! c) as [ch|]; [|done]. simpl in Hcl. injection Hcl as Hcl. by rewrite Hcl.
Qed.

(** ** Concrete instances *)

Definition wg_addr : string := "127.0.0.1:51820".

(** One datagram, queued, taken and written. *)
Definition one_sent : session :=
  Session (Outbox [client_from_wg wg_addr [x04]] None [] [client_from_wg wg_addr [x04]]) [[x04]] [[x04]] [] [] None.

Lemma one_sent_reachable : star (session_step wg_addr) dial_session one_sent.
Proof.
  eapply star_step; [by apply (ss_datagram _ _ [x04])|].
  eapply star_step; [apply ss_writer; [done|apply take_next]|].
  eapply star_step; [apply ss_writer; [done|apply write_done]|]. apply star_refl.
Qed.

Lemma session_faithful_witness : omap payload_of (written (out one_sent)) `prefix_of` [[x04]].
Proof. apply (session_faithful wg_addr one_sent); [simpl; lia|exact one_sent_reachable]. Defined.

(** A packet is being written when the queue is closed. *)
Definition held_up : relay_loop := RelayLoop (Outbox [] (Some [x01]) [] [[x01]]) true false true true [] false false.

Lemma held_up_reachable : star loop_step open_loop held_up.
Proof.
  eapply star_step; [apply (ls_forward _ _ _ _ _ _ _ [x01])|]. eapply star_step; [apply ls_writer, take_next|].
  eapply star_step; [apply ls_close|]. apply star_refl.
Qed.

Lemma closed_queue_crashes_witness : ∃ s', loop_step held_up s' ∧ crashed s' = true.
Proof.
  exact (proj1 (proj2 (proj2 (proj2 (closed_queue_crashes held_up held_up_reachable)))) eq_refl eq_refl).
Defined.

Definition one_device : Broker :=
  fst (RegisterDevice map_to_list sample_broker (11 * second) "smith" "tablet" 2).

Lemma device_outlives_node_witness :
  ∃ b', UnregisterNode map_to_list map_to_list one_device "pi" = Ret b' ∧ device_message b' "smith" "tablet" 2 ping = Panic.
Proof.
  destruct (UnregisterNode map_to_list map_to_list one_device "pi") as [b'|e| |] eqn:Hu; [|by vm_compute in Hu..].
  exists b'. split; [done|].
  apply (device_outlives_node map_to_list map_to_list one_device b' "pi" "smith" "tablet" (MkSession 1 (Some 2) (11 * second)) 2);
    [intros m; reflexivity|exact Hu|by vm_compute|by vm_compute|reflexivity|eexists; by vm_compute].
Defined.
