(* ===== verification/BridgeRun.v ===== *)
(** [internal/relay/relay_udp_bridge.go]: the life of the UDP bridge, from its
    socket to its shutdown: the loop that reads the children's packets, the
    sockets it opens towards the terminator, and the goroutines that carry the
    replies back. What is done with one packet is [Broker.handle_packet]. *)
From stdpp Require Import gmap.
From S2P Require Import Prelude GoString Registry Fallback Frame RelaySession Broker.

Local Open Scope nat_scope.

(** ** The state *)

(** Where [readLoop] is: before its test of the context, in [ReadFromUDP], with
    a packet in hand, before the send to the node it has picked, or ended. *)
Inductive loop_state :=
| Top | Receiving
| Handling (addr : string) (payload : bytes)
| Sending (c : nat) (frame : bytes)
| Ended.

(** [sockets]: the device tags whose socket to the terminator is open;
    [repliers]: those whose [fallbackReplyLoop] runs; [sent]: what left the
    bridge; [crashed]: a panic of one of its goroutines. *)
Record run (T : Type) := Run {
  broker : Broker;
  bridge : UDPBridge;
  term : option T;
  cancelled : bool;
  conn_open : bool;
  swept : bool;
  loop : loop_state;
  sockets : gset string;
  repliers : gset string;
  sent : list effect;
  crashed : bool;
}.
Arguments Run {_} _ _ _ _ _ _ _ _ _ _ _.
Arguments broker {_} _.
Arguments bridge {_} _.
Arguments term {_} _.
Arguments cancelled {_} _.
Arguments conn_open {_} _.
Arguments swept {_} _.
Arguments loop {_} _.
Arguments sockets {_} _.
Arguments repliers {_} _.
Arguments sent {_} _.
Arguments crashed {_} _.

Definition NewUDPBridge (familyID : string) : UDPBridge := MkBridge familyID ∅ ∅.

Section Bridge.
Context {T : Type} `{FamilyEndpointResolver T}.
Variable ResolveUDPAddr : string → option string.
Variable iter : gmap string nat → list (string * nat).
Variable iter_nodes : gmap string nodeEntry → list (string * nodeEntry).
Variable iter_sessions : gmap SessionKey Session → list (SessionKey * Session).

(** [Start]: [listen] is [net.ListenUDP]. *)
Definition Start (listenAddr familyID : string) (listen : string → bool) (t : option T) (b : Broker) : go (run T) :=
  match ResolveUDPAddr listenAddr with
  | None => Err "resolve udp addr"
  | Some addr =>
      if negb (listen addr) then Err "listen udp" else
      let u := NewUDPBridge familyID in
      Ret (Run (SetUDPBridge b (Some u)) u t false true false Top ∅ ∅ [] false)
  end.

(** The broker's pointer, when set, is to this bridge. *)
Definition registered (s : run T) : bool := bool_decide (is_Some (udpBridge (broker s))).
Definition pointed (b : Broker) (u : UDPBridge) : Broker :=
  if decide (is_Some (udpBridge b)) then with_bridge b (Some u) else b.

Definition at_loop (s : run T) (l : loop_state) : run T :=
  Run (broker s) (bridge s) (term s) (cancelled s) (conn_open s) (swept s) l (sockets s) (repliers s) (sent s) (crashed s).
Definition emit (s : run T) (es : list effect) : run T :=
  Run (broker s) (bridge s) (term s) (cancelled s) (conn_open s) (swept s) (loop s) (sockets s) (repliers s) (sent s ++ es) (crashed s).
Definition with_broker (s : run T) (b : Broker) : run T :=
  Run b (bridge s) (term s) (cancelled s) (conn_open s) (swept s) (loop s) (sockets s) (repliers s) (sent s) (crashed s).
Definition fatal (s : run T) : run T :=
  Run (broker s) (bridge s) (term s) (cancelled s) (conn_open s) (swept s) (loop s) (sockets s) (repliers s) (sent s) true.

(** A packet with a healthy node: the choice, which ends the degraded mode, and
    the frame for the node's connection. *)
Definition pick (s : run T) (now : time) (addr : string) (payload : bytes) : option (run T) :=
  let u := MkBridge (br_familyID (bridge s)) (<[addr := addr]> (clientAddrs (bridge s))) (fallbackConns (bridge s)) in
  let fam := br_familyID u in
  if String.eqb fam "" then None else
  match PickHealthyNode (registry (broker s)) now fam with
  | None => None
  | Some node =>
      Some (Run (pointed (with_fallback (broker s) (fst (ExitFallback (fallback (broker s)) fam))) u) u (term s)
        (cancelled s) (conn_open s) (swept s) (Sending (Conn node) (wrapFrame addr payload)) (sockets s) (repliers s) (sent s) (crashed s))
  end.

(** Any other packet; a socket that was not there is now open, with its reply
    loop. *)
Definition divert (s : run T) (now : time) (addr : string) (payload : bytes) (dial_ok write_ok : string → bool) : go (run T) :=
  r ← handle_packet ResolveUDPAddr dial_ok write_ok (term s) (with_bridge (broker s) (Some (bridge s))) now addr payload;
  let '(t, b, es) := r in
  let u := default (bridge s) (udpBridge b) in
  let fresh := dom (fallbackConns u) ∖ dom (fallbackConns (bridge s)) in
  Ret (Run (if registered s then b else with_bridge b None) u t (cancelled s) (conn_open s) (swept s) Top
    (fresh ∪ sockets s) (fresh ∪ repliers s) (sent s ++ es) (crashed s)).

(** ** The steps *)

Inductive run_step : run T → run T → Prop :=
| rs_check_done s : loop s = Top → cancelled s = true → run_step s (at_loop s Ended)
| rs_check s : loop s = Top → cancelled s = false → run_step s (at_loop s Receiving)
| rs_timeout s : loop s = Receiving → run_step s (at_loop s Top)
| rs_received s addr payload : loop s = Receiving → conn_open s = true → run_step s (at_loop s (Handling addr payload))
| rs_read_error s : loop s = Receiving → run_step s (at_loop s Ended)
| rs_pick s now addr payload s' : loop s = Handling addr payload → pick s now addr payload = Some s' → run_step s s'
| rs_send s c frame r : loop s = Sending c frame → try_send (channels (broker s)) c frame = Ret r →
    run_step s (at_loop (with_broker s (with_channels (broker s) r.1)) Top)
| rs_send_closed s c frame : loop s = Sending c frame → try_send (channels (broker s)) c frame = Panic → run_step s (fatal s)
| rs_divert s now addr payload dial_ok write_ok s' : loop s = Handling addr payload → pick s now addr payload = None →
    divert s now addr payload dial_ok write_ok = Ret s' → run_step s s'
(** [fallbackReplyLoop]: a packet of the terminator; the end, at any error of a
    read but a timeout: its socket is closed, or the host of the terminator has
    refused an earlier packet. *)
| rs_reply s tag addr p : tag ∈ repliers s → tag ∈ sockets s → clientAddrs (bridge s) !! tag = Some addr →
    run_step s (emit s (if conn_open s then [ToClient addr p] else []))
| rs_reply_ends s tag : tag ∈ repliers s →
    run_step s (Run (broker s) (bridge s) (term s) (cancelled s) (conn_open s) (swept s) (loop s) (sockets s) (repliers s ∖ {[tag]}) (sent s) (crashed s))
(** A frame of a node, delivered by the broker. *)
| rs_deliver s tag p : registered s = true →
    run_step s (emit s (if conn_open s then DeliverToClient ResolveUDPAddr (bridge s) tag p else []))
(** The rest of the broker. *)
| rs_broker s dial_ok write_ok b' : broker_step iter iter_nodes iter_sessions ResolveUDPAddr (T := T) dial_ok write_ok (broker s) b' → udpBridge b' = udpBridge (broker s) →
    run_step s (with_broker s b')
(** The end of the context, the goroutine that waits for it, and [Stop]. *)
| rs_cancel s : run_step s (Run (broker s) (bridge s) (term s) true (conn_open s) (swept s) (loop s) (sockets s) (repliers s) (sent s) (crashed s))
| rs_sweep s : cancelled s = true → swept s = false →
    run_step s (Run (broker s) (bridge s) (term s) true false true (loop s) ∅ (repliers s) (sent s) (crashed s))
| rs_stop s : run_step s (Run (SetUDPBridge (broker s) None) (bridge s) (term s) (cancelled s) false (swept s) (loop s) (sockets s) (repliers s) (sent s) (crashed s)).

(** ** One packet *)

Lemma forwardToFallback_bridge dial_ok write_ok t u fam tag ep p t' u' es err :
  forwardToFallback ResolveUDPAddr dial_ok write_ok t u fam tag ep p = (t', u', es, err) →
  br_familyID u' = br_familyID u ∧ clientAddrs u' = clientAddrs u ∧
  (fallbackConns u' = fallbackConns u ∨ (fallbackConns u !! tag = None ∧ ∃ e, fallbackConns u' = <[tag := e]> (fallbackConns u))).
Proof.
  unfold forwardToFallback. destruct (fallbackConns u !! tag) as [e|] eqn:E.
  - destruct (write_ok e); intros [= <- <- <- <-]; auto.
  - destruct (match t with Some _ => _ | None => _ end) as [t1 [e|e| |]]; try (intros [= <- <- <- <-]; by auto).
    destruct (String.eqb e ""); [intros [= <- <- <- <-]; by auto|].
    destruct (ResolveUDPAddr e) as [e'|]; [|intros [= <- <- <- <-]; by auto].
    destruct (negb (dial_ok e')); [intros [= <- <- <- <-]; by auto|].
    destruct (write_ok e'); intros [= <- <- <- <-]; simpl; eauto 6.
Qed.

(** What a packet does to the bridge: the address of its sender is noted, and at
    most the socket of this sender is opened. *)
Lemma handle_packet_bridge dial_ok write_ok t b u now addr p t' b' es :
  handle_packet ResolveUDPAddr dial_ok write_ok t (with_bridge b (Some u)) now addr p = Ret (t', b', es) →
  ∃ u', udpBridge b' = Some u' ∧ br_familyID u' = br_familyID u ∧ clientAddrs u' = <[addr := addr]> (clientAddrs u) ∧
    (fallbackConns u' = fallbackConns u ∨ (fallbackConns u !! addr = None ∧ ∃ e, fallbackConns u' = <[addr := e]> (fallbackConns u))).
Proof.
  unfold handle_packet. cbn [udpBridge with_bridge]. cbv zeta. cbn [br_familyID].
  destruct (String.eqb _ ""); [intros [= <- <- <-]; eexists; split; [done|]; simpl; auto|].
  destruct (PickHealthyNode _ _ _).
  - intros Hb. bind_inv Hb. injection Hb as <- <- <-. eexists. split; [done|]. simpl. auto.
  - destruct (EnterFallback _ _ _) as [f e]. destruct (_ && _).
    { intros [= <- <- <-]. eexists. split; [done|]. simpl. auto. }
    destruct (forwardToFallback _ _ _ _ _ _) as [[[t1 u1] es1] err] eqn:E. intros [= <- <- <-].
    apply forwardToFallback_bridge in E as (H1 & H2 & H3). exists u1. by rewrite H1, H2.
Qed.

(** Without a healthy node a packet is handled, whatever fails. *)
Lemma divert_returns s now addr p dial_ok write_ok : pick s now addr p = None →
  ∃ s', divert s now addr p dial_ok write_ok = Ret s'.
Proof.
  unfold pick, divert. cbv zeta. cbn [br_familyID]. intros Hp.
  assert (Hr : ∃ r, handle_packet ResolveUDPAddr dial_ok write_ok (term s) (with_bridge (broker s) (Some (bridge s))) now addr p = Ret r).
  { unfold handle_packet. cbn [udpBridge with_bridge]. cbv zeta. cbn [br_familyID registry with_bridge].
    destruct (String.eqb _ ""); [by eexists|]. destruct (PickHealthyNode _ _ _); [done|].
    destruct (EnterFallback _ _ _). destruct (_ && _); [by eexists|].
    destruct (forwardToFallback _ _ _ _ _ _) as [[[? ?] ?] ?]. by eexists. }
  destruct Hr as [[[t b] es] ->]. cbn [mbind go_bind]. by eexists.
Qed.

(** Picking and sending with nothing in between is [handle_packet]. *)
Lemma pick_send_handle s now addr p s' c frame r : registered s = true → pick s now addr p = Some s' →
  loop s' = Sending c frame → try_send (channels (broker s')) c frame = Ret r →
  ∀ dial_ok write_ok, handle_packet ResolveUDPAddr dial_ok write_ok (term s) (with_bridge (broker s) (Some (bridge s))) now addr p =
    Ret (term s', with_channels (broker s') r.1, []).
Proof.
  unfold pick, registered. cbv zeta. cbn [br_familyID]. intros Hreg Hp Hl Ht dial_ok write_ok.
  apply bool_decide_eq_true in Hreg. unfold handle_packet. cbn [udpBridge with_bridge]. cbv zeta. cbn [br_familyID registry with_bridge].
  destruct (String.eqb _ ""); [done|]. destruct (PickHealthyNode _ _ _) as [node|]; [|done]. injection Hp as <-.
  simpl in Hl, Ht |- *. injection Hl as <- <-. unfold pointed in *. cbn [udpBridge with_fallback] in *.
  rewrite decide_True in Ht |- * by done. simpl in Ht |- *. rewrite Ht. done.
Qed.

(** ** The sockets *)

Record run_inv (s : run T) : Prop := {
  ri_swept : swept s = true → cancelled s = true ∧ conn_open s = false;
  ri_live : swept s = false → sockets s = dom (fallbackConns (bridge s));
  ri_late : swept s = true → size (sockets s) ≤ 1;
  ri_handling : swept s = true → ∀ a p, loop s = Handling a p → sockets s = ∅;
  ri_loops : sockets s ⊆ dom (fallbackConns (bridge s)) ∧ repliers s ⊆ dom (fallbackConns (bridge s));
  ri_tags : ∀ tag a, clientAddrs (bridge s) !! tag = Some a → a = tag;
}.

Lemma divert_inv s now addr p dial_ok write_ok s' : run_inv s → loop s = Handling addr p →
  divert s now addr p dial_ok write_ok = Ret s' → run_inv s'.
Proof.
  intros [H1 H2 H3 H4 [H5 H5'] H6] Hl Hd. unfold divert in Hd. bind_inv Hd. destruct v as [[t b] es].
  apply handle_packet_bridge in Hstep as (u & Hu & Hf & Hc & Hk). injection Hd as <-. rewrite Hu. simpl.
  assert (Hfresh : dom (fallbackConns u) ∖ dom (fallbackConns (bridge s)) ⊆ {[addr]} ∧
    dom (fallbackConns (bridge s)) ⊆ dom (fallbackConns u)).
  { destruct Hk as [->|[_ [e ->]]]; [|rewrite dom_insert_L]; set_solver. }
  destruct Hfresh as [Hfr Hsub]. split; simpl.
  - done.
  - intros Hs. rewrite (H2 Hs). apply leibniz_equiv. intros x. rewrite elem_of_union, elem_of_difference.
    destruct (decide (x ∈ dom (fallbackConns (bridge s)))); set_solver.
  - intros Hs. rewrite (H4 Hs _ _ Hl), union_empty_r_L. etrans; [by apply subseteq_size|]. by rewrite size_singleton.
  - done.
  - split; set_solver.
  - intros tag a. rewrite Hc. destruct (decide (tag = addr)) as [->|Hne]; [rewrite lookup_insert_eq; by intros [= ->]|].
    rewrite lookup_insert_ne by done. apply H6.
Qed.

Lemma run_step_inv s s' : run_inv s → run_step s s' → run_inv s'.
Proof.
  intros Hi Hst.
  destruct Hst as [s Hl Hc|s Hl Hc|s Hl|s addr p Hl Ho|s Hl|s now addr p s' Hl Hp|s c frame r Hl Ht|s c frame Hl Ht
    |s now addr p dok wok s' Hl Hp Hd|s tag addr p Hr Hk Ha|s tag Hr|s tag p Hr|s dok wok b' Hb Hu|s|s Hc Hs|s];
    try (by eapply divert_inv); destruct Hi as [H1 H2 H3 H4 [H5 H5'] H6]; try (split; simpl; done).
  - split; simpl; try done. intros Hs. destruct (H1 Hs) as [_ ?]. congruence.
  - unfold pick in Hp. cbv zeta in Hp. cbn [br_familyID] in Hp. destruct (String.eqb _ ""); [done|].
    destruct (PickHealthyNode _ _ _); [|done]. injection Hp as <-. split; simpl; try done.
    intros tag a. destruct (decide (tag = addr)) as [->|Hne]; [rewrite lookup_insert_eq; by intros [= ->]|].
    rewrite lookup_insert_ne by done. apply H6.
  - split; simpl; try done. set_solver.
  - split; simpl; try done. intros Hs. destruct (H1 Hs). done.
  - split; simpl; try done. set_solver.
  - split; simpl; try done. intros Hs. by destruct (H1 Hs).
Qed.

Lemma start_inv listenAddr familyID listen t b s : Start listenAddr familyID listen t b = Ret s → run_inv s.
Proof.
  unfold Start. destruct (ResolveUDPAddr listenAddr); [|done]. destruct (negb _); [done|]. intros [= <-].
  by split.
Qed.

Lemma pick_keeps s now addr p s' : pick s now addr p = Some s' →
  sockets s' = sockets s ∧ repliers s' = repliers s ∧ swept s' = swept s.
Proof.
  unfold pick. cbv zeta. cbn [br_familyID]. destruct (String.eqb _ ""); [done|].
  destruct (PickHealthyNode _ _ _); [|done]. by intros [= <-].
Qed.

(** A packet opens no socket that was noted before, and gives a new one its
    goroutine. *)
Lemma divert_keeps s now addr p dial_ok write_ok s' : divert s now addr p dial_ok write_ok = Ret s' →
  ∃ fresh, sockets s' = fresh ∪ sockets s ∧ repliers s' = fresh ∪ repliers s ∧ swept s' = swept s ∧
    fresh ## dom (fallbackConns (bridge s)).
Proof.
  unfold divert. intros Hd. bind_inv Hd. destruct v as [[? ?] ?]. injection Hd as <-. simpl. eexists. split; [done|]. split; [done|]. split; [done|]. set_solver.
Qed.

(** What a step does to the sockets and the reply loops of the devices. *)
Lemma run_step_sockets s s' tag : run_inv s → run_step s s' →
  (tag ∈ sockets s → swept s = true → (tag ∈ sockets s') ∧ swept s' = true) ∧
  (tag ∈ sockets s → swept s' = false → tag ∈ sockets s') ∧
  (tag ∈ dom (fallbackConns (bridge s)) → (tag ∉ repliers s) → tag ∉ repliers s') ∧
  ((tag ∉ sockets s) → tag ∈ sockets s' → tag ∈ repliers s') ∧
  dom (fallbackConns (bridge s)) ⊆ dom (fallbackConns (bridge s')).
Proof.
  intros Hi Hst. pose proof (ri_loops _ Hi) as [Hl _]. clear Hi.
  destruct Hst; cbn [sockets repliers swept bridge at_loop emit with_broker fatal];
    try match goal with |- context [repliers ?s ∖ {[?t]}] => split_and!; try done; clear; set_solver end;
    try (by split_and!; auto; intros; congruence).
  - match goal with H : pick _ _ _ _ = Some _ |- _ => rename H into Hp end.
    destruct (pick_keeps _ _ _ _ _ Hp) as (-> & -> & ->). split_and!; try done.
    unfold pick in Hp. cbv zeta in Hp. cbn [br_familyID] in Hp. destruct (String.eqb _ ""); [done|]. destruct (PickHealthyNode _ _ _); [|done]. by injection Hp as <-.
  - match goal with H : divert _ _ _ _ _ _ = Ret _ |- _ => rename H into Hd end.
    destruct (divert_keeps _ _ _ _ _ _ _ Hd) as (fr & -> & -> & -> & Hf). clear Hl. split_and!; try (by auto); try (clear Hd; set_solver).
    unfold divert in Hd. bind_inv Hd. destruct v as [[? b] ?]. apply handle_packet_bridge in Hstep as (u & Hu & _ & _ & Hk). injection Hd as <-.
    simpl. rewrite Hu. simpl. destruct Hk as [->|[_ [e ->]]]; [done|]. rewrite dom_insert. set_solver.
  - simpl. split_and!; try done; try set_solver. congruence.
Qed.

(** C21. The sockets of the bridge towards the terminator. Until the sweep of its
    shutdown none is ever closed: the open ones are those of all the addresses for
    which a connection was made so far. A new one gets a goroutine for its replies;
    this ends at the first error of a read, and then the address never has one
    again: its packets go on being sent through the same socket, and no reply
    comes back. After the sweep at most one socket is open, that of a packet still in
    hand, and it stays open as long as the process runs. A reply goes to the
    address its packet came from. *)
Theorem bridge_sockets listenAddr familyID listen t b s0 s :
  Start listenAddr familyID listen t b = Ret s0 → star run_step s0 s →
  (swept s = false → sockets s = dom (fallbackConns (bridge s))) ∧
  (∀ s' tag, run_step s s' → (tag ∉ sockets s) → tag ∈ sockets s' → tag ∈ repliers s') ∧
  (∀ s' tag, star run_step s s' → tag ∈ sockets s → (swept s' = false → tag ∈ sockets s') ∧ ((tag ∉ repliers s) → tag ∉ repliers s')) ∧
  (swept s = true → size (sockets s) ≤ 1 ∧ ∀ s', star run_step s s' → sockets s ⊆ sockets s') ∧
  (∀ tag a, clientAddrs (bridge s) !! tag = Some a → a = tag).
Proof.
  intros H0 Hs. assert (Hi : run_inv s) by (revert Hs; apply star_invariant; [apply run_step_inv|by eapply start_inv]).
  split; [by apply ri_live|]. split; [|split; [|split; [|by apply ri_tags]]].
  - intros s' tag Hst. by apply (run_step_sockets s s' tag Hi Hst).
  - intros s' tag Hs' Ht. assert (Hd : tag ∈ dom (fallbackConns (bridge s))) by (by apply (proj1 (ri_loops _ Hi))).
    assert (Hk : run_inv s' ∧ tag ∈ dom (fallbackConns (bridge s')) ∧ ((tag ∉ repliers s) → tag ∉ repliers s')).
    { revert Hs'. apply (star_invariant run_step (λ s', run_inv s' ∧ tag ∈ dom (fallbackConns (bridge s')) ∧ ((tag ∉ repliers s) → tag ∉ repliers s'))); [|done].
      intros u v (Hu & Hud & Hur) Hst. destruct (run_step_sockets u v tag Hu Hst) as (_ & _ & K & _ & D).
      split; [by eapply run_step_inv|]. split; [by apply D|auto]. }
    destruct Hk as (Hi' & Hd' & Hr). split; [|done]. intros Hw. by rewrite (ri_live _ Hi' Hw).
  - intros Hw. split; [by apply ri_late|]. intros s' Hs'.
    assert (Hk : run_inv s' ∧ swept s' = true ∧ sockets s ⊆ sockets s'); [|apply Hk].
    revert Hs'. apply (star_invariant run_step (λ s', run_inv s' ∧ swept s' = true ∧ sockets s ⊆ sockets s')); [|done].
    intros u v (Hu & Hw' & Hsub) Hst. split; [by eapply run_step_inv|]. split.
    + destruct Hst; try done.
      * match goal with Hp : pick _ _ _ _ = Some _ |- _ => by destruct (pick_keeps _ _ _ _ _ Hp) as (_ & _ & ->) end.
      * match goal with Hd : divert _ _ _ _ _ _ = Ret _ |- _ => by destruct (divert_keeps _ _ _ _ _ _ _ Hd) as (? & _ & _ & -> & _) end.
    + intros tag Ht. destruct (run_step_sockets u v tag Hu Hst) as [K _]. by apply K; [apply Hsub|].
Qed.

(** ** The end of the loop *)

(** Once the context has ended the loop can end by its own steps, and the sweep
    be done, unless a send to a closed connection ends the process. *)
Theorem bridge_can_stop s : cancelled s = true →
  ∃ s', star run_step s s' ∧ (crashed s' = true ∨ (loop s' = Ended ∧ swept s' = true)).
Proof.
  intros Hc.
  assert (Hsw : ∀ s, cancelled s = true → loop s = Ended → ∃ s', star run_step s s' ∧ (crashed s' = true ∨ loop s' = Ended ∧ swept s' = true)).
  { clear. intros s Hc Hl. destruct (swept s) eqn:Hw; [exists s; split; [apply star_refl|auto]|].
    eexists. split; [eapply star_step; [by apply rs_sweep|apply star_refl]|]. by right. }
  assert (Htop : ∀ s, cancelled s = true → loop s = Top → ∃ s', star run_step s s' ∧ (crashed s' = true ∨ loop s' = Ended ∧ swept s' = true)).
  { intros s' Hc' Hl. destruct (Hsw (at_loop s' Ended) Hc' eq_refl) as (x & Hx & Hx'). exists x. split; [|done].
    by eapply star_step; [apply rs_check_done|]. }
  assert (Hsend : ∀ s c f, cancelled s = true → loop s = Sending c f → ∃ s', star run_step s s' ∧ (crashed s' = true ∨ loop s' = Ended ∧ swept s' = true)).
  { intros s' c f Hc' Hl. destruct (try_send (channels (broker s')) c f) as [r|e| |] eqn:E.
    - destruct (Htop (at_loop (with_broker s' (with_channels (broker s') r.1)) Top) Hc' eq_refl) as (x & Hx & Hx').
      exists x. split; [|done]. by eapply star_step; [eapply rs_send|].
    - unfold try_send in E. destruct (_ !! c) as [ch|]; [|done]. destruct (c_closed ch); [done|]. by destruct (decide _).
    - exists (fatal s'). split; [|by left]. eapply star_step; [by eapply rs_send_closed|apply star_refl].
    - unfold try_send in E. destruct (_ !! c) as [ch|]; [|done]. destruct (c_closed ch); [done|]. by destruct (decide _). }
  destruct (loop s) as [| |a p|c f|] eqn:Hl; [by apply Htop| | |by eapply Hsend|by apply Hsw].
  - destruct (Htop (at_loop s Top) Hc eq_refl) as (x & Hx & Hx'). exists x. split; [|done]. by eapply star_step; [apply rs_timeout|].
  - destruct (pick s 0%Z a p) as [s'|] eqn:E.
    + assert (Hk : cancelled s' = true ∧ ∃ c f, loop s' = Sending c f).
      { unfold pick in E. cbv zeta in E. cbn [br_familyID] in E. destruct (String.eqb _ ""); [done|].
        destruct (PickHealthyNode _ _ _); [|done]. injection E as <-. simpl. eauto. }
      destruct Hk as (Hk & c & f & Hf). destruct (Hsend s' c f Hk Hf) as (x & Hx & Hx'). exists x. split; [|done].
      by eapply star_step; [eapply rs_pick|].
    + destruct (divert_returns s 0%Z a p (λ _, true) (λ _, true) E) as [s' Hd].
      assert (Hk : cancelled s' = true ∧ loop s' = Top).
      { revert Hd. unfold divert. intros Hd. bind_inv Hd. destruct v as [[? ?] ?]. by injection Hd as <-. }
      destruct Hk as [Hk Hf]. destruct (Htop s' Hk Hf) as (x & Hx & Hx'). exists x. split; [|done].
      by eapply star_step; [eapply rs_divert|].
Qed.

(** ** A node that disconnects *)

Hypothesis iter_sessions_perm : ∀ m, iter_sessions m ≡ₚ map_to_list m.

Lemma drop_sessions_closes_node l n c : ∀ p ss cs ss' cs', drop_sessions l n ss cs = Ret (ss', cs') → p ∈ l →
  NodeConn p.2 = c → c_nodeID <$> cs !! c = Some n → c_closed <$> cs' !! c = Some true.
Proof.
  induction l as [|[key sess] l IH]; intros p ss cs ss' cs' Hd Hin Hp Hn; [by apply elem_of_nil in Hin|]. simpl in Hd.
  case_bool_decide as Hs.
  - destruct (close_chan_cases cs (NodeConn sess)) as [E|(cs1 & E & N1 & _ & K1)]; rewrite E in Hd; [done|]. cbn [mbind go_bind] in Hd.
    destruct (close_dev_cases cs1 (DevConn sess)) as [E2|(cs2 & E2 & N2 & K2)]; rewrite E2 in Hd; [done|]. cbn [mbind go_bind] in Hd.
    apply elem_of_cons in Hin as [->|Hin].
    + simpl in Hp. subst c. eapply drop_sessions_keeps; [exact Hd|]. apply K2, K1. destruct (cs !! NodeConn sess); [eauto|done].
    + eapply IH; [exact Hd|done|done|]. by rewrite N2, N1.
  - apply elem_of_cons in Hin as [->|Hin]; [simpl in Hp; subst c; by rewrite Hn in Hs|]. by eapply IH.
Qed.

(** Between the choice of a node and the send to its connection nothing holds
    the broker's lock: if the node disconnects then, and a device is connected
    through it, its queue is closed and the send ends the process. *)
Theorem send_race_crashes s c frame n key sess b' :
  loop s = Sending c frame → sessions (broker s) !! key = Some sess → NodeConn sess = c →
  c_nodeID <$> channels (broker s) !! c = Some n → UnregisterNode iter iter_sessions (broker s) n = Ret b' →
  ∃ s', star run_step s s' ∧ crashed s' = true.
Proof.
  intros Hl Hs Hc Hn Hu.
  assert (Hb : udpBridge b' = udpBridge (broker s) ∧ c_closed <$> channels b' !! c = Some true).
  { unfold UnregisterNode in Hu. destruct (drop_sessions _ _ _ _) as [[ss cs]|e| |] eqn:E; try done. injection Hu as <-.
    split; [done|]. eapply (drop_sessions_closes_node _ _ _ (key, sess)); [exact E| |done..].
    by rewrite iter_sessions_perm, elem_of_map_to_list. }
  destruct Hb as [Hb Hcl]. exists (fatal (with_broker s b')). split; [|done].
  eapply star_step. { apply (rs_broker s (λ _, true) (λ _, true) b'); [by eapply bs_unregister|done]. }
  eapply star_step; [|apply star_refl]. eapply rs_send_closed; [exact Hl|]. simpl. unfold try_send.
  destruct (channels b' !! c) as [ch|]; [|done]. simpl in Hcl. injection Hcl as ->. done.
Qed.
End Bridge.

(** ** Concrete runs *)

#[local] Instance toy_terminator : FamilyEndpointResolver unit := λ t _, (t, Ret "127.0.0.1:40000"%string).

Local Abbreviation step := (run_step (T := unit) Some map_to_list map_to_list map_to_list).

Definition toy_start : run unit :=
  match Start Some ":51820" "smith" (λ _, true) (Some ()) (SetFallbackEndpoint NewBroker "127.0.0.1:51821") with
  | Ret s => s
  | _ => Run NewBroker (NewUDPBridge "") None false false false Ended ∅ ∅ [] false
  end.

Definition client : string := "203.0.113.9:4000".
Definition diverted (s : run unit) : run unit :=
  match divert Some s (20 * second)%Z client [x04] (λ _, true) (λ _, true) with Ret s => s | _ => s end.

(** The context ends while the packet of a new client is in hand. *)
Definition in_hand : run unit := at_loop (at_loop toy_start Receiving) (Handling client [x04]).
Definition late : run unit :=
  Run (broker in_hand) (bridge in_hand) (term in_hand) true false true (loop in_hand) ∅ (repliers in_hand) (sent in_hand) (crashed in_hand).

Lemma late_reachable : star step toy_start (diverted late).
Proof.
  eapply star_step; [by apply rs_check|]. eapply star_step; [by apply (rs_received _ _ _ _ _ client [x04])|].
  eapply star_step; [apply rs_cancel|]. eapply star_step; [by apply rs_sweep|].
  eapply star_step; [|apply star_refl].
  eapply (rs_divert _ _ _ _ late (20 * second)%Z client [x04] (λ _, true) (λ _, true)); by vm_compute.
Qed.

(** The socket opened after the sweep stays open. *)
Lemma bridge_sockets_witness : client ∈ sockets (diverted late) ∧
  ∀ s', star (run_step Some map_to_list map_to_list map_to_list) (diverted late) s' → client ∈ sockets s'.
Proof.
  destruct (bridge_sockets Some map_to_list map_to_list map_to_list ":51820" "smith" (λ _, true) (Some ())
    (SetFallbackEndpoint NewBroker "127.0.0.1:51821") toy_start (diverted late)) as (_ & _ & _ & H & _);
    [reflexivity|exact late_reachable|].
  destruct (H ltac:(by vm_compute)) as [_ H'].
  assert (Hc : client ∈ sockets (diverted late)) by (apply (bool_decide_eq_true_1 _); vm_compute; reflexivity).
  split; [exact Hc|]. intros s' Hs. by apply (H' s' Hs).
Defined.

Lemma bridge_can_stop_witness : ∃ s', star step late s' ∧ (crashed s' = true ∨ (loop s' = Ended ∧ swept s' = true)).
Proof. apply (bridge_can_stop Some map_to_list map_to_list map_to_list late). reflexivity. Defined.

(** A device is connected through the node that was picked. *)
Definition with_device : run unit :=
  Run (fst (RegisterDevice map_to_list sample_broker (11 * second)%Z "smith" "tablet" 2)) sample_bridge None false true false
    (Handling client [x04]) ∅ ∅ [] false.
Definition picked : run unit := default with_device (pick with_device (20 * second)%Z client [x04]).

Lemma send_race_crashes_witness : ∃ s', star step picked s' ∧ crashed s' = true.
Proof.
  destruct (UnregisterNode map_to_list map_to_list (broker picked) "pi") as [b|e| |] eqn:E; [|by vm_compute in E..].
  apply (send_race_crashes Some map_to_list map_to_list map_to_list (λ m, Permutation_refl _) picked 1
    (wrapFrame client [x04]) "pi" ("smith", "tablet")%string (MkSession 1 (Some 2) (11 * second)%Z) b);
    [by vm_compute..|exact E].
Defined.
