(* ===== verification/Packet.v ===== *)
(** [internal/terminator/wg_device.go]: the decrypted packets of the fallback
    path. DNS queries are recognised and filtered, blocked ones answered with a
    complete IPv4/UDP/DNS packet. *)
From stdpp Require Import gmap.
From S2P Require Import Prelude GoString Wire Blocklist.

Local Open Scope Z_scope.

(** ** Probes *)

(** [int(pkt[0]&0x0f) * 4] *)
Definition ihl_of (b : byte) : nat := Z.to_nat (Z.land (b2z b) 0x0f * 4).

Definition isDNSQuery (pkt : bytes) : go bool :=
  if decide (length pkt < 28)%nat then Ret false else
  b0 ← idx pkt 0;
  if negb (bool_decide (Z.shiftr (b2z b0) 4 = 4)) then Ret false else
  let ihl := ihl_of b0 in
  if decide (ihl < 20 ∨ length pkt < ihl + 8)%nat then Ret false else
  proto ← idx pkt 9;
  if negb (bool_decide (b2z proto = 17)) then Ret false else
  hi ← idx pkt (ihl + 2);
  lo ← idx pkt (ihl + 3);
  Ret (bool_decide (Z.lor (Z.shiftl (b2z hi) 8) (b2z lo) = 53)).

(** The label loop of [extractDNSQName]. *)
Fixpoint qname_loop (fuel : nat) (pkt : bytes) (pos : nat) (labels : list string) : go string :=
  match fuel with
  | O => Loop
  | S fuel =>
      if decide (pos < length pkt)%nat then
        x ← idx pkt pos;
        let l := b2z x in
        if bool_decide (l = 0) then Ret (join "." labels)
        else if bool_decide (Z.land l 0xC0 ≠ 0) then Err "compressed qname"
        else
          let pos := S pos in
          if decide (length pkt < pos + Z.to_nat l)%nat then Err "label runs off end" else
          s ← slice pkt pos (pos + Z.to_nat l);
          let labels := labels ++ [of_bytes s] in
          if decide (127 < length labels)%nat then Err "too many labels"
          else qname_loop fuel pkt (pos + Z.to_nat l) labels
      else Ret (join "." labels)
  end.

Definition extractDNSQName (pkt : bytes) : go string :=
  if decide (length pkt < 28)%nat then Err "packet too short" else
  b0 ← idx pkt 0;
  let dnsStart := (ihl_of b0 + 8)%nat in
  if decide (length pkt < dnsStart + 12)%nat then Err "dns header truncated" else
  qname_loop (S (length pkt)) pkt (dnsStart + 12) [].

(** ** Checksums *)

(** The loop that adds big-endian 16-bit words into a [uint32]. *)
Fixpoint sum_words (sum : Z) (b : bytes) : Z :=
  match b with
  | hi :: lo :: b => sum_words (w32 (sum + (b2z hi * 256 + b2z lo))) b
  | _ => sum
  end.

(** [for sum>>16 != 0 { sum = (sum & 0xffff) + (sum >> 16) }]; three rounds are
    enough for any [uint32]. *)
Fixpoint fold_carries (fuel : nat) (sum : Z) : Z :=
  match fuel with
  | O => sum
  | S fuel =>
      if bool_decide (Z.shiftr sum 16 ≠ 0)
      then fold_carries fuel (w32 (Z.land sum 0xffff + Z.shiftr sum 16)) else sum
  end.

(** [^uint16(sum)] *)
Definition not16 (sum : Z) : Z := 65535 - w16 sum.

Definition ipChecksum (hdr : bytes) : go bytes :=
  put16 hdr 10 (not16 (fold_carries 3 (sum_words 0 hdr))).

(** The words of the IPv4 pseudo-header, then those of the datagram. *)
Definition udp_sum (ipHdr udp : bytes) : go Z :=
  addrs ← slice ipHdr 12 20;
  proto ← idx ipHdr 9;
  len ← be16 udp 4;
  let sum := sum_words 0 addrs in
  let sum := w32 (sum + b2z proto) in
  let sum := w32 (sum + len) in
  let sum := sum_words sum udp in
  if Nat.odd (length udp)
  then last ← idx udp (length udp - 1); Ret (w32 (sum + Z.shiftl (b2z last) 8))
  else Ret sum.

Definition udpChecksum (ipHdr udp : bytes) : go bytes :=
  sum ← udp_sum ipHdr udp;
  let csum := not16 (fold_carries 3 sum) in
  let csum := if bool_decide (csum = 0) then 0xffff else csum in
  put16 udp 6 csum.

(** ** The reply packet *)

Definition buildBlockedDNSReply (query : bytes) : go bytes :=
  if decide (length query < 28)%nat then Err "query too short" else
  b0 ← idx query 0;
  if negb (bool_decide (Z.shiftr (b2z b0) 4 = 4)) then Err "not ipv4" else
  let ihl := ihl_of b0 in
  if decide (ihl < 20 ∨ length query < ihl + 8)%nat then Err "bad ipv4 header" else
  proto ← idx query 9;
  if negb (bool_decide (b2z proto = 17)) then Err "not udp" else
  let udpStart := ihl in
  udpLen ← be16 query (udpStart + 4);
  if decide (Z.to_nat udpLen < 8 ∨ length query < udpStart + Z.to_nat udpLen)%nat then Err "bad udp length" else
  dnsPayload ← slice query (udpStart + 8) (udpStart + Z.to_nat udpLen);
  r ← BuildSinkholeAFromBytes dnsPayload;
  match r with
  | None | Some [] => Err "dns reply build failed"
  | Some dnsReply =>
      let totalUDPLen := Z.of_nat (8 + length dnsReply) in
      let totalIPLen := Z.of_nat (20 + (8 + length dnsReply)) in
      dscp ← idx query 1;
      dst ← slice query 16 20;
      src ← slice query 12 16;
      hdr ← ipChecksum (x45 :: dscp :: enc16 (w16 totalIPLen) ++ enc16 0 ++ enc16 0x4000 ++
        [x40; x11] ++ enc16 0 ++ dst ++ src);
      dport ← slice query (udpStart + 2) (udpStart + 4);
      sport ← slice query udpStart (udpStart + 2);
      udp ← udpChecksum hdr (dport ++ sport ++ enc16 (w16 totalUDPLen) ++ enc16 0 ++ dnsReply);
      Ret (hdr ++ udp)
  end.

(** ** Filtering *)

Inductive verdict := Reply (pkt : bytes) | ForwardNAT.

Section Filter.
Context `{U : UnicodeTables}.

(** [onPlaintextOutbound]: [Reply] is the synthesised packet, [ForwardNAT]
    the call of [forwardViaNAT]. *)
Definition onPlaintextOutbound (blocklist : Blocklist) (categories : list string) (plaintext : bytes) : go verdict :=
  q ← isDNSQuery plaintext;
  if q : bool then
    go_try (extractDNSQName plaintext)
      (λ domain,
        if String.eqb domain "" then Ret ForwardNAT else
        let normalized := trim_suffix (to_lower domain) "." in
        if IsBlockedForCategories blocklist normalized categories
        then reply ← buildBlockedDNSReply plaintext; Ret (Reply reply)
        else Ret ForwardNAT)
      (λ _, Ret ForwardNAT)
  else Ret ForwardNAT.
End Filter.

(** ** One's-complement sums *)

(** The exact sum of the words, an odd last byte in the high position. *)
Fixpoint words (b : bytes) : Z :=
  match b with
  | hi :: lo :: b => b2z hi * 256 + b2z lo + words b
  | [x] => b2z x * 256
  | [] => 0
  end.

Lemma pairs_ind (P : bytes → Prop) :
  P [] → (∀ x, P [x]) → (∀ x y l, P l → P (x :: y :: l)) → ∀ l, P l.
Proof.
  intros H0 H1 H2 l. cut (P l ∧ ∀ x, P (x :: l)); [by intros []|].
  induction l as [|y l [IH1 IH2]]; split; auto.
Qed.

Lemma words_bound b : 0 ≤ words b ∧ 2 * words b ≤ 65535 * (Z.of_nat (length b) + 1).
Proof.
  induction b as [|x|x y l IH] using pairs_ind; simpl; [lia| |];
    pose proof (b2z_range x); try pose proof (b2z_range y); lia.
Qed.

Lemma words_app a b : Nat.even (length a) = true → words (a ++ b) = words a + words b.
Proof.
  induction a as [|x|x y l IH] using pairs_ind; simpl; [lia|done|]. intros H. rewrite IH by done. lia.
Qed.

Lemma words_enc16 v b : 0 ≤ v < 65536 → words (enc16 v ++ b) = v + words b.
Proof. intros Hv. simpl. rewrite hi8_lo8 by done. lia. Qed.

Lemma sum_words_even s b : Nat.even (length b) = true → 0 ≤ s → s + words b < 4294967296 →
  sum_words s b = s + words b.
Proof.
  revert s. induction b as [|x|x y l IH] using pairs_ind; intros s He Hs Hb; simpl in *; [lia|done|].
  pose proof (b2z_range x). pose proof (b2z_range y). pose proof (words_bound l).
  unfold w32. rewrite Z.mod_small by lia. rewrite IH by (done || lia). lia.
Qed.

Lemma sum_words_odd s b x : last b = Some x → Nat.odd (length b) = true → 0 ≤ s → s + words b < 4294967296 →
  w32 (sum_words s b + Z.shiftl (b2z x) 8) = s + words b.
Proof.
  revert s. induction b as [|y|y z l IH] using pairs_ind; intros s Hl He Hs Hb; [done|..].
  - simpl in *. injection Hl as ->. rewrite Z.shiftl_mul_pow2 by lia. change (2 ^ 8) with 256.
    pose proof (b2z_range x). unfold w32. by rewrite Z.mod_small by lia.
  - assert (Hl' : last l = Some x) by (destruct l; [done|by rewrite !last_cons_cons in Hl]).
    cbn [sum_words words] in *.
    pose proof (b2z_range y). pose proof (b2z_range z). pose proof (words_bound l).
    assert (Hw : w32 (s + (b2z y * 256 + b2z z)) = s + (b2z y * 256 + b2z z))
      by (unfold w32; apply Z.mod_small; lia).
    rewrite Hw, IH by (done || lia). lia.
Qed.

(** *** Folding the carries *)

Lemma fold_step s : 65536 ≤ s < 4294967296 →
  let s' := w32 (Z.land s 0xffff + Z.shiftr s 16) in
  0 < s' ∧ s' ≤ 131070 ∧ (s ≤ 131070 → s' ≤ 65535) ∧ s' mod 65535 = s mod 65535.
Proof.
  intros Hs s'. unfold s', w32. rewrite Z.shiftr_div_pow2 by lia.
  assert (Hland : Z.land s 0xffff = s mod 65536) by (change 0xffff with (Z.ones 16); by rewrite Z.land_ones).
  rewrite Hland. change (2 ^ 16) with 65536.
  pose proof (Z.div_mod s 65536 ltac:(lia)) as Hd. pose proof (Z.mod_pos_bound s 65536 ltac:(lia)).
  assert (1 ≤ s / 65536) by (apply Z.div_le_lower_bound; lia).
  assert (s / 65536 < 65536) by (apply Z.div_lt_upper_bound; lia).
  rewrite (Z.mod_small _ 4294967296) by lia. split; [lia|]. split; [lia|]. split.
  - intros Hs2. assert (s / 65536 < 2) by (apply Z.div_lt_upper_bound; lia). lia.
  - rewrite Hd at 3. replace (65536 * (s / 65536) + s mod 65536)
      with (s mod 65536 + s / 65536 + (s / 65536) * 65535) by lia.
    by rewrite Z.mod_add by lia.
Qed.

Lemma shiftr16_small s : 0 ≤ s → Z.shiftr s 16 ≠ 0 ↔ 65536 ≤ s.
Proof.
  intros Hs. rewrite Z.shiftr_div_pow2 by lia. change (2 ^ 16) with 65536. split.
  - intros H. destruct (decide (65536 ≤ s)); [done|]. rewrite Z.div_small in H by lia. done.
  - intros H. assert (1 ≤ s / 65536) by (apply Z.div_le_lower_bound; lia). lia.
Qed.

(** Folding gives the residue modulo 65535, as 65535 rather than 0 for a
    non-zero sum. *)
Lemma fold_carries_spec s : 0 ≤ s < 4294967296 →
  0 ≤ fold_carries 3 s ≤ 65535 ∧ (fold_carries 3 s) mod 65535 = s mod 65535 ∧ (0 < s → 0 < fold_carries 3 s).
Proof.
  intros Hs. cbn [fold_carries].
  case_bool_decide as H1; [|assert (¬ 65536 ≤ s) by (rewrite <- shiftr16_small; lia); lia].
  apply shiftr16_small in H1; [|lia]. destruct (fold_step s ltac:(lia)) as (Ha & Hb & _ & Hm).
  set (s1 := w32 _) in *. rewrite <- Hm.
  case_bool_decide as H2; [|assert (¬ 65536 ≤ s1) by (rewrite <- shiftr16_small; lia); lia].
  apply shiftr16_small in H2; [|lia]. destruct (fold_step s1 ltac:(lia)) as (Ha2 & _ & Hc2 & Hm2).
  set (s2 := w32 _) in *. rewrite <- Hm2. specialize (Hc2 Hb).
  case_bool_decide as H3; [apply shiftr16_small in H3; lia|]. lia.
Qed.

(** A receiver accepts: the sum with the checksum in place folds to 0xffff. *)
Lemma fold_verifies s c : 0 ≤ s → s + 65535 < 4294967296 →
  c = not16 (fold_carries 3 s) ∨ (not16 (fold_carries 3 s) = 0 ∧ c = 65535) →
  0 ≤ c ≤ 65535 ∧ (0 < s → fold_carries 3 (s + c) = 65535).
Proof.
  intros Hs Hb Hc. destruct (fold_carries_spec s ltac:(lia)) as (Hr & Hm & Hp).
  assert (Hn : not16 (fold_carries 3 s) = 65535 - fold_carries 3 s).
  { unfold not16, w16. by rewrite Z.mod_small by lia. }
  assert (Hc' : 0 ≤ c ≤ 65535 ∧ (s + c) mod 65535 = 0).
  { destruct Hc as [->|[H0 ->]].
    - rewrite Hn. split; [lia|].
      rewrite <- Z.add_mod_idemp_l, <- Hm, Z.add_mod_idemp_l by lia.
      replace (fold_carries 3 s + (65535 - fold_carries 3 s)) with 65535 by lia. done.
    - split; [lia|]. assert (He : fold_carries 3 s = 65535) by lia. rewrite He in Hm.
      rewrite <- Z.add_mod_idemp_l, <- Hm by lia. done. }
  destruct Hc' as [Hcr Hcm]. split; [done|]. intros Hpos.
  destruct (fold_carries_spec (s + c) ltac:(lia)) as (Hr' & Hm' & Hp'). rewrite Hcm in Hm'.
  specialize (Hp' ltac:(lia)). set (f := fold_carries 3 (s + c)) in *.
  apply Z.mod_divide in Hm' as [k Hk]; [|lia]. lia.
Qed.

(** ** The reply packet is well formed *)

Lemma words_pos x y l : 0 < b2z x → 0 < words (x :: y :: l).
Proof. intros Hx. cbn [words]. pose proof (b2z_range y). pose proof (words_bound l). lia. Qed.


Lemma udp_sum_words ipHdr udp addrs proto len :
  slice ipHdr 12 20 = Ret addrs → idx ipHdr 9 = Ret proto → be16 udp 4 = Ret len →
  Z.of_nat (length udp) < 65536 →
  udp_sum ipHdr udp = Ret (words addrs + b2z proto + len + words udp) ∧
  0 ≤ words addrs + b2z proto + len + words udp < 2200000000.
Proof.
  intros Ha Hp Hl Hlen. unfold udp_sum. rewrite Ha, Hp, Hl. cbn [mbind go_bind].
  assert (Hal : length addrs = 8%nat).
  { unfold slice in Ha. case_decide; [|done]. injection Ha as <-. rewrite length_take, length_drop. lia. }
  pose proof (words_bound addrs) as Hb. rewrite Hal in Hb. pose proof (words_bound udp).
  pose proof (b2z_range proto). pose proof (be16_range _ _ _ Hl).
  rewrite (sum_words_even 0 addrs) by (rewrite ?Hal; done || lia). rewrite Z.add_0_l.
  assert (Hw1 : w32 (words addrs + b2z proto) = words addrs + b2z proto) by (unfold w32; apply Z.mod_small; lia).
  assert (Hw2 : w32 (words addrs + b2z proto + len) = words addrs + b2z proto + len) by (unfold w32; apply Z.mod_small; lia).
  rewrite Hw1, Hw2. split; [|lia]. destruct (Nat.odd (length udp)) eqn:Ho.
  - destruct (last udp) as [x|] eqn:Hx.
    2:{ apply last_None in Hx. by subst. }
    assert (Hi : idx udp (length udp - 1) = Ret x).
    { apply idx_Ret. rewrite last_lookup in Hx. by rewrite Nat.sub_1_r. }
    rewrite Hi. cbn [mbind go_bind]. rewrite (sum_words_odd _ udp x) by (done || lia). done.
  - rewrite sum_words_even; [done| |lia|lia]. rewrite <- Nat.negb_odd. by rewrite Ho.
Qed.

(** Writing the checksum into the zero field of an even-length prefix. *)
Lemma put_checksum p s c : Nat.even (length p) = true → 0 ≤ c < 65536 →
  put16 (p ++ enc16 0 ++ s) (length p) c = Ret (p ++ enc16 c ++ s) ∧
  words (p ++ enc16 c ++ s) = words (p ++ enc16 0 ++ s) + c.
Proof.
  intros He Hc. split; [by apply put16_app|].
  rewrite !(words_app p), !words_enc16 by (done || lia). lia.
Qed.

Lemma ipChecksum_spec p s : length p = 10%nat → length s = 8%nat → 0 < words (p ++ enc16 0 ++ s) →
  ∃ c, ipChecksum (p ++ enc16 0 ++ s) = Ret (p ++ enc16 c ++ s) ∧
    fold_carries 3 (sum_words 0 (p ++ enc16 c ++ s)) = 65535.
Proof.
  intros Hp Hs Hpos. unfold ipChecksum. set (b := p ++ enc16 0 ++ s) in *.
  assert (Hlen : length b = 20%nat) by (unfold b; rewrite !length_app, Hp, Hs; done).
  pose proof (words_bound b) as Hb. rewrite Hlen in Hb.
  rewrite sum_words_even by (rewrite ?Hlen; done || lia). rewrite Z.add_0_l.
  destruct (fold_verifies (words b) (not16 (fold_carries 3 (words b))) ltac:(lia) ltac:(lia) (or_introl eq_refl)) as [Hc Hf].
  set (c := not16 _) in *. exists c. destruct (put_checksum p s c) as [Hput Hw]; [by rewrite Hp|lia|].
  fold b in Hput, Hw. rewrite Hp in Hput. split; [exact Hput|].
  rewrite sum_words_even; [|by rewrite !length_app, Hp, Hs|lia|rewrite Hw; lia].
  rewrite Z.add_0_l, Hw. by apply Hf.
Qed.

Lemma udpChecksum_spec ipHdr p r addrs proto len :
  slice ipHdr 12 20 = Ret addrs → idx ipHdr 9 = Ret proto → 0 < b2z proto →
  length p = 6%nat → be16 p 4 = Ret len → Z.of_nat (8 + length r) < 65536 →
  ∃ c s, udpChecksum ipHdr (p ++ enc16 0 ++ r) = Ret (p ++ enc16 c ++ r) ∧
    udp_sum ipHdr (p ++ enc16 c ++ r) = Ret s ∧ fold_carries 3 s = 65535.
Proof.
  intros Ha Hpr Hpp Hp Hl Hlen.
  assert (Hbe : ∀ t, be16 (p ++ t) 4 = Ret len).
  { intros t. do 7 (destruct p as [|? p]; try done). }
  assert (Hll : ∀ c, Z.of_nat (length (p ++ enc16 c ++ r)) < 65536) by (intros c; rewrite !length_app, Hp; simpl; lia).
  destruct (udp_sum_words ipHdr (p ++ enc16 0 ++ r) addrs proto len Ha Hpr (Hbe _) (Hll 0)) as [Hs0 Hb].
  set (s := words addrs + _ + _ + _) in *. unfold udpChecksum. rewrite Hs0. cbn [mbind go_bind].
  set (c := if bool_decide _ then _ else _).
  assert (Hs : 0 < s).
  { unfold s. pose proof (words_bound addrs). pose proof (words_bound (p ++ enc16 0 ++ r)).
    pose proof (be16_range _ _ _ Hl). lia. }
  destruct (fold_verifies s c ltac:(lia) ltac:(lia)) as [Hc Hf].
  { unfold c. case_bool_decide; [right; auto|by left]. }
  destruct (put_checksum p r c) as [Hput Hw]; [by rewrite Hp|lia|]. rewrite Hp in Hput.
  exists c, (s + c). split; [exact Hput|]. split; [|by apply Hf].
  destruct (udp_sum_words ipHdr (p ++ enc16 c ++ r) addrs proto len Ha Hpr (Hbe _) (Hll c)) as [-> _].
  f_equal. unfold s. rewrite Hw. lia.
Qed.

Lemma udpChecksum_length h u v : udpChecksum h u = Ret v → length v = length u.
Proof. unfold udpChecksum. intros Hq. bind_inv Hq. by apply put16_length in Hq. Qed.

Lemma slice_inv b i j s : slice b i j = Ret s → length s = (j - i)%nat ∧ (i ≤ j ∧ j ≤ length b)%nat.
Proof.
  unfold slice. case_decide as H; [|done]. intros [= <-]. split; [|done].
  rewrite length_take, length_drop. lia.
Qed.

(** C24. A blocked query is answered by a well-formed packet: whenever
    [buildBlockedDNSReply] returns a packet of less than 64 KiB, it is an IPv4
    header of 20 bytes (version 4, five words, the query's type of service, no
    fragment and not to be fragmented, a time to live of 64, protocol UDP) and a
    UDP datagram with source and destination addresses and ports swapped, correct
    lengths, both checksums accepted by a receiver's one's-complement check, and
    as payload the sinkhole response to the query's own DNS payload. *)
Theorem blocked_reply_packet query out :
  buildBlockedDNSReply query = Ret out → Z.of_nat (length out) < 65536 →
  ∃ b0 udpLen payload hdr udp r,
    idx query 0 = Ret b0 ∧ be16 query (ihl_of b0 + 4) = Ret udpLen ∧
    slice query (ihl_of b0 + 8) (ihl_of b0 + Z.to_nat udpLen) = Ret payload ∧
    BuildSinkholeAFromBytes payload = Ret (Some r) ∧
    out = hdr ++ udp ∧ length hdr = 20%nat ∧ drop 8 udp = r ∧
    idx hdr 0 = Ret x45 ∧ idx hdr 1 = idx query 1 ∧ be16 hdr 4 = Ret 0 ∧ be16 hdr 6 = Ret 0x4000 ∧
    idx hdr 8 = Ret x40 ∧ idx hdr 9 = Ret x11 ∧
    be16 hdr 2 = Ret (Z.of_nat (length out)) ∧ be16 udp 4 = Ret (Z.of_nat (length udp)) ∧
    slice query 12 16 = Ret (drop 16 hdr) ∧ slice query 16 20 = slice hdr 12 16 ∧
    slice query (ihl_of b0) (ihl_of b0 + 2) = slice udp 2 4 ∧
    slice query (ihl_of b0 + 2) (ihl_of b0 + 4) = slice udp 0 2 ∧
    fold_carries 3 (sum_words 0 hdr) = 65535 ∧
    ∃ s, udp_sum hdr udp = Ret s ∧ fold_carries 3 s = 65535.
Proof.
  unfold buildBlockedDNSReply. case_decide; [done|]. intros Hq. bind_inv Hq. rename v into b0.
  destruct (negb _); [done|]. case_decide; [done|]. bind_inv Hq. destruct (negb _); [done|].
  bind_inv Hq. rename v0 into udpLen. case_decide; [done|]. bind_inv Hq. rename v0 into payload.
  bind_inv Hq. destruct v0 as [[|r0 r']|]; [done| |done]. set (r := r0 :: r') in *. cbn zeta in Hq.
  bind_inv Hq. rename v0 into dscp. bind_inv Hq. rename v0 into dst. bind_inv Hq. rename v0 into src.
  pose proof (slice_inv _ _ _ _ Hstep5) as [Hdl _]. pose proof (slice_inv _ _ _ _ Hstep6) as [Hsl _].
  intros Hout. set (tip := w16 (Z.of_nat (20 + (8 + length r)))) in Hq.
  set (tudp := w16 (Z.of_nat (8 + length r))) in Hq.
  destruct dst as [|d0 [|d1 [|d2 [|d3 [|]]]]]; try done. destruct src as [|s0 [|s1 [|s2 [|s3 [|]]]]]; try done.
  set (p := x45 :: dscp :: enc16 tip ++ enc16 0 ++ enc16 0x4000 ++ [x40; x11]).
  set (a := [d0; d1; d2; d3; s0; s1; s2; s3]).
  destruct (ipChecksum_spec p a) as (c & Hip & Hipv); [reflexivity|reflexivity|by apply words_pos|].
  change (x45 :: dscp :: _) with (p ++ enc16 0 ++ a) in Hq. rewrite Hip in Hq. cbn [mbind go_bind] in Hq.
  bind_inv Hq. rename v0 into dport. bind_inv Hq. rename v0 into sport.
  pose proof (slice_inv _ _ _ _ Hstep7) as [Hpl _]. pose proof (slice_inv _ _ _ _ Hstep8) as [Hql _].
  assert (Hd2 : length dport = 2%nat) by lia. assert (Hs2 : length sport = 2%nat) by lia. clear Hpl Hql.
  destruct dport as [|e0 [|e1 [|]]]; try done. destruct sport as [|f0 [|f1 [|]]]; try done.
  set (pq := [e0; e1; f0; f1] ++ enc16 tudp).
  change ([e0; e1] ++ [f0; f1] ++ enc16 tudp ++ enc16 0 ++ r) with (pq ++ enc16 0 ++ r) in Hq.
  bind_inv Hq. assert (Heq : out = (p ++ enc16 c ++ a) ++ v0) by congruence. clear Hq. subst out.
  assert (Hlv : length v0 = (8 + length r)%nat).
  { apply udpChecksum_length in Hstep9. rewrite Hstep9. unfold pq. by rewrite !length_app. }
  assert (Hlo : length ((p ++ enc16 c ++ a) ++ v0) = (28 + length r)%nat) by (rewrite length_app, Hlv; reflexivity).
  rewrite Hlo in Hout |- *.
  assert (Htu : tudp = Z.of_nat (8 + length r)) by (apply Z.mod_small; lia).
  assert (Hti : tip = Z.of_nat (28 + length r)) by (apply Z.mod_small; lia).
  destruct (udpChecksum_spec (p ++ enc16 c ++ a) pq r a x11 tudp) as (c' & s & Hu & Hsum & Hfold);
    [reflexivity|reflexivity|done|reflexivity| |lia|].
  { apply (be16_enc16 [e0; e1; f0; f1] []). lia. }
  rewrite Hu in Hstep9. injection Hstep9 as <-.
  exists b0, udpLen, payload, (p ++ enc16 c ++ a), (pq ++ enc16 c' ++ r), r.
  do 4 (split; [assumption|]). do 4 (split; [reflexivity|]). split; [by rewrite Hstep4|].
  split; [apply (be16_enc16 ([x45; dscp] ++ enc16 tip) _); lia|]. split; [apply (be16_enc16 ([x45; dscp] ++ enc16 tip ++ enc16 0) _); lia|].
  do 2 (split; [reflexivity|]).
  split; [rewrite <- Hti; apply (be16_enc16 [x45; dscp] _); lia|].
  split; [change (length (pq ++ enc16 c' ++ r)) with (8 + length r)%nat; rewrite <- Htu; apply (be16_enc16 [e0; e1; f0; f1] _); lia|].
  split; [exact Hstep6|]. split; [exact Hstep5|]. split; [rewrite Hstep8|split; [rewrite Hstep7|]].
  - symmetry. apply (slice_middle [e0; e1] [f0; f1]); reflexivity.
  - symmetry. apply (slice_middle [] [e0; e1]); reflexivity.
  - split; [exact Hipv|]. exists s. by split.
Qed.

(** ** The name that is filtered is the name the resolver sees *)

Lemma idx_drop s b i : idx (drop s b) i = idx b (s + i).
Proof. unfold idx. by rewrite lookup_drop. Qed.

Lemma slice_drop s b i j : (s ≤ length b)%nat → slice (drop s b) i j = slice b (s + i) (s + j).
Proof.
  intros Hs. unfold slice. rewrite length_drop, drop_drop. repeat case_decide; try lia; [|done].
  do 2 f_equal; lia.
Qed.

Lemma qname_loop_readName s pkt name fuel fuel2 pos ls :
  (s ≤ length pkt → s + 12 ≤ pos → pos ≤ length pkt → length pkt < fuel2 + pos →
   qname_loop fuel pkt pos ls = Ret name →
   (∃ k, readName_loop fuel2 (drop s pkt) 12 (pos - s) 0 ls = Ret (name, k)) ∨
   readName_loop fuel2 (drop s pkt) 12 (pos - s) 0 ls = Err errShort)%nat.
Proof.
  intros Hs. revert fuel2 pos ls. induction fuel as [|fuel IH]; intros [|fuel2] pos ls Hp Hpl Hf; [done|done|lia|].
  simpl. rewrite length_drop. case_decide as Hlt.
  2:{ intros [= <-]. rewrite decide_True by lia. by right. }
  rewrite decide_False by lia. intros Hq. bind_inv Hq.
  assert (Hidx : idx (drop s pkt) (pos - s) = Ret v).
  { rewrite idx_drop. by replace (s + (pos - s))%nat with pos by lia. }
  rewrite Hidx. cbn [mbind go_bind].
  case_bool_decide as Hz; [injection Hq as <-; left; eauto|].
  case_bool_decide as Hc; [done|].
  rewrite bool_decide_false by (rewrite Hc; done). case_decide as Hlen; [done|].
  rewrite decide_False by lia. bind_inv Hq.
  assert (Hsl : slice (drop s pkt) (S (pos - s)) (S (pos - s + Z.to_nat (b2z v))) = Ret v0).
  { rewrite slice_drop by done. rewrite <- Hstep0. f_equal; lia. }
  rewrite Hsl. cbn [mbind go_bind]. case_decide; [done|].
  apply (IH fuel2) in Hq; [|lia..].
  by replace (S (pos - s + Z.to_nat (b2z v))) with (S (pos + Z.to_nat (b2z v)) - s)%nat by lia.
Qed.

(** One filter, one name: whatever name [extractDNSQName] reads from a
    decrypted packet, the resolver's [readName] reads the same one from the DNS
    message in it, unless the message is cut before the end of the name, which
    the resolver rejects as too short. *)
Theorem qname_agrees pkt name b0 :
  extractDNSQName pkt = Ret name → idx pkt 0 = Ret b0 →
  let dns := drop (ihl_of b0 + 8) pkt in
  (∃ k, readName dns 12 = Ret (name, k)) ∨ readName dns 12 = Err errShort.
Proof.
  unfold extractDNSQName. case_decide as H28; [done|]. intros Hq Hb. rewrite Hb in Hq. cbn [mbind go_bind] in Hq.
  case_decide as Hd; [done|]. cbn zeta. unfold readName.
  pose proof (qname_loop_readName (ihl_of b0 + 8) pkt name _ (S (length (drop (ihl_of b0 + 8) pkt)))
    (ihl_of b0 + 8 + 12) [] ltac:(lia) ltac:(lia) ltac:(lia) ltac:(rewrite length_drop; lia) Hq) as H.
  by replace (ihl_of b0 + 8 + 12 - (ihl_of b0 + 8))%nat with 12%nat in H by lia.
Qed.

(** ** No packet makes the probes panic *)

Lemma qname_loop_no_panic fuel pkt pos ls : no_panic (qname_loop fuel pkt pos ls).
Proof.
  revert pos ls. induction fuel as [|fuel IH]; intros pos ls; simpl; [done|].
  case_decide; [|done]. apply no_panic_bind; [by apply no_panic_idx|]. intros x _.
  case_bool_decide; [done|]. case_bool_decide; [done|]. case_decide; [done|].
  rewrite slice_Ret by lia. cbn [mbind go_bind]. case_decide; [done|]. apply IH.
Qed.

(** The fuel is enough: every round moves past the length byte of a label. *)
Lemma qname_loop_ends fuel pkt pos ls : (length pkt - pos < fuel)%nat → qname_loop fuel pkt pos ls ≠ Loop.
Proof.
  revert pos ls. induction fuel as [|fuel IH]; intros pos ls Hf; simpl; [lia|].
  case_decide as Hp; [|done]. destruct (idx_lt pkt pos Hp) as (x & -> & _). cbn [mbind go_bind].
  case_bool_decide; [done|]. case_bool_decide; [done|]. case_decide; [done|].
  rewrite slice_Ret by lia. cbn [mbind go_bind]. case_decide; [done|]. apply IH. lia.
Qed.

Lemma put16_no_panic b i v : (i + 2 ≤ length b)%nat → no_panic (put16 b i v).
Proof. intros H. by rewrite put16_Ret. Qed.

Lemma be16_no_panic b i : (S i < length b)%nat → no_panic (be16 b i).
Proof. intros H. by destruct (be16_lt b i H) as (v & -> & _). Qed.

Lemma isDNSQuery_no_panic pkt : no_panic (isDNSQuery pkt).
Proof.
  unfold isDNSQuery. case_decide; [done|].
  apply no_panic_bind; [apply no_panic_idx; lia|]. intros b0 _. destruct (negb _); [done|].
  case_decide; [done|]. apply no_panic_bind; [apply no_panic_idx; lia|]. intros p _. destruct (negb _); [done|].
  do 2 (apply no_panic_bind; [apply no_panic_idx; lia|]; intros ? _). done.
Qed.

Lemma extractDNSQName_no_panic pkt : no_panic (extractDNSQName pkt).
Proof.
  unfold extractDNSQName. case_decide; [done|]. apply no_panic_bind; [apply no_panic_idx; lia|]. intros b0 _.
  case_decide; [done|]. apply qname_loop_no_panic.
Qed.

Lemma udpChecksum_no_panic h u : length h = 20%nat → (8 ≤ length u)%nat → no_panic (udpChecksum h u).
Proof.
  intros Hh Hu. unfold udpChecksum, udp_sum. rewrite slice_Ret by lia. cbn [mbind go_bind].
  destruct (idx_lt h 9) as (x & -> & _); [lia|]. cbn [mbind go_bind].
  destruct (be16_lt u 4) as (l & -> & _); [lia|]. cbn [mbind go_bind].
  destruct (Nat.odd _).
  - destruct (idx_lt u (length u - 1)) as (y & -> & _); [lia|]. cbn [mbind go_bind]. apply put16_no_panic. lia.
  - cbn [mbind go_bind]. apply put16_no_panic. lia.
Qed.

Lemma buildBlockedDNSReply_no_panic query : no_panic (buildBlockedDNSReply query).
Proof.
  unfold buildBlockedDNSReply. case_decide; [done|].
  destruct (idx_lt query 0) as (b0 & -> & _); [lia|]. cbn [mbind go_bind]. destruct (negb _); [done|].
  case_decide; [done|]. destruct (idx_lt query 9) as (pr & -> & _); [lia|]. cbn [mbind go_bind].
  destruct (negb _); [done|].
  destruct (be16_lt query (ihl_of b0 + 4)) as (ul & -> & _); [lia|]. cbn [mbind go_bind].
  case_decide; [done|].
  rewrite (slice_Ret query (ihl_of b0 + 8) (ihl_of b0 + Z.to_nat ul)) by lia. cbn [mbind go_bind].
  apply no_panic_bind; [apply buildSinkholeA_no_panic|]. intros [[|r0 r]|] _; [done| |done].
  destruct (idx_lt query 1) as (ds & -> & _); [lia|]. cbn [mbind go_bind].
  rewrite (slice_Ret query 16 20), (slice_Ret query 12 16), (slice_Ret query (ihl_of b0 + 2) (ihl_of b0 + 4)),
    (slice_Ret query (ihl_of b0) (ihl_of b0 + 2)) by lia. cbn [mbind go_bind].
  set (h := x45 :: _). assert (Hh : length h = 20%nat).
  { unfold h. cbn [length enc16 app]. rewrite ?length_app, ?length_take, ?length_drop. lia. }
  apply no_panic_bind; [unfold ipChecksum; apply put16_no_panic; lia|]. intros hdr Hhdr.
  apply put16_length in Hhdr.
  apply no_panic_bind; [|done]. apply udpChecksum_no_panic; [lia|].
  rewrite !length_app, !length_take, !length_drop. simpl. lia.
Qed.

(** No packet a child sends through the fallback tunnel can crash the
    filter: probing it, reading its name, consulting the blocklist and building
    the reply never index out of range. *)
Theorem filter_no_panic `{U : UnicodeTables} blocklist categories pkt :
  no_panic (onPlaintextOutbound blocklist categories pkt).
Proof.
  unfold onPlaintextOutbound. apply no_panic_bind; [apply isDNSQuery_no_panic|]. intros [] _; [|done].
  pose proof (extractDNSQName_no_panic pkt) as Hn. destruct (extractDNSQName pkt) as [d|e| |]; simpl; try done.
  destruct (String.eqb d ""); [done|]. destruct (IsBlockedForCategories _ _ _); [|done].
  apply no_panic_bind; [apply buildBlockedDNSReply_no_panic|done].
Qed.

(** ** Concrete instances: the query of the tests, for "x.bad" *)

Definition sample_packet : bytes :=
  map z2b [0x45; 0; 0; 51; 0; 0; 0; 0; 64; 17; 0; 0; 10; 99; 0; 2; 10; 99; 0; 1;
    48; 57; 0; 53; 0; 31; 0; 0;
    0xab; 0xcd; 1; 0; 0; 1; 0; 0; 0; 0; 0; 0; 1; 120; 3; 98; 97; 100; 0; 0; 1; 0; 1].

Definition sample_reply : bytes :=
  match buildBlockedDNSReply sample_packet with Ret r => r | _ => [] end.

Lemma blocked_reply_packet_witness :
  ∃ hdr udp, sample_reply = hdr ++ udp ∧ fold_carries 3 (sum_words 0 hdr) = 65535.
Proof.
  destruct (blocked_reply_packet sample_packet sample_reply) as
    (b0 & ul & pl & hdr & udp & r & _ & _ & _ & _ & Ho & _ & _ & _ & _ & _ & _ & _ & _ & _ & _ & _ & _ & _ & _ & Hs & _).
  - by vm_compute.
  - by vm_compute.
  - exact (ex_intro _ hdr (ex_intro _ udp (conj Ho Hs))).
Defined.

Lemma qname_agrees_witness :
  extractDNSQName sample_packet = Ret "x.bad"%string ∧
  ((∃ k, readName (drop 28 sample_packet) 12 = Ret ("x.bad"%string, k)) ∨
   readName (drop 28 sample_packet) 12 = Err errShort).
Proof.
  assert (H : extractDNSQName sample_packet = Ret "x.bad"%string) by (by vm_compute).
  split; [exact H|]. exact (qname_agrees sample_packet "x.bad" x45 H eq_refl).
Defined.
