(* ===== verification/Terminator.v ===== *)
(** [internal/terminator/service.go], [wg_keys.go] and the configuration and
    queue parts of [wg_device.go] and [wg_device_userspace.go]: the lifecycle
    of the per-family fallback endpoints. *)
From stdpp Require Import gmap.
From S2P Require Import Prelude GoString Registry Fallback Frame Broker.

Local Open Scope Z_scope.

(** ** Keys *)

(** [base64.StdEncoding]: the value of an alphabet character. *)
Definition b64_val (c : byte) : option Z :=
  let z := b2z c in
  if bool_decide (65 ≤ z ≤ 90) then Some (z - 65)
  else if bool_decide (97 ≤ z ≤ 122) then Some (z - 71)
  else if bool_decide (48 ≤ z ≤ 57) then Some (z + 4)
  else if bool_decide (z = 43) then Some 62
  else if bool_decide (z = 47) then Some 63
  else None.

Definition pad : byte := x3d.

(** Quanta of four characters; padding is allowed in the last one only, and its
    unused bits are not checked. *)
Fixpoint b64_quanta (fuel : nat) (s : bytes) : option bytes :=
  match fuel, s with
  | _, [] => Some []
  | S fuel, a :: b :: c :: d :: r =>
      va ← b64_val a; vb ← b64_val b;
      if decide (c = pad) then
        if decide (d = pad ∧ r = []) then Some [z2b (va * 4 + vb / 16)] else None
      else
        vc ← b64_val c;
        if decide (d = pad) then
          if decide (r = []) then Some [z2b (va * 4 + vb / 16); z2b (vb * 16 + vc / 4)] else None
        else
          vd ← b64_val d;
          rest ← b64_quanta fuel r;
          Some (z2b (va * 4 + vb / 16) :: z2b (vb * 16 + vc / 4) :: z2b (vc * 64 + vd) :: rest)
  | _, _ => None
  end.

(** [DecodeString]: carriage returns and line feeds are ignored. *)
Definition b64_decode (s : string) : option bytes :=
  let l := List.filter (λ c, negb (bool_decide (c = x0a) || bool_decide (c = x0d))) (to_bytes s) in
  b64_quanta (length l) l.

Definition hex_val (c : byte) : option Z :=
  let z := b2z c in
  if bool_decide (48 ≤ z ≤ 57) then Some (z - 48)
  else if bool_decide (97 ≤ z ≤ 102) then Some (z - 87)
  else if bool_decide (65 ≤ z ≤ 70) then Some (z - 55)
  else None.

Fixpoint hex_pairs (s : bytes) : option bytes :=
  match s with
  | [] => Some []
  | a :: b :: r => va ← hex_val a; vb ← hex_val b; rest ← hex_pairs r; Some (z2b (va * 16 + vb) :: rest)
  | _ => None
  end.

Definition hex_digit (v : Z) : byte := if bool_decide (v < 10) then z2b (48 + v) else z2b (87 + v).

Fixpoint hex_bytes (b : bytes) : bytes :=
  match b with
  | [] => []
  | x :: b => hex_digit (b2z x / 16) :: hex_digit (b2z x mod 16) :: hex_bytes b
  end.

Definition EncodeToString (b : bytes) : string := of_bytes (hex_bytes b).

Definition decodeWGKey (key : string) : go string :=
  match b64_decode key with
  | Some b => if decide (length b = 32%nat) then Ret (EncodeToString b) else
      match hex_pairs (to_bytes key) with
      | Some b => if decide (length b = 32%nat) then Ret (EncodeToString b) else Err "not a valid 32-byte wireguard key"
      | None => Err "not a valid 32-byte wireguard key"
      end
  | None =>
      match hex_pairs (to_bytes key) with
      | Some b => if decide (length b = 32%nat) then Ret (EncodeToString b) else Err "not a valid 32-byte wireguard key"
      | None => Err "not a valid 32-byte wireguard key"
      end
  end.

(** ** Family configuration *)

Record Peer := MkPeer { p_PublicKey : string; p_AllowedIPs : list string }.

Record FamilyConfig := MkFamilyConfig {
  fc_FamilyID : string;
  fc_PrivateKey : string;
  fc_ListenPort : Z;
  fc_Peers : list Peer;
  fc_BlockedCats : list string;
}.

Definition nl : string := String "010" "".

Fixpoint uapi_peers (ps : list Peer) : go string :=
  match ps with
  | [] => Ret ""%string
  | p :: ps =>
      pub ← decodeWGKey (p_PublicKey p);
      rest ← uapi_peers ps;
      Ret (("public_key=" +:+ pub +:+ nl) +:+ ("replace_allowed_ips=true" +:+ nl) +:+
        foldr (λ a s, ("allowed_ip=" +:+ a +:+ nl) +:+ s) rest (p_AllowedIPs p))%string
  end.

Definition buildUAPI (cfg : FamilyConfig) : go string :=
  priv ← decodeWGKey (fc_PrivateKey cfg);
  peers ← uapi_peers (fc_Peers cfg);
  Ret (("private_key=" +:+ priv +:+ nl) +:+ ("listen_port=0" +:+ nl) +:+ ("replace_peers=true" +:+ nl) +:+ peers)%string.

(** [newWGDevice]; [impl_ok] stands for [CreateNetTUN], [IpcSet] and [Up] of
    the WireGuard library on the configuration text. *)
Definition newWGDevice (impl_ok : string → bool) (cfg : FamilyConfig) : go unit :=
  if String.eqb (fc_PrivateKey cfg) "" then Err "terminator: family config missing private key" else
  if decide (length (fc_Peers cfg) = 0%nat) then Err "terminator: family config has zero peers" else
  go_try (buildUAPI cfg)
    (λ uapi, if impl_ok uapi then Ret tt else Err "init wg impl")
    (λ _, Err "init wg impl").

(** ** The synthetic UDP queue *)

Record syntheticUDP := MkSynthetic { su_inbound : list bytes; su_outbound : list bytes; su_closed : bool }.

Definition queue_cap : nat := 256.

(** [feed]: a send on the inbound channel, closed by [close]. *)
Definition feed (u : syntheticUDP) (pkt : bytes) : go syntheticUDP :=
  if su_closed u then Panic
  else if decide (length (su_inbound u) < queue_cap)%nat
  then Ret (MkSynthetic (su_inbound u ++ [pkt]) (su_outbound u) false) else Ret u.

(** [Write] and [Send]: non-blocking sends on the outbound channel. *)
Definition su_write (u : syntheticUDP) (pkt : bytes) : syntheticUDP :=
  if decide (length (su_outbound u) < queue_cap)%nat
  then MkSynthetic (su_inbound u) (su_outbound u ++ [pkt]) (su_closed u) else u.

(** [receive] into a buffer of [size] bytes: the packet taken from the queue is
    lost when the buffer is short. *)
Definition su_receive (u : syntheticUDP) (size : nat) : option (syntheticUDP * go bytes) :=
  match su_inbound u with
  | [] => if su_closed u then Some (u, Err "closed"%string) else None
  | pkt :: q =>
      let u := MkSynthetic q (su_outbound u) (su_closed u) in
      if decide (size < length pkt)%nat then Some (u, Err "short buffer"%string) else Some (u, Ret pkt)
  end.

Definition su_close (u : syntheticUDP) : syntheticUDP := MkSynthetic (su_inbound u) (su_outbound u) true.

(** The wrapper device: [HandleInbound] refuses packets once [Close] has run,
    which is idempotent. *)
Record wgDevice := MkDevice { d_closed : bool; d_queue : syntheticUDP }.

Definition HandleInbound (d : wgDevice) (pkt : bytes) : go wgDevice :=
  if d_closed d then Err "terminator: device closed"
  else q ← feed (d_queue d) pkt; Ret (MkDevice false q).

Definition Close (d : wgDevice) : wgDevice :=
  if d_closed d then d else MkDevice true (su_close (d_queue d)).

(** ** The service *)

Record familyEndpoint := MkEndpoint { ep_addr : string; ep_lastSeen : time }.

(** Endpoints are objects with an identity: [families] is the service's map,
    [endpoints] the store of every endpoint brought up, [open] those whose
    socket and device have not been closed. *)
Record Service := MkService {
  families : gmap string nat;
  endpoints : gmap nat familyEndpoint;
  open : gset nat;
}.

Definition NewService : Service := MkService ∅ ∅ ∅.

Definition idleTeardown : duration := 5 * minute.

Definition set_lastSeen (t : time) (e : familyEndpoint) : familyEndpoint := MkEndpoint (ep_addr e) t.

(** First critical section of [EnsureFamily]. *)
Definition ensure_lookup (s : Service) (now : time) (familyID : string) : Service * option string :=
  match families s !! familyID with
  | Some i => (MkService (families s) (alter (set_lastSeen now) i (endpoints s)) (open s), ep_addr <$> endpoints s !! i)
  | None => (s, None)
  end.

(** [bringUpFamily]: on success a new open endpoint [i]. *)
Definition bringUpFamily (bind : Z → go string) (impl_ok : string → bool) (s : Service) (now : time)
    (i : nat) (cfg : FamilyConfig) : Service * option string :=
  match bind (fc_ListenPort cfg) with
  | Ret addr =>
      match newWGDevice impl_ok cfg with
      | Ret _ => (MkService (families s) (<[i := MkEndpoint addr now]> (endpoints s)) ({[i]} ∪ open s), None)
      | _ => (s, Some "init wg device"%string)
      end
  | _ => (s, Some "bind bridge socket"%string)
  end.

(** Second critical section: another call may have registered the family
    meanwhile, in which case the new endpoint is closed. *)
Definition ensure_register (s : Service) (familyID : string) (i : nat) : Service * option string :=
  match families s !! familyID with
  | Some j => (MkService (families s) (endpoints s) (open s ∖ {[i]}), ep_addr <$> endpoints s !! j)
  | None => (MkService (<[familyID := i]> (families s)) (endpoints s) (open s), ep_addr <$> endpoints s !! i)
  end.

(** The call without interleaving. *)
Definition EnsureFamily_call (fetch : string → go FamilyConfig) (bind : Z → go string) (impl_ok : string → bool)
    (s : Service) (now : time) (i : nat) (familyID : string) : Service * go string :=
  match ensure_lookup s now familyID with
  | (s, Some addr) => (s, Ret addr)
  | (s, None) =>
      match fetch familyID with
      | Ret cfg =>
          match bringUpFamily bind impl_ok s now i cfg with
          | (s, None) =>
              let '(s, addr) := ensure_register s familyID i in
              (s, match addr with Some a => Ret a | None => Panic end)
          | (s, Some e) => (s, Err ("bring up family " +:+ familyID +:+ ": " +:+ e))
          end
      | Err e => (s, Err ("fetch family config: " +:+ e))
      | Panic => (s, Panic)
      | Loop => (s, Loop)
      end
  end.

(** A packet read from an endpoint's bridge socket. *)
Definition traffic (s : Service) (now : time) (i : nat) : Service :=
  MkService (families s) (alter (set_lastSeen now) i (endpoints s)) (open s).

Definition idle (s : Service) (now : time) (i : nat) : bool :=
  match endpoints s !! i with
  | Some e => bool_decide (idleTeardown < time_sub now (ep_lastSeen e))
  | None => false
  end.

(** One tick of [idleSweeper]. *)
Definition idle_sweep (s : Service) (now : time) : Service :=
  MkService (filter (λ p : string * nat, idle s now p.2 = false) (families s)) (endpoints s)
    (open s ∖ list_to_set (List.filter (idle s now) (map_to_list (families s)).*2)).

(** [Stop] closes every registered endpoint. *)
Definition Stop (s : Service) : Service :=
  MkService ∅ (endpoints s) (open s ∖ list_to_set (map_to_list (families s)).*2).

(** ** Keys come out in one form *)

Lemma hex_digit_range v : 0 ≤ v < 16 → (48 ≤ b2z (hex_digit v) ≤ 57 ∨ 97 ≤ b2z (hex_digit v) ≤ 102) ∧
  hex_val (hex_digit v) = Some v.
Proof.
  intros Hv. assert (v = 0 ∨ v = 1 ∨ v = 2 ∨ v = 3 ∨ v = 4 ∨ v = 5 ∨ v = 6 ∨ v = 7 ∨ v = 8 ∨ v = 9 ∨ v = 10 ∨
    v = 11 ∨ v = 12 ∨ v = 13 ∨ v = 14 ∨ v = 15) as H by lia.
  destruct_or! H; subst v; (split; [first [left; by vm_compute | right; by vm_compute]|reflexivity]).
Qed.

Lemma nibbles x : 0 ≤ b2z x / 16 < 16 ∧ 0 ≤ b2z x mod 16 < 16.
Proof.
  pose proof (b2z_range x). split; [|apply Z.mod_pos_bound; lia].
  split; [apply Z.div_pos; lia|apply Z.div_lt_upper_bound; lia].
Qed.

Lemma hex_pairs_bytes b : hex_pairs (hex_bytes b) = Some b.
Proof.
  induction b as [|x b IH]; [done|]. cbn [hex_bytes hex_pairs].
  destruct (nibbles x) as [H1 H2]. rewrite (proj2 (hex_digit_range _ H1)), (proj2 (hex_digit_range _ H2)).
  cbn [mbind option_bind]. rewrite IH. cbn [mbind option_bind]. do 2 f_equal.
  replace (b2z x / 16 * 16 + b2z x mod 16) with (b2z x); [apply z2b_b2z|].
  pose proof (Z.div_mod (b2z x) 16 ltac:(lia)). lia.
Qed.

Lemma length_hex_bytes b : length (hex_bytes b) = (2 * length b)%nat.
Proof. induction b; simpl; lia. Qed.

(** Hex digits are base64 characters other than padding and line ends. *)
Lemma hex_bytes_plain b :
  Forall (λ c, c ≠ pad ∧ c ≠ x0a ∧ c ≠ x0d) (hex_bytes b).
Proof.
  assert (H : ∀ v, 0 ≤ v < 16 → hex_digit v ≠ pad ∧ hex_digit v ≠ x0a ∧ hex_digit v ≠ x0d).
  { intros v Hv. destruct (hex_digit_range v Hv) as [Hr _].
    assert (b2z pad = 61 ∧ b2z x0a = 10 ∧ b2z x0d = 13) by done.
    split; [|split]; intros He; rewrite He in Hr; lia. }
  induction b as [|x b IH]; simpl; [done|]. destruct (nibbles x). repeat constructor; naive_solver.
Qed.

Lemma b64_quanta_length n s r : Forall (λ c, c ≠ pad) s → b64_quanta n s = Some r →
  (4 * length r = 3 * length s)%nat.
Proof.
  revert s r. induction n as [|n IH]; intros s r Hs.
  - destruct s; simpl; [by intros [= <-]|done].
  - destruct s as [|a [|b [|c [|d s]]]]; simpl; try (by intros [= <-]); try done.
    apply Forall_cons in Hs as [_ Hs]. apply Forall_cons in Hs as [_ Hs].
    apply Forall_cons in Hs as [Hc Hs]. apply Forall_cons in Hs as [Hd Hs].
    destruct (b64_val a); [|done]. destruct (b64_val b); [|done]. simpl.
    rewrite decide_False by done. destruct (b64_val c); [|done]. simpl.
    rewrite decide_False by done. destruct (b64_val d); [|done]. simpl.
    destruct (b64_quanta n s) as [rest|] eqn:E; [|done]. simpl. intros [= <-].
    apply IH in E; [|done]. simpl. lia.
Qed.

Lemma filter_all {A} (f : A → bool) l : Forall (λ x, f x = true) l → List.filter f l = l.
Proof. induction 1 as [|x l Hx Hl IH]; simpl; [done|]. by rewrite Hx, IH. Qed.

Lemma b64_of_hex b r : length b = 32%nat → b64_decode (EncodeToString b) = Some r → length r = 48%nat.
Proof.
  intros Hb. unfold b64_decode, EncodeToString. rewrite to_of_bytes. pose proof (hex_bytes_plain b) as Hp.
  rewrite filter_all.
  - intros H. apply b64_quanta_length in H; [|by eapply Forall_impl; [exact Hp|naive_solver]].
    rewrite length_hex_bytes in H. lia.
  - eapply Forall_impl; [exact Hp|]. intros c (_ & H1 & H2). simpl. by rewrite !bool_decide_false.
Qed.

Lemma decodeWGKey_hex b : length b = 32%nat → decodeWGKey (EncodeToString b) = Ret (EncodeToString b).
Proof.
  intros Hb. unfold decodeWGKey.
  assert (Hh : hex_pairs (to_bytes (EncodeToString b)) = Some b).
  { unfold EncodeToString. rewrite to_of_bytes. apply hex_pairs_bytes. }
  rewrite Hh. rewrite (decide_True (P := length b = 32%nat)) by done.
  destruct (b64_decode (EncodeToString b)) as [r|] eqn:E; [|done].
  rewrite decide_False; [done|]. apply b64_of_hex in E; [|done]. lia.
Qed.

(** Keys are normalised: whatever form a key is stored in, what
    [decodeWGKey] returns is the lower-case hex of 32 bytes, decoding it again
    gives it back, and conversely the hex of any 32 bytes is accepted as it
    is, although it is also well-formed base64. *)
Theorem decodeWGKey_canonical key s :
  decodeWGKey key = Ret s ↔
  ∃ b, length b = 32%nat ∧ s = EncodeToString b ∧ decodeWGKey s = Ret s ∧
    (b64_decode key = Some b ∨ ((∀ c, b64_decode key = Some c → length c ≠ 32%nat) ∧ hex_pairs (to_bytes key) = Some b)).
Proof.
  split.
  - intros H. assert (Hb : ∃ b, length b = 32%nat ∧ s = EncodeToString b ∧
      (b64_decode key = Some b ∨ ((∀ c, b64_decode key = Some c → length c ≠ 32%nat) ∧ hex_pairs (to_bytes key) = Some b))).
    { unfold decodeWGKey in H. destruct (b64_decode key) as [c|] eqn:E.
      - case_decide as Hc; [injection H as <-; eauto|].
        destruct (hex_pairs (to_bytes key)) as [b|]; [|done]. case_decide; [|done]. injection H as <-.
        exists b. split; [done|]. split; [done|]. right. split; [|done]. by intros ? [= <-].
      - destruct (hex_pairs (to_bytes key)) as [b|]; [|done]. case_decide; [|done]. injection H as <-.
        exists b. split; [done|]. split; [done|]. right. by split. }
    destruct Hb as (b & Hl & -> & Hd). exists b. split; [done|]. split; [done|]. split; [by apply decodeWGKey_hex|done].
  - intros (b & Hl & -> & _ & [Hd|[Hn Hd]]); unfold decodeWGKey.
    + by rewrite Hd, decide_True.
    + destruct (b64_decode key) as [c|]; rewrite ?Hd, ?(decide_False (P := length c = 32%nat)) by auto;
        by rewrite decide_True.
Qed.

(** ** No endpoint leaks *)

(** The service with the [EnsureFamily] calls in flight: each holds an endpoint
    it has brought up and not yet registered. *)
Record tstate := TState { svc : Service; pending : list (string * nat) }.

Inductive tstep : tstate → tstate → Prop :=
| t_lookup s p now fam : tstep (TState s p) (TState (fst (ensure_lookup s now fam)) p)
| t_bring_up s p bind impl_ok now i cfg fam s' :
    endpoints s !! i = None → bringUpFamily bind impl_ok s now i cfg = (s', None) →
    tstep (TState s p) (TState s' ((fam, i) :: p))
| t_register s p1 p2 fam i :
    tstep (TState s (p1 ++ (fam, i) :: p2)) (TState (fst (ensure_register s fam i)) (p1 ++ p2))
| t_traffic s p now i : tstep (TState s p) (TState (traffic s now i) p)
| t_sweep s p now : tstep (TState s p) (TState (idle_sweep s now) p)
| t_stop s p : tstep (TState s p) (TState (Stop s) p).

(** The endpoints somebody is responsible for. *)
Definition owned (t : tstate) : list nat := (map_to_list (families (svc t))).*2 ++ (pending t).*2.

Record tinv (t : tstate) : Prop := {
  ti_NoDup : NoDup (owned t);
  ti_open : ∀ i, i ∈ open (svc t) ↔ i ∈ owned t;
  ti_known : ∀ i, i ∈ owned t → is_Some (endpoints (svc t) !! i);
}.

Lemma tinv_perm t t' : tinv t → owned t' ≡ₚ owned t → open (svc t') = open (svc t) →
  (∀ i, is_Some (endpoints (svc t) !! i) → is_Some (endpoints (svc t') !! i)) → tinv t'.
Proof.
  intros [H1 H2 H3] Hp Ho He. split.
  - by rewrite Hp.
  - intros i. by rewrite Hp, Ho.
  - intros i. rewrite Hp. auto.
Qed.

Lemma known_alter (m : gmap nat familyEndpoint) f i j : is_Some (m !! j) → is_Some (alter f i m !! j).
Proof. intros [x Hx]. destruct (decide (i = j)) as [->|]; [rewrite lookup_alter_eq, Hx|rewrite lookup_alter_ne by done]; eauto. Qed.

(** Distinct references make a map injective. *)
Lemma NoDup_fmap_snd_inj (m : gmap string nat) : NoDup (map_to_list m).*2 →
  ∀ k1 k2 i, m !! k1 = Some i → m !! k2 = Some i → k1 = k2.
Proof.
  intros Hn k1 k2 i H1%elem_of_map_to_list H2%elem_of_map_to_list.
  apply list_elem_of_lookup in H1 as [n1 H1], H2 as [n2 H2].
  assert (n1 = n2) as ->; [|congruence].
  apply (NoDup_lookup _ n1 n2 i Hn); by rewrite list_lookup_fmap, ?H1, ?H2.
Qed.

(** Closing a part of the registered endpoints together with their entries. *)
Lemma tinv_remove s p (P : string * nat → Prop) `{∀ x, Decision (P x)} (q : nat → bool) :
  (∀ fam i, P (fam, i) ↔ q i = false) → tinv (TState s p) →
  tinv (TState (MkService (filter P (families s)) (endpoints s)
    (open s ∖ list_to_set (List.filter q (map_to_list (families s)).*2))) p).
Proof.
  intros HP [Hnd Ho Hk]. unfold owned in *. simpl in *.
  assert (Hin : ∀ i, i ∈ (map_to_list (filter P (families s))).*2 ↔ i ∈ (map_to_list (families s)).*2 ∧ q i = false).
  { intros i. rewrite !list_elem_of_fmap. split.
    - intros ([fam j] & -> & Hj). apply elem_of_map_to_list, map_lookup_filter_Some in Hj as [Hj Hp].
      split; [|by apply (HP fam)]. exists (fam, j). split; [done|]. by apply elem_of_map_to_list.
    - intros [([fam j] & -> & Hj) Hq]. apply elem_of_map_to_list in Hj. exists (fam, j). split; [done|].
      apply elem_of_map_to_list, map_lookup_filter_Some. split; [done|]. by apply HP. }
  apply NoDup_app in Hnd as (Hn1 & Hn2 & Hn3).
  assert (Hq : ∀ i, i ∈ List.filter q (map_to_list (families s)).*2 ↔ i ∈ (map_to_list (families s)).*2 ∧ q i = true).
  { intros i. by rewrite list_elem_of_In, filter_In, <- list_elem_of_In. }
  split; unfold owned; simpl.
  - apply NoDup_app. split; [|split; [|done]].
    + apply NoDup_fmap_2_strong; [|apply NoDup_map_to_list].
      intros [f1 i1] [f2 i2] H1 H2. simpl. intros ->.
      apply elem_of_map_to_list, map_lookup_filter_Some in H1 as [H1 _], H2 as [H2 _].
      f_equal. apply (NoDup_fmap_snd_inj (families s) Hn1 _ _ _ H1 H2).
    + intros i Hi. apply Hin in Hi as [Hi _]. auto.
  - intros i. rewrite elem_of_difference, elem_of_list_to_set, Hq, Ho, !elem_of_app, Hin.
    destruct (q i) eqn:E; [|naive_solver].
    split; [|intros [[_ ?]|Hi]; [done|]; split; [by right|]; intros [Hi' _]; by apply (Hn2 i)].
    intros [[Hi|Hi] Hc]; [destruct Hc; auto|by right].
  - intros i Hi. apply Hk. apply elem_of_app in Hi as [Hi|Hi]; apply elem_of_app; [left|by right].
    by apply Hin in Hi as [Hi _].
Qed.

Lemma bringUpFamily_Some bind impl_ok s now i cfg s' :
  bringUpFamily bind impl_ok s now i cfg = (s', None) →
  ∃ addr, s' = MkService (families s) (<[i := MkEndpoint addr now]> (endpoints s)) ({[i]} ∪ open s).
Proof.
  unfold bringUpFamily. destruct (bind _) as [addr|e| |]; try done.
  destruct (newWGDevice impl_ok cfg); try done. intros [= <-]. eauto.
Qed.

Lemma tinv_bring_up s p fam i e : tinv (TState s p) → endpoints s !! i = None →
  tinv (TState (MkService (families s) (<[i := e]> (endpoints s)) ({[i]} ∪ open s)) ((fam, i) :: p)).
Proof.
  intros [H1 H2 H3] Hi. unfold owned in *. simpl in *.
  assert (Hn : i ∉ (map_to_list (families s)).*2 ++ p.*2).
  { intros Hin%H3. rewrite Hi in Hin. by destruct Hin. }
  assert (Hp : (map_to_list (families s)).*2 ++ i :: p.*2 ≡ₚ i :: (map_to_list (families s)).*2 ++ p.*2)
    by (symmetry; apply Permutation_middle).
  split; unfold owned; simpl.
  - rewrite Hp. by constructor.
  - intros j. rewrite Hp, elem_of_union, elem_of_singleton, elem_of_cons, H2. done.
  - intros j. rewrite Hp, elem_of_cons. intros [->|Hj].
    + rewrite lookup_insert_eq. eauto.
    + destruct (decide (i = j)) as [->|]; [rewrite lookup_insert_eq; eauto|rewrite lookup_insert_ne by done; auto].
Qed.

Lemma tinv_register s p1 p2 fam i : tinv (TState s (p1 ++ (fam, i) :: p2)) →
  tinv (TState (fst (ensure_register s fam i)) (p1 ++ p2)).
Proof.
  intros Ht. unfold ensure_register. destruct (families s !! fam) as [j|] eqn:E; simpl.
  - destruct Ht as [H1 H2 H3]. unfold owned in *. simpl in *.
    assert (Hp : (map_to_list (families s)).*2 ++ (p1 ++ (fam, i) :: p2).*2 ≡ₚ
      i :: (map_to_list (families s)).*2 ++ (p1 ++ p2).*2).
    { rewrite !fmap_app, fmap_cons, <- Permutation_middle. by rewrite <- Permutation_middle. }
    rewrite Hp in H1. apply NoDup_cons in H1 as [Hn H1]. split; unfold owned; simpl; [done| |].
    + intros k. rewrite elem_of_difference, elem_of_singleton, H2, Hp, elem_of_cons.
      split; [naive_solver|]. intros Hk. split; [by right|]. by intros ->.
    + intros k Hk. apply H3. rewrite Hp. by right.
  - apply (tinv_perm _ _ Ht); [|done|done]. unfold owned. simpl.
    rewrite map_to_list_insert by done. rewrite !fmap_app, !fmap_cons. simpl.
    by rewrite !Permutation_middle.
Qed.

Lemma tstep_inv t t' : tinv t → tstep t t' → tinv t'.
Proof.
  intros Ht Hs. destruct Hs as [s p now fam|s p bind impl_ok now i cfg fam s' Hi Hb|s p1 p2 fam i|s p now i|s p now|s p].
  - unfold ensure_lookup. destruct (families s !! fam); [|done].
    apply (tinv_perm _ _ Ht); [done|done|]. intros i. apply known_alter.
  - apply bringUpFamily_Some in Hb as [addr ->]. by apply tinv_bring_up.
  - by apply tinv_register.
  - apply (tinv_perm _ _ Ht); [done|done|]. intros j. apply known_alter.
  - apply (tinv_remove s p (λ x : string * nat, idle s now x.2 = false) (idle s now)); [done|done].
  - pose proof (tinv_remove s p (λ _, False) (λ _, true)) as H.
    rewrite filter_all in H by (by apply Forall_true).
    assert (He : filter (λ _ : string * nat, False) (families s) = ∅) by (apply map_empty; intros k; apply map_lookup_filter_None; right; by intros ? ? []).
    rewrite He in H. apply H; [done|done].
Qed.

(** C19. No endpoint leaks: whatever the interleaving of the two critical
    sections of concurrent [EnsureFamily] calls with traffic, idle sweeps and
    shutdowns, the open endpoints are exactly the registered ones and those
    held by calls still in flight, each owned once; in particular, with no call
    in flight there is exactly one open endpoint per registered family, and
    stopping the service then closes everything. *)
Theorem endpoints_owned t :
  star tstep (TState NewService []) t →
  NoDup (owned t) ∧ (∀ i, i ∈ open (svc t) ↔ i ∈ owned t) ∧
  (pending t = [] → size (open (svc t)) = size (families (svc t)) ∧ open (Stop (svc t)) = ∅).
Proof.
  intros Hs. assert (Ht : tinv t).
  { eapply (star_invariant tstep tinv); eauto using tstep_inv. split; simpl.
    - unfold owned. simpl. rewrite map_to_list_empty. constructor.
    - intros i. unfold owned. simpl. rewrite map_to_list_empty. simpl. set_solver.
    - intros i. unfold owned. simpl. rewrite map_to_list_empty. simpl. by intros ?%elem_of_nil. }
  destruct Ht as [H1 H2 H3]. split; [done|]. split; [done|]. intros Hp. unfold owned in *. rewrite Hp, app_nil_r in *.
  assert (He : open (svc t) = list_to_set (map_to_list (families (svc t))).*2).
  { apply set_eq. intros i. by rewrite H2, elem_of_list_to_set. }
  split.
  - rewrite He, size_list_to_set by done. by rewrite length_fmap, length_map_to_list.
  - simpl. rewrite He. set_solver.
Qed.

(** ** The bridge and the terminator *)

(** The service as the bridge sees it: calls happen at [tm_now], a new endpoint
    gets the next identity. *)
Record Terminator := MkTerminator { tm_svc : Service; tm_now : time; tm_next : nat }.

Section Wired.
Variable fetch : string → go FamilyConfig.
Variable bind : Z → go string.
Variable impl_ok : string → bool.

#[local] Instance terminator_resolver : FamilyEndpointResolver Terminator := λ t fam,
  let '(s, r) := EnsureFamily_call fetch bind impl_ok (tm_svc t) (tm_now t) (tm_next t) fam in
  (MkTerminator s (tm_now t) (S (tm_next t)), r).

(** An idle teardown is permanent for a known device: once the bridge
    has a socket for a device, its fallback packets are written to the
    endpoint dialled first and never bring the family up again, so after a
    sweep has closed that endpoint every later packet of the device goes to
    it, the terminator staying as the sweep left it. *)
Theorem torn_down_endpoint_kept ResolveUDPAddr dial_ok write_ok t b u now addr payload ep term' b' es :
  udpBridge b = Some u → fallbackConns u !! addr = Some ep →
  handle_packet ResolveUDPAddr dial_ok write_ok (Some t) b now addr payload = Ret (term', b', es) →
  term' = Some t ∧ (fallbackConns <$> udpBridge b') = Some (fallbackConns u) ∧
  ∀ e tag p, ToTerminator e tag p ∈ es → e = ep.
Proof.
  intros Hu Hc. unfold handle_packet. rewrite Hu. cbn zeta. simpl br_familyID.
  destruct (String.eqb _ _); [intros [= <- <- <-]; split; [done|]; split; [done|]; by intros ??? ?%elem_of_nil|].
  simpl registry. destruct (PickHealthyNode _ _ _) as [node|].
  { intros Hh. bind_inv Hh. injection Hh as <- <- <-. split; [done|]. split; [done|]. by intros ??? ?%elem_of_nil. }
  simpl fallback. destruct (EnterFallback _ _ _) as [f entered]. rewrite bool_decide_true by eauto.
  rewrite andb_false_r. unfold forwardToFallback. simpl. rewrite Hc.
  assert (Hn : ∀ e tag p, ToTerminator e tag p ∉ (if entered then notifyFallback (with_bridge b (Some
    (MkBridge (br_familyID u) (<[addr:=addr]> (clientAddrs u)) (fallbackConns u)))) (br_familyID u) true else [])).
  { intros e tag p. unfold notifyFallback. simpl. destruct entered, (notifier b); set_solver. }
  simpl in Hn. destruct (write_ok ep); intros [= <- <- <-]; (split; [done|]); (split; [done|]); intros e tag p Hin.
  - apply elem_of_app in Hin as [Hin|Hin]; [by apply Hn in Hin|].
    apply list_elem_of_singleton in Hin. by injection Hin.
  - rewrite app_nil_r in Hin. by apply Hn in Hin.
Qed.
End Wired.

(** ** Concrete runs *)

Definition sample_family : FamilyConfig :=
  MkFamilyConfig "smith" (EncodeToString (repeat x07 32)) 51820
    [MkPeer (EncodeToString (repeat x09 32)) ["10.10.0.2/32"]] [].

Definition loopback (port : Z) : go string := Ret "127.0.0.1:41000"%string.

Definition raced_service : Service :=
  let s := fst (bringUpFamily loopback (λ _, true) NewService (1 * minute) 0 sample_family) in
  let s := fst (bringUpFamily loopback (λ _, true) s (1 * minute) 1 sample_family) in
  fst (ensure_register (fst (ensure_register s "smith" 0)) "smith" 1).

(** Two racing calls bring the family up, both register, and a sweep six
    minutes later tears the survivor down. *)
Lemma endpoints_owned_witness :
  ∃ t, star tstep (TState NewService []) t ∧ NoDup (owned t) ∧ open (svc t) = ∅ ∧ size (endpoints (svc t)) = 2%nat.
Proof.
  assert (Hs : star tstep (TState NewService [])
    (TState (idle_sweep raced_service (7 * minute)) [])).
  { eapply star_step; [eapply (t_bring_up _ _ loopback (λ _, true) (1 * minute) 0%nat sample_family "smith"); by vm_compute|].
    eapply star_step; [eapply (t_bring_up _ _ loopback (λ _, true) (1 * minute) 1%nat sample_family "smith"); by vm_compute|].
    eapply star_step; [apply (t_register _ [("smith"%string, 1%nat)] [] "smith" 0%nat)|].
    eapply star_step; [apply (t_register _ [] [] "smith" 1%nat)|].
    eapply star_step; [apply (t_sweep _ _ (7 * minute))|]. apply star_refl. }
  eexists. split; [exact Hs|]. destruct (endpoints_owned _ Hs) as (H1 & H2 & H3). split; [exact H1|].
  split; by vm_compute.
Defined.

Definition degraded_broker : Broker :=
  SetUDPBridge NewBroker (Some (MkBridge "smith" ∅ {["203.0.113.9:4000" := "127.0.0.1:41000"]})).

Lemma torn_down_endpoint_kept_witness :
  ∃ term b' es, handle_packet (H := terminator_resolver (λ _, Ret sample_family) loopback (λ _, true)) Some (λ _, true) (λ _, true)
    (Some (MkTerminator NewService (9 * minute) 1)) degraded_broker (9 * minute) "203.0.113.9:4000" [x04] = Ret (term, b', es) ∧
  ToTerminator "127.0.0.1:41000" "203.0.113.9:4000" [x04] ∈ es ∧
  term = Some (MkTerminator NewService (9 * minute) 1).
Proof.
  assert (H : ∃ term b' es, handle_packet (H := terminator_resolver (λ _, Ret sample_family) loopback (λ _, true)) Some (λ _, true) (λ _, true)
    (Some (MkTerminator NewService (9 * minute) 1)) degraded_broker (9 * minute) "203.0.113.9:4000" [x04] = Ret (term, b', es) ∧
    ToTerminator "127.0.0.1:41000" "203.0.113.9:4000" [x04] ∈ es).
  { do 3 eexists. split; [vm_compute; reflexivity|]. vm_compute. constructor. }
  destruct H as (term & b' & es & H & Hin). exists term, b', es. split; [exact H|]. split; [exact Hin|].
  eapply (torn_down_endpoint_kept (λ _, Ret sample_family) loopback (λ _, true)) in H; [|reflexivity|by vm_compute].
  exact (proj1 H).
Defined.
