(* ===== verification/FallbackPath.v ===== *)
(** [internal/terminator/service.go] (the two loops of an endpoint),
    [wg_device.go], [wg_device_userspace.go] and the reply loop of
    [internal/relay/relay_udp_bridge.go]: the way of a packet through the
    fallback tunnel and of its replies back. *)
From stdpp Require Import gmap.
From S2P Require Import Prelude GoString Registry Fallback Frame Broker Terminator.

Local Open Scope nat_scope.

(** ** Bringing a device up *)

(** The calls of the WireGuard library, each with its error if it fails, and
    what [newWGImpl] does with the device it has created. *)
Record wg_library := WgLibrary { CreateNetTUN : option string; IpcSet : string → option string; Up : option string }.

Inductive device_call := NewDevice | DeviceClose.

Definition newWGImpl (lib : wg_library) (cfg : FamilyConfig) : list device_call * go unit :=
  match CreateNetTUN lib with
  | Some e => ([], Err ("create netstack tun: " +:+ e)%string)
  | None =>
      match buildUAPI cfg with
      | Ret uapi =>
          match IpcSet lib uapi with
          | Some e => ([NewDevice; DeviceClose], Err ("apply uapi: " +:+ e)%string)
          | None =>
              match Up lib with
              | Some e => ([NewDevice; DeviceClose], Err ("dev up: " +:+ e)%string)
              | None => ([NewDevice], Ret tt)
              end
          end
      | Err e => ([NewDevice; DeviceClose], Err ("build uapi: " +:+ e)%string)
      | Panic => ([NewDevice], Panic)
      | Loop => ([NewDevice], Loop)
      end
  end.

(** [syntheticBind]: [Open] hands out the receive function, [Close] closes the
    queue. *)
Definition bind_open (u : syntheticUDP) : syntheticUDP := u.
Definition bind_close (u : syntheticUDP) : syntheticUDP := su_close u.

(** ** The endpoint of a family *)

(** [arriving]: a packet that has passed the test of [HandleInbound] and is not
    yet in the queue. [inbound]: the packets read from the bridge's sockets,
    with their source; [emitted]: the packets that the WireGuard device has put
    into the outbound queue, with the source they answer; [replies]: the packets
    written to the bridge, with the address they are written to. *)
Record endpoint := Endpoint {
  device : wgDevice;
  lastClientAddr : option string;
  arriving : option bytes;
  inbound : list (string * bytes);
  emitted : list (string * bytes);
  replies : list (string * bytes);
  crashed : bool }.

Definition fresh : endpoint := Endpoint (MkDevice false (MkSynthetic [] [] false)) None None [] [] [] false.

Definition with_queue (d : wgDevice) (q : syntheticUDP) : wgDevice := MkDevice (d_closed d) q.

(** [RegisterClientAddr], and the test of [HandleInbound]. *)
Definition bridge_read (src : string) (pkt : bytes) (e : endpoint) : endpoint :=
  Endpoint (device e) (Some src) (if d_closed (device e) then None else Some pkt)
    (inbound e ++ [(src, pkt)]) (emitted e) (replies e) (crashed e).

(** The rest of [HandleInbound]: [feed] on the queue as it is now. *)
Definition bridge_feed (pkt : bytes) (e : endpoint) : endpoint :=
  match feed (d_queue (device e)) pkt with
  | Ret q => Endpoint (with_queue (device e) q) (lastClientAddr e) None (inbound e) (emitted e) (replies e) (crashed e)
  | _ => Endpoint (device e) (lastClientAddr e) None (inbound e) (emitted e) (replies e) true
  end.

(** The device takes a packet of the queue. *)
Definition device_receive (size : nat) (e : endpoint) : endpoint :=
  match su_receive (d_queue (device e)) size with
  | Some (q, _) => Endpoint (with_queue (device e) q) (lastClientAddr e) (arriving e) (inbound e) (emitted e) (replies e) (crashed e)
  | None => e
  end.

(** The device sends [pkt], for the peer behind [src]; the bind drops the
    endpoint it is given, and the packet when the queue is full. *)
Definition device_send (src : string) (pkt : bytes) (e : endpoint) : endpoint :=
  let q := d_queue (device e) in
  Endpoint (with_queue (device e) (su_write q pkt)) (lastClientAddr e) (arriving e) (inbound e)
    (if decide (length (su_outbound q) < queue_cap) then emitted e ++ [(src, pkt)] else emitted e) (replies e) (crashed e).

(** One turn of [readDeviceLoop]. *)
Definition device_reply (e : endpoint) : endpoint :=
  match su_outbound (d_queue (device e)) with
  | [] => e
  | pkt :: q =>
      let d := with_queue (device e) (MkSynthetic (su_inbound (d_queue (device e))) q (su_closed (d_queue (device e)))) in
      Endpoint d (lastClientAddr e) (arriving e) (inbound e) (emitted e)
        (match lastClientAddr e with Some a => replies e ++ [(a, pkt)] | None => replies e end) (crashed e)
  end.

Definition close_endpoint (e : endpoint) : endpoint :=
  Endpoint (Close (device e)) (lastClientAddr e) (arriving e) (inbound e) (emitted e) (replies e) (crashed e).

(** The library closes the bind and opens it again, as when a device comes up. *)
Definition rebind (e : endpoint) : endpoint :=
  Endpoint (with_queue (device e) (bind_open (bind_close (d_queue (device e))))) (lastClientAddr e) (arriving e) (inbound e) (emitted e) (replies e) (crashed e).

(** The device answers only peers it has heard of. *)
Inductive path_step : endpoint → endpoint → Prop :=
| ps_read src pkt e : arriving e = None → path_step e (bridge_read src pkt e)
| ps_feed pkt e : arriving e = Some pkt → path_step e (bridge_feed pkt e)
| ps_receive size e : path_step e (device_receive size e)
| ps_send src pkt e : src ∈ (inbound e).*1 → path_step e (device_send src pkt e)
| ps_reply e : path_step e (device_reply e)
| ps_rebind e : path_step e (rebind e)
| ps_close e : path_step e (close_endpoint e).

(** [fallbackReplyLoop]: a reply read from the socket of a child's tag goes to
    the last address seen for that tag. *)
Definition fallback_reply (u : UDPBridge) (deviceTag : string) (payload : bytes) : list effect :=
  match clientAddrs u !! deviceTag with Some addr => [ToClient addr payload] | None => [] end.

(** ** Properties *)

Record path_inv (e : endpoint) : Prop := {
  pi_order : (emitted e).*2 = (replies e).*2 ++ su_outbound (d_queue (device e));
  pi_bound : length (su_outbound (d_queue (device e))) ≤ queue_cap ∧ length (su_inbound (d_queue (device e))) ≤ queue_cap;
  pi_last : lastClientAddr e = fst <$> last (inbound e);
  pi_emitted : ∀ s p, (s, p) ∈ emitted e → s ∈ (inbound e).*1;
  pi_replies : ∀ a p, (a, p) ∈ replies e → a ∈ (inbound e).*1;
  pi_crash : crashed e = true → su_closed (d_queue (device e)) = true;
  pi_closed : d_closed (device e) = true → su_closed (d_queue (device e)) = true }.

Lemma last_in {A B} (l : list (A * B)) a : fst <$> last l = Some a → a ∈ l.*1.
Proof.
  destruct (last l) as [[x y]|] eqn:E; [|done]. intros [= ->]. apply list_elem_of_fmap. exists (a, y). split; [done|].
  apply last_Some in E as [l' ->]. apply elem_of_app. right. by apply list_elem_of_singleton.
Qed.

Lemma path_step_inv e e' : path_inv e → path_step e e' → path_inv e'.
Proof.
  intros [H1 [Hb1 Hb2] H3 H4 H5 H6 H7] Hs. destruct Hs as [src pkt e Ha|pkt e Ha|size e|src pkt e Hin|e|e|e].
  - split; simpl; try done; [by rewrite last_snoc| |].
    + intros s p Hp. rewrite fmap_app, elem_of_app. left. by eapply H4.
    + intros a p Hp. rewrite fmap_app, elem_of_app. left. by eapply H5.
  - unfold bridge_feed, feed. destruct (su_closed _) eqn:Ec; [split; simpl; auto; done|].
    destruct (decide _) as [Hd|Hd]; split; simpl; try done; try (intros Hx%H6; congruence); try (intros Hx%H7; congruence).
    split; [done|]. rewrite length_app. simpl. lia.
  - unfold device_receive, su_receive. destruct (su_inbound _) as [|pkt q] eqn:Ei.
    + destruct (su_closed _) eqn:Ec; split; simpl; rewrite ?Ei, ?Ec; auto.
    + simpl in Hb2. destruct (decide _); split; simpl; auto; (split; [done|lia]).
  - unfold device_send, su_write. destruct (decide _) as [Hd|Hd]; split; simpl; try done.
    + rewrite fmap_app, H1, <- app_assoc. done.
    + rewrite length_app. simpl. split; [lia|done].
    + intros s p [Hp|[= -> ->]%list_elem_of_singleton]%elem_of_app; [by eapply H4|done].
  - unfold device_reply. destruct (su_outbound _) as [|pkt q] eqn:Eo; [by split; rewrite ?Eo|]. simpl in Hb1.
    assert (Hl : ∃ a, lastClientAddr e = Some a).
    { rewrite H3. destruct (last (inbound e)) as [[a p]|] eqn:El; [by exists a|]. apply last_None in El.
      destruct (emitted e) as [|[s p] l] eqn:Ee; [by destruct (replies e)|].
      assert (Hs : s ∈ (inbound e).*1) by (apply (H4 s p); by left). rewrite El in Hs. by apply elem_of_nil in Hs. }
    destruct Hl as [a Hl]. rewrite Hl. split; simpl; try done.
    + by rewrite fmap_app, <- app_assoc.
    + split; [lia|done].
    + by rewrite <- H3.
    + intros b p [Hp|[= -> ->]%list_elem_of_singleton]%elem_of_app; [by eapply H5|]. apply last_in. by rewrite <- H3.
  - by split.
  - unfold close_endpoint, Close. destruct (d_closed (device e)) eqn:Ec; split; simpl; rewrite ?Ec; auto.
Qed.

Lemma fresh_inv : path_inv fresh.
Proof. split; simpl; try done; try (split; lia); by intros ? ? ?%elem_of_nil. Qed.

Lemma pairs_prefix (a : string) (l k : list (string * bytes)) : (∀ s p, (s, p) ∈ l → s = a) → (∀ s p, (s, p) ∈ k → s = a) →
  l.*2 `prefix_of` k.*2 → l `prefix_of` k.
Proof.
  revert k. induction l as [|[s p] l IH]; intros k Hl Hk Hp; [apply prefix_nil|].
  destruct k as [|[t q] k]; [by apply prefix_nil_not in Hp|]. simpl in Hp. pose proof (prefix_cons_inv_1 _ _ _ _ Hp) as Heq. subst q.
  rewrite (Hl s p), (Hk t p) by (by left). apply prefix_cons. apply IH; [|by intros; eapply Hk; right|by eapply prefix_cons_inv_2].
  intros; eapply Hl; by right.
Qed.

(** C26. The fallback tunnel returns the device's packets in the order in which
    they were queued, none twice and none invented, to an address a packet of
    the family came from, with bounded queues; when a family has one client
    every reply goes to the client it was made for; and nothing panics while
    the bind is open. *)
Theorem fallback_replies e : star path_step fresh e →
  (∃ rest, (emitted e).*2 = (replies e).*2 ++ rest ∧ length rest ≤ queue_cap) ∧
  (∀ a p, (a, p) ∈ replies e → a ∈ (inbound e).*1) ∧
  (∀ a, (∀ s, s ∈ (inbound e).*1 → s = a) → replies e `prefix_of` emitted e) ∧
  (su_closed (d_queue (device e)) = false → crashed e = false).
Proof.
  intros Hs. assert (I : path_inv e).
  { revert Hs. apply star_invariant; [intros ? ?; apply path_step_inv|apply fresh_inv]. }
  destruct I as [H1 [Hb _] H3 H4 H5 H6 H7]. split; [by eexists|]. split; [done|]. split.
  - intros a Ha. apply (pairs_prefix a); [by intros s p ?%H5%Ha|by intros s p ?%H4%Ha|rewrite H1; by apply prefix_app_r].
  - intros Hc. destruct (crashed e); [|done]. by rewrite H6 in Hc.
Qed.

Lemma device_reply_to d a x i e r c pkt : su_outbound (d_queue d) = [pkt] →
  replies (device_reply (Endpoint d (Some a) x i e r c)) = r ++ [(a, pkt)].
Proof. unfold device_reply. simpl. by intros ->. Qed.

(** Replies go to the last client heard of, whoever it is for: of two children
    whose packets alternate, one gets the reply of the other. *)
Theorem reply_misrouted a b p q r : ∃ e, star path_step fresh e ∧
  inbound e = [(a, p); (b, q)] ∧ emitted e = [(a, r)] ∧ replies e = [(b, r)].
Proof.
  exists (device_reply (bridge_feed q (bridge_read b q (device_send a r (bridge_feed p (bridge_read a p fresh)))))).
  split; [|by split].
  eapply star_step; [by apply ps_read|]. eapply star_step; [by apply ps_feed|].
  eapply star_step; [apply (ps_send a r); by left|].
  eapply star_step; [by apply ps_read|]. eapply star_step; [by apply ps_feed|]. eapply star_step; [apply ps_reply|]. apply star_refl.
Qed.

(** An endpoint closed (by the idle sweeper, by [Stop], or because another call
    won the race) between the test of [HandleInbound] and its send: the reader
    panics, and the process ends. *)
Theorem closing_race_crashes (src : string) (pkt : bytes) e : arriving e = None → d_closed (device e) = false →
  ∃ e', star path_step e e' ∧ crashed e' = true.
Proof.
  intros Ha Hc. exists (bridge_feed pkt (close_endpoint (bridge_read src pkt e))). split.
  - eapply star_step; [by apply ps_read|]. eapply star_step; [apply ps_close|].
    eapply star_step; [apply ps_feed; simpl; by rewrite Hc|]. apply star_refl.
  - unfold bridge_feed, close_endpoint, Close. simpl. by rewrite Hc.
Qed.

(** The detailed bring-up refines that of [Terminator]: it succeeds under the
    same conditions, and a device that fails to come up is closed, once. *)
Theorem newWGImpl_refines lib cfg :
  let ok uapi := bool_decide (CreateNetTUN lib = None ∧ IpcSet lib uapi = None ∧ Up lib = None) in
  ((fc_PrivateKey cfg ≠ "")%string ∧ fc_Peers cfg ≠ [] → 
    (newWGDevice ok cfg = Ret tt ↔ snd (newWGImpl lib cfg) = Ret tt)) ∧
  (∀ e, snd (newWGImpl lib cfg) = Err e → fst (newWGImpl lib cfg) = [] ∨ fst (newWGImpl lib cfg) = [NewDevice; DeviceClose]) ∧
  (snd (newWGImpl lib cfg) = Ret tt → fst (newWGImpl lib cfg) = [NewDevice]).
Proof.
  intros ok. unfold newWGDevice, newWGImpl. split.
  - intros [Hk Hp]. destruct (String.eqb_spec (fc_PrivateKey cfg) ""); [done|].
    rewrite decide_False by (by destruct (fc_Peers cfg)). unfold ok.
    assert (Hno : ∀ P `{Decision P} (x : go unit), ¬ P → (if bool_decide P then Ret tt else x) = x)
      by (intros; by rewrite bool_decide_false).
    destruct (CreateNetTUN lib) eqn:Ec; [|destruct (buildUAPI cfg) as [uapi|err| |]; simpl; try done].
    + destruct (buildUAPI cfg); simpl; rewrite ?Hno by naive_solver; by split.
    + destruct (IpcSet lib uapi); [rewrite Hno by naive_solver; by split|].
      destruct (Up lib); [rewrite Hno by naive_solver; by split|]. by rewrite bool_decide_true.
  - destruct (CreateNetTUN lib); [by split; [left|]|]. destruct (buildUAPI cfg) as [uapi|err| |]; [|by split; [right|]|done..].
    destruct (IpcSet lib uapi); [by split; [right|]|]. by destruct (Up lib); split; try done; right.
Qed.

(** [Open] does not reopen the queue: a library that closes its bind before it
    opens it, as wireguard-go does when it comes up, has a bind that receives
    nothing and panics on the first packet. *)
Theorem bind_not_reopened u pkt size : su_inbound u = [] →
  feed (bind_open (bind_close u)) pkt = Panic ∧
  ∃ u', su_receive (bind_open (bind_close u)) size = Some (u', Err "closed"%string).
Proof. intros Hi. split; [done|]. unfold su_receive, bind_open, bind_close, su_close. simpl. rewrite Hi. by eexists. Qed.

(** The bridge remembers where a child's packet came from: whatever becomes of
    the packet, a reply on that child's socket goes back there. *)
Lemma reply_reaches_child `{FamilyEndpointResolver T} ResolveUDPAddr dial_ok write_ok (term : option T) b u now addr payload term' b' es p :
  udpBridge b = Some u → handle_packet ResolveUDPAddr dial_ok write_ok term b now addr payload = Ret (term', b', es) →
  ∃ u', udpBridge b' = Some u' ∧ fallback_reply u' addr p = [ToClient addr p].
Proof.
  intros Hu. unfold handle_packet. rewrite Hu.
  set (u1 := MkBridge _ _ _).
  assert (K : ∀ u', clientAddrs u' = clientAddrs u1 → fallback_reply u' addr p = [ToClient addr p]).
  { intros u' E. unfold fallback_reply. rewrite E. simpl. by rewrite lookup_insert_eq. }
  destruct (String.eqb _ ""); [intros [= <- <- <-]; exists u1; split; [done|by apply K]|].
  destruct (PickHealthyNode _ _ _) as [node|].
  - intros Hr. bind_inv Hr. injection Hr as <- <- <-. exists u1. split; [done|by apply K].
  - destruct (EnterFallback _ _ _) as [f entered].
    destruct (_ && _); [intros [= <- <- <-]; exists u1; split; [done|by apply K]|].
    destruct (forwardToFallback _ _ _ _ _ _ _ _ _) as [[[t2 u2] es2] err] eqn:E. intros [= <- <- <-].
    exists u2. split; [by destruct err|]. apply K. unfold forwardToFallback in E.
    destruct (fallbackConns u1 !! addr) as [ep|]; [destruct (write_ok ep); by simplify_eq|].
    destruct (match term with Some t => _ | None => _ end) as [t1 r].
    destruct r as [endpoint|e| |]; [|by simplify_eq..]. destruct (String.eqb endpoint ""); [by simplify_eq|].
    destruct (ResolveUDPAddr endpoint) as [ep|]; [|by simplify_eq]. destruct (negb (dial_ok ep)); [by simplify_eq|].
    destruct (write_ok ep); by simplify_eq.
Qed.

(** ** Concrete instances *)

Definition one_client : endpoint :=
  device_reply (device_send "127.0.0.1:9" [x02] (bridge_feed [x01] (bridge_read "127.0.0.1:9" [x01] fresh))).

Lemma one_client_reachable : star path_step fresh one_client.
Proof.
  eapply star_step; [by apply ps_read|]. eapply star_step; [by apply ps_feed|].
  eapply star_step; [apply ps_send; by left|]. eapply star_step; [apply ps_reply|]. apply star_refl.
Qed.

Lemma fallback_replies_witness : replies one_client `prefix_of` [("127.0.0.1:9"%string, [x02])].
Proof.
  apply (proj1 (proj2 (proj2 (fallback_replies one_client one_client_reachable))) "127.0.0.1:9"%string).
  intros s Hs. by apply list_elem_of_singleton in Hs.
Defined.

Lemma closing_race_crashes_witness : ∃ e', star path_step fresh e' ∧ crashed e' = true.
Proof. exact (closing_race_crashes "127.0.0.1:9" [x01] fresh eq_refl eq_refl). Defined.

Lemma bind_not_reopened_witness : feed (bind_open (bind_close (MkSynthetic [] [] false))) [x01] = Panic.
Proof. exact (proj1 (bind_not_reopened (MkSynthetic [] [] false) [x01] 1500 eq_refl)). Defined.
