(* ===== verification/WgDump.v ===== *)
(** The text of [wg show <iface> dump], which three components parse
    (internal/tunnel/wgconf.go, internal/tunnel/health.go and
    internal/controlsync/tunnel_stats.go): one tab-separated line for the
    interface, then one for each peer, as wg(8) documents it. *)
From S2P Require Import Prelude Net GoString.

Local Open Scope string_scope.

Definition nl : string := String newline "".
Definition tabs : string := String tab "".

(** ** Cells *)

(** A printable ASCII character other than the space. *)
Definition graphic_char (a : ascii) : bool :=
  let n := N_of_ascii a in N.leb 33 n && N.leb n 126.

Fixpoint graphic (s : string) : bool :=
  match s with EmptyString => true | String a r => graphic_char a && graphic r end.

Record row := {
  r_key : string;
  r_psk : string;
  r_endpoint : string;
  (** the allowed IP of the peer, when it has one *)
  r_ip : option string;
  r_handshake : string;
  r_rx : string;
  r_tx : string;
  r_keepalive : string;
}.

Definition cells (r : row) : list string :=
  [r_key r; r_psk r; r_endpoint r; default "(none)" (r_ip r);
   r_handshake r; r_rx r; r_tx r; r_keepalive r].

(** What the tool prints in a cell: graphic, not empty; an allowed IP has no
    comma and is not the word it prints for "none". *)
Definition cell_ok (s : string) : bool := graphic s && negb (String.eqb s "").
Definition ip_ok (s : string) : bool :=
  cell_ok s && negb (contains_byte "," s) && negb (String.eqb s "(none)").
Definition row_ok (r : row) : bool :=
  forallb cell_ok (cells r) && match r_ip r with Some i => ip_ok i | None => true end.

Definition line (r : row) : string := join tabs (cells r).
Definition dump_text (hdr : list string) (rows : list row) : string :=
  join nl (join tabs hdr :: map line rows) +:+ nl.

(** ** Cells contain no separator *)

Lemma graphic_no_byte c s : graphic_char c = false → graphic s = true → contains_byte c s = false.
Proof.
  intros Hc. induction s as [|a s IH]; simpl; [done|].
  intros [Ha Hs]%andb_true_iff. rewrite IH by done.
  destruct (Ascii.eqb_spec a c) as [->|]; [congruence|done].
Qed.

Lemma cell_no_byte c s : graphic_char c = false → cell_ok s = true → contains_byte c s = false.
Proof. intros Hc [Hs _]%andb_true_iff. by apply graphic_no_byte. Qed.

Lemma contains_byte_join c sep l :
  contains_byte c sep = false → Forall (λ s, contains_byte c s = false) l →
  contains_byte c (join sep l) = false.
Proof.
  intros Hsep Hl. induction Hl as [|s l Hs Hl IH]; [done|].
  destruct l as [|t l]; [done|].
  change (join sep (s :: t :: l)) with (s +:+ sep +:+ join sep (t :: l)).
  by rewrite !contains_byte_append, Hs, Hsep, IH.
Qed.

Lemma split_cells l :
  l ≠ [] → forallb cell_ok l = true → split_byte tab (join tabs l) = l.
Proof.
  intros Hl Hf. apply split_join; [done|]. rewrite forallb_forall in Hf.
  apply Forall_forall. intros s Hs. apply cell_no_byte; [done|].
  apply Hf. by apply list_elem_of_In.
Qed.

Lemma line_no_newline l : forallb cell_ok l = true → contains_byte newline (join tabs l) = false.
Proof.
  intros Hf. apply contains_byte_join; [done|]. rewrite forallb_forall in Hf.
  apply Forall_forall. intros s Hs. apply cell_no_byte; [done|]. apply Hf. by apply list_elem_of_In.
Qed.

(** ** Trimming *)

Lemma leading_space_graphic a s : graphic_char a = true → leading_space (String a s) = None.
Proof.
  intros Ha. unfold leading_space.
  assert (ascii_space a = false ∧ Forall (λ w, has_prefix (String a s) w = false) wide_spaces) as [-> Hw].
  { destruct a as [[] [] [] [] [] [] [] []]; vm_compute in Ha; try discriminate; (split; [reflexivity|]);
      repeat constructor. }
  induction Hw as [|w ws Hw Hws IH]; [done|]. cbn [List.find]. by rewrite Hw.
Qed.

Lemma trim_left_graphic n a s : graphic_char a = true → trim_left n (String a s) = String a s.
Proof. intros Ha. destruct n as [|n]; cbn [trim_left]; [done|]. by rewrite leading_space_graphic. Qed.

Lemma has_suffix_last s a w b : a ≠ b → has_suffix (s +:+ String a "") (w +:+ String b "") = false.
Proof.
  intros Hab. apply not_true_iff_false. rewrite has_suffix_spec. intros [p Hp]. apply Hab.
  assert (∀ x y c d, x +:+ String c "" = y +:+ String d "" → c = d) as Hinj.
  { clear. induction x as [|u x IH]; intros [|v y] c d; simpl; intros E.
    - congruence.
    - injection E as _ E. by destruct y.
    - injection E as _ E. by destruct x.
    - injection E as _ E. eauto. }
  rewrite <- sappend_assoc in Hp. by apply Hinj in Hp.
Qed.

Lemma last_graphic_not_space a :
  graphic_char a = true →
  Forall (λ w, ∃ u b, w = u +:+ String b "" ∧ a ≠ b)
    (map (λ n, String (ascii_of_N n) "") [9; 10; 11; 12; 13; 32]%N ++ wide_spaces).
Proof.
  intros Ha.
  assert (∀ w, (∃ u b, w = u +:+ String b "" ∧ graphic_char b = false) →
               ∃ u b, w = u +:+ String b "" ∧ a ≠ b) as Himp.
  { intros w (u & b & -> & Hb). exists u, b. split; [done|]. intros ->. congruence. }
  apply Forall_forall. intros w Hw. apply Himp. clear Himp a Ha. revert w Hw. apply Forall_forall.
  repeat constructor;
    first [by eexists "", _ | by eexists (String _ ""), _ | by eexists (String _ (String _ "")), _].
Qed.

Lemma trailing_space_graphic s a : graphic_char a = true → trailing_space (s +:+ String a "") = None.
Proof.
  intros Ha%last_graphic_not_space. unfold trailing_space.
  induction Ha as [|w ws (u & b & -> & Hab) Hws IH]; [done|].
  cbn [List.find]. by rewrite has_suffix_last.
Qed.

Lemma trailing_newline s : trailing_space (s +:+ nl) = Some s.
Proof.
  unfold trailing_space. cbn [map app List.find].
  change (String (ascii_of_N 9) "") with ("" +:+ String (ascii_of_N 9) "").
  unfold nl at 1. rewrite has_suffix_last by done.
  rewrite (proj2 (has_suffix_spec _ (String (ascii_of_N 10) ""))) by (by exists s).
  f_equal. rewrite length_append. unfold nl. simpl String.length.
  replace (String.length s + 1 - 1)%nat with (String.length s) by lia. apply stake_append.
Qed.

Lemma trim_right_graphic n s a :
  graphic_char a = true → trim_right n (s +:+ String a "") = s +:+ String a "".
Proof. intros Ha. destruct n; cbn [trim_right]; [done|]. by rewrite trailing_space_graphic. Qed.

Definition starts_graphic (s : string) : Prop := ∃ a r, s = String a r ∧ graphic_char a = true.
Definition ends_graphic (s : string) : Prop := ∃ p a, s = p +:+ String a "" ∧ graphic_char a = true.

Lemma trim_left_id n s : starts_graphic s → trim_left n s = s.
Proof. intros (a & r & -> & Ha). by apply trim_left_graphic. Qed.

Lemma trim_line s : starts_graphic s → ends_graphic s → trim_space (s +:+ nl) = s.
Proof.
  intros Hs (p & b & He & Hb). unfold trim_space. rewrite trim_left_id.
  - rewrite length_append.
    replace (String.length s + String.length nl)%nat with (S (String.length s)) by (simpl; lia).
    cbn [trim_right]. rewrite trailing_newline, He. by apply trim_right_graphic.
  - destruct Hs as (a & r & -> & Ha). by exists a, (r +:+ nl).
Qed.

Lemma trim_id s : starts_graphic s → ends_graphic s → trim_space s = s.
Proof.
  intros Hs (p & b & He & Hb). unfold trim_space. rewrite trim_left_id by done.
  rewrite He. by apply trim_right_graphic.
Qed.

(** The two ends of a dump *)

Lemma graphic_starts s : cell_ok s = true → starts_graphic s.
Proof. destruct s as [|a r]; [done|]. intros [[Ha _]%andb_true_iff _]%andb_true_iff. by exists a, r. Qed.

Lemma graphic_ends s : cell_ok s = true → ends_graphic s.
Proof.
  intros [Hs Hne]%andb_true_iff. revert Hs Hne. induction s as [|a s IH]; [done|].
  intros [Ha Hs]%andb_true_iff _. destruct s as [|b s]; [by exists "", a|].
  destruct IH as (p & c & -> & Hc); [done..|]. by exists (String a p), c.
Qed.

Lemma join_starts sep s l : starts_graphic s → starts_graphic (join sep (s :: l)).
Proof.
  intros (a & r & -> & Ha). destruct l as [|t l]; [by exists a, r|].
  by exists a, (r +:+ sep +:+ join sep (t :: l)).
Qed.

Lemma join_ends sep l : l ≠ [] → Forall ends_graphic l → ends_graphic (join sep l).
Proof.
  intros Hne Hl. induction Hl as [|s l Hs Hl IH]; [done|].
  destruct l as [|t l]; [done|].
  change (join sep (s :: t :: l)) with (s +:+ sep +:+ join sep (t :: l)).
  destruct IH as (p & a & -> & Ha); [done|].
  exists (s +:+ sep +:+ p), a. by rewrite !sappend_assoc.
Qed.

Lemma cells_ends l : l ≠ [] → forallb cell_ok l = true → ends_graphic (join tabs l).
Proof.
  intros Hne Hl. apply join_ends; [done|]. rewrite forallb_forall in Hl.
  apply Forall_forall. intros s Hs. apply graphic_ends, Hl. by apply list_elem_of_In.
Qed.

Lemma row_cells r : row_ok r = true → forallb cell_ok (cells r) = true.
Proof. by intros [? _]%andb_true_iff. Qed.

(** ** What a parser sees *)

(** Trimmed and split at the newlines, a dump is the interface line and the
    peer lines. *)
Lemma dump_lines hdr rows :
  hdr ≠ [] → forallb cell_ok hdr = true → forallb row_ok rows = true →
  split_byte newline (trim_space (dump_text hdr rows)) = join tabs hdr :: map line rows.
Proof.
  intros Hne Hh Hr. rewrite forallb_forall in Hr.
  assert (Forall (λ r, row_ok r = true) rows) as Hrows.
  { apply Forall_forall. intros r Hin. apply Hr. by apply list_elem_of_In. }
  unfold dump_text. rewrite trim_line.
  - apply split_join; [done|]. constructor; [by apply line_no_newline|].
    apply Forall_fmap. eapply Forall_impl; [exact Hrows|].
    intros r Hok. by apply line_no_newline, row_cells.
  - apply join_starts. destruct hdr as [|h hdr]; [done|].
    apply join_starts, graphic_starts. by apply andb_true_iff in Hh as [? _].
  - apply join_ends; [done|]. constructor; [by apply cells_ends|].
    apply Forall_fmap. eapply Forall_impl; [exact Hrows|].
    intros r Hok. by apply cells_ends, row_cells.
Qed.

Lemma line_cells r : row_ok r = true → split_byte tab (line r) = cells r.
Proof. intros Hr. apply split_cells; [done|]. by apply row_cells. Qed.

Lemma ip_cell r i : row_ok r = true → r_ip r = Some i → ip_ok i = true.
Proof. unfold row_ok. intros [_ Hi]%andb_true_iff E. by rewrite E in Hi. Qed.

Lemma trim_cell s : cell_ok s = true → trim_space s = s.
Proof. intros. apply trim_id; [by apply graphic_starts|by apply graphic_ends]. Qed.
