(* ===== verification/WgConf.v ===== *)
(** The WireGuard interface writer (internal/tunnel/wgconf.go): the
    configuration file, the interface set-up and the peer-by-peer
    reconciliation of wg0 with the wanted peers. *)
From S2P Require Import Prelude Net Os WgDump GoString.

Local Open Scope string_scope.
Local Open Scope list_scope.

Definition wgInterface : string := "wg0".
Definition wgConfPath : string := "/etc/wireguard/wg0.conf".
Definition devConfPath : string := "/tmp/ss-wg0.conf".
Definition TunnelSubnet : string := "10.10.0.0/24".
Definition TunnelGateway : string := "10.10.0.1".
Definition TunnelGatewayCIDR : string := "10.10.0.1/24".

Record PeerConfig := {
  PublicKey : string;
  AllowedIP : string;
  DeviceMAC : string;
  Comment : string;
}.

Record InterfaceConfig := {
  PrivateKey : string;
  ListenPort : Z;
  Address : string;
}.

Definition normalizeAllowedIP (v : string) : string :=
  let v := trim_space v in
  if String.eqb v "" then v
  else if negb (contains v "/") then v +:+ "/32"
  else v.

(** ** Command lines *)

Definition wg_dump : list string := ["wg"; "show"; wgInterface; "dump"].
Definition wg_remove (key : string) : list string := ["wg"; "set"; wgInterface; "peer"; key; "remove"].
Definition wg_set (key ip : string) : list string :=
  ["wg"; "set"; wgInterface; "peer"; key; "allowed-ips"; ip].
Definition wg_private_key (port : Z) (file : string) : list string :=
  ["wg"; "set"; wgInterface; "listen-port"; pretty port; "private-key"; file].

(** ** Reading the live peers *)

(** One peer line of [wg show wg0 dump]: the key and its first allowed IP. *)
Definition live_line (peers : gmap string string) (line : string) : gmap string string :=
  match split_byte tab line with
  | pubKey :: _ :: _ :: allowedIPs :: _ =>
      if negb (String.eqb pubKey "") && negb (String.eqb allowedIPs "(none)")
      then <[pubKey := trim_space (default "" (head (split_byte "," allowedIPs)))]> peers
      else peers
  | _ => peers
  end.

Definition parse_live (out : string) : gmap string string :=
  foldl live_line ∅ (tail (split_byte newline (trim_space out))).

Section Writer.
Context {W : Type} `{Machine W}.
(** the order in which [range] enumerates a Go map *)
Context (range : gmap string string → list (string * string)).

(** ** The upstream interface *)

Fixpoint dev_of (fs : list string) : option string :=
  match fs with
  | f :: ((c :: _) as rest) =>
      if String.eqb f "dev" && negb (String.eqb c "lo") && negb (has_prefix c "wg")
      then Some c else dev_of rest
  | _ => None
  end.

Definition detectDefaultIface : io W string :=
  r ← command ["ip"; "route"; "show"; "default"];
  mret (if ok r
        then default "" (head (omap (λ line, dev_of (fields line)) (split_byte newline (stdout r))))
        else "").

Definition natIface : io W string :=
  v ← gets (λ w, trim_space (getenv w "SS_ROUTER_NAT_IFACE"));
  if negb (String.eqb v "") && negb (String.eqb v "auto") then mret v
  else iface ← detectDefaultIface;
       mret (if String.eqb iface "" then "eth0" else iface).

(** ** The configuration file *)

Definition peer_block (p : PeerConfig) : string :=
  (if String.eqb (Comment p) "" then "" else "# " +:+ Comment p +:+ nl) +:+
  "[Peer]" +:+ nl +:+ "PublicKey = " +:+ PublicKey p +:+ nl +:+
  "AllowedIPs = " +:+ AllowedIP p +:+ nl +:+ nl.

Definition buildConf (now : string) (iface : InterfaceConfig) (peers : list PeerConfig) : io W string :=
  _upIface ← natIface;
  mret ("# SafeSwitch wg0.conf — generated " +:+ now +:+ nl +:+ "[Interface]" +:+ nl +:+
        "PrivateKey = " +:+ PrivateKey iface +:+ nl +:+
        "ListenPort = " +:+ pretty (ListenPort iface) +:+ nl +:+
        (if String.eqb (Address iface) "" then "" else "Address = " +:+ Address iface +:+ nl) +:+
        nl +:+ foldr (λ p s, peer_block p +:+ s) "" peers).

Definition writeConf (devMode : bool) (now : string) (iface : InterfaceConfig)
    (peers : list PeerConfig) : io W () :=
  let path := if devMode then devConfPath else wgConfPath in
  let dir := if devMode then "/tmp" else "/etc/wireguard" in
  _ ← step_io (λ w, mkdir_all w dir) "wgconf mkdir";
  conf ← buildConf now iface peers;
  _ ← step_io (λ w, write_file w (path +:+ ".tmp") conf) "wgconf write temp";
  step_io (λ w, rename w (path +:+ ".tmp") path) "wgconf rename".

(** ** The interface *)

Definition setPrivateKeyViaFile (privateKey : string) (listenPort : Z) : io W () :=
  tmp ← (λ w, let '(w, t) := create_temp w "ss-wg-key-*.key" in
              (w, match t with Some t => Ret t | None => Err "create temp key file" end));
  r ← attempt (_ ← step_io (λ w, write_file w tmp (privateKey +:+ nl)) "write temp key";
               _ ← step_io (λ w, chmod w tmp 384) "chmod temp key";
               must (wg_private_key listenPort tmp) "wg set private-key");
  _ ← (λ w, (remove_file w tmp, Ret ()));
  match r with inl _ => mret () | inr e => fail e end.

Definition ensureInterfaceNonDisruptive (iface : InterfaceConfig) : io W () :=
  shown ← command ["ip"; "link"; "show"; wgInterface];
  _ ← (if ok shown then mret ()
       else must ["ip"; "link"; "add"; wgInterface; "type"; "wireguard"] "ip link add");
  pk ← command ["wg"; "show"; wgInterface; "public-key"];
  _ ← (if String.eqb (trim_space (stdout pk)) "" then
         c ← command (wg_private_key (ListenPort iface) "/dev/stdin");
         if ok c then mret ()
         else setPrivateKeyViaFile (PrivateKey iface) (ListenPort iface)
       else mret ());
  addrs ← command ["ip"; "addr"; "show"; wgInterface];
  let existingAddrs := stdout addrs in
  _ ← (if contains existingAddrs TunnelGateway then mret () else
       c ← command ["ip"; "addr"; "add"; TunnelGatewayCIDR; "dev"; wgInterface];
       if negb (ok c) && negb (contains (combined c) "File exists") then fail "ip addr add" else mret ());
  _ ← (if contains existingAddrs "10.10.0.254" then mret () else
       _ ← command ["ip"; "addr"; "add"; "10.10.0.254/32"; "dev"; wgInterface]; mret ());
  must ["ip"; "link"; "set"; wgInterface; "up"] "ip link set up".

Definition EnsureNAT (devMode : bool) : io W () :=
  if devMode then mret () else
  _ ← step_io (λ w, write_file w "/proc/sys/net/ipv4/ip_forward" "1") "enable ip_forward";
  iface ← natIface;
  check ← command ["iptables"; "-t"; "nat"; "-C"; "POSTROUTING"; "-s"; TunnelSubnet; "-o"; iface; "-j"; "MASQUERADE"];
  if ok check then mret () else
  must ["iptables"; "-t"; "nat"; "-A"; "POSTROUTING"; "-s"; TunnelSubnet; "-o"; iface; "-j"; "MASQUERADE"]
    "iptables MASQUERADE".

(** ** Peers *)

Definition readLivePeers : io W (gmap string string) :=
  r ← command wg_dump;
  if ok r then mret (parse_live (stdout r)) else fail "wg show dump".

Definition stripped_line (line : string) : bool :=
  let t := trim_space line in
  has_prefix t "Address" || has_prefix t "PostUp" || has_prefix t "PostDown" || has_prefix t "DNS".

Definition syncconfFallback : io W () :=
  raw ← (λ w, (w, match read_file w wgConfPath with Some s => Ret s | None => Err "syncconf fallback: read conf" end));
  let stripped := foldr (λ l s, if stripped_line l then s else l +:+ nl +:+ s) "" (split_byte newline raw) in
  tmp ← (λ w, let '(w, t) := create_temp w "ss-wg-sync-*.conf" in
              (w, match t with Some t => Ret t | None => Err "syncconf fallback: create temp" end));
  r ← attempt (_ ← step_io (λ w, write_file w tmp stripped) "syncconf fallback: write temp";
               must ["wg"; "syncconf"; wgInterface; tmp] "syncconf fallback");
  _ ← (λ w, (remove_file w tmp, Ret ()));
  match r with inl _ => mret () | inr e => fail e end.

(** A live peer other than [key] that holds [ip] in the table read at the
    start. *)
Definition holder (liveByKey : gmap string string) (key ip : string) : option string :=
  fst <$> List.find (λ kv : string * string, String.eqb (snd kv) ip && negb (String.eqb (fst kv) key))
            (range liveByKey).

(** The "add or update" loop; it returns what is left of [liveByKey]. *)
Fixpoint add_peers (desired : list PeerConfig) (liveByKey : gmap string string)
    : io W (gmap string string) :=
  match desired with
  | [] => mret liveByKey
  | p :: rest =>
      let allowedIP := normalizeAllowedIP (AllowedIP p) in
      if bool_decide (liveByKey !! PublicKey p = Some allowedIP) then add_peers rest liveByKey
      else
        liveByKey ← match holder liveByKey (PublicKey p) allowedIP with
                    | Some liveKey =>
                        _ ← must (wg_remove liveKey) "wg remove old peer for rekey";
                        mret (delete liveKey liveByKey)
                    | None => mret liveByKey
                    end;
        _ ← must (wg_set (PublicKey p) allowedIP) "wg set peer";
        add_peers rest liveByKey
  end.

Fixpoint remove_orphans (wanted : list string) (live : list (string * string)) : io W () :=
  match live with
  | [] => mret ()
  | (liveKey, _) :: rest =>
      if bool_decide (liveKey ∈ wanted) then remove_orphans wanted rest
      else _ ← must (wg_remove liveKey) "wg remove peer"; remove_orphans wanted rest
  end.

Definition syncPeersDiff (desired : list PeerConfig) : io W () :=
  r ← attempt readLivePeers;
  match r with
  | inr _ => syncconfFallback
  | inl live =>
      liveByKey ← add_peers desired live;
      remove_orphans (map PublicKey desired) (range liveByKey)
  end.

Definition Apply (devMode : bool) (now : string) (iface : InterfaceConfig)
    (peers : list PeerConfig) : io W () :=
  _ ← writeConf devMode now iface peers;
  if devMode then mret () else
  _ ← ensureInterfaceNonDisruptive iface;
  _ ← EnsureNAT devMode;
  syncPeersDiff peers.
End Writer.

(** ** Every call ends *)

Section Safe.
Context {W : Type} `{Machine W} (range : gmap string string → list (string * string)).

Lemma natIface_safe : io_safe natIface.
Proof. unfold natIface, detectDefaultIface. io_safe. Qed.
Hint Resolve natIface_safe : io.

Lemma add_peers_safe l live : io_safe (add_peers range l live).
Proof. revert live. induction l as [|p l IH]; intros live; cbn [add_peers]; io_safe. Qed.
Lemma remove_orphans_safe keys l : io_safe (remove_orphans keys l).
Proof. induction l as [|[k i] l IH]; cbn [remove_orphans]; io_safe. Qed.
Hint Resolve add_peers_safe remove_orphans_safe : io.

Lemma temp_safe (p e : string) :
  io_safe (λ w : W, let '(w, t) := create_temp w p in
                    (w, match t with Some t => Ret t | None => Err e end)).
Proof. intros w. by destruct (create_temp w p) as [? []]. Qed.
Lemma remove_file_safe p : io_safe (λ w : W, (remove_file w p, Ret ())).
Proof. by intros w. Qed.
Lemma read_safe p (e : string) :
  io_safe (λ w : W, (w, match read_file w p with Some s => Ret s | None => Err e end)).
Proof. intros w. cbn. by destruct (read_file w p). Qed.
Hint Resolve temp_safe remove_file_safe read_safe : io.

Lemma Apply_safe devMode now iface peers : io_safe (Apply range devMode now iface peers).
Proof.
  unfold Apply, writeConf, buildConf, ensureInterfaceNonDisruptive, setPrivateKeyViaFile,
    EnsureNAT, syncPeersDiff, readLivePeers, syncconfFallback.
  io_safe.
Qed.
End Safe.

(** ** Reading back a dump *)

Definition keep_ip (m : gmap string string) (r : row) : gmap string string :=
  match r_ip r with Some i => <[r_key r := i]> m | None => m end.

Lemma live_line_row m r : row_ok r = true → live_line m (line r) = keep_ip m r.
Proof.
  intros Hr. unfold live_line, keep_ip. rewrite line_cells by done.
  pose proof (row_cells _ Hr) as Hc. cbn [cells forallb] in Hc. cbn [cells].
  apply andb_true_iff in Hc as [[_ ->]%andb_true_iff _]. cbn [andb].
  destruct (r_ip r) as [i|] eqn:E; [|done]. change (default "(none)" (Some i)) with i.
  pose proof (ip_cell _ _ Hr E) as [[Hi Hcomma]%andb_true_iff ->]%andb_true_iff.
  cbn [andb]. apply negb_true_iff in Hcomma. rewrite split_byte_none by done. cbn [head]. change (default "" (Some i)) with i.
  by rewrite trim_cell.
Qed.

Lemma keep_ip_lookup rows m k i :
  NoDup (map r_key rows) →
  foldl keep_ip m rows !! k = Some i ↔
  (k, Some i) ∈ map (λ r, (r_key r, r_ip r)) rows ∨
  m !! k = Some i ∧ ∀ j, (k, Some j) ∉ map (λ r, (r_key r, r_ip r)) rows.
Proof.
  revert m. induction rows as [|r rows IH]; intros m Hnd; cbn [map foldl].
  - setoid_rewrite elem_of_nil. naive_solver.
  - inversion Hnd as [|? ? Hr Hnd']; subst. rewrite IH by done. unfold keep_ip.
    assert (∀ o, (r_key r, o) ∉ map (λ r, (r_key r, r_ip r)) rows) as Hno.
    { intros o Ho. apply Hr. apply list_elem_of_fmap in Ho as (r' & [= -> ->] & Hin).
      apply list_elem_of_fmap. eauto. }
    setoid_rewrite elem_of_cons.
    generalize dependent (map (λ r, (r_key r, r_ip r)) rows). intros ps _ Hno.
    destruct (decide (k = r_key r)) as [->|Hk].
    + destruct (r_ip r) as [j|] eqn:E; [rewrite lookup_insert_eq|]; naive_solver.
    + destruct (r_ip r) as [j|] eqn:E; [rewrite lookup_insert_ne by done|]; naive_solver.
Qed.

(** [readLivePeers] reads the peers that have an allowed IP. *)
Lemma parse_live_dump hdr rows (m : gmap string (option string)) :
  hdr ≠ [] → forallb cell_ok hdr = true → forallb row_ok rows = true →
  map (λ r, (r_key r, r_ip r)) rows ≡ₚ map_to_list m →
  parse_live (dump_text hdr rows) = omap id m.
Proof.
  intros Hne Hh Hr Hm. unfold parse_live. rewrite dump_lines by done. cbn [tail].
  assert (∀ acc, foldl live_line acc (map line rows) = foldl keep_ip acc rows) as ->.
  { revert Hr. clear. induction rows as [|r rows IH]; [done|].
    intros [Hr Hrows]%andb_true_iff acc. cbn [map foldl]. rewrite live_line_row by done. auto. }
  assert (NoDup (map r_key rows)) as Hnd.
  { assert (map r_key rows = fst <$> map (λ r, (r_key r, r_ip r)) rows) as ->.
    { rewrite <- list_fmap_compose. done. }
    rewrite Hm. apply NoDup_fst_map_to_list. }
  apply map_eq. intros k. apply option_eq. intros i.
  rewrite keep_ip_lookup, lookup_empty, Hm, elem_of_map_to_list, lookup_omap by done.
  unfold id. destruct (m !! k) as [[j|]|] eqn:E; cbn; naive_solver.
Qed.

(** ** What wg(8) does *)

(** Assigning an address takes it from the peer that had it. *)
Definition release (i : string) (o : option string) : option string :=
  if bool_decide (o = Some i) then None else o.

(** [wg w] is the peer table of the interface, [accepts k i] that the tool
    takes [k] and [i] for a key and an address. *)
Record wireguard {W} `{Machine W} (wg : W → gmap string (option string))
    (accepts : string → string → Prop) : Prop := {
  dump_law w : ∃ w' hdr rows out,
    exec w wg_dump = (w', {| ok := true; stdout := dump_text hdr rows; combined := out |}) ∧
    wg w' = wg w ∧ hdr ≠ [] ∧ forallb cell_ok hdr = true ∧ forallb row_ok rows = true ∧
    map (λ r, (r_key r, r_ip r)) rows ≡ₚ map_to_list (wg w);
  set_law w k i : accepts k i → ∃ w' r,
    exec w (wg_set k i) = (w', r) ∧ ok r = true ∧ wg w' = <[k := Some i]> (release i <$> wg w);
  remove_law w k : is_Some (wg w !! k) → ∃ w' r,
    exec w (wg_remove k) = (w', r) ∧ ok r = true ∧ wg w' = delete k (wg w);
}.

(** The peers that have an address. *)
Definition live {W} (wg : W → gmap string (option string)) (w : W) : gmap string string :=
  omap id (wg w).

(** The wanted table. *)
Definition wanted_ip (p : PeerConfig) : string := normalizeAllowedIP (AllowedIP p).
Definition wanted_table (l : list PeerConfig) : gmap string string :=
  list_to_map (map (λ p, (PublicKey p, wanted_ip p)) l).

(** Two entries [p], [q], in that order: other keys, other addresses, and [p]
    does not hold, in the table [m], the address wanted for [q]. *)
Definition compatible (m : gmap string string) (p q : PeerConfig) : Prop :=
  PublicKey p ≠ PublicKey q ∧ wanted_ip p ≠ wanted_ip q ∧ m !! PublicKey p ≠ Some (wanted_ip q).

Definition one_holder (m : gmap string string) : Prop :=
  ∀ k k' i, m !! k = Some i → m !! k' = Some i → k = k'.

Section Reconcile.
Context {W : Type} `{Machine W} (range : gmap string string → list (string * string)).
Hypothesis range_perm : ∀ m, range m ≡ₚ map_to_list m.
Context (wg : W → gmap string (option string)) (accepts : string → string → Prop).
Hypothesis Hwg : wireguard wg accepts.

Lemma live_lookup w k i : live wg w !! k = Some i ↔ wg w !! k = Some (Some i).
Proof. unfold live. rewrite lookup_omap. unfold id. destruct (wg w !! k) as [[]|]; naive_solver. Qed.

Lemma readLivePeers_live w : ∃ w', readLivePeers w = (w', Ret (live wg w)) ∧ wg w' = wg w.
Proof.
  destruct (dump_law _ _ Hwg w) as (w' & hdr & rows & out & He & Hw & Hne & Hh & Hr & Hm).
  exists w'. unfold readLivePeers, mbind, io_bind, command. rewrite He. cbn [ok stdout].
  by rewrite (parse_live_dump _ _ (wg w)).
Qed.

Lemma must_set w k i e : accepts k i → ∃ w',
  must (wg_set k i) e w = (w', Ret ()) ∧ live wg w' !! k = Some i ∧
  ∀ k', k' ≠ k → live wg w' !! k' =
    match live wg w !! k' with Some j => if bool_decide (j = i) then None else Some j | None => None end.
Proof.
  intros Ha. destruct (set_law _ _ Hwg w k i Ha) as (w' & r & He & Hok & Hw).
  exists w'. unfold must, mbind, io_bind, command. rewrite He, Hok. split; [done|].
  unfold live. rewrite Hw. split.
  - by rewrite lookup_omap, lookup_insert_eq.
  - intros k' Hk. rewrite !lookup_omap, lookup_insert_ne, lookup_fmap by done.
    unfold id, release. destruct (wg w !! k') as [[j|]|]; cbn; try done;
      by repeat case_bool_decide; simplify_eq.
Qed.

Lemma must_remove w k i e : live wg w !! k = Some i → ∃ w',
  must (wg_remove k) e w = (w', Ret ()) ∧ live wg w' = delete k (live wg w).
Proof.
  intros Hk%live_lookup. destruct (remove_law _ _ Hwg w k) as (w' & r & He & Hok & Hw); [by eexists|].
  exists w'. unfold must, mbind, io_bind, command. rewrite He, Hok. split; [done|].
  unfold live. rewrite Hw. apply map_eq. intros k'.
  destruct (decide (k' = k)) as [->|]; [by rewrite lookup_omap, !lookup_delete_eq|].
  by rewrite lookup_omap, !lookup_delete_ne, lookup_omap by done.
Qed.

Lemma holder_spec m key i :
  match holder range m key i with
  | Some k => m !! k = Some i ∧ k ≠ key
  | None => ∀ k, m !! k = Some i → k = key
  end.
Proof.
  unfold holder. destruct (List.find _ _) as [[k j]|] eqn:E; cbn.
  - apply find_some in E as [Hin HE]. cbn in HE.
    apply andb_true_iff in HE as [->%String.eqb_eq Hk%negb_true_iff].
    apply list_elem_of_In in Hin. rewrite range_perm, elem_of_map_to_list in Hin.
    split; [done|]. by apply String.eqb_neq.
  - intros k Hk. destruct (decide (k = key)) as [|Hne]; [done|]. exfalso.
    assert ((k, i) ∈ range m) as Hin by (by rewrite range_perm, elem_of_map_to_list).
    apply list_elem_of_In in Hin. pose proof (find_none _ _ E _ Hin) as Hf. cbn in Hf.
    rewrite String.eqb_refl in Hf. apply negb_false_iff, String.eqb_eq in Hf. done.
Qed.

(** After the entries [dn] have been handled: [live0] is the table read at
    the start, [L] what is left of it. *)
Record progress (live0 : gmap string string) (dn : list PeerConfig)
    (L : gmap string string) (w : W) : Prop := {
  pr_done p : p ∈ dn → live wg w !! PublicKey p = Some (wanted_ip p);
  pr_rest k : (∀ p, p ∈ dn → PublicKey p ≠ k) → live wg w !! k = L !! k;
  pr_sub : L ⊆ live0;
}.

Lemma progress_set live0 dn L w p w' :
  one_holder live0 → progress live0 dn L w →
  (∀ q, q ∈ dn → compatible live0 q p) →
  (∀ k, L !! k = Some (wanted_ip p) → k = PublicKey p) →
  live wg w' !! PublicKey p = Some (wanted_ip p) →
  (∀ k, k ≠ PublicKey p → live wg w' !! k =
    match live wg w !! k with
    | Some j => if bool_decide (j = wanted_ip p) then None else Some j
    | None => None
    end) →
  progress live0 (dn ++ [p]) L w'.
Proof.
  intros Hone [Hdone Hrest Hsub] Hc Hfree Hp Hothers. split; [| |done].
  - intros q [Hq| ->%list_elem_of_singleton]%elem_of_app; [|done].
    destruct (Hc q Hq) as (Hk & Hi & _). rewrite Hothers, Hdone by done.
    by rewrite bool_decide_eq_false_2.
  - intros k Hk.
    assert (PublicKey p ≠ k) as Hpk by (apply Hk; set_solver).
    rewrite Hothers, Hrest by (try done; intros q Hq; apply Hk; set_solver).
    destruct (L !! k) as [j|] eqn:E; [|done].
    rewrite bool_decide_eq_false_2; [done|]. intros ->. apply Hpk. symmetry. eauto.
Qed.

Lemma progress_remove live0 dn L w k w' :
  progress live0 dn L w → (∀ p, p ∈ dn → PublicKey p ≠ k) →
  live wg w' = delete k (live wg w) → progress live0 dn (delete k L) w'.
Proof.
  intros [Hdone Hrest Hsub] Hk Hw. split.
  - intros p Hp. rewrite Hw, lookup_delete_ne by (intros E; by apply (Hk p)). auto.
  - intros k' Hk'. rewrite Hw. destruct (decide (k' = k)) as [->|].
    + by rewrite !lookup_delete_eq.
    + rewrite !lookup_delete_ne by done. auto.
  - etrans; [apply delete_subseteq|done].
Qed.

Lemma add_peers_progress live0 rest : ∀ dn L w,
  one_holder live0 → progress live0 dn L w →
  (∀ p q, p ∈ dn → q ∈ rest → compatible live0 p q) →
  ForallOrdPairs (compatible live0) rest →
  Forall (λ p, accepts (PublicKey p) (wanted_ip p)) rest →
  ∃ w' L', add_peers range rest L w = (w', Ret L') ∧ progress live0 (dn ++ rest) L' w'.
Proof.
  induction rest as [|p rest IH]; intros dn L w Hone Hpr Hc Hord Hacc.
  { exists w, L. by rewrite app_nil_r. }
  inversion Hord as [|? ? Hp Hord']; inversion Hacc as [|? ? Ha Hacc']; subst.
  assert (∀ q, q ∈ dn → compatible live0 q p) as Hcp by set_solver.
  assert (∀ p0 q, p0 ∈ dn ++ [p] → q ∈ rest → compatible live0 p0 q) as Hc'.
  { rewrite Forall_forall in Hp. set_solver. }
  replace (dn ++ p :: rest) with ((dn ++ [p]) ++ rest) by (by rewrite <- app_assoc).
  cbn [add_peers]. fold (wanted_ip p).
  destruct (bool_decide_reflect (L !! PublicKey p = Some (wanted_ip p))) as [Hsame|Hdiff].
  { apply IH; try done. destruct Hpr as [Hdone Hrest Hsub]. split; [| |done].
    - intros q [Hq| ->%list_elem_of_singleton]%elem_of_app; [auto|].
      rewrite Hrest; [done|]. intros q Hq. by apply Hcp.
    - intros k Hk. apply Hrest. set_solver. }
  pose proof (holder_spec L (PublicKey p) (wanted_ip p)) as Hh.
  destruct (holder range L (PublicKey p) (wanted_ip p)) as [k|] eqn:Eh.
  - destruct Hh as [HLk Hkp].
    assert (∀ q, q ∈ dn → PublicKey q ≠ k) as Hkdn.
    { intros q Hq <-. destruct (Hcp q Hq) as (_ & _ & Hno). apply Hno.
      eapply lookup_weaken; [done|]. by destruct Hpr. }
    destruct (must_remove w k (wanted_ip p) "wg remove old peer for rekey") as (w1 & E1 & Hw1).
    { by rewrite (pr_rest _ _ _ _ Hpr). }
    pose proof (progress_remove _ _ _ _ _ _ Hpr Hkdn Hw1) as Hpr1.
    destruct (must_set w1 (PublicKey p) (wanted_ip p) "wg set peer" Ha) as (w2 & E2 & Hs & Ho).
    assert (progress live0 (dn ++ [p]) (delete k L) w2) as Hpr2.
    { eapply (progress_set live0 dn (delete k L) w1); try done.
      intros k' Hk'. apply lookup_delete_Some in Hk' as [Hne Hk'].
      exfalso. apply Hne. destruct Hpr. eapply Hone; eapply lookup_weaken; eauto. }
    destruct (IH _ _ _ Hone Hpr2 Hc' Hord' Hacc') as (w3 & L3 & E3 & Hpr3).
    exists w3, L3. split; [|done].
    unfold mbind, io_bind. rewrite E1. cbn. by rewrite E2.
  - destruct (must_set w (PublicKey p) (wanted_ip p) "wg set peer" Ha) as (w2 & E2 & Hs & Ho).
    pose proof (progress_set _ _ _ _ _ _ Hone Hpr Hcp Hh Hs Ho) as Hpr2.
    destruct (IH _ _ _ Hone Hpr2 Hc' Hord' Hacc') as (w3 & L3 & E3 & Hpr3).
    exists w3, L3. split; [|done].
    unfold mbind, io_bind. cbn. by rewrite E2.
Qed.

Lemma remove_orphans_spec keys ks w :
  NoDup (fst <$> ks) → (∀ k i, (k, i) ∈ ks → k ∉ keys → live wg w !! k = Some i) →
  ∃ w', remove_orphans keys ks w = (w', Ret ()) ∧
    ∀ k, live wg w' !! k =
      if bool_decide ((k ∉ keys) ∧ k ∈ fst <$> ks) then None else live wg w !! k.
Proof.
  revert w. induction ks as [|[k i] ks IH]; intros w Hnd Hl; cbn [remove_orphans].
  { exists w. split; [done|]. intros k. rewrite bool_decide_eq_false_2; [done|]. set_solver. }
  inversion Hnd as [|? ? Hk Hnd']; subst. cbn in Hk.
  destruct (bool_decide_reflect (k ∈ keys)) as [Hin|Hout].
  - destruct (IH w Hnd') as (w' & E & Hw'); [set_solver|]. exists w'. split; [done|].
    intros k'. rewrite Hw'. erewrite bool_decide_ext; [reflexivity|set_solver].
  - destruct (must_remove w k i "wg remove peer") as (w1 & E1 & Hw1); [apply Hl; set_solver|].
    destruct (IH w1 Hnd') as (w' & E & Hw').
    { intros k' i' Hin Hno. rewrite Hw1, lookup_delete_ne.
      - apply Hl; set_solver.
      - intros <-. apply Hk. apply list_elem_of_fmap. by exists (k, i'). }
    exists w'. split; [unfold mbind, io_bind; by rewrite E1|].
    intros k'. rewrite Hw', Hw1. destruct (decide (k' = k)) as [->|Hne].
    + rewrite lookup_delete_eq. rewrite (bool_decide_eq_true_2 (_ ∧ k ∈ fst <$> ((k, i) :: ks))) by set_solver.
      by case_bool_decide.
    + rewrite lookup_delete_ne by done. erewrite bool_decide_ext; [reflexivity|set_solver].
Qed.

Lemma wanted_table_lookup l k i :
  NoDup (map PublicKey l) →
  wanted_table l !! k = Some i ↔ ∃ p, p ∈ l ∧ PublicKey p = k ∧ wanted_ip p = i.
Proof.
  intros Hnd. unfold wanted_table. rewrite <- elem_of_list_to_map.
  - rewrite list_elem_of_fmap. split; [intros (p & [= -> ->] & Hp); eauto|naive_solver].
  - rewrite <- list_fmap_compose. done.
Qed.

Lemma compatible_nodup m l : ForallOrdPairs (compatible m) l → NoDup (map PublicKey l).
Proof.
  induction 1 as [|p l Hp Hl IH]; cbn; constructor; [|done].
  rewrite list_elem_of_fmap. intros (q & Hpq & Hq). rewrite Forall_forall in Hp.
  by destruct (Hp q Hq) as [? _].
Qed.
End Reconcile.

(** C10. [syncPeersDiff] makes the live peer table the wanted one, on a machine
    where the wg commands do what wg(8) documents, whatever the order in which
    Go enumerates the maps, provided the wanted keys and addresses are different
    and no entry of the wanted list currently holds the address of a later entry
    (it would be lost: [moved_peer_dropped]). The table is that of the
    peers that have an address: a peer with allowed ips (none) is outside it. *)
Theorem syncPeersDiff_exact {W} `{Machine W} range (wg : W → gmap string (option string)) accepts w desired :
  (∀ m, range m ≡ₚ map_to_list m) →
  wireguard wg accepts →
  one_holder (live wg w) →
  ForallOrdPairs (compatible (live wg w)) desired →
  Forall (λ p, accepts (PublicKey p) (wanted_ip p)) desired →
  ∃ w', syncPeersDiff range desired w = (w', Ret ()) ∧ live wg w' = wanted_table desired.
Proof.
  intros Hr Hwg Hone Hord Hacc.
  destruct (readLivePeers_live wg accepts Hwg w) as (w1 & E1 & Hw1).
  assert (live wg w1 = live wg w) as Hl1 by (unfold live; by rewrite Hw1).
  destruct (add_peers_progress range Hr wg accepts Hwg (live wg w) desired [] (live wg w) w1)
    as (w2 & L & E2 & [Hdone Hrest Hsub]); try done.
  { split; [set_solver| |done]. intros k _. by rewrite Hl1. }
  { set_solver. }
  pose proof (compatible_nodup _ _ Hord) as Hnd.
  destruct (remove_orphans_spec range Hr wg accepts Hwg (map PublicKey desired) (range L) w2)
    as (w3 & E3 & Hw3).
  { rewrite Hr. apply NoDup_fst_map_to_list. }
  { intros k i Hin Hno. rewrite Hr, elem_of_map_to_list in Hin. rewrite Hrest; [done|].
    intros p Hp <-. apply Hno. apply list_elem_of_fmap. eauto. }
  exists w3. split.
  - unfold syncPeersDiff, attempt, mbind, io_bind. rewrite E1, E2. by rewrite E3.
  - apply map_eq. intros k. rewrite Hw3. apply option_eq. intros i.
    destruct (decide (k ∈ map PublicKey desired)) as [Hk|Hk].
    + rewrite bool_decide_eq_false_2 by naive_solver.
      apply list_elem_of_fmap in Hk as (p & -> & Hp). rewrite (Hdone p) by set_solver.
      by rewrite (proj2 (wanted_table_lookup desired _ (wanted_ip p) Hnd)) by eauto.
    + rewrite wanted_table_lookup by done.
      assert (∀ p, p ∈ desired → PublicKey p ≠ k) as Hne.
      { intros p Hp <-. apply Hk. apply list_elem_of_fmap. eauto. }
      rewrite Hrest by done.
      case_bool_decide as Hd.
      * split; [done|]. intros (p & Hp & Hkp & _). by destruct (Hne p).
      * split.
        -- intros HL. exfalso. apply Hd. split; [done|]. apply list_elem_of_fmap. exists (k, i).
           by rewrite Hr, elem_of_map_to_list.
        -- intros (p & Hp & Hkp & _). by destruct (Hne p).
Qed.

(** ** Peers that do not change *)

(** The peer a [wg set wg0 peer ...] command names, by its key or by its
    address. *)
Definition concerns (p : PeerConfig) (argv : list string) : Prop :=
  argv !! 4 = Some (PublicKey p) ∨ argv !! 6 = Some (wanted_ip p).

Definition distinct_peers (p q : PeerConfig) : Prop :=
  PublicKey p ≠ PublicKey q ∧ wanted_ip p ≠ wanted_ip q.

Section Untouched.
Context {W : Type} `{Machine W} (range : gmap string string → list (string * string)).
Hypothesis range_perm : ∀ m, range m ≡ₚ map_to_list m.
Context (I : W → Prop) (p : PeerConfig).
Hypothesis HI : keeps I (λ argv, ¬ concerns p argv).

Lemma must_other argv e : ¬ concerns p argv → preserves I (must argv e).
Proof.
  intros Hn. apply preserves_bind; [by eapply preserves_command|].
  intros r. destruct (ok r); eauto with io.
Qed.

Lemma add_peers_untouched rest L :
  (∀ q, q ∈ rest → q = p ∨ distinct_peers q p) →
  L !! PublicKey p = Some (wanted_ip p) → preserves I (add_peers range rest L).
Proof.
  revert L. induction rest as [|q rest IH]; intros L Hq HL; cbn [add_peers]; [eauto with io|].
  assert (∀ q, q ∈ rest → q = p ∨ distinct_peers q p) as Hrest by set_solver.
  fold (wanted_ip q). case_bool_decide as Hsame; [auto|].
  destruct (Hq q) as [->|[Hk Hi]]; [set_solver|done|].
  assert (¬ concerns p (wg_set (PublicKey q) (wanted_ip q))) as Hn by (intros [[= ?]|[= ?]]; done).
  pose proof (holder_spec range range_perm L (PublicKey q) (wanted_ip q)) as Hh.
  destruct (holder range L (PublicKey q) (wanted_ip q)) as [k|].
  - destruct Hh as [HLk _]. assert (k ≠ PublicKey p) as Hkp by (intros ->; congruence).
    apply preserves_bind_ret.
    { apply preserves_bind; [|eauto with io]. apply must_other. by intros [[= ?]|[=]]. }
    intros L' w w' (w1 & u & _ & E2)%io_bind_Ret_inv. unfold mret, io_ret in E2. injection E2 as _ <-.
    apply preserves_bind; [by apply must_other|].
    intros _. apply IH; [done|]. by rewrite lookup_delete_ne.
  - apply preserves_bind_ret; [eauto with io|]. intros L' w w' E2. unfold mret, io_ret in E2.
    injection E2 as _ <-.
    apply preserves_bind; [by apply must_other|]. auto.
Qed.

Lemma remove_orphans_untouched keys ks :
  PublicKey p ∈ keys → preserves I (remove_orphans keys ks).
Proof.
  intros Hp. induction ks as [|[k i] ks IH]; cbn [remove_orphans]; [eauto with io|].
  case_bool_decide as Hk; [done|]. apply preserves_bind; [|done].
  apply must_other. intros [[= ?]|[=]]. by subst.
Qed.
End Untouched.

(** A peer that is live with the address wanted for it is not named by any
    command of a reconciliation: whatever holds of the machine and is kept by
    every command that names neither the peer nor its address (its session, for
    one) holds after it, also when a command fails half-way. *)
Theorem unchanged_peer_untouched {W} `{Machine W} range (I : W → Prop) w w1 live0 desired p :
  (∀ m, range m ≡ₚ map_to_list m) →
  readLivePeers w = (w1, Ret live0) →
  p ∈ desired → live0 !! PublicKey p = Some (wanted_ip p) →
  (∀ q, q ∈ desired → q = p ∨ distinct_peers q p) →
  keeps I (λ argv, ¬ concerns p argv) →
  I w → I (fst (syncPeersDiff range desired w)).
Proof.
  intros Hr Hread Hp Hl Hd HI Hw.
  assert (I w1) as Hw1.
  { assert (preserves I readLivePeers) as Hpr.
    { apply preserves_bind; [eapply preserves_command; [done|]; by intros [[=]|[=]]|].
      intros r. destruct (ok r); eauto with io. }
    specialize (Hpr w Hw). by rewrite Hread in Hpr. }
  unfold syncPeersDiff, attempt at 1, mbind at 1, io_bind at 1. rewrite Hread.
  revert w1 Hw1 Hread. intros w1 Hw1 _.
  assert (preserves I (liveByKey ← add_peers range desired live0;
                       remove_orphans (map PublicKey desired) (range liveByKey))) as Hall.
  { apply preserves_bind; [by eapply add_peers_untouched|]. intros L.
    eapply remove_orphans_untouched; [done|]. apply list_elem_of_fmap. eauto. }
  by apply Hall.
Qed.

(** A peer that moves to a lower address is dropped when its old address
    is taken over: the table read at the start is not updated by the moves,
    so the new owner's turn removes the peer that has just been moved, which
    stays off the interface until a later reconciliation. *)
Theorem moved_peer_dropped {W} `{Machine W} range (wg : W → gmap string (option string)) accepts w a n :
  (∀ m, range m ≡ₚ map_to_list m) →
  wireguard wg accepts →
  distinct_peers a n →
  accepts (PublicKey a) (wanted_ip a) → accepts (PublicKey n) (wanted_ip n) →
  live wg w = {[PublicKey a := wanted_ip n]} →
  ∃ w', syncPeersDiff range [a; n] w = (w', Ret ()) ∧ live wg w' = {[PublicKey n := wanted_ip n]}.
Proof.
  intros Hr Hwg [Hk Hi] Ha Hn Hl.
  destruct (readLivePeers_live wg accepts Hwg w) as (w1 & E1 & Hw1).
  assert (live wg w1 = {[PublicKey a := wanted_ip n]}) as Hl1 by (unfold live in *; by rewrite Hw1).
  pose proof (holder_spec range Hr {[PublicKey a := wanted_ip n]} (PublicKey a) (wanted_ip a)) as H1.
  pose proof (holder_spec range Hr {[PublicKey a := wanted_ip n]} (PublicKey n) (wanted_ip n)) as H2.
  destruct (must_set wg accepts Hwg w1 (PublicKey a) (wanted_ip a) "wg set peer" Ha) as (w2 & E2 & Hs2 & Ho2).
  destruct (must_remove wg accepts Hwg w2 (PublicKey a) (wanted_ip a)
    "wg remove old peer for rekey" Hs2) as (w3 & E3 & Hw3).
  destruct (must_set wg accepts Hwg w3 (PublicKey n) (wanted_ip n) "wg set peer" Hn) as (w4 & E4 & Hs4 & Ho4).
  exists w4. split.
  - unfold syncPeersDiff, attempt. unfold mbind, io_bind. rewrite E1, Hl.
    cbn [add_peers]. fold (wanted_ip a) (wanted_ip n).
    rewrite bool_decide_eq_false_2 by (rewrite lookup_singleton_eq; congruence).
    destruct (holder range _ (PublicKey a) _) as [k|].
    { destruct H1 as [Hk1 Hne]. apply lookup_singleton_Some in Hk1 as [E _]. congruence. }
    unfold mbind, io_bind, mret, io_ret. rewrite E2.
    rewrite bool_decide_eq_false_2 by (rewrite lookup_singleton_ne; done).
    destruct (holder range _ (PublicKey n) _) as [k|].
    + destruct H2 as [[<- _]%lookup_singleton_Some _]. rewrite E3, E4, delete_singleton_eq.
      assert (range ∅ = []) as ->; [|done].
      apply Permutation_nil_r. by rewrite Hr, map_to_list_empty.
    + exfalso. apply Hk. apply H2. by rewrite lookup_singleton_eq.
  - apply map_eq. intros k. destruct (decide (k = PublicKey n)) as [->|Hkn].
    + by rewrite lookup_singleton_eq.
    + rewrite Ho4, Hw3, lookup_singleton_ne by done.
      destruct (decide (k = PublicKey a)) as [->|Hka]; [by rewrite lookup_delete_eq|].
      rewrite lookup_delete_ne, Ho2, Hl1, lookup_singleton_ne by done. done.
Qed.

(** ** The interface's private key *)

(** When the first [wg set ... private-key /dev/stdin] exits with 0 (its
    standard input is the null device, an empty key file, which wg(8) takes as
    "no key"), the interface set-up never uses the private key it was given:
    two configurations with the same port give the same machine. *)
Theorem private_key_unused {W} `{Machine W} (i1 i2 : InterfaceConfig) w :
  ListenPort i1 = ListenPort i2 →
  (∀ w, ok (snd (exec w (wg_private_key (ListenPort i1) "/dev/stdin"))) = true) →
  ensureInterfaceNonDisruptive i1 w = ensureInterfaceNonDisruptive i2 w.
Proof.
  intros Hp Hok. unfold ensureInterfaceNonDisruptive, mbind, io_bind. rewrite <- Hp.
  destruct (command _ w) as [w1 [r1| | |]]; try done.
  destruct (if ok r1 then _ else _) as [w2 [[]| | |]]; try done.
  destruct (command ["wg"; "show"; wgInterface; "public-key"] w2) as [w3 [r3| | |]]; try done.
  destruct (String.eqb _ _); [|done].
  specialize (Hok w3).
  assert (command (wg_private_key (ListenPort i1) "/dev/stdin") w3 =
          (fst (exec w3 (wg_private_key (ListenPort i1) "/dev/stdin")),
           Ret (snd (exec w3 (wg_private_key (ListenPort i1) "/dev/stdin"))))) as ->.
  { unfold command. by destruct (exec w3 _). }
  by rewrite Hok.
Qed.

(** ** A concrete machine *)

(** A WireGuard interface and a file system; the commands that are not wg's
    succeed and print nothing. *)
Record toy := {
  t_wg : gmap string (option string);
  t_files : gmap string string;
}.

Definition with_wg (m : gmap string (option string)) (t : toy) : toy :=
  {| t_wg := m; t_files := t_files t |}.
Definition with_files (m : gmap string string) (t : toy) : toy :=
  {| t_wg := t_wg t; t_files := m |}.

Definition toy_accepts (k i : string) : Prop := cell_ok k = true ∧ ip_ok i = true.
#[export] Instance toy_accepts_dec k i : Decision (toy_accepts k i).
Proof. unfold toy_accepts. apply _. Defined.

Definition good_peer (kv : string * option string) : Prop :=
  cell_ok (fst kv) = true ∧ match snd kv with Some i => ip_ok i = true | None => True end.
#[export] Instance good_peer_dec kv : Decision (good_peer kv).
Proof. unfold good_peer. destruct (snd kv); apply _. Defined.

Definition toy_peers (t : toy) : gmap string (option string) := filter good_peer (t_wg t).

Definition toy_row (kv : string * option string) : row :=
  {| r_key := fst kv; r_psk := "(none)"; r_endpoint := "(none)"; r_ip := snd kv;
     r_handshake := "0"; r_rx := "0"; r_tx := "0"; r_keepalive := "off" |}.
Definition done_with (out : string) : result := {| ok := true; stdout := out; combined := out |}.

Definition toy_exec (t : toy) (argv : list string) : toy * result :=
  if decide (argv = wg_dump) then
    (t, done_with (dump_text ["(none)"; "(none)"; "51820"; "off"] (map toy_row (map_to_list (toy_peers t)))))
  else match argv with
  | [_; _; _; _; k; verb; i] =>
      if decide (argv = wg_set k i) then
        if decide (toy_accepts k i)
        then (with_wg (<[k := Some i]> (release i <$> t_wg t)) t, done_with "")
        else (t, {| ok := false; stdout := ""; combined := "invalid" |})
      else (t, done_with "")
  | [_; _; _; _; k; verb] =>
      if decide (argv = wg_remove k) then (with_wg (delete k (t_wg t)) t, done_with "")
      else (t, done_with "")
  | _ => (t, done_with "")
  end.

Definition toy_machine : Machine toy := {|
  exec := toy_exec;
  exec_in t _ _ := (t, done_with "");
  read_file t p := t_files t !! p;
  mkdir_all t _ := (t, true);
  write_file t p s := (with_files (<[p := s]> (t_files t)) t, true);
  chmod t _ _ := (t, true);
  rename t p q := match t_files t !! p with
                  | Some s => (with_files (<[q := s]> (delete p (t_files t))) t, true)
                  | None => (t, false)
                  end;
  remove_file t p := with_files (delete p (t_files t)) t;
  create_temp t p := (with_files (<[p := ""]> (t_files t)) t, Some p);
  getenv _ _ := "";
|}.

Lemma toy_wireguard : @wireguard toy toy_machine toy_peers toy_accepts.
Proof.
  split.
  - intros w. eexists w, _, (map toy_row (map_to_list (toy_peers w))), _.
    split; [reflexivity|]. repeat split; try done.
    + apply forallb_forall. intros r Hr. apply in_map_iff in Hr as ([k o] & <- & Hin).
      apply list_elem_of_In, elem_of_map_to_list, map_lookup_filter_Some in Hin as [_ [Hk Ho]].
      cbn in Hk, Ho. unfold row_ok, toy_row, cells. cbn [r_ip fst snd r_key r_psk r_endpoint r_handshake r_rx r_tx r_keepalive forallb].
      rewrite Hk. destruct o as [i|]; [|done]. rewrite Ho.
      apply andb_true_iff in Ho as [[Hi _]%andb_true_iff _]. cbn. by rewrite Hi.
    + rewrite <- list_fmap_compose. rewrite <- (list_fmap_id (map_to_list (toy_peers w))) at 2.
      apply Permutation_refl'. apply list_fmap_ext. by intros ? [].
  - intros w k i Ha. eexists _, (done_with "").
    split; [|split; [done|]].
    + cbn. unfold toy_exec. rewrite decide_False by done. cbn. rewrite decide_True by done.
      by rewrite (decide_True _ _ Ha).
    + unfold toy_peers, with_wg. cbn. destruct Ha as [Hk Hi].
      apply map_eq. intros k'. apply option_eq. intros o.
      destruct (decide (k' = k)) as [->|Hne].
      * rewrite lookup_insert_eq, map_lookup_filter_Some, lookup_insert_eq. unfold good_peer. naive_solver.
      * rewrite lookup_insert_ne, map_lookup_filter_Some, lookup_insert_ne by done.
        rewrite !lookup_fmap, !fmap_Some. setoid_rewrite map_lookup_filter_Some.
        unfold good_peer, release. split.
        -- intros [(o' & Ho' & ->) [Hk' Hg]]. exists o'. split; [|done]. split; [done|].
           split; [done|]. destruct o' as [j|]; [|done]. cbn in *.
           case_bool_decide; [|done]. by simplify_eq.
        -- intros (o' & [Ho' [Hk' Hg]] & ->). split; [eauto|]. split; [done|].
           destruct o' as [j|]; [|done]. cbn in *. by case_bool_decide.
  - intros w k _. eexists _, (done_with "").
    split; [|split; [done|]].
    + cbn. unfold toy_exec. rewrite decide_False by done. cbn. by rewrite decide_True.
    + unfold toy_peers, with_wg. cbn. by rewrite map_filter_delete.
Qed.

(** ** The theorems at concrete inputs *)

Definition peer (k i : string) : PeerConfig :=
  {| PublicKey := k; AllowedIP := i; DeviceMAC := ""; Comment := "" |}.

Definition toy_live (l : list (string * string)) : toy :=
  {| t_wg := Some <$> (list_to_map l : gmap string string); t_files := ∅ |}.

(** A peer leaves, one gets a new key, one stays. *)
Definition before : toy := toy_live [("anna", "10.10.0.2/32"); ("ben", "10.10.0.3/32"); ("old", "10.10.0.4/32")].
Definition wanted : list PeerConfig := [peer "anna" "10.10.0.2"; peer "new" "10.10.0.3/32"].

Lemma syncPeersDiff_exact_witness :
  let _ := toy_machine in
  ∃ w', syncPeersDiff map_to_list wanted before = (w', Ret ()) ∧
        live toy_peers w' = {["anna" := "10.10.0.2/32"; "new" := "10.10.0.3/32"]}.
Proof.
  intros M. eapply (syncPeersDiff_exact map_to_list toy_peers toy_accepts before wanted).
  - done.
  - apply toy_wireguard.
  - assert (live toy_peers before = {["anna" := "10.10.0.2/32"; "ben" := "10.10.0.3/32"; "old" := "10.10.0.4/32"]})
      as -> by (vm_compute; reflexivity).
    intros k k' i. rewrite !lookup_insert_Some. setoid_rewrite lookup_singleton_Some. naive_solver.
  - repeat constructor; vm_compute; congruence.
  - repeat constructor.
Defined.

Lemma unchanged_peer_untouched_witness :
  let _ := toy_machine in
  t_wg (fst (syncPeersDiff map_to_list wanted before)) !! "anna" = Some (Some "10.10.0.2/32").
Proof.
  intros M.
  eapply (unchanged_peer_untouched map_to_list (λ t, t_wg t !! "anna" = Some (Some "10.10.0.2/32"))
    before before (live toy_peers before) wanted (peer "anna" "10.10.0.2")).
  - done.
  - vm_compute. reflexivity.
  - left.
  - vm_compute. reflexivity.
  - intros q [->|[->|[]%elem_of_nil]%elem_of_cons]%elem_of_cons; [by left|right].
    split; vm_compute; congruence.
  - intros t argv Hn Ht. cbn. unfold toy_exec.
    destruct (decide _); [done|].
    destruct argv as [|? [|? [|? [|? [|k [|v [|i [|]]]]]]]]; try done;
      (assert (k ≠ "anna") as Hk by (intros ->; apply Hn; by left)).
    + destruct (decide _); [|done]. cbn. by rewrite lookup_delete_ne.
    + assert (i ≠ "10.10.0.2/32") as Hi by (intros ->; apply Hn; by right).
      destruct (decide _); [|done]. destruct (decide _); [|done]. cbn.
      rewrite lookup_insert_ne, lookup_fmap, Ht by done. cbn.
      unfold release. by rewrite bool_decide_eq_false_2 by congruence.
  - done.
Defined.

Lemma moved_peer_dropped_witness :
  let _ := toy_machine in
  ∃ w', syncPeersDiff map_to_list [peer "anna" "10.10.0.2"; peer "ben" "10.10.0.3"]
          (toy_live [("anna", "10.10.0.3/32")]) = (w', Ret ()) ∧
        live toy_peers w' = {["ben" := "10.10.0.3/32"]}.
Proof.
  intros M. apply (moved_peer_dropped map_to_list toy_peers toy_accepts
    (toy_live [("anna", "10.10.0.3/32")]) (peer "anna" "10.10.0.2") (peer "ben" "10.10.0.3")).
  - done.
  - apply toy_wireguard.
  - split; vm_compute; congruence.
  - split; vm_compute; reflexivity.
  - split; vm_compute; reflexivity.
  - vm_compute. reflexivity.
Defined.

Lemma private_key_unused_witness :
  let _ := toy_machine in
  ensureInterfaceNonDisruptive {| PrivateKey := "a"; ListenPort := 51820; Address := "" |} before =
  ensureInterfaceNonDisruptive {| PrivateKey := "b"; ListenPort := 51820; Address := "" |} before.
Proof.
  intros M. apply (private_key_unused _ _ before); [done|]. intros w. vm_compute. reflexivity.
Defined.
