(* ===== verification/TunnelHealth.v ===== *)
(** The two readers of peer health (internal/tunnel/health.go and
    internal/controlsync/tunnel_stats.go), both over the dump of wg(8), and
    their agreement.

    Seconds are not wrapped at 64 bits: [time.Now().Unix()] and a handshake
    are both non-negative there. *)
From S2P Require Import Prelude Net WgDump GoString.

Local Open Scope string_scope.
Local Open Scope list_scope.
Local Open Scope Z_scope.

(** The Unix epoch, in seconds since the zero [time.Time]. *)
Definition unix_epoch : Z := 62135596800.
(** [time.Unix(ts, 0)] and [t.Unix()] *)
Definition unix_time (ts : Z) : time := (ts + unix_epoch) * second.
Definition to_unix (t : time) : Z := t / second - unix_epoch.

(** ** health.go *)

Record PeerHealth := {
  PublicKey : string;
  Endpoint : string;
  LastHandshake : time;
  RxBytes : Z;
  TxBytes : Z;
  Stale : bool;
}.

Record PeerHealthSnapshot := {
  Interface : string;
  ListenPort : Z;
  PeerCount : nat;
  Peers : list PeerHealth;
  CapturedAt : time;
}.

Definition staleThreshold : duration := 3 * minute.

Definition parse_peer (now : time) (l : string) : option PeerHealth :=
  if String.eqb (trim_space l) "" then None
  else match split_byte tab l with
  | key :: _ :: endpoint :: _ :: hs :: rx :: tx :: _ :: _ =>
      let '(ts, ok) := parse_int hs in
      let seen := ok && (0 <? ts) in
      Some {| PublicKey := key; Endpoint := endpoint;
              LastHandshake := if seen then unix_time ts else 0;
              RxBytes := fst (parse_int rx); TxBytes := fst (parse_int tx);
              Stale := if seen then staleThreshold <? time_sub now (unix_time ts) else true |}
  | _ => None
  end.

Definition parseDump (now : time) (dump : string) : PeerHealthSnapshot :=
  let lines := split_byte newline (trim_space dump) in
  let port := match split_byte tab (default "" (head lines)) with
              | _ :: _ :: p :: _ => fst (parse_int p)
              | _ => 0
              end in
  let peers := omap (parse_peer now) (tail lines) in
  {| Interface := "wg0"; ListenPort := port; PeerCount := length peers; Peers := peers; CapturedAt := now |}.

(** [ReadHealth]: [out] is what the command printed, unless it failed. *)
Definition ReadHealth (devMode : bool) (now : time) (out : option string) : go PeerHealthSnapshot :=
  if devMode then
    Ret {| Interface := "wg0"; ListenPort := 51820; PeerCount := 0; Peers := []; CapturedAt := now |}
  else match out with
       | None => Err "wg show dump"
       | Some dump => Ret (parseDump now dump)
       end.

Definition StalePeers (s : PeerHealthSnapshot) : list PeerHealth := List.filter Stale (Peers s).

Definition Summary (s : PeerHealthSnapshot) : string :=
  "peers=" +:+ pretty (PeerCount s) +:+ " stale=" +:+ pretty (length (StalePeers s)) +:+
  " port=" +:+ pretty (ListenPort s).

(** ** tunnel_stats.go *)

Record tunnelPeerStat := {
  stat_PublicKey : string;
  LastHandshakeUnix : Z;
  BytesTx : Z;
  BytesRx : Z;
  Connected : bool;
}.

(** [bufio.Scanner] with the default line splitter: the lines without their
    end, up to the first one that does not fit the 64 KiB buffer. *)
Definition maxTokenSize : nat := Z.to_nat 65536.

Definition scan (ls : list string) : list string * option string := scan_with maxTokenSize ls.

Definition parse_stat (now : time) (l : string) : option tunnelPeerStat :=
  let line := trim_space l in
  if String.eqb line "" then None
  else match split_byte tab line with
  | key :: _ :: _ :: _ :: hs :: rx :: tx :: _ :: _ =>
      let handshakeUnix := fst (parse_int hs) in
      Some {| stat_PublicKey := key; LastHandshakeUnix := handshakeUnix;
              BytesTx := fst (parse_int tx); BytesRx := fst (parse_int rx);
              Connected := (0 <? handshakeUnix) && (to_unix now - handshakeUnix <? 180) |}
  | _ => None
  end.

Definition parseWGDump (now : time) (out : option string) : go (list tunnelPeerStat * option string) :=
  match out with
  | None => Err "wg show wg0 dump"
  | Some out =>
      let '(lines, e) := scan (split_byte newline out) in
      Ret (omap (parse_stat now) (tail lines), e)
  end.

(** The upload of one heartbeat: the peers posted, if any. *)
Definition syncTunnelStats (nodeType : string) (now : time) (out : option string)
    : option (list tunnelPeerStat) :=
  if String.eqb nodeType "vps_relay" then None
  else match parseWGDump now out with
       | Ret (p :: ps, None) => Some (p :: ps)
       | _ => None
       end.

(** ** Both readers on the tool's own output *)

Definition health_of (now : time) (r : row) : PeerHealth :=
  let '(ts, ok) := parse_int (r_handshake r) in
  let seen := ok && (0 <? ts) in
  {| PublicKey := r_key r; Endpoint := r_endpoint r;
     LastHandshake := if seen then unix_time ts else 0;
     RxBytes := fst (parse_int (r_rx r)); TxBytes := fst (parse_int (r_tx r));
     Stale := if seen then staleThreshold <? time_sub now (unix_time ts) else true |}.

Definition stat_of (now : time) (r : row) : tunnelPeerStat :=
  let ts := fst (parse_int (r_handshake r)) in
  {| stat_PublicKey := r_key r; LastHandshakeUnix := ts;
     BytesTx := fst (parse_int (r_tx r)); BytesRx := fst (parse_int (r_rx r));
     Connected := (0 <? ts) && (to_unix now - ts <? 180) |}.

Lemma line_starts r : row_ok r = true → starts_graphic (line r).
Proof.
  intros Hr%row_cells. unfold line. cbn [cells] in *. apply join_starts, graphic_starts.
  by apply andb_true_iff in Hr as [? _].
Qed.

Lemma trim_row r : row_ok r = true → trim_space (line r) = line r.
Proof.
  intros Hr. apply trim_id; [by apply line_starts|]. apply cells_ends; [done|]. by apply row_cells.
Qed.

Lemma line_not_empty r : row_ok r = true → String.eqb (line r) "" = false.
Proof. intros (a & s & -> & _)%line_starts. done. Qed.

Lemma parse_peer_row now r : row_ok r = true → parse_peer now (line r) = Some (health_of now r).
Proof.
  intros Hr. unfold parse_peer, health_of. rewrite trim_row, line_not_empty, line_cells by done.
  cbn [cells]. by destruct (parse_int (r_handshake r)).
Qed.

Lemma parse_stat_row now r : row_ok r = true → parse_stat now (line r) = Some (stat_of now r).
Proof.
  intros Hr. unfold parse_stat, stat_of. by rewrite trim_row, line_not_empty, line_cells by done.
Qed.

Lemma omap_rows {A} (f : string → option A) (g : row → A) rows :
  forallb row_ok rows = true → (∀ r, row_ok r = true → f (line r) = Some (g r)) →
  omap f (map line rows) = map g rows.
Proof.
  intros Hr Hf. induction rows as [|r rows IH]; [done|].
  apply andb_true_iff in Hr as [Hr Hrows]. cbn [map omap list_omap]. rewrite Hf by done. f_equal. by apply IH.
Qed.

Lemma parseDump_rows now hdr rows :
  hdr ≠ [] → forallb cell_ok hdr = true → forallb row_ok rows = true →
  Peers (parseDump now (dump_text hdr rows)) = map (health_of now) rows.
Proof.
  intros Hne Hh Hr. unfold parseDump. rewrite dump_lines by done. cbn [tail Peers].
  apply omap_rows; [done|]. apply parse_peer_row.
Qed.

Lemma scan_lines ls :
  Forall (λ l, (String.length l < maxTokenSize)%nat ∧ drop_cr l = l) ls →
  scan (ls ++ [""]) = (ls, None).
Proof.
  induction 1 as [|l ls [Hl Hcr] Hls IH]; [done|].
  unfold scan in *. cbn [app scan_with]. destruct (ls ++ [""]) as [|t rest] eqn:E; [by destruct ls|].
  rewrite (proj2 (Nat.leb_gt _ _)) by lia. by rewrite IH, Hcr.
Qed.

Lemma drop_cr_graphic s : ends_graphic s → drop_cr s = s.
Proof.
  intros (p & a & -> & Ha). apply trim_suffix_none.
  change (String (ascii_of_N 13) "") with ("" +:+ String (ascii_of_N 13) "").
  apply has_suffix_last. intros ->. done.
Qed.

Definition short_line (l : string) : Prop := (String.length l < maxTokenSize)%nat.

Lemma short_line_bool l : (Z.of_nat (String.length l) <? 65536) = true → short_line l.
Proof. unfold short_line, maxTokenSize. rewrite Z.ltb_lt. lia. Qed.

Lemma parseWGDump_rows now hdr rows :
  hdr ≠ [] → forallb cell_ok hdr = true → forallb row_ok rows = true →
  Forall short_line (join tabs hdr :: map line rows) →
  parseWGDump now (Some (dump_text hdr rows)) = Ret (map (stat_of now) rows, None).
Proof.
  intros Hne Hh Hr Hs. unfold parseWGDump, dump_text, nl.
  assert (Forall (λ r, row_ok r = true) rows) as Hrows.
  { apply Forall_forall. intros r Hin. rewrite forallb_forall in Hr. apply Hr. by apply list_elem_of_In. }
  rewrite split_byte_app, split_join.
  - change (split_byte newline "") with [""]. rewrite scan_lines.
    + cbn [tail]. f_equal. f_equal. apply omap_rows; [done|]. apply parse_stat_row.
    + inversion Hs as [|? ? Hs1 Hs2]; subst. constructor.
      * split; [done|]. by apply drop_cr_graphic, cells_ends.
      * apply Forall_map. rewrite Forall_map in Hs2. eapply Forall_impl.
        { apply Forall_and; split; [exact Hs2|exact Hrows]. }
        intros r [Hl Hok]. split; [done|].
        by apply drop_cr_graphic, cells_ends, row_cells.
  - done.
  - constructor; [by apply line_no_newline|].
    apply Forall_fmap. eapply Forall_impl; [exact Hrows|]. intros r Hok. by apply line_no_newline, row_cells.
Qed.

(** The same peer, as the tunnel manager and as the cloud see it. *)
Definition same_view (now : time) (p : PeerHealth) (s : tunnelPeerStat) : Prop :=
  PublicKey p = stat_PublicKey s ∧ RxBytes p = BytesRx s ∧ TxBytes p = BytesTx s ∧
  (Connected s = true → Stale p = false) ∧
  (Stale p = false → Connected s = true ∨ now = unix_time (LastHandshakeUnix s) + staleThreshold).

Lemma views_agree now r :
  snd (parse_int (r_handshake r)) = true → same_view now (health_of now r) (stat_of now r).
Proof.
  intros Hok. unfold health_of, stat_of, same_view. destruct (parse_int (r_handshake r)) as [ts ok].
  cbn in Hok |- *. subst ok. cbn [andb]. repeat (split; [done|]).
  destruct (0 <? ts) eqn:Hts; [|split; intros; discriminate].
  cbn [andb]. rewrite Z.ltb_ge.
  pose proof (time_sub_le now (unix_time ts) staleThreshold ltac:(vm_compute; split; congruence)) as Hle.
  rewrite Hle, Z.ltb_lt. unfold staleThreshold, to_unix, unix_time, minute, second in *.
  pose proof (Z.div_mod now 1000000000 ltac:(lia)). pose proof (Z.mod_pos_bound now 1000000000 ltac:(lia)).
  lia.
Qed.

(** On the dump wg(8) prints, the manager's health snapshot and the
    statistics posted to the cloud list the same peers with the same counters,
    and a peer is not stale in the one exactly when it is connected in the
    other, except in the very instant three minutes after its handshake, when
    it is neither. *)
Theorem health_views_agree now hdr rows :
  hdr ≠ [] → forallb cell_ok hdr = true → forallb row_ok rows = true →
  Forall short_line (join tabs hdr :: map line rows) →
  Forall (λ r, snd (parse_int (r_handshake r)) = true) rows →
  ∃ stats, parseWGDump now (Some (dump_text hdr rows)) = Ret (stats, None) ∧
    Forall2 (same_view now) (Peers (parseDump now (dump_text hdr rows))) stats.
Proof.
  intros Hne Hh Hr Hs Hhs. exists (map (stat_of now) rows).
  split; [by apply parseWGDump_rows|]. rewrite parseDump_rows by done.
  clear Hs Hr. induction Hhs; cbn; constructor; auto using views_agree.
Qed.

Definition sample_row : row :=
  {| r_key := "anna"; r_psk := "(none)"; r_endpoint := "192.0.2.7:51820"; r_ip := Some "10.10.0.2/32";
     r_handshake := "1700000000"; r_rx := "1024"; r_tx := "2048"; r_keepalive := "off" |}.

Lemma health_views_agree_witness :
  let now := unix_time 1700000180 in
  let text := dump_text ["(none)"; "(none)"; "51820"; "off"] [sample_row] in
  map Stale (Peers (parseDump now text)) = [false] ∧
  ∃ stats, parseWGDump now (Some text) = Ret (stats, None) ∧
    Forall2 (same_view now) (Peers (parseDump now text)) stats.
Proof.
  split; [vm_compute; reflexivity|].
  apply health_views_agree; [done|vm_compute; reflexivity..| |].
  - constructor; [|constructor; [|constructor]]; apply short_line_bool; vm_compute; reflexivity.
  - repeat constructor.
Defined.
