(* ===== verification/Tunnel.v ===== *)
(** The tunnel manager (internal/tunnel/manager.go): the table of peers and
    its reconciliation with the policy bundle, address allocation, the private
    key and its cache file.

    The two SQLite tables are part of the state; a schedule of faults says
    which of the coming database calls fail.  The policy runtime is the
    interface [PolicyReader], of which only [ActiveBundle] is used. *)
From stdpp Require Import sorting.
From S2P Require Import Prelude Net Os WgDump Policy TunnelHealth WgConf GoString.

Local Open Scope string_scope.
Local Open Scope list_scope.

(** A row of [tunnel_peers] under its primary key [public_key]; [added_at] is
    never read. *)
Record peer_row := {
  allowed_ip : string;
  device_mac : string;
  comment : string;
}.

Record tunnel (W : Type) := {
  machine : W;
  tunnel_peers : gmap string peer_row;
  tunnel_config : gmap string string;
  latestHealth : option PeerHealthSnapshot;
  faults : list bool;
}.
Arguments machine {_} _.
Arguments tunnel_peers {_} _.
Arguments tunnel_config {_} _.
Arguments latestHealth {_} _.
Arguments faults {_} _.

Definition set_machine {W} (w : W) (t : tunnel W) : tunnel W :=
  {| machine := w; tunnel_peers := tunnel_peers t; tunnel_config := tunnel_config t;
     latestHealth := latestHealth t; faults := faults t |}.
Definition set_peers {W} (m : gmap string peer_row) (t : tunnel W) : tunnel W :=
  {| machine := machine t; tunnel_peers := m; tunnel_config := tunnel_config t;
     latestHealth := latestHealth t; faults := faults t |}.
Definition set_config {W} (m : gmap string string) (t : tunnel W) : tunnel W :=
  {| machine := machine t; tunnel_peers := tunnel_peers t; tunnel_config := m;
     latestHealth := latestHealth t; faults := faults t |}.
Definition set_health {W} (h : PeerHealthSnapshot) (t : tunnel W) : tunnel W :=
  {| machine := machine t; tunnel_peers := tunnel_peers t; tunnel_config := tunnel_config t;
     latestHealth := Some h; faults := faults t |}.
Definition set_faults {W} (f : list bool) (t : tunnel W) : tunnel W :=
  {| machine := machine t; tunnel_peers := tunnel_peers t; tunnel_config := tunnel_config t;
     latestHealth := latestHealth t; faults := f |}.

(** ** Helpers *)

Definition shortKey (key : string) : string :=
  if bool_decide (String.length key ≤ 8)%nat then key else stake 8 key +:+ "...".

Definition validateWireGuardKey (key kind : string) : go () :=
  if bool_decide (String.length (trim_space key) = 44)%nat then Ret ()
  else Err ("invalid " +:+ kind +:+ " key").

(** The parent of a path: what precedes the last slash. *)
Definition parent_dir (path : string) : string :=
  match rev (split_byte "/" path) with
  | _ :: (_ :: _) as up => join "/" (rev (tail up))
  | _ => "."
  end.

(** [INSERT OR REPLACE]: the rows that conflict on the primary key or on the
    unique [allowed_ip] go. *)
Definition insert_or_replace (k : string) (r : peer_row) (m : gmap string peer_row) : gmap string peer_row :=
  <[k := r]> (filter (λ kv : string * peer_row, allowed_ip (snd kv) ≠ allowed_ip r) m).

Definition addr_le (p q : PeerConfig) : Prop := String.leb (AllowedIP p) (AllowedIP q) = true.
#[export] Instance addr_le_dec p q : Decision (addr_le p q).
Proof. unfold addr_le. apply _. Defined.

Definition peer_of (kv : string * peer_row) : PeerConfig :=
  {| PublicKey := fst kv; AllowedIP := allowed_ip (snd kv);
     DeviceMAC := device_mac (snd kv); Comment := comment (snd kv) |}.

Definition candidate (i : Z) : string := "10.10.0." +:+ pretty i.
Definition host_numbers : list Z := seqZ 2 252.

Section Manager.
Context {W : Type} `{Machine W} `{IPv6Text}.
Context (range : gmap string string → list (string * string)).
(** [SS_ROUTER_WG_PRIVATE_KEY_FILE] as configured, and the development mode *)
Context (wgKeyFile : string) (devMode : bool).

Definition lift {A} (m : io W A) : io (tunnel W) A := λ t,
  let '(w, r) := m (machine t) in (set_machine w t, r).

Definition update (f : tunnel W → tunnel W) : io (tunnel W) () := λ t, (f t, Ret ()).

Definition peers_io (f : gmap string peer_row → gmap string peer_row) : io (tunnel W) () :=
  update (λ t, set_peers (f (tunnel_peers t)) t).

(** One database call: whether it fails. *)
Definition db_fails : io (tunnel W) bool := λ t,
  match faults t with
  | [] => (t, Ret false)
  | f :: fs => (set_faults fs t, Ret f)
  end.

(** ** Private key *)

Definition writeCanonicalPrivateKey (path key : string) : io W () :=
  _ ← step_io (λ w, mkdir_all w (parent_dir path)) "mkdir";
  _ ← step_io (λ w, write_file w (path +:+ ".tmp") (key +:+ nl)) "write";
  step_io (λ w, rename w (path +:+ ".tmp") path) "rename".

Definition derivePublicKey (privateKey : string) : io W string :=
  if String.eqb (trim_space privateKey) "" then fail "empty private key" else
  r ← command_in ["wg"; "pubkey"] (trim_space privateKey +:+ nl);
  if ok r then
    let pub := trim_space (stdout r) in
    match validateWireGuardKey pub "public" with
    | Ret _ => mret pub
    | _ => fail "invalid public key"
    end
  else fail "wg pubkey".

Definition key_path : io (tunnel W) string :=
  if negb (String.eqb wgKeyFile "") then mret wgKeyFile else
  v ← gets (λ t, trim_space (getenv (machine t) "SS_ROUTER_WG_PRIVATE_KEY_FILE"));
  mret (if negb (String.eqb v "") then v else "/etc/safeswitch/wireguard/privatekey").

Definition loadCanonicalPrivateKey : io (tunnel W) (string * string) :=
  path ← key_path;
  raw ← gets (λ t, read_file (machine t) path);
  match raw with
  | Some raw =>
      let key := trim_space raw in
      match validateWireGuardKey key "private" with
      | Ret _ => mret (key, path)
      | _ => fail "invalid key in file"
      end
  | None =>
      bad ← db_fails;
      stored ← gets (λ t, default "" (tunnel_config t !! "private_key"));
      let privKey := if bad : bool then "" else trim_space stored in
      if String.eqb privKey "" then fail "WireGuard private key not found" else
      match validateWireGuardKey privKey "private" with
      | Ret _ => _ ← ignore (lift (writeCanonicalPrivateKey path privKey)); mret (privKey, "sqlite")
      | _ => fail "invalid key in tunnel_config.private_key"
      end
  end.

Fixpoint upsert_config (l : list (string * string)) : io (tunnel W) () :=
  match l with
  | [] => mret ()
  | (k, v) :: l =>
      bad ← db_fails;
      if bad : bool then fail "tunnel_config" else
      _ ← update (λ t, set_config (<[k := v]> (tunnel_config t)) t);
      upsert_config l
  end.

Definition mirrorWGKeysToDB (privKey pubKey : string) : io (tunnel W) () :=
  let entries : gmap string string := {["private_key" := privKey]} in
  upsert_config (range (if String.eqb pubKey "" then entries
                        else <["wireguard_public_key" := pubKey]> entries)).

Definition loadInterfaceConfig : io (tunnel W) InterfaceConfig :=
  k ← loadCanonicalPrivateKey;
  pub ← attempt (lift (derivePublicKey (fst k)));
  _ ← match pub with
      | inl pubKey => ignore (mirrorWGKeysToDB (fst k) pubKey)
      | inr _ => mret ()
      end;
  mret {| PrivateKey := fst k; ListenPort := 51820; Address := TunnelGatewayCIDR |}.

(** ** Peers in the database *)

Definition upsertPeer (publicKey allowedIP deviceMAC comment : string) : io (tunnel W) () :=
  match validateWireGuardKey publicKey "public" with
  | Ret _ =>
      let allowedIP := normalizeAllowedIP allowedIP in
      match parse_cidr allowedIP with
      | None => fail "invalid allowed_ip"
      | Some _ =>
          bad ← db_fails;
          if bad : bool then fail "upsert peer"
          else peers_io (insert_or_replace publicKey
                 {| allowed_ip := allowedIP; device_mac := deviceMAC; comment := comment |})
      end
  | _ => fail "invalid public key"
  end.

Definition loadPeers : io (tunnel W) (list PeerConfig) :=
  bad ← db_fails;
  if bad : bool then fail "query tunnel_peers"
  else gets (λ t, merge_sort addr_le (map peer_of (map_to_list (tunnel_peers t)))).

(** The addresses in use: the gateway, the sinkhole and those of the peers
    that parse. *)
Definition used (m : gmap string peer_row) : list string :=
  TunnelGateway :: "10.10.0.254" ::
  omap (λ kv : string * peer_row, (λ a, show_ip (fst a)) <$> parse_cidr (allowed_ip (snd kv)))
       (map_to_list m).

Definition allocateIP : io (tunnel W) string :=
  bad ← db_fails;
  if bad : bool then fail "query peers" else
  taken ← gets (λ t, used (tunnel_peers t));
  match List.find (λ i, negb (bool_decide (candidate i ∈ taken))) host_numbers with
  | Some i => mret (candidate i)
  | None => fail "tunnel subnet exhausted"
  end.

Definition TunnelIPForMAC (mac : string) : io (tunnel W) string :=
  bad ← db_fails;
  rows ← gets (λ t, List.filter (λ kv : string * peer_row, String.eqb (device_mac (snd kv)) mac)
                      (map_to_list (tunnel_peers t)));
  match (if bad : bool then [] else rows) with
  | [] => mret ""
  | (_, r) :: _ =>
      mret (if String.eqb (allowed_ip r) "" then ""
            else match parse_cidr (allowed_ip r) with
                 | Some (a, _) => show_ip a
                 | None => allowed_ip r
                 end)
  end.

(** ** Reconciliation *)

Definition is_bootstrap (b : Bundle) : bool :=
  String.eqb (Signature b) "bootstrap-local" || String.eqb (Version b) "".

(** The children that have a key and an address. *)
Definition has_tunnel (c : ChildEffectiveState) : bool :=
  negb (String.eqb (WireGuardPublicKey c) "") && negb (String.eqb (WireguardIP c) "").

(** One pass over the children: the query for the current owner of the
    address decides only what is logged; its failure is dropped. *)
Fixpoint upsert_children (cs : list ChildEffectiveState) (bundleKeys : gset string)
    : io (tunnel W) (gset string) :=
  match cs with
  | [] => mret bundleKeys
  | c :: cs =>
      if negb (has_tunnel c) then upsert_children cs bundleKeys else
      let allowedIP := normalizeAllowedIP (WireguardIP c) in
      _ ← db_fails;
      _ ← ignore (upsertPeer (WireGuardPublicKey c) allowedIP (Policy.DeviceMAC c) (ChildID c));
      upsert_children cs ({[WireGuardPublicKey c]} ∪ bundleKeys)
  end.

Fixpoint delete_peers (keys : list string) : io (tunnel W) () :=
  match keys with
  | [] => mret ()
  | k :: keys =>
      bad ← db_fails;
      _ ← (if bad : bool then mret () else peers_io (delete k));
      delete_peers keys
  end.

(** Load the wanted state and apply it to the interface. *)
Definition apply_state (now : string) : io (tunnel W) () :=
  peers ← loadPeers;
  iface ← loadInterfaceConfig;
  lift (Apply range devMode now iface peers).

Definition sync (active : go Bundle) (now : string) : io (tunnel W) () :=
  match active with
  | Ret bundle =>
      if is_bootstrap bundle then apply_state now else
      bundleKeys ← upsert_children (Children bundle) ∅;
      bad ← db_fails;
      if bad : bool then fail "query peers" else
      toRemove ← gets (λ t, List.filter (λ k, negb (bool_decide (k ∈ bundleKeys)))
                              (map fst (map_to_list (tunnel_peers t))));
      _ ← delete_peers toRemove;
      apply_state now
  | _ => mret ()
  end.

Definition TriggerSync := sync.

(** ** Peers added and removed by hand *)

Definition AddPeer (active : go Bundle) (now publicKey deviceMAC comment : string) : io (tunnel W) string :=
  match validateWireGuardKey publicKey "public" with
  | Ret _ =>
      bad ← db_fails;
      existing ← gets (λ t, if bad : bool then ""
                            else default "" (allowed_ip <$> tunnel_peers t !! publicKey));
      if negb (String.eqb existing "") then mret existing else
      ip ← allocateIP;
      let allowedIP := ip +:+ "/32" in
      _ ← upsertPeer publicKey allowedIP deviceMAC comment;
      _ ← ignore (sync active now);
      mret allowedIP
  | _ => fail "invalid public key"
  end.

Definition RemovePeer (active : go Bundle) (now publicKey : string) : io (tunnel W) () :=
  bad ← db_fails;
  if bad : bool then fail "delete peer" else
  _ ← peers_io (delete publicKey);
  ignore (sync active now).

Definition RemovePeersByChildID (active : go Bundle) (now childID : string) : io (tunnel W) () :=
  bad ← db_fails;
  if bad : bool then fail "remove peers for child" else
  n ← gets (λ t, size (filter (λ kv : string * peer_row, comment (snd kv) = childID) (tunnel_peers t)));
  _ ← peers_io (filter (λ kv : string * peer_row, comment (snd kv) ≠ childID));
  if bool_decide (0 < n)%nat then ignore (sync active now) else mret ().

(** ** Health *)

(** The keys of the peers for which a [tunnel.peer_stale] event is
    journalled. *)
Definition checkHealth (now : time) : io (tunnel W) (list string) :=
  out ← (if devMode then mret None
         else r ← lift (command wg_dump); mret (if ok r then Some (stdout r) else None));
  match ReadHealth devMode now out with
  | Ret snap =>
      _ ← update (set_health snap);
      mret (map TunnelHealth.PublicKey (StalePeers snap))
  | _ => mret []
  end.

(** ** Start *)

Definition ensureSchema : io (tunnel W) () :=
  bad1 ← db_fails;
  if bad1 : bool then fail "tunnel schema" else
  bad2 ← db_fails;
  if bad2 : bool then fail "tunnel schema" else mret ().

Definition Start (active : go Bundle) (now : string) : io (tunnel W) () :=
  _ ← ensureSchema;
  _ ← (if devMode then mret () else _ ← loadCanonicalPrivateKey; mret ());
  ignore (sync active now).
End Manager.

(** ** Calls that leave the table of peers alone *)

Definition peers_are {W} (P : gmap string peer_row) (t : tunnel W) : Prop := tunnel_peers t = P.

Section Manager_lemmas.
Context {W : Type} `{Machine W} `{IPv6Text}.
Context (range : gmap string string → list (string * string)).
Context (wgKeyFile : string) (devMode : bool).

Lemma quiet_lift {A} (m : io W A) P : preserves (peers_are P) (lift m).
Proof. intros t Ht. unfold lift. by destruct (m (machine t)). Qed.
Lemma quiet_db P : preserves (peers_are P) (@db_fails W).
Proof. intros t Ht. unfold db_fails. by destruct (faults t). Qed.
Lemma quiet_config P f : preserves (peers_are P) (update (W := W) (λ t, set_config (f t) t)).
Proof. intros t Ht. exact Ht. Qed.
Hint Resolve quiet_lift quiet_db quiet_config : io.

Lemma quiet_upsert_config l P : preserves (peers_are P) (upsert_config (W := W) l).
Proof. induction l as [|[k v] l IH]; cbn [upsert_config]; io_quiet. Qed.
Hint Resolve quiet_upsert_config : io.

Lemma quiet_load_key P : preserves (peers_are P) (loadCanonicalPrivateKey wgKeyFile).
Proof. unfold loadCanonicalPrivateKey, key_path. io_quiet. Qed.
Hint Resolve quiet_load_key : io.

Lemma quiet_apply now P : preserves (peers_are P) (apply_state range wgKeyFile devMode now).
Proof. unfold apply_state, loadPeers, loadInterfaceConfig, mirrorWGKeysToDB. io_quiet. Qed.

(** ** Every call ends *)

Lemma safe_lift {A} (m : io W A) : io_safe m → io_safe (lift m).
Proof. intros Hm t. specialize (Hm (machine t)). unfold lift. by destruct (m (machine t)). Qed.
Lemma safe_db : io_safe (@db_fails W).
Proof. intros t. unfold db_fails. by destruct (faults t). Qed.
Lemma safe_update f : io_safe (update (W := W) f).
Proof. by intros t. Qed.
Lemma safe_apply now iface peers : io_safe (lift (Apply range devMode now iface peers)).
Proof. apply safe_lift, Apply_safe. Qed.
Hint Resolve safe_db safe_update safe_apply : io.

Lemma safe_upsert_config l : io_safe (upsert_config (W := W) l).
Proof. induction l as [|[k v] l IH]; cbn [upsert_config]; io_safe. Qed.
Hint Resolve safe_upsert_config : io.

Lemma safe_key : io_safe (loadCanonicalPrivateKey wgKeyFile).
Proof.
  unfold loadCanonicalPrivateKey, key_path.
  assert (∀ p k, io_safe (lift (writeCanonicalPrivateKey p k))).
  { intros p k. apply safe_lift. unfold writeCanonicalPrivateKey. io_safe. }
  io_safe.
Qed.
Lemma safe_pubkey k : io_safe (lift (derivePublicKey k)).
Proof. apply safe_lift. unfold derivePublicKey. io_safe. Qed.
Hint Resolve safe_key safe_pubkey : io.

Lemma safe_apply_state now : io_safe (apply_state range wgKeyFile devMode now).
Proof. unfold apply_state, loadPeers, loadInterfaceConfig, mirrorWGKeysToDB. io_safe. Qed.
Hint Resolve safe_apply_state : io.

Lemma safe_upsertPeer k ip mac c : io_safe (upsertPeer (W := W) k ip mac c).
Proof. unfold upsertPeer, peers_io. io_safe. Qed.
Hint Resolve safe_upsertPeer : io.

Lemma safe_upsert_children cs keys : io_safe (upsert_children (W := W) cs keys).
Proof. revert keys. induction cs as [|c cs IH]; intros keys; cbn [upsert_children]; io_safe. Qed.
Lemma safe_delete_peers keys : io_safe (delete_peers (W := W) keys).
Proof. induction keys as [|k keys IH]; cbn [delete_peers]; unfold peers_io; io_safe. Qed.
Hint Resolve safe_upsert_children safe_delete_peers : io.

Lemma safe_sync active now : io_safe (sync range wgKeyFile devMode active now).
Proof. unfold sync. io_safe. Qed.

(** ** The table after a reconciliation, no database call failing *)

Definition child_ip (c : ChildEffectiveState) : string :=
  normalizeAllowedIP (normalizeAllowedIP (WireguardIP c)).
Definition child_row (c : ChildEffectiveState) : peer_row :=
  {| allowed_ip := child_ip c; device_mac := Policy.DeviceMAC c; comment := ChildID c |}.
Definition child_ok (c : ChildEffectiveState) : bool :=
  bool_decide (String.length (trim_space (WireGuardPublicKey c)) = 44%nat) &&
  bool_decide (is_Some (parse_cidr (child_ip c))).
Definition upsert_row (m : gmap string peer_row) (c : ChildEffectiveState) : gmap string peer_row :=
  if child_ok c then insert_or_replace (WireGuardPublicKey c) (child_row c) m else m.

Lemma set_peers_same (t : tunnel W) : set_peers (tunnel_peers t) t = t.
Proof. by destruct t. Qed.

Lemma upsertPeer_run c (t : tunnel W) :
  faults t = [] →
  ignore (upsertPeer (WireGuardPublicKey c) (normalizeAllowedIP (WireguardIP c)) (Policy.DeviceMAC c) (ChildID c)) t
  = (set_peers (upsert_row (tunnel_peers t) c) t, Ret ()).
Proof.
  intros Hf. unfold ignore, attempt, mbind, io_bind, upsertPeer, validateWireGuardKey, upsert_row, child_ok.
  case_bool_decide as Hlen; cbn [andb]; [|by rewrite set_peers_same].
  fold (child_ip c). destruct (parse_cidr (child_ip c)) as [a|] eqn:E.
  - rewrite bool_decide_eq_true_2 by done. unfold mbind, io_bind, db_fails. by rewrite Hf.
  - rewrite bool_decide_eq_false_2 by (by intros []). by rewrite set_peers_same.
Qed.

Lemma upsert_children_run cs : ∀ keys (t : tunnel W),
  faults t = [] →
  ∃ t', upsert_children cs keys t =
          (t', Ret (list_to_set (map WireGuardPublicKey (List.filter has_tunnel cs)) ∪ keys)) ∧
        faults t' = [] ∧
        tunnel_peers t' = foldl upsert_row (tunnel_peers t) (List.filter has_tunnel cs).
Proof.
  induction cs as [|c cs IH]; intros keys t Hf; cbn [upsert_children List.filter].
  { exists t. split; [|done]. unfold mret, io_ret. do 2 f_equal. set_solver. }
  destruct (has_tunnel c) eqn:Ht; cbn [negb]; [|by apply IH].
  destruct (IH ({[WireGuardPublicKey c]} ∪ keys) (set_peers (upsert_row (tunnel_peers t) c) t) Hf)
    as (t' & E & Hf' & Hp).
  exists t'. split; [|done]. cbn [map list_to_set foldl].
  unfold mbind at 1, io_bind at 1, db_fails. rewrite Hf.
  unfold mbind at 1, io_bind at 1. rewrite upsertPeer_run, E by done.
  do 2 f_equal. set_solver.
Qed.

Lemma delete_peers_run keys : ∀ t : tunnel W,
  faults t = [] →
  delete_peers keys t = (set_peers (foldl (λ m k, delete k m) (tunnel_peers t) keys) t, Ret ()).
Proof.
  induction keys as [|k keys IH]; intros t Hf; cbn [delete_peers foldl].
  { by rewrite set_peers_same. }
  unfold mbind at 1, io_bind at 1, db_fails. rewrite Hf.
  unfold mbind at 1, io_bind at 1, peers_io, update. rewrite IH by done. reflexivity.
Qed.

Lemma delete_all_lookup keys (m : gmap string peer_row) k :
  foldl (λ m k, delete k m) m keys !! k = if bool_decide (k ∈ keys) then None else m !! k.
Proof.
  revert m. induction keys as [|k' keys IH]; intros m; cbn [foldl]; [done|].
  rewrite IH. destruct (decide (k = k')) as [->|Hne].
  - rewrite (bool_decide_eq_true_2 (k' ∈ k' :: keys)) by set_solver.
    rewrite lookup_delete_eq. by case_bool_decide.
  - rewrite lookup_delete_ne by done. erewrite bool_decide_ext; [reflexivity|set_solver].
Qed.

Definition tunnel_children (b : Bundle) : list ChildEffectiveState :=
  List.filter has_tunnel (Children b).

Lemma sync_table b now (t : tunnel W) k :
  faults t = [] → is_bootstrap b = false →
  tunnel_peers (fst (sync range wgKeyFile devMode (Ret b) now t)) !! k =
    if bool_decide (k ∈ map WireGuardPublicKey (tunnel_children b))
    then foldl upsert_row (tunnel_peers t) (tunnel_children b) !! k else None.
Proof.
  intros Hf Hb. unfold sync. rewrite Hb.
  destruct (upsert_children_run (Children b) ∅ t Hf) as (t1 & E1 & Hf1 & Hp1).
  unfold mbind at 1, io_bind at 1. rewrite E1.
  unfold mbind at 1, io_bind at 1, db_fails. rewrite Hf1.
  unfold mbind at 1, io_bind at 1, gets.
  unfold mbind at 1, io_bind at 1. rewrite delete_peers_run by done.
  pose proof (quiet_apply now) as Hq. unfold preserves, peers_are in Hq.
  erewrite Hq by reflexivity. clear Hq.
  cbn [set_peers tunnel_peers]. rewrite delete_all_lookup, Hp1.
  fold (tunnel_children b). set (m := foldl upsert_row _ _).
  rewrite union_empty_r_L.
  destruct (m !! k) as [r|] eqn:E; [|by repeat case_bool_decide].
  assert (k ∈ List.filter (λ k, negb (bool_decide (k ∈ (list_to_set (map WireGuardPublicKey (tunnel_children b)) : gset string))))
                (map fst (map_to_list m))
          ↔ k ∉ map WireGuardPublicKey (tunnel_children b)) as Hiff.
  { rewrite list_elem_of_In, filter_In, negb_true_iff, bool_decide_eq_false, elem_of_list_to_set.
    split; [naive_solver|]. intros Hk. split; [|done].
    apply list_elem_of_In, list_elem_of_fmap. exists (k, r).
    split; [done|]. by apply elem_of_map_to_list. }
  repeat case_bool_decide; naive_solver.
Qed.
End Manager_lemmas.

(** The rows the bundle asks for. *)
Definition bundle_table `{IPv6Text} (b : Bundle) : gmap string peer_row :=
  list_to_map (map (λ c, (WireGuardPublicKey c, child_row c)) (tunnel_children b)).

(** The children that have a tunnel have a valid key and address each, and no
    two share one. *)
Record good_bundle `{IPv6Text} (b : Bundle) : Prop := {
  good_children : Forall (λ c, child_ok c = true) (tunnel_children b);
  good_keys : NoDup (map WireGuardPublicKey (tunnel_children b));
  good_ips : NoDup (map child_ip (tunnel_children b));
}.

Lemma insert_or_replace_other k r m k' r' :
  m !! k' = Some r' → k' ≠ k → allowed_ip r' ≠ allowed_ip r →
  insert_or_replace k r m !! k' = Some r'.
Proof.
  intros Hm Hk Hi. unfold insert_or_replace. rewrite lookup_insert_ne by done.
  by apply map_lookup_filter_Some.
Qed.

Lemma upsert_rows_lookup `{IPv6Text} cs : ∀ m,
  Forall (λ c, child_ok c = true) cs →
  NoDup (map WireGuardPublicKey cs) → NoDup (map child_ip cs) →
  (∀ k r, m !! k = Some r → (∀ c, c ∈ cs → k ≠ WireGuardPublicKey c ∧ allowed_ip r ≠ child_ip c) →
          foldl upsert_row m cs !! k = Some r) ∧
  (∀ c, c ∈ cs → foldl upsert_row m cs !! WireGuardPublicKey c = Some (child_row c)).
Proof.
  induction cs as [|c cs IH]; intros m Hok Hk Hi; [by split; [|set_solver]|].
  inversion Hok as [|? ? Hc Hok']; inversion Hk as [|? ? Hkc Hk']; inversion Hi as [|? ? Hic Hi']; subst.
  cbn [foldl]. unfold upsert_row at 2 4. rewrite Hc.
  set (m' := insert_or_replace _ _ m). destruct (IH m' Hok' Hk' Hi') as [IH1 IH2]. split.
  - intros k r Hm Hout. apply IH1; [|set_solver].
    destruct (Hout c) as [? ?]; [set_solver|]. by apply insert_or_replace_other.
  - intros c' [->|Hc']%elem_of_cons; [|auto].
    apply IH1; [apply lookup_insert_eq|]. intros c' Hc'.
    split; intros E; [apply Hkc|apply Hic]; apply list_elem_of_fmap; eauto.
Qed.

Lemma sync_exact {W} `{Machine W} `{IPv6Text} range wgKeyFile devMode b now (t : tunnel W) :
  faults t = [] → is_bootstrap b = false → good_bundle b →
  tunnel_peers (fst (sync range wgKeyFile devMode (Ret b) now t)) = bundle_table b.
Proof.
  intros Hf Hb [Hok Hk Hi]. apply map_eq. intros k. rewrite sync_table by done.
  destruct (upsert_rows_lookup _ (tunnel_peers t) Hok Hk Hi) as [_ Hin].
  case_bool_decide as Hc.
  - apply list_elem_of_fmap in Hc as (c & -> & Hc). rewrite (Hin c Hc). symmetry.
    apply elem_of_list_to_map_1.
    + rewrite <- list_fmap_compose. exact Hk.
    + apply list_elem_of_fmap. eauto.
  - symmetry. apply not_elem_of_list_to_map_1. rewrite <- list_fmap_compose. exact Hc.
Qed.

(** C11. After a reconciliation with a signed bundle whose children have valid
    keys and addresses, none shared by two, no database call failing, the table
    of peers is exactly what the bundle asks for, whatever it held before and
    whatever becomes of the interface: peers the bundle does not list are gone,
    and every child with a key and an address is there. *)
Theorem sync_follows_bundle {W} `{Machine W} `{IPv6Text} range wgKeyFile devMode b now (t : tunnel W) :
  faults t = [] → is_bootstrap b = false → good_bundle b →
  tunnel_peers (fst (sync range wgKeyFile devMode (Ret b) now t)) = bundle_table b.
Proof. apply sync_exact. Qed.

(** ** Adding a peer by hand *)

(** The outcome of an allocation. *)
Definition allocation {W} `{IPv6Text} (t : tunnel W) (r : go string) : Prop :=
  match r with
  | Ret a => (a ∉ used (tunnel_peers t)) ∧ ∃ i, a = candidate i ∧ (2 ≤ i ≤ 253)%Z ∧
               ∀ j, (2 ≤ j < i)%Z → candidate j ∈ used (tunnel_peers t)
  | Err _ => ∀ j, (2 ≤ j ≤ 253)%Z → candidate j ∈ used (tunnel_peers t)
  | _ => False
  end.

Lemma find_seqZ (f : Z → bool) n : ∀ a,
  match List.find f (seqZ a n) with
  | Some i => f i = true ∧ (a ≤ i < a + n)%Z ∧ ∀ j, (a ≤ j < i)%Z → f j = false
  | None => ∀ j, (a ≤ j < a + n)%Z → f j = false
  end.
Proof.
  intros a. destruct (decide (0 ≤ n)%Z) as [Hn|Hn]; [|rewrite seqZ_nil by lia; cbn [List.find]; intros; lia].
  revert a. pattern n. apply natlike_ind; [intros a; rewrite seqZ_nil by lia; cbn [List.find]; intros; lia| |done]. clear n Hn. intros n Hn IH a.
  rewrite seqZ_cons by lia. cbn [List.find]. rewrite Z.pred_succ.
  destruct (f a) eqn:E; [split; [done|]; split; [lia|]; lia|].
  specialize (IH (Z.succ a)). destruct (List.find f _) as [i|].
  - destruct IH as (Hi & Hr & Hj). split; [done|]. split; [lia|]. intros j Hj'.
    destruct (decide (j = a)) as [->|]; [done|apply Hj; lia].
  - intros j Hj'. destruct (decide (j = a)) as [->|]; [done|apply IH; lia].
Qed.

(** An allocation returns the lowest host address from .2 to .253 that no
    peer uses (and neither the gateway nor the sinkhole), and it fails exactly
    when all of them are in use. *)
Lemma allocateIP_outcome {W} `{IPv6Text} (t : tunnel W) :
  faults t = [] → allocation t (snd (allocateIP t)).
Proof.
  intros Hf. unfold allocateIP, mbind, io_bind, db_fails. rewrite Hf. cbn [gets].
  set (taken := used (tunnel_peers t)).
  pose proof (find_seqZ (λ i, negb (bool_decide (candidate i ∈ taken))) 252 2) as Hfind.
  unfold host_numbers. destruct (List.find _ _) as [i|]; cbn.
  - destruct Hfind as (Hi & Hr & Hj). apply negb_true_iff, bool_decide_eq_false in Hi.
    split; [done|]. exists i. split; [done|]. split; [lia|]. intros j Hj'.
    apply (bool_decide_eq_true_1 _), negb_false_iff, Hj. lia.
  - intros j Hj'. apply (bool_decide_eq_true_1 _), negb_false_iff, Hfind. lia.
Qed.

Definition address_of `{IPv6Text} (cidr : string) : option string :=
  (λ a, show_ip (fst a)) <$> parse_cidr cidr.

Lemma candidates_parse `{IPv6Text} :
  forallb (λ i, String.eqb (normalizeAllowedIP (candidate i +:+ "/32")) (candidate i +:+ "/32") &&
                bool_decide (address_of (candidate i +:+ "/32") = Some (candidate i))) host_numbers = true.
Proof. vm_compute. reflexivity. Qed.

Lemma candidate_parse `{IPv6Text} i :
  (2 ≤ i ≤ 253)%Z →
  normalizeAllowedIP (candidate i +:+ "/32") = candidate i +:+ "/32" ∧
  address_of (candidate i +:+ "/32") = Some (candidate i).
Proof.
  intros Hi. pose proof candidates_parse as Hall. rewrite forallb_forall in Hall.
  specialize (Hall i). apply andb_true_iff in Hall as [E1%String.eqb_eq E2%bool_decide_eq_true]; [done|].
  apply list_elem_of_In, elem_of_seqZ. lia.
Qed.

Lemma used_spec `{IPv6Text} m k r a :
  m !! k = Some r → address_of (allowed_ip r) = Some a → a ∈ used m.
Proof.
  intros Hm Ha. unfold used. do 2 right. apply list_elem_of_omap. exists (k, r).
  split; [by apply elem_of_map_to_list|done].
Qed.

Section AddPeer.
Context {W : Type} `{Machine W} `{IPv6Text}.
Context (range : gmap string string → list (string * string)) (wgKeyFile : string) (devMode : bool).

Definition new_row (ip deviceMAC comment : string) : peer_row :=
  {| allowed_ip := ip; device_mac := deviceMAC; comment := comment |}.

Lemma AddPeer_run active now key mac c (t : tunnel W) :
  faults t = [] → String.length (trim_space key) = 44%nat →
  tunnel_peers t !! key = None →
  (∃ j, (2 ≤ j ≤ 253)%Z ∧ candidate j ∉ used (tunnel_peers t)) →
  ∃ i, (2 ≤ i ≤ 253)%Z ∧ (candidate i ∉ used (tunnel_peers t)) ∧
    let ip := candidate i +:+ "/32" in
    let t1 := set_peers (<[key := new_row ip mac c]> (tunnel_peers t)) t in
    AddPeer range wgKeyFile devMode active now key mac c t =
      (fst (sync range wgKeyFile devMode active now t1), Ret ip).
Proof.
  intros Hf Hlen Hnew (j & Hj & Hfree).
  pose proof (allocateIP_outcome t Hf) as Hall.
  assert (fst (allocateIP t) = t) as Hsame.
  { unfold allocateIP, mbind, io_bind, db_fails. rewrite Hf. cbn [gets]. by destruct (List.find _ _). }
  destruct (allocateIP t) as [t0 r] eqn:Ea. cbn in Hsame, Hall. subst t0.
  destruct r as [a|e| |]; [|by destruct (Hfree (Hall j Hj))|done..].
  destruct Hall as (Hna & i & -> & Hi & _). exists i. split; [done|]. split; [done|].
  destruct (candidate_parse i Hi) as [Hnorm Haddr].
  cbv zeta. unfold AddPeer, validateWireGuardKey. rewrite bool_decide_eq_true_2 by done.
  unfold mbind at 1, io_bind at 1, db_fails at 1. rewrite Hf.
  unfold mbind at 1, io_bind at 1, gets at 1. rewrite Hnew. cbn [default fmap option_fmap option_map].
  cbn [String.eqb negb]. unfold mbind at 1, io_bind at 1. rewrite Ea.
  unfold mbind at 1, io_bind at 1, upsertPeer at 1, validateWireGuardKey.
  rewrite bool_decide_eq_true_2 by done. cbv zeta. rewrite Hnorm.
  unfold address_of in Haddr. destruct (parse_cidr (candidate i +:+ "/32")) as [p|] eqn:Ep; [|done].
  unfold mbind at 1, io_bind at 1, db_fails at 1. rewrite Hf. unfold peers_io, update.
  assert (insert_or_replace key (new_row (candidate i +:+ "/32") mac c) (tunnel_peers t) =
          <[key := new_row (candidate i +:+ "/32") mac c]> (tunnel_peers t)) as Hins.

  { unfold insert_or_replace. f_equal. apply map_filter_id. intros k r Hr Heq.
    apply Hna. eapply used_spec; [exact Hr|]. cbn [allowed_ip new_row snd] in Heq.
    rewrite Heq. unfold address_of. rewrite Ep. exact Haddr. }
  unfold new_row in Hins |- *. rewrite Hins.
  unfold mbind at 1, io_bind at 1. rewrite ignore_run by apply safe_sync. reflexivity.
Qed.
End AddPeer.

(** A peer added by hand with a new key gets an address that no peer has,
    and the peer is written to the table without displacing another one, as
    long as no signed bundle is active. *)
Theorem AddPeer_keeps_others {W} `{Machine W} `{IPv6Text} range wgKeyFile devMode b now key mac c (t : tunnel W) :
  faults t = [] → is_bootstrap b = true → String.length (trim_space key) = 44%nat →
  tunnel_peers t !! key = None →
  (∃ j, (2 ≤ j ≤ 253)%Z ∧ candidate j ∉ used (tunnel_peers t)) →
  ∃ t' i, AddPeer range wgKeyFile devMode (Ret b) now key mac c t = (t', Ret (candidate i +:+ "/32")) ∧
    (2 ≤ i ≤ 253)%Z ∧ (candidate i ∉ used (tunnel_peers t)) ∧
    tunnel_peers t' = <[key := new_row (candidate i +:+ "/32") mac c]> (tunnel_peers t).
Proof.
  intros Hf Hb Hlen Hnew Hfree.
  destruct (AddPeer_run range wgKeyFile devMode (Ret b) now key mac c t Hf Hlen Hnew Hfree)
    as (i & Hi & Hna & E). eexists _, i. split; [exact E|]. split; [done|]. split; [done|].
  unfold sync. rewrite Hb.
  match goal with |- tunnel_peers (fst (_ ?t1)) = ?P => apply (quiet_apply range wgKeyFile devMode now P t1) end.
  reflexivity.
Qed.

(** With a signed bundle active, a peer added by hand with a key that is
    not in the bundle is reported as added, with its address, although the
    reconciliation that the call itself runs has already removed it. *)
Theorem added_peer_removed {W} `{Machine W} `{IPv6Text} range wgKeyFile devMode b now key mac c (t : tunnel W) :
  faults t = [] → is_bootstrap b = false → String.length (trim_space key) = 44%nat →
  tunnel_peers t !! key = None → (key ∉ map WireGuardPublicKey (tunnel_children b)) →
  (∃ j, (2 ≤ j ≤ 253)%Z ∧ candidate j ∉ used (tunnel_peers t)) →
  ∃ t' ip, AddPeer range wgKeyFile devMode (Ret b) now key mac c t = (t', Ret ip) ∧
    tunnel_peers t' !! key = None.
Proof.
  intros Hf Hb Hlen Hnew Hout Hfree.
  destruct (AddPeer_run range wgKeyFile devMode (Ret b) now key mac c t Hf Hlen Hnew Hfree)
    as (i & Hi & Hna & E). eexists _, _. split; [exact E|].
  rewrite sync_table by done. by rewrite bool_decide_eq_false_2.
Qed.

(** ** The table of peers is always well formed *)

Record table_ok `{IPv6Text} (m : gmap string peer_row) : Prop := {
  rows_ok k r : m !! k = Some r →
    String.length (trim_space k) = 44%nat ∧ is_Some (parse_cidr (allowed_ip r));
  unique_ip k k' r r' : m !! k = Some r → m !! k' = Some r' → allowed_ip r = allowed_ip r' → k = k';
}.

Definition tunnel_ok {W} `{IPv6Text} (t : tunnel W) : Prop := table_ok (tunnel_peers t).

Lemma table_ok_sub `{IPv6Text} m m' : m' ⊆ m → table_ok m → table_ok m'.
Proof.
  intros Hs [Hr Hu]. split.
  - intros k r Hk. eapply Hr. by eapply lookup_weaken.
  - intros k k' r r' Hk Hk'. eapply Hu; by eapply lookup_weaken.
Qed.

Lemma table_ok_insert `{IPv6Text} k r m :
  String.length (trim_space k) = 44%nat → is_Some (parse_cidr (allowed_ip r)) →
  table_ok m → table_ok (insert_or_replace k r m).
Proof.
  intros Hk Hp [Hr Hu]. unfold insert_or_replace. split.
  - intros k1 r1 [[<- <-]|[_ [H1 _]%map_lookup_filter_Some]]%lookup_insert_Some; eauto.
  - intros k1 k2 r1 r2.
    intros [[<- <-]|[Hn1 [H1 F1]%map_lookup_filter_Some]]%lookup_insert_Some
           [[<- <-]|[Hn2 [H2 F2]%map_lookup_filter_Some]]%lookup_insert_Some E; cbn in *;
      [done|congruence..|eauto].
Qed.

Section Invariant.
Context {W : Type} `{Machine W} `{IPv6Text}.
Context (range : gmap string string → list (string * string)) (wgKeyFile : string) (devMode : bool).

Lemma ok_quiet {A} (m : io (tunnel W) A) :
  (∀ P, preserves (peers_are P) m) → preserves tunnel_ok m.
Proof. intros Hm t Ht. unfold tunnel_ok. by rewrite (Hm (tunnel_peers t) t). Qed.

Lemma ok_shrink f : (∀ m : gmap string peer_row, f m ⊆ m) → preserves (W := tunnel W) tunnel_ok (peers_io f).
Proof. intros Hf t Ht. unfold tunnel_ok. cbn. eapply table_ok_sub; [apply Hf|exact Ht]. Qed.

Lemma ok_db : preserves (W := tunnel W) tunnel_ok db_fails.
Proof. apply ok_quiet. intros P. apply quiet_db. Qed.
Lemma ok_apply now : preserves tunnel_ok (apply_state range wgKeyFile devMode now).
Proof. apply ok_quiet. intros P. apply quiet_apply. Qed.
Lemma ok_delete k : preserves (W := tunnel W) tunnel_ok (peers_io (delete k)).
Proof. apply ok_shrink. intros m. apply delete_subseteq. Qed.
Hint Resolve ok_db ok_apply ok_delete : io.

Lemma ok_upsertPeer k ip mac c : preserves (W := tunnel W) tunnel_ok (upsertPeer k ip mac c).
Proof.
  unfold upsertPeer, validateWireGuardKey. case_bool_decide as Hlen; [|io_quiet].
  cbv zeta. destruct (parse_cidr _) as [a|] eqn:E; [|io_quiet].
  apply preserves_bind; [eauto with io|]. intros []; [io_quiet|].
  intros t Ht. apply table_ok_insert; [done| |exact Ht]. cbn [allowed_ip]. by rewrite E.
Qed.
Hint Resolve ok_upsertPeer : io.

Lemma ok_upsert_children cs keys : preserves (W := tunnel W) tunnel_ok (upsert_children cs keys).
Proof. revert keys. induction cs as [|c cs IH]; intros keys; cbn [upsert_children]; io_quiet. Qed.
Lemma ok_delete_peers keys : preserves (W := tunnel W) tunnel_ok (delete_peers keys).
Proof. induction keys as [|k keys IH]; cbn [delete_peers]; io_quiet. Qed.
Hint Resolve ok_upsert_children ok_delete_peers : io.

Lemma ok_sync active now : preserves tunnel_ok (sync range wgKeyFile devMode active now).
Proof. unfold sync. io_quiet. Qed.
Hint Resolve ok_sync : io.

(** The calls other components make, with any arguments, whatever the
    database does; between them the machine and the faults to come change. *)
Inductive tunnel_step : tunnel W → tunnel W → Prop :=
| step_sync active now t : tunnel_step t (fst (sync range wgKeyFile devMode active now t))
| step_add active now k mac c t :
    tunnel_step t (fst (AddPeer range wgKeyFile devMode active now k mac c t))
| step_remove active now k t :
    tunnel_step t (fst (RemovePeer range wgKeyFile devMode active now k t))
| step_remove_child active now c t :
    tunnel_step t (fst (RemovePeersByChildID range wgKeyFile devMode active now c t))
| step_health now t : tunnel_step t (fst (checkHealth devMode now t))
| step_start active now t : tunnel_step t (fst (Start range wgKeyFile devMode active now t))
| step_world w f t : tunnel_step t (set_machine w (set_faults f t)).

Lemma step_ok t t' : tunnel_step t t' → tunnel_ok t → tunnel_ok t'.
Proof.
  intros Hs Ht. destruct Hs; [by apply ok_sync|..].
  - assert (preserves tunnel_ok (AddPeer range wgKeyFile devMode active now k mac c)) as Hp; [|by apply Hp].
    unfold AddPeer, allocateIP. io_quiet.
  - assert (preserves tunnel_ok (RemovePeer range wgKeyFile devMode active now k)) as Hp; [|by apply Hp].
    unfold RemovePeer. io_quiet.
  - assert (preserves tunnel_ok (RemovePeersByChildID range wgKeyFile devMode active now c)) as Hp; [|by apply Hp].
    assert (preserves (W := tunnel W) tunnel_ok
      (peers_io (filter (λ kv : string * peer_row, comment (snd kv) ≠ c)))).
    { apply ok_shrink. intros m. apply map_filter_subseteq. }
    unfold RemovePeersByChildID. io_quiet.
  - assert (preserves (W := tunnel W) tunnel_ok (checkHealth devMode now)) as Hp; [|by apply Hp].
    apply ok_quiet. intros P. unfold checkHealth.
    assert (∀ s, preserves (W := tunnel W) (peers_are P) (update (set_health s))) by (by intros s ?).
    pose proof (@quiet_lift W) as Hl. io_quiet.
  - assert (preserves tunnel_ok (Start range wgKeyFile devMode active now)) as Hp; [|by apply Hp].
    assert (preserves tunnel_ok (loadCanonicalPrivateKey wgKeyFile)).
    { apply ok_quiet. intros P. apply quiet_load_key. }
    unfold Start, ensureSchema. io_quiet.
  - exact Ht.
Qed.
End Invariant.

(** C16. In every state the manager can reach from an empty table, with
    database faults and an arbitrary machine, each stored peer has a key of
    the right length and an address that parses, and no two peers have the
    same address. *)
Theorem tunnel_table_ok {W} `{Machine W} `{IPv6Text} range wgKeyFile devMode (t t' : tunnel W) :
  tunnel_peers t = ∅ → star (tunnel_step range wgKeyFile devMode) t t' → table_ok (tunnel_peers t').
Proof.
  intros Ht Hs. apply (star_invariant _ tunnel_ok) in Hs; [done| |].
  { intros s s' Hok Hstep. by eapply step_ok. }
  unfold tunnel_ok. rewrite Ht. by split.
Qed.

(** ** The theorems at concrete inputs *)

Definition anna_key : string := "YW5uYSdzIHdpcmVndWFyZCBwdWJsaWMga2V5IDAwMDE=".
Definition ben_key : string := "YmVuJ3MgIHdpcmVndWFyZCBwdWJsaWMga2V5IDAwMDI=".
Definition eve_key : string := "ZXZlJ3MgIHdpcmVndWFyZCBwdWJsaWMga2V5IDAwMDM=".

Definition tunnel_child (id key ip : string) : ChildEffectiveState :=
  Child id "" key ip "" false "" [] [].
Definition two_children : Bundle :=
  MkBundle "v1" 0 hour "sig" [] [tunnel_child "anna" anna_key "10.10.0.2"; tunnel_child "ben" ben_key "10.10.0.3/32"].
Definition bootstrap_bundle : Bundle := MkBundle "v0" 0 hour "bootstrap-local" [] [].

(** The table still has a peer that the bundle has dropped. *)
Definition sample_tunnel : tunnel toy :=
  {| machine := before;
     tunnel_peers := {[eve_key := new_row "10.10.0.2/32" "" "eve"]};
     tunnel_config := {["private_key" := ben_key]}; latestHealth := None; faults := [] |}.

Lemma sync_follows_bundle_witness :
  let _ := toy_machine in let _ := no_v6 in
  tunnel_peers (fst (sync map_to_list "" false (Ret two_children) "" sample_tunnel)) =
    {[anna_key := new_row "10.10.0.2/32" "" "anna"; ben_key := new_row "10.10.0.3/32" "" "ben"]}.
Proof.
  intros M V. rewrite (sync_follows_bundle map_to_list "" false two_children "" sample_tunnel).
  - vm_compute. reflexivity.
  - reflexivity.
  - reflexivity.
  - split.
    + repeat constructor; vm_compute; reflexivity.
    + vm_compute. repeat constructor; set_solver.
    + vm_compute. repeat constructor; set_solver.
Defined.

Lemma free_address : let _ := no_v6 in
  ∃ j, (2 ≤ j ≤ 253)%Z ∧ candidate j ∉ used (tunnel_peers sample_tunnel).
Proof. intros V. exists 7%Z. split; [lia|]. vm_compute. set_solver. Qed.

Lemma AddPeer_keeps_others_witness :
  let _ := toy_machine in let _ := no_v6 in
  ∃ t' i, AddPeer map_to_list "" false (Ret bootstrap_bundle) "" anna_key "" "anna" sample_tunnel
            = (t', Ret (candidate i +:+ "/32")) ∧
    (2 ≤ i ≤ 253)%Z ∧ (candidate i ∉ used (tunnel_peers sample_tunnel)) ∧
    tunnel_peers t' = <[anna_key := new_row (candidate i +:+ "/32") "" "anna"]> (tunnel_peers sample_tunnel).
Proof.
  intros M V. apply (AddPeer_keeps_others map_to_list "" false bootstrap_bundle "" anna_key "" "anna" sample_tunnel);
    [reflexivity..|exact free_address].
Defined.

Lemma added_peer_removed_witness :
  let _ := toy_machine in let _ := no_v6 in
  ∃ t' ip, AddPeer map_to_list "" false (Ret two_children) "" (String.append (stake 40 eve_key) "MDQ=") "" "guest" sample_tunnel
            = (t', Ret ip) ∧
    tunnel_peers t' !! (String.append (stake 40 eve_key) "MDQ=") = None.
Proof.
  intros M V. apply (added_peer_removed map_to_list "" false two_children "" _ "" "guest" sample_tunnel);
    [reflexivity..| |exact free_address].
  vm_compute. set_solver.
Defined.

Lemma tunnel_table_ok_witness :
  let _ := toy_machine in let _ := no_v6 in
  let t := set_peers ∅ sample_tunnel in
  table_ok (tunnel_peers (fst (sync map_to_list "" false (Ret two_children) "" t))).
Proof.
  intros M V t. apply (tunnel_table_ok map_to_list "" false t); [reflexivity|].
  eapply star_step; [apply step_sync|apply star_refl].
Defined.
