(* ===== verification/Firewall.v ===== *)
(** The per-child firewall (internal/firewall/rules.go, enforcer.go), the rules
    installed at boot (internal/app/iptables_restore.go) and the conversion of
    the policy bundle to the enforcer's children (internal/app/wiring.go). *)
From S2P Require Import Prelude Net Os Policy WgConf GoString.

Local Open Scope string_scope.
Local Open Scope list_scope.

Definition StatePaused : string := "paused".
Definition StateFullTunnel : string := "full_tunnel".
Definition StateServiceOnly : string := "service_only".
Definition StateFullAccess : string := "full_access".
Definition SSChain : string := "SAFESWITCH".
Definition wgIface : string := "wg0".

Record Rule := {
  Args : list string;
  RuleComment : string;
}.

Record RuleSet := {
  IP : string;
  State : string;
  Rules : list Rule;
}.

Definition rule (args : list string) (comment : string) : Rule := {| Args := args; RuleComment := comment |}.

Definition BuildRules (ip state : string) : RuleSet :=
  {| IP := ip; State := state;
     Rules :=
       if String.eqb state StatePaused then
         [rule ["-A"; SSChain; "-s"; ip; "-j"; "DROP"] ("pause: drop outbound from " +:+ ip);
          rule ["-A"; SSChain; "-d"; ip; "-j"; "DROP"] ("pause: drop inbound to " +:+ ip)]
       else if String.eqb state StateFullTunnel then
         [rule ["-A"; SSChain; "-s"; ip; "-j"; "ACCEPT"] ("full_tunnel: accept from " +:+ ip);
          rule ["-A"; SSChain; "-d"; ip; "-j"; "ACCEPT"] ("full_tunnel: accept to " +:+ ip)]
       else if String.eqb state StateServiceOnly then
         [rule ["-A"; SSChain; "-s"; ip; "-d"; "10.10.0.1"; "-j"; "ACCEPT"]
               ("service_only: allow " +:+ ip +:+ " to gateway");
          rule ["-A"; SSChain; "-s"; "10.10.0.1"; "-d"; ip; "-j"; "ACCEPT"]
               ("service_only: allow gateway to " +:+ ip);
          rule ["-A"; SSChain; "-s"; ip; "-j"; "DROP"] ("service_only: drop outbound from " +:+ ip);
          rule ["-A"; SSChain; "-d"; ip; "-j"; "DROP"] ("service_only: drop inbound to " +:+ ip)]
       else if String.eqb state StateFullAccess then
         [rule ["-A"; SSChain; "-s"; ip; "-j"; "ACCEPT"] ("full_access: accept outbound from " +:+ ip);
          rule ["-A"; SSChain; "-d"; ip; "-j"; "ACCEPT"] ("full_access: accept inbound to " +:+ ip)]
       else [] |}.

Definition ChainEnsureArgs : list (list string) := [["-N"; SSChain]].
Definition ChainFlushArgs : list string := ["-F"; SSChain].

(** The three base rules, without the command and the chain. *)
Definition conntrack_spec : list string := ["-m"; "conntrack"; "--ctstate"; "ESTABLISHED,RELATED"; "-j"; "ACCEPT"].
Definition exit_spec (iface : string) : list string := ["-i"; wgIface; "-o"; iface; "-j"; "ACCEPT"].
Definition jump_spec : list string := ["-j"; SSChain].

(** [args[0]] and [args[2:]] of a slice that is too short panic. *)
Definition InsertForwardJump (checkArgs : list string) : go (list string) :=
  match checkArgs with
  | _ :: _ :: rest => Ret (["-I"; "FORWARD"; "1"] ++ rest)
  | _ => Panic
  end.

(** ** Children of a bundle *)

Record Child := {
  ChildID : string;
  DeviceMAC : string;
  WireguardPublicKey : string;
  WireguardIP : string;
  DisplayName : string;
  Paused : bool;
  RouteMode : string;
}.

(** The provider that wiring.go installs. *)
Definition child_of (c : ChildEffectiveState) : Child :=
  {| ChildID := Policy.ChildID c; DeviceMAC := Policy.DeviceMAC c;
     WireguardPublicKey := WireGuardPublicKey c; WireguardIP := Policy.WireguardIP c;
     DisplayName := Policy.ChildID c;
     Paused := LockEnabled c || String.eqb (Mode c) "paused";
     RouteMode := if String.eqb (Mode c) "full_tunnel" then "full_tunnel" else "split_tunnel" |}.

Definition bundleProvider (active : go Bundle) : list Child :=
  match active with
  | Ret b => map child_of (Children b)
  | _ => []
  end.

(** [RouteProfileReader]: the stored profile of a device, by key and by MAC. *)
Record RouteProfileReader := {
  RouteProfileForKey : string → string;
  RouteProfileForMAC : string → string;
}.

Definition profile_state (p : string) : option string :=
  if String.eqb p "full_tunnel" then Some StateFullTunnel
  else if String.eqb p "service_only" then Some StateServiceOnly
  else if String.eqb p "blocked" then Some StatePaused
  else None.

Definition resolveState (rp : option RouteProfileReader) (child : Child) : string :=
  let bundle_state :=
    if Paused child then StatePaused
    else if String.eqb (RouteMode child) "full_tunnel" then StateFullTunnel
    else if String.eqb (RouteMode child) "service_only" then StateServiceOnly
    else StateFullAccess in
  match rp with
  | None => bundle_state
  | Some rp =>
      match profile_state (RouteProfileForKey rp (WireguardPublicKey child)) with
      | Some s => s
      | None => match profile_state (RouteProfileForMAC rp (DeviceMAC child)) with
                | Some s => s
                | None => bundle_state
                end
      end
  end.

(** [peer_ip] is the query on [tunnel_peers] by public key. *)
Definition resolveIP (peer_ip : string → option string) (child : Child) : string :=
  if negb (String.eqb (WireguardIP child) "") && has_prefix (WireguardIP child) "10.10.0."
  then WireguardIP child
  else if negb (String.eqb (WireguardPublicKey child) "")
  then default "" (peer_ip (WireguardPublicKey child))
  else "".

(** The rules of one pass over the children. *)
Definition child_rules (rp : option RouteProfileReader) (peer_ip : string → option string) (child : Child) : list Rule :=
  let ip := resolveIP peer_ip child in
  if String.eqb ip "" then [] else Rules (BuildRules ip (resolveState rp child)).

Section Enforcer.
Context {W : Type} `{Machine W}.
Context (devMode : bool) (rp : option RouteProfileReader) (peer_ip : string → option string).

Definition natIface : io W string :=
  v ← gets (λ w, trim_space (getenv w "SS_ROUTER_NAT_IFACE"));
  if negb (String.eqb v "") then mret v
  else iface ← detectDefaultIface;
       mret (if String.eqb iface "" then "eth0" else iface).

Definition EnsureForwardJump : io W (list (list string)) :=
  iface ← natIface;
  mret [["-C"; "FORWARD"] ++ conntrack_spec; ["-C"; "FORWARD"] ++ exit_spec iface; ["-C"; "FORWARD"] ++ jump_spec].

Definition iptables (args : list string) : io W result := command ("iptables" :: args).

Definition runIPTables (args : list string) : io W () := must ("iptables" :: args) "iptables".

Fixpoint ensure_rules (checks : list (list string)) : io W () :=
  match checks with
  | [] => mret ()
  | checkArgs :: checks =>
      r ← iptables checkArgs;
      _ ← (if ok r then mret ()
           else λ w, match InsertForwardJump checkArgs with
                     | Ret args => (_ ← iptables args; mret ()) w
                     | Err e => (w, Err e)
                     | Panic => (w, Panic)
                     | Loop => (w, Loop)
                     end);
      ensure_rules checks
  end.

Definition ensure_base : io W () :=
  _ ← iptables ["-N"; SSChain];
  checks ← EnsureForwardJump;
  ensure_rules checks.

Fixpoint run_rules (rules : list Rule) : io W () :=
  match rules with
  | [] => mret ()
  | r :: rules => _ ← ignore (runIPTables (Args r)); run_rules rules
  end.

Fixpoint apply_children (children : list Child) : io W () :=
  match children with
  | [] => mret ()
  | c :: children => _ ← run_rules (child_rules rp peer_ip c); apply_children children
  end.

Definition Sync (children : list Child) : io W () :=
  if devMode then mret () else
  _ ← ensure_base;
  _ ← runIPTables ChainFlushArgs;
  apply_children children.

Definition SyncFromBundle (active : go Bundle) : io W () := Sync (bundleProvider active).

Definition PauseDevice (mac : string) : io W () :=
  if devMode then mret () else
  _ ← ensure_base;
  run_rules (Rules (BuildRules mac StatePaused)).

Definition UnpauseDevice (active : go Bundle) (mac : string) : io W () :=
  if devMode then mret () else SyncFromBundle active.

(** ** The rules installed at boot *)

Definition boot_jump (iface : string) : list string := ["-i"; iface; "-j"; "SAFESWITCH"].
Definition quic_spec (iface : string) : list string :=
  ["-i"; iface; "-p"; "udp"; "--dport"; "443"; "-j"; "DROP"].

Definition ensure_first (spec : list string) (e : string) : io W () :=
  r ← iptables (["-t"; "filter"; "-C"; "FORWARD"] ++ spec);
  if ok r then mret () else runIPTables (["-t"; "filter"; "-I"; "FORWARD"; "1"] ++ spec).

Definition applyBaseChain (iface : string) : io W () :=
  _ ← iptables ["-t"; "filter"; "-N"; "SAFESWITCH"];
  _ ← iptables ["-t"; "filter"; "-F"; "SAFESWITCH"];
  ensure_first (boot_jump iface) "insert FORWARD jump".

Definition applyDeviceBlock (ip : string) : io W () :=
  r ← iptables ["-t"; "filter"; "-C"; "SAFESWITCH"; "-s"; ip; "-j"; "DROP"];
  if ok r then mret ()
  else _ ← iptables ["-t"; "filter"; "-A"; "SAFESWITCH"; "-s"; ip; "-j"; "DROP"]; mret ().

Definition removeDeviceBlock (ip : string) : io W () :=
  _ ← iptables ["-t"; "filter"; "-D"; "SAFESWITCH"; "-s"; ip; "-j"; "DROP"]; mret ().

(** The rows of the query: address, internet_paused, is_paused; [None] when
    the query fails. *)
Fixpoint restore_rows (rows : list (string * bool * bool)) : io W () :=
  match rows with
  | [] => mret ()
  | (wgIP, internetPaused, isPaused) :: rows =>
      let ip := default "" (head (split_byte "/" wgIP)) in
      _ ← (if internetPaused || isPaused then applyDeviceBlock ip else removeDeviceBlock ip);
      restore_rows rows
  end.

Definition restoreDeviceRules (rows : option (list (string * bool * bool))) : io W () :=
  match rows with
  | None => fail "query devices"
  | Some rows => restore_rows rows
  end.

Definition applyDNSLock (iface : string) : io W () :=
  let spec := ["PREROUTING"; "-i"; iface; "-p"; "udp"; "--dport"; "53"; "-j"; "DNAT"; "--to-destination"; "10.10.0.1:53"] in
  r ← iptables (["-t"; "nat"; "-C"] ++ spec);
  if ok r then mret () else runIPTables (["-t"; "nat"; "-A"] ++ spec).

Definition blockQUIC (iface : string) : io W () := ensure_first (quic_spec iface) "block QUIC".

Definition applyMSSClamping (iface : string) : io W () :=
  let spec := ["FORWARD"; "-i"; iface; "-p"; "tcp"; "--tcp-flags"; "SYN,RST"; "SYN"; "-j"; "TCPMSS"; "--set-mss"; "1232"] in
  r ← iptables (["-t"; "mangle"; "-C"] ++ spec);
  if ok r then mret () else runIPTables (["-t"; "mangle"; "-A"] ++ spec).

Definition restoreIptablesOnBoot (rows : option (list (string * bool * bool))) (wgInterface : string) : io W () :=
  _ ← applyBaseChain wgInterface;
  _ ← ignore (restoreDeviceRules rows);
  _ ← applyDNSLock wgInterface;
  _ ← ignore (blockQUIC wgInterface);
  ignore (applyMSSClamping wgInterface).
End Enforcer.

(** ** What iptables(8) does *)

(** The per-child chain, when it exists, and the FORWARD chain: lists of rule
    specifications in order. *)
Record chains := {
  ss : option (list (list string));
  forward : list (list string);
}.

(** [fw w] are the two chains of the filter table, [valid spec] that the tool
    accepts [spec] as a rule. *)
Record iptables_laws {W} `{Machine W} (fw : W → chains) (valid : list string → Prop) : Prop := {
  other_law w argv : head argv ≠ Some "iptables" → fw (fst (exec w argv)) = fw w;
  new_law w : fw (fst (exec w ["iptables"; "-N"; SSChain])) =
    {| ss := Some (default [] (ss (fw w))); forward := forward (fw w) |};
  check_law w spec : valid spec → ∃ w' r, exec w ("iptables" :: "-C" :: "FORWARD" :: spec) = (w', r) ∧
    fw w' = fw w ∧ ok r = bool_decide (spec ∈ forward (fw w));
  insert_law w spec : valid spec → is_Some (ss (fw w)) →
    ∃ w' r, exec w ("iptables" :: "-I" :: "FORWARD" :: "1" :: spec) = (w', r) ∧ ok r = true ∧
    fw w' = {| ss := ss (fw w); forward := spec :: forward (fw w) |};
  flush_law w : is_Some (ss (fw w)) → ∃ w' r, exec w ["iptables"; "-F"; SSChain] = (w', r) ∧ ok r = true ∧
    fw w' = {| ss := Some []; forward := forward (fw w) |};
  append_law w spec l : valid spec → ss (fw w) = Some l →
    fw (fst (exec w ("iptables" :: "-A" :: SSChain :: spec))) = {| ss := Some (l ++ [spec]); forward := forward (fw w) |};
  filter_law w args : exec w ("iptables" :: "-t" :: "filter" :: args) = exec w ("iptables" :: args);
  table_law w t args : t ≠ "filter" → fw (fst (exec w ("iptables" :: "-t" :: t :: args))) = fw w;
}.

(** The upstream interface is configured and stays so. *)
Definition steady {W} `{Machine W} (iface : string) : Prop :=
  iface ≠ "" ∧ ∀ w, trim_space (getenv w "SS_ROUTER_NAT_IFACE") = iface.

(** A rule inserted at the top when it is not there. *)
Definition ensure_spec (spec : list string) (l : list (list string)) : list (list string) :=
  if bool_decide (spec ∈ l) then l else spec :: l.

Definition ensured (iface : string) (l : list (list string)) : list (list string) :=
  ensure_spec jump_spec (ensure_spec (exit_spec iface) (ensure_spec conntrack_spec l)).

Lemma ensure_spec_other spec s l : s ≠ spec → (s ∉ l) → s ∉ ensure_spec spec l.
Proof. intros Hne Hs. unfold ensure_spec. case_bool_decide; [done|]. by rewrite not_elem_of_cons. Qed.

Lemma ensure_spec_in spec l : spec ∈ l → ensure_spec spec l = l.
Proof. intros Hs. unfold ensure_spec. by rewrite bool_decide_eq_true_2. Qed.

Lemma ensure_spec_fresh spec l : (spec ∉ l) → ensure_spec spec l = spec :: l.
Proof. intros Hs. unfold ensure_spec. by rewrite bool_decide_eq_false_2. Qed.

Lemma elem_of_ensure_spec spec s l : s ∈ l → s ∈ ensure_spec spec l.
Proof. intros Hs. unfold ensure_spec. case_bool_decide; [done|]. by right. Qed.

(** The base rules as a first synchronisation installs them, the jump on top,
    and a FORWARD chain that a synchronisation brings to that state. *)
Definition installed (iface : string) (l : list (list string)) : Prop :=
  ∃ rest, l = jump_spec :: rest ∧ (exit_spec iface ∈ rest) ∧ (conntrack_spec ∈ rest).
Definition ready (iface : string) (l : list (list string)) : Prop := jump_spec ∉ l ∨ installed iface l.

Lemma ensured_installed iface l : ready iface l → installed iface (ensured iface l).
Proof.
  assert (Hin : ∀ spec l', spec ∈ ensure_spec spec l').
  { intros spec l'. unfold ensure_spec. case_bool_decide as Hd; [done|]. by left. }
  intros [Hj|(rest & -> & He & Hc)]; unfold ensured.
  - rewrite (ensure_spec_fresh jump_spec) by (by repeat apply ensure_spec_other).
    eexists. split; [done|]. split; [apply Hin|]. apply elem_of_ensure_spec, Hin.
  - rewrite !ensure_spec_in; [by exists rest| | |]; repeat first [by left|by right|rewrite ensure_spec_in].
Qed.

(** The specification in a rule of the per-child chain: without [-A CHAIN]. *)
Definition spec_of (r : Rule) : list string := drop 2 (Args r).
Definition appends (r : Rule) : Prop := Args r = "-A" :: SSChain :: spec_of r.

Lemma BuildRules_appends ip state : Forall appends (Rules (BuildRules ip state)).
Proof. unfold BuildRules. cbn [Rules]. repeat case_match; repeat constructor. Qed.

Lemma child_rules_appends rp peer_ip c : Forall appends (child_rules rp peer_ip c).
Proof. unfold child_rules. case_match; [constructor|apply BuildRules_appends]. Qed.

Definition all_rules rp peer_ip (children : list Child) : list (list string) :=
  map spec_of (concat (map (child_rules rp peer_ip) children)).

Section Chains.
Context {W : Type} `{Machine W} (fw : W → chains) (valid : list string → Prop).
Hypothesis Hfw : iptables_laws fw valid.

Lemma natIface_steady iface w : steady (W := W) iface → natIface w = (w, Ret iface).
Proof.
  intros [Hne Henv]. unfold natIface, mbind, io_bind, gets. rewrite Henv.
  by destruct (String.eqb_spec iface "").
Qed.

Lemma ensure_one spec checks w :
  valid spec → is_Some (ss (fw w)) →
  ∃ w', ensure_rules ((["-C"; "FORWARD"] ++ spec) :: checks) w = ensure_rules checks w' ∧
    fw w' = {| ss := ss (fw w); forward := ensure_spec spec (forward (fw w)) |}.
Proof.
  intros Hv Hs. cbn [ensure_rules app].
  destruct (check_law _ _ Hfw w spec Hv) as (w1 & r & E1 & Hw1 & Hr).
  unfold mbind at 1, io_bind at 1, iptables at 1, command at 1. rewrite E1.
  unfold ensure_spec. rewrite Hr. case_bool_decide as Hin.
  - exists w1. split; [done|]. by rewrite Hw1; destruct (fw w).
  - destruct (insert_law _ _ Hfw w1 spec Hv) as (w2 & r2 & E2 & _ & Hw2); [by rewrite Hw1|].
    exists w2. rewrite Hw1 in Hw2. split; [|done].
    unfold mbind at 1, io_bind at 1. cbn [InsertForwardJump].
    unfold mbind at 1, io_bind at 1, iptables at 1, command at 1. cbn [app]. by rewrite E2.
Qed.

Lemma ensure_base_run iface w :
  steady (W := W) iface → valid conntrack_spec → valid (exit_spec iface) → valid jump_spec →
  ∃ w', ensure_base w = (w', Ret ()) ∧
    fw w' = {| ss := Some (default [] (ss (fw w))); forward := ensured iface (forward (fw w)) |}.
Proof.
  intros Hst Hv1 Hv2 Hv3. unfold ensure_base.
  pose proof (new_law _ _ Hfw w) as Hnew.
  unfold mbind at 1, io_bind at 1, iptables at 1, command at 1.
  destruct (exec w ["iptables"; "-N"; SSChain]) as [w1 r1]. cbn in Hnew.
  unfold EnsureForwardJump. unfold mbind at 1, io_bind at 1, mbind at 1, io_bind at 1.
  rewrite (natIface_steady iface) by done. unfold mret, io_ret.
  destruct (ensure_one conntrack_spec [["-C"; "FORWARD"] ++ exit_spec iface; ["-C"; "FORWARD"] ++ jump_spec] w1)
    as (w2 & E2 & Hw2); [done|by rewrite Hnew|].
  destruct (ensure_one (exit_spec iface) [["-C"; "FORWARD"] ++ jump_spec] w2)
    as (w3 & E3 & Hw3); [done|by rewrite Hw2, Hnew|].
  destruct (ensure_one jump_spec [] w3) as (w4 & E4 & Hw4); [done|by rewrite Hw3, Hw2, Hnew|].
  exists w4. rewrite E2, E3, E4. split; [done|]. by rewrite Hw4, Hw3, Hw2, Hnew.
Qed.

Lemma run_rules_app rs1 rs2 w :
  run_rules (rs1 ++ rs2) w = (_ ← run_rules rs1; run_rules rs2) w.
Proof.
  revert w. induction rs1 as [|r rs1 IH]; intros w; [done|]. cbn [app run_rules].
  unfold mbind, io_bind in *. destruct (ignore _ w) as [w1 [[]| | |]]; [apply IH|done..].
Qed.

Lemma run_rules_chain rules : ∀ w l,
  Forall appends rules → Forall (λ r, valid (spec_of r)) rules → ss (fw w) = Some l →
  ∃ w', run_rules rules w = (w', Ret ()) ∧
    fw w' = {| ss := Some (l ++ map spec_of rules); forward := forward (fw w) |}.
Proof.
  induction rules as [|r rules IH]; intros w l Ha Hv Hl; cbn [run_rules].
  { exists w. split; [done|]. cbn. rewrite app_nil_r. destruct (fw w); cbn in *. by subst. }
  inversion Ha as [|? ? Har Ha']; inversion Hv as [|? ? Hvr Hv']; subst.
  pose proof (append_law _ _ Hfw w (spec_of r) l Hvr Hl) as Happ. rewrite <- Har in Happ.
  assert (fst (runIPTables (Args r) w) = fst (exec w ("iptables" :: Args r))) as Hfst.
  { unfold runIPTables, must, mbind, io_bind, command. destruct (exec w _) as [w1 r1]. by destruct (ok r1). }
  rewrite <- Hfst in Happ.
  destruct (IH (fst (runIPTables (Args r) w)) (l ++ [spec_of r])) as (w' & E & Hw'); [done|done|by rewrite Happ|].
  exists w'. split.
  - unfold mbind, io_bind. rewrite ignore_run by (unfold runIPTables; io_safe). exact E.
  - rewrite Hw', Happ. cbn. by rewrite <- app_assoc.
Qed.

Lemma apply_children_rules rp peer_ip children w :
  apply_children rp peer_ip children w = run_rules (concat (map (child_rules rp peer_ip) children)) w.
Proof.
  revert w. induction children as [|c children IH]; intros w; [done|].
  cbn [apply_children map concat]. rewrite run_rules_app. unfold mbind, io_bind.
  destruct (run_rules _ w) as [w1 [[]| | |]]; auto.
Qed.

Lemma Sync_chains iface rp peer_ip children w :
  steady (W := W) iface → valid conntrack_spec → valid (exit_spec iface) → valid jump_spec →
  Forall valid (all_rules rp peer_ip children) →
  ∃ w', Sync false rp peer_ip children w = (w', Ret ()) ∧
    fw w' = {| ss := Some (all_rules rp peer_ip children); forward := ensured iface (forward (fw w)) |}.
Proof.
  intros Hst Hv1 Hv2 Hv3 Hv.
  destruct (ensure_base_run iface w Hst Hv1 Hv2 Hv3) as (w1 & E1 & Hw1).
  destruct (flush_law _ _ Hfw w1) as (w2 & r2 & E2 & Hr2 & Hw2); [by rewrite Hw1|].
  destruct (run_rules_chain (concat (map (child_rules rp peer_ip) children)) w2 [])
    as (w3 & E3 & Hw3).
  { apply Forall_concat, Forall_map, Forall_forall. intros c _. apply child_rules_appends. }
  { unfold all_rules in Hv. rewrite Forall_map in Hv. exact Hv. }
  { by rewrite Hw2. }
  exists w3. split.
  - unfold Sync. unfold mbind, io_bind. rewrite E1.
    unfold runIPTables, must, ChainFlushArgs, mbind, io_bind, command. rewrite E2, Hr2.
    unfold mret, io_ret. by rewrite apply_children_rules.
  - by rewrite Hw3, Hw2, Hw1.
Qed.
End Chains.

(** ** The fate of a packet *)

Record packet := {
  src : string;
  dst : string;
  iif : string;
  oif : string;
}.

(** [matches spec p] on the rule forms the router installs; [host ip] are the
    texts of single addresses, with or without [/32]. *)
Record matching (matches : list string → packet → bool) (host : string → Prop) : Prop := {
  m_from ip t p : host ip → matches ["-s"; ip; "-j"; t] p = String.eqb (src p) (cleanIP ip);
  m_to ip t p : host ip → matches ["-d"; ip; "-j"; t] p = String.eqb (dst p) (cleanIP ip);
  m_from_to a b t p : host a → host b →
    matches ["-s"; a; "-d"; b; "-j"; t] p = String.eqb (src p) (cleanIP a) && String.eqb (dst p) (cleanIP b);
  m_exit iface p : matches (exit_spec iface) p = String.eqb (iif p) wgIface && String.eqb (oif p) iface;
  m_iif iface t p : matches ["-i"; iface; "-j"; t] p = String.eqb (iif p) iface;
  m_jump p : matches jump_spec p = true;
  m_gateway : host "10.10.0.1";
}.

Definition target (spec : list string) : string := List.last spec "".

(** The first rule that matches decides. *)
Fixpoint chain_verdict (matches : list string → packet → bool) (rules : list (list string)) (p : packet) : option string :=
  match rules with
  | [] => None
  | spec :: rules => if matches spec p then Some (target spec) else chain_verdict matches rules p
  end.

(** A jump to the per-child chain comes back when no rule there matches. *)
Fixpoint forward_verdict (matches : list string → packet → bool) (ss : list (list string))
    (rules : list (list string)) (p : packet) : option string :=
  match rules with
  | [] => None
  | spec :: rules =>
      if matches spec p then
        (if String.eqb (target spec) SSChain then
           match chain_verdict matches ss p with
           | Some v => Some v
           | None => forward_verdict matches ss rules p
           end
         else Some (target spec))
      else forward_verdict matches ss rules p
  end.

Definition verdict (matches : list string → packet → bool) (c : chains) (p : packet) : option string :=
  forward_verdict matches (default [] (ss c)) (forward c) p.

Definition decision (state : string) : string :=
  if String.eqb state StatePaused || String.eqb state StateServiceOnly then "DROP" else "ACCEPT".

Lemma resolveState_known rp c :
  resolveState rp c ∈ [StatePaused; StateFullTunnel; StateServiceOnly; StateFullAccess].
Proof.
  assert (∀ p s, profile_state p = Some s → s ∈ [StatePaused; StateFullTunnel; StateServiceOnly; StateFullAccess])
    as Hp.
  { intros p s. unfold profile_state. repeat case_match; intros [= <-]; set_solver. }
  unfold resolveState. destruct rp as [rp|].
  - destruct (profile_state (RouteProfileForKey rp _)) as [s|] eqn:E1; [eauto|].
    destruct (profile_state (RouteProfileForMAC rp _)) as [s|] eqn:E2; [eauto|].
    repeat case_match; set_solver.
  - repeat case_match; set_solver.
Qed.

(** A packet between the address [ip] and an address that is neither the
    gateway nor the address of one of the children [pre]. *)
Definition outside (pre : list string) (x : string) : Prop := x ≠ "10.10.0.1" ∧ x ∉ pre.
Definition crosses (pre : list string) (ip : string) (p : packet) : Prop :=
  (src p = ip ∧ outside pre (dst p)) ∨ (dst p = ip ∧ outside pre (src p)).

Section Verdicts.
Context (matches : list string → packet → bool) (host : string → Prop).
Hypothesis Hm : matching matches host.

Lemma chain_verdict_app r1 r2 p :
  chain_verdict matches (r1 ++ r2) p =
  match chain_verdict matches r1 p with Some v => Some v | None => chain_verdict matches r2 p end.
Proof. induction r1 as [|r r1 IH]; cbn; [done|]. by destruct (matches r p). Qed.

Lemma BuildRules_skip ip state p :
  host ip → src p ≠ cleanIP ip → dst p ≠ cleanIP ip →
  chain_verdict matches (map spec_of (Rules (BuildRules ip state))) p = None.
Proof.
  intros Hip Hs Hd. unfold BuildRules. cbn [Rules].
  assert (String.eqb (src p) (cleanIP ip) = false) as Es by (by apply String.eqb_neq).
  assert (String.eqb (dst p) (cleanIP ip) = false) as Ed by (by apply String.eqb_neq).
  pose proof (m_gateway _ _ Hm) as Hgw.
  repeat case_match; cbn [map spec_of Args rule drop chain_verdict];
    rewrite ?(m_from_to _ _ Hm), ?(m_from _ _ Hm), ?(m_to _ _ Hm), ?Es, ?Ed, ?andb_false_r by done; done.
Qed.

Lemma BuildRules_decide ip state p pre :
  host ip → state ∈ [StatePaused; StateFullTunnel; StateServiceOnly; StateFullAccess] →
  crosses pre (cleanIP ip) p →
  chain_verdict matches (map spec_of (Rules (BuildRules ip state))) p = Some (decision state).
Proof.
  intros Hip Hst Hp. pose proof (m_gateway _ _ Hm) as Hgw.
  assert (String.eqb (src p) (cleanIP ip) || String.eqb (dst p) (cleanIP ip) = true) as Hone.
  { destruct Hp as [[-> _]|[-> _]]; rewrite String.eqb_refl; [done|apply orb_true_r]. }
  assert (String.eqb (src p) (cleanIP ip) && String.eqb (dst p) (cleanIP "10.10.0.1") = false ∧
          String.eqb (src p) (cleanIP "10.10.0.1") && String.eqb (dst p) (cleanIP ip) = false) as [Hg1 Hg2].
  { change (cleanIP "10.10.0.1") with "10.10.0.1".
    destruct (String.eqb_spec (src p) (cleanIP ip)), (String.eqb_spec (dst p) "10.10.0.1"),
      (String.eqb_spec (src p) "10.10.0.1"), (String.eqb_spec (dst p) (cleanIP ip)); try done; exfalso;
      destruct Hp as [[Hs [Hd _]]|[Hd [Hs _]]]; congruence. }
  rewrite !elem_of_cons in Hst.
  destruct Hst as [->|[->|[->|[->|[]%elem_of_nil]]]];
    cbn [BuildRules Rules map spec_of Args rule drop chain_verdict String.eqb Ascii.eqb Bool.eqb StatePaused StateFullTunnel StateServiceOnly StateFullAccess];
    repeat first [rewrite (m_from_to _ _ Hm) by done | rewrite (m_from _ _ Hm) by done | rewrite (m_to _ _ Hm) by done];
    rewrite ?Hg1, ?Hg2;
    destruct (String.eqb (src p) (cleanIP ip)), (String.eqb (dst p) (cleanIP ip)); done.
Qed.

(** The per-child chain decides for the child [c] as its state says. *)
Lemma all_rules_verdict rp peer_ip pre c post p :
  resolveIP peer_ip c ≠ "" →
  Forall (λ c, resolveIP peer_ip c = "" ∨ host (resolveIP peer_ip c)) (pre ++ [c]) →
  cleanIP (resolveIP peer_ip c) ∉ map (λ c, cleanIP (resolveIP peer_ip c)) pre →
  crosses (map (λ c, cleanIP (resolveIP peer_ip c)) pre) (cleanIP (resolveIP peer_ip c)) p →
  chain_verdict matches (all_rules rp peer_ip (pre ++ c :: post)) p = Some (decision (resolveState rp c)).
Proof.
  intros Hne Hh Hc Hp. unfold all_rules. rewrite map_app, concat_app, map_app, chain_verdict_app.
  apply Forall_app in Hh as [Hpre Hhc]. inversion Hhc as [|? ? [?|Hip] _]; [done|]; subst.
  assert (chain_verdict matches (map spec_of (concat (map (child_rules rp peer_ip) pre))) p = None) as ->.
  { assert (∀ c', c' ∈ pre → src p ≠ cleanIP (resolveIP peer_ip c') ∧ dst p ≠ cleanIP (resolveIP peer_ip c')) as Hout.
    { intros c' Hin.
      assert (cleanIP (resolveIP peer_ip c') ∈ map (λ c, cleanIP (resolveIP peer_ip c)) pre) as Hin'
        by (apply list_elem_of_fmap; eauto).
      destruct Hp as [[-> [_ Hd]]|[-> [_ Hs]]]; split; intros E; congruence. }
    clear Hc Hp Hhc. induction pre as [|c' pre IH]; [done|].
    inversion Hpre as [|? ? Hc' Hpre']; subst.
    cbn [map concat]. rewrite map_app, chain_verdict_app.
    assert (chain_verdict matches (map spec_of (child_rules rp peer_ip c')) p = None) as ->.
    { unfold child_rules. destruct (String.eqb_spec (resolveIP peer_ip c') ""); [done|].
      destruct Hc' as [?|Hc']; [done|]. destruct (Hout c'); [set_solver|]. by apply BuildRules_skip. }
    apply IH; [done|]. set_solver. }
  cbn [map concat]. rewrite map_app, chain_verdict_app. unfold child_rules at 1.
  destruct (String.eqb_spec (resolveIP peer_ip c) ""); [done|].
  by erewrite BuildRules_decide; [|done|apply resolveState_known|done].
Qed.
End Verdicts.

(** The router's network while the firewall is synchronised: what iptables(8)
    does, the configured upstream interface, valid rules, and children whose
    addresses are single hosts. *)
Record network {W} `{Machine W} (fw : W → chains) (valid : list string → Prop)
    (matches : list string → packet → bool) (host : string → Prop) (iface : string)
    (rp : option RouteProfileReader) (peer_ip : string → option string) (children : list Child) : Prop := {
  net_laws : iptables_laws fw valid;
  net_matching : matching matches host;
  net_steady : steady (W := W) iface;
  net_conntrack : valid conntrack_spec;
  net_exit : valid (exit_spec iface);
  net_jump : valid jump_spec;
  net_rules : Forall valid (all_rules rp peer_ip children);
  net_hosts : Forall (λ c, resolveIP peer_ip c = "" ∨ host (resolveIP peer_ip c)) children;
}.

(** With the jump on top the per-child chain decides first. *)
Lemma installed_verdict matches host iface rules f p v :
  matching matches host → installed iface f → chain_verdict matches rules p = Some v →
  verdict matches {| ss := Some rules; forward := f |} p = Some v.
Proof.
  intros Hm (rest & -> & _) Hv. unfold verdict. cbn [ss forward from_option id forward_verdict]. rewrite (m_jump _ _ Hm).
  cbn [target List.last jump_spec]. change (String.eqb SSChain SSChain) with true. cbv iota. by rewrite Hv.
Qed.

(** A synchronisation keeps or puts the jump at the top of FORWARD. *)
Lemma Sync_verdict {W} `{Machine W} fw valid matches host iface rp peer_ip pre c post w p :
  network fw valid matches host iface rp peer_ip (pre ++ c :: post) →
  ready iface (forward (fw w)) →
  resolveIP peer_ip c ≠ "" →
  (cleanIP (resolveIP peer_ip c) ∉ map (λ c, cleanIP (resolveIP peer_ip c)) pre) →
  crosses (map (λ c, cleanIP (resolveIP peer_ip c)) pre) (cleanIP (resolveIP peer_ip c)) p →
  ∃ w', Sync false rp peer_ip (pre ++ c :: post) w = (w', Ret ()) ∧
    verdict matches (fw w') p = Some (decision (resolveState rp c)).
Proof.
  intros [Hfw Hm Hst Hv1 Hv2 Hv3 Hv Hh] Hj Hne Hc Hp.
  destruct (Sync_chains fw valid Hfw iface rp peer_ip _ w Hst Hv1 Hv2 Hv3 Hv) as (w' & E & Hw').
  exists w'. split; [done|]. rewrite Hw'.
  apply (installed_verdict matches host iface); [done|by apply ensured_installed|].
  apply (all_rules_verdict matches host Hm); [done| |done|done].
  rewrite Forall_app in Hh |- *. destruct Hh as [H1 H2]. inversion H2; subst. auto.
Qed.

(** C3. After a synchronisation, every packet between a child and the outside
    gets the verdict of the child's state: dropped in both directions when it is
    paused or restricted to the router's services, accepted otherwise. That is so
    when FORWARD has no jump to the per-child chain yet, or has the jump on top
    with the base rules of an earlier synchronisation for the same upstream
    interface (otherwise [iface_change_bypasses_pause]), for a child whose address
    no child listed before it shares; the outside is every address but the gateway
    and the children listed before it. *)
Theorem Sync_enforces {W} `{Machine W} fw valid matches host iface rp peer_ip pre c post w p :
  network fw valid matches host iface rp peer_ip (pre ++ c :: post) →
  ready iface (forward (fw w)) →
  resolveIP peer_ip c ≠ "" →
  (cleanIP (resolveIP peer_ip c) ∉ map (λ c, cleanIP (resolveIP peer_ip c)) pre) →
  crosses (map (λ c, cleanIP (resolveIP peer_ip c)) pre) (cleanIP (resolveIP peer_ip c)) p →
  ∃ w', Sync false rp peer_ip (pre ++ c :: post) w = (w', Ret ()) ∧
    verdict matches (fw w') p = Some (decision (resolveState rp c)).
Proof. apply Sync_verdict. Qed.

(** When the jump to the per-child chain is already installed and the
    rule for the current upstream interface is not (the interface changed
    since the last synchronisation), the synchronisation puts that rule above
    the jump: every packet from the tunnel to the interface is accepted, also
    one of a child that is paused. *)
Theorem iface_change_bypasses_pause {W} `{Machine W} fw valid matches host iface rp peer_ip children w p :
  network fw valid matches host iface rp peer_ip children →
  jump_spec ∈ forward (fw w) →
  (exit_spec iface ∉ forward (fw w)) →
  iif p = wgIface → oif p = iface →
  ∃ w', Sync false rp peer_ip children w = (w', Ret ()) ∧ verdict matches (fw w') p = Some "ACCEPT".
Proof.
  intros [Hfw Hm Hst Hv1 Hv2 Hv3 Hv Hh] Hj Hx Hi Ho.
  destruct (Sync_chains fw valid Hfw iface rp peer_ip _ w Hst Hv1 Hv2 Hv3 Hv) as (w' & E & Hw').
  exists w'. split; [done|]. rewrite Hw'. unfold verdict, ensured. cbn [ss forward from_option id].
  rewrite (ensure_spec_in jump_spec) by (by repeat apply elem_of_ensure_spec).
  rewrite (ensure_spec_fresh (exit_spec iface)) by (by apply ensure_spec_other).
  cbn [forward_verdict]. rewrite (m_exit _ _ Hm), Hi, Ho, !String.eqb_refl. done.
Qed.

(** With SS_ROUTER_NAT_IFACE set to "auto" the tunnel detects the upstream
    interface and the firewall takes the word for its name, so the two copies
    of [natIface] that must agree do not. *)
Theorem nat_iface_disagrees {W} `{Machine W} w up :
  getenv w "SS_ROUTER_NAT_IFACE" = "auto" →
  snd (detectDefaultIface w) = Ret up → up ≠ "" →
  snd (WgConf.natIface w) = Ret up ∧ snd (Firewall.natIface w) = Ret "auto".
Proof.
  intros Henv Hd Hup. unfold WgConf.natIface, natIface, mbind, io_bind, gets. rewrite Henv.
  change (trim_space "auto") with "auto". cbn [String.eqb Ascii.eqb Bool.eqb negb andb].
  split; [|done]. destruct (detectDefaultIface w) as [w1 r]. cbn in Hd. subst r.
  by destruct (String.eqb_spec up "").
Qed.

(** [PauseDevice] puts the MAC address where iptables wants an IP address:
    when the tool rejects the two rules, the call still reports success and
    the per-child chain is what it was. *)
Theorem pause_by_mac_changes_nothing {W} `{Machine W} fw valid iface mac w :
  iptables_laws fw valid → steady (W := W) iface →
  valid conntrack_spec → valid (exit_spec iface) → valid jump_spec →
  (∀ w f, f ∈ ["-s"; "-d"] → fw (fst (exec w ["iptables"; "-A"; SSChain; f; mac; "-j"; "DROP"])) = fw w) →
  ∃ w', PauseDevice false mac w = (w', Ret ()) ∧ ss (fw w') = Some (default [] (ss (fw w))).
Proof.
  intros Hfw Hst Hv1 Hv2 Hv3 Hmac.
  destruct (ensure_base_run fw valid Hfw iface w Hst Hv1 Hv2 Hv3) as (w1 & E1 & Hw1).
  assert (∀ w r, fw (fst (exec w ("iptables" :: Args r))) = fw w →
            ∃ w', ignore (runIPTables (Args r)) w = (w', Ret ()) ∧ fw w' = fw w) as Hone.
  { intros w0 r Hr. eexists. rewrite ignore_run by (unfold runIPTables; io_safe). split; [done|].
    rewrite <- Hr. unfold runIPTables, must, mbind, io_bind, command.
    destruct (exec w0 _) as [w2 r2]. by destruct (ok r2). }
  unfold PauseDevice, mbind, io_bind. rewrite E1.
  cbn [BuildRules Rules String.eqb Ascii.eqb Bool.eqb StatePaused run_rules].
  match goal with |- context [ignore (runIPTables (Args ?r1))] =>
    destruct (Hone w1 r1) as (w2 & E2 & Hw2); [apply (Hmac w1 "-s"); set_solver|] end.
  match goal with |- context [mbind (λ _, mret ()) (ignore (runIPTables (Args ?r2)))] =>
    destruct (Hone w2 r2) as (w3 & E3 & Hw3); [apply (Hmac w2 "-d"); set_solver|] end.
  exists w3. unfold mbind, io_bind. rewrite E2, E3. split; [done|]. by rewrite Hw3, Hw2, Hw1.
Qed.

(** ** Boot, then the first synchronisation *)

Section Boot.
Context {W : Type} `{Machine W} (fw : W → chains) (valid : list string → Prop).
Hypothesis Hfw : iptables_laws fw valid.

Lemma ensure_first_run spec e w :
  valid spec → is_Some (ss (fw w)) →
  ∃ w', ensure_first spec e w = (w', Ret ()) ∧
    fw w' = {| ss := ss (fw w); forward := ensure_spec spec (forward (fw w)) |}.
Proof.
  intros Hv Hs. unfold ensure_first, ensure_spec.
  destruct (check_law _ _ Hfw w spec Hv) as (w1 & r & E1 & Hw1 & Hr).
  unfold mbind, io_bind, iptables, command. cbn [app]. rewrite (filter_law _ _ Hfw), E1, Hr.
  case_bool_decide.
  - exists w1. split; [done|]. by rewrite Hw1; destruct (fw w).
  - destruct (insert_law _ _ Hfw w1 spec Hv) as (w2 & r2 & E2 & Hr2 & Hw2); [by rewrite Hw1|].
    exists w2. rewrite Hw1 in Hw2. split; [|done].
    unfold runIPTables, must, mbind, io_bind, command. by rewrite (filter_law _ _ Hfw), E2, Hr2.
Qed.

Lemma other_table_quiet t check add w :
  t ≠ "filter" → preserves (λ w', fw w' = fw w)
    (r ← iptables (["-t"; t; "-C"] ++ check); if ok r then mret () else runIPTables (["-t"; t; "-A"] ++ add)).
Proof.
  intros Ht. apply preserves_bind.
  - intros w1 Hw1. unfold iptables, command.
    pose proof (table_law _ _ Hfw w1 t ("-C" :: check) Ht) as Hl. cbn [app].
    destruct (exec w1 _). cbn in *. by rewrite Hl.
  - intros r. destruct (ok r); [eauto with io|]. intros w1 Hw1. unfold runIPTables, must, mbind, io_bind, command.
    pose proof (table_law _ _ Hfw w1 t ("-A" :: add) Ht) as Hl. cbn [app].
    destruct (exec w1 _) as [w2 r2]. cbn in *. destruct (ok r2); cbn; by rewrite Hl.
Qed.

Lemma boot_chains w :
  forward (fw w) = [] → valid (boot_jump "wg0") → valid (quic_spec "wg0") →
  (∀ w args, ok (snd (exec w ("iptables" :: "-t" :: "nat" :: args))) = true) →
  ∃ w', restoreIptablesOnBoot None "wg0" w = (w', Ret ()) ∧
    fw w' = {| ss := Some []; forward := [quic_spec "wg0"; boot_jump "wg0"] |}.
Proof.
  intros Hemp Hv1 Hv2 Hnat. unfold restoreIptablesOnBoot, applyBaseChain.
  unfold mbind, io_bind, iptables at 1, command at 1. rewrite (filter_law _ _ Hfw).
  pose proof (new_law _ _ Hfw w) as Hw1. unfold SSChain in Hw1.
  destruct (exec w ["iptables"; "-N"; "SAFESWITCH"]) as [w1 r1]. cbn [fst] in Hw1.
  destruct (flush_law _ _ Hfw w1) as (w2 & r2 & E2 & _ & Hw2); [by rewrite Hw1|].
  unfold iptables at 1, command at 1. rewrite (filter_law _ _ Hfw). unfold SSChain in E2. rewrite E2.
  destruct (ensure_first_run (boot_jump "wg0") "insert FORWARD jump" w2) as (w3 & E3 & Hw3);
    [done|by rewrite Hw2|].
  rewrite E3. rewrite ignore_run by (unfold restoreDeviceRules; io_safe). cbn [restoreDeviceRules fail fst].
  assert (∀ w, snd (applyDNSLock "wg0" w) = Ret ()) as Hlock.
  { intros w0. unfold applyDNSLock, mbind, io_bind, iptables, command. cbn [app].
    pose proof (Hnat w0) as Hok. specialize (Hok ("-C" :: ["PREROUTING"; "-i"; "wg0"; "-p"; "udp"; "--dport"; "53"; "-j"; "DNAT"; "--to-destination"; "10.10.0.1:53"])).
    destruct (exec w0 _) as [w4 r4]. cbn in Hok. by rewrite Hok. }
  pose proof (other_table_quiet "nat" ["PREROUTING"; "-i"; "wg0"; "-p"; "udp"; "--dport"; "53"; "-j"; "DNAT"; "--to-destination"; "10.10.0.1:53"]
    ["PREROUTING"; "-i"; "wg0"; "-p"; "udp"; "--dport"; "53"; "-j"; "DNAT"; "--to-destination"; "10.10.0.1:53"] w3 ltac:(done) w3 eq_refl) as Hw4.
  specialize (Hlock w3).
  change (fw (fst (applyDNSLock "wg0" w3)) = fw w3) in Hw4.
  destruct (applyDNSLock "wg0" w3) as [w4 r4]. cbn in Hlock, Hw4. subst r4.
  destruct (ensure_first_run (quic_spec "wg0") "block QUIC" w4) as (w5 & E5 & Hw5);
    [done|by rewrite Hw4, Hw3, Hw2|].
  rewrite ignore_run by (unfold blockQUIC, ensure_first; io_safe).
  unfold blockQUIC. rewrite E5. cbn [fst].
  rewrite ignore_run by (unfold applyMSSClamping; io_safe).
  eexists. split; [reflexivity|].
  unfold applyMSSClamping. cbv zeta.
  rewrite (other_table_quiet "mangle" _ _ w5 ltac:(done) w5 eq_refl).
  by rewrite Hw5, Hw4, Hw3, Hw2, Hw1, Hemp.
Qed.
End Boot.

(** The boot rules drop QUIC from the tunnel, which forces clients to TLS
    where the server name is inspected; the first synchronisation installs its
    rules above that one, and a QUIC packet of a child with full access is
    accepted from then on. *)
Theorem quic_block_shadowed {W} `{Machine W} fw valid matches host iface rp peer_ip pre c post w p :
  network fw valid matches host iface rp peer_ip (pre ++ c :: post) →
  valid (boot_jump "wg0") → valid (quic_spec "wg0") →
  (∀ w args, ok (snd (exec w ("iptables" :: "-t" :: "nat" :: args))) = true) →
  forward (fw w) = [] →
  matches (quic_spec "wg0") p = true →
  resolveIP peer_ip c ≠ "" →
  (cleanIP (resolveIP peer_ip c) ∉ map (λ c, cleanIP (resolveIP peer_ip c)) pre) →
  crosses (map (λ c, cleanIP (resolveIP peer_ip c)) pre) (cleanIP (resolveIP peer_ip c)) p →
  resolveState rp c = StateFullAccess →
  ∃ w1 w2, restoreIptablesOnBoot None "wg0" w = (w1, Ret ()) ∧ verdict matches (fw w1) p = Some "DROP" ∧
    Sync false rp peer_ip (pre ++ c :: post) w1 = (w2, Ret ()) ∧ verdict matches (fw w2) p = Some "ACCEPT".
Proof.
  intros Hnet Hv1 Hv2 Hnat Hemp Hq Hne Hc Hp Hst.
  destruct (boot_chains fw valid (net_laws _ _ _ _ _ _ _ _ Hnet) w Hemp Hv1 Hv2 Hnat) as (w1 & E1 & Hw1).
  destruct (Sync_verdict fw valid matches host iface rp peer_ip pre c post w1 p Hnet) as (w2 & E2 & Hv); [|done..|].
  { rewrite Hw1. left. cbn [forward]. by_decide. }
  exists w1, w2. split; [done|]. split; [|split; [done|by rewrite Hv, Hst]].
  rewrite Hw1. unfold verdict. cbn [forward ss from_option id forward_verdict]. by rewrite Hq.
Qed.

(** ** A concrete network *)

(** The machine is the two chains; rules with a colon (a MAC address) are
    rejected. *)
Definition toy_valid (spec : list string) : Prop := existsb (contains_byte ":") spec = false.
#[export] Instance toy_valid_dec spec : Decision (toy_valid spec).
Proof. unfold toy_valid. apply _. Defined.

Definition answer (b : bool) : result := {| ok := b; stdout := ""; combined := "" |}.

Fixpoint toy_iptables (c : chains) (args : list string) : chains * result :=
  match args with
  | [] => (c, answer true)
  | verb :: rest =>
      if String.eqb verb "-t" then
        match rest with
        | t :: rest => if String.eqb t "filter" then toy_iptables c rest else (c, answer true)
        | [] => (c, answer false)
        end
      else if String.eqb verb "-N" then
        ({| ss := Some (default [] (ss c)); forward := forward c |}, answer (bool_decide (ss c = None)))
      else if String.eqb verb "-C" then (c, answer (bool_decide (tail rest ∈ forward c)))
      else if String.eqb verb "-I" then
        ({| ss := ss c; forward := tail (tail rest) :: forward c |}, answer true)
      else if String.eqb verb "-F" then
        match ss c with
        | Some _ => ({| ss := Some []; forward := forward c |}, answer true)
        | None => (c, answer false)
        end
      else if String.eqb verb "-A" then
        match ss c with
        | Some l => if decide (toy_valid (tail rest))
                    then ({| ss := Some (l ++ [tail rest]); forward := forward c |}, answer true)
                    else (c, answer false)
        | None => (c, answer false)
        end
      else (c, answer false)
  end.

Definition toy_firewall (env : string) : Machine chains := {|
  exec c argv := match argv with
                 | prog :: args => if String.eqb prog "iptables" then toy_iptables c args
                                   else if String.eqb prog "ip"
                                   then (c, {| ok := true; stdout := "default via 192.0.2.1 dev eth1"; combined := "" |})
                                   else (c, answer true)
                 | [] => (c, answer false)
                 end;
  exec_in c _ _ := (c, answer true);
  read_file _ _ := None;
  mkdir_all c _ := (c, true);
  write_file c _ _ := (c, true);
  chmod c _ _ := (c, true);
  rename c _ _ := (c, true);
  remove_file c _ := c;
  create_temp c _ := (c, None);
  getenv _ _ := env;
|}.

Fixpoint toy_matches (spec : list string) (p : packet) : bool :=
  match spec with
  | flag :: arg :: rest =>
      (if String.eqb flag "-s" then String.eqb (src p) (cleanIP arg)
       else if String.eqb flag "-d" then String.eqb (dst p) (cleanIP arg)
       else if String.eqb flag "-i" then String.eqb (iif p) arg
       else if String.eqb flag "-o" then String.eqb (oif p) arg
       else negb (String.eqb flag "-m")) && toy_matches rest p
  | _ => true
  end.

Lemma toy_laws env : @iptables_laws chains (toy_firewall env) (λ c, c) toy_valid.
Proof.
  split.
  - intros w [|prog args] Hne; [done|]. cbn in *.
    destruct (String.eqb_spec prog "iptables") as [->|]; [done|]. by destruct (String.eqb prog "ip").
  - done.
  - intros w spec _. by eexists _, _.
  - intros w spec _ _. by eexists _, _.
  - intros [[l|] f] [x Hx]; [|done]. by eexists _, _.
  - intros w spec l Hv Hl. cbn. rewrite Hl. by rewrite (decide_True _ _ Hv).
  - intros w args. reflexivity.
  - intros w t args Ht. cbn. by destruct (String.eqb_spec t "filter").
Qed.

Lemma toy_matching : matching toy_matches (λ _, True).
Proof. split; intros; cbn; rewrite ?andb_true_r; done. Qed.

Definition firewall_child (id ip : string) (paused : bool) : Child :=
  {| ChildID := id; DeviceMAC := ""; WireguardPublicKey := ""; WireguardIP := ip;
     DisplayName := id; Paused := paused; RouteMode := "split_tunnel" |}.
Definition anna : Child := firewall_child "anna" "10.10.0.2" false.
Definition ben : Child := firewall_child "ben" "10.10.0.3/32" true.

Lemma toy_network : @network chains (toy_firewall "eth0") (λ c, c) toy_valid toy_matches (λ _, True)
  "eth0" None (λ _, None) [anna; ben].
Proof.
  split; [apply toy_laws|apply toy_matching|by split|reflexivity..| |].
  - repeat constructor.
  - repeat constructor; by right.
Qed.

Definition fresh : chains := {| ss := None; forward := [] |}.
Definition web (a b : string) : packet := {| src := a; dst := b; iif := "wg0"; oif := "eth0" |}.

Lemma Sync_enforces_witness :
  let _ := toy_firewall "eth0" in
  ∃ w', Sync false None (λ _, None) [anna; ben] fresh = (w', Ret ()) ∧
    verdict toy_matches w' (web "10.10.0.3" "203.0.113.9") = Some "DROP".
Proof.
  intros M.
  apply (Sync_enforces (λ c, c) toy_valid toy_matches (λ _, True) "eth0" None (λ _, None) [anna] ben [] fresh).
  - apply toy_network.
  - left. set_solver.
  - done.
  - by_decide.
  - left. split; [done|]. by_decide.
Defined.

(** The chains while [eth1] was the upstream interface. *)
Definition synced : chains := {| ss := Some []; forward := [jump_spec; exit_spec "eth1"; conntrack_spec] |}.

Lemma iface_change_bypasses_pause_witness :
  let _ := toy_firewall "eth0" in
  resolveState None ben = StatePaused ∧
  ∃ w', Sync false None (λ _, None) [anna; ben] synced = (w', Ret ()) ∧
    verdict toy_matches w' (web "10.10.0.3" "203.0.113.9") = Some "ACCEPT".
Proof.
  intros M. split; [reflexivity|].
  apply (iface_change_bypasses_pause (λ c, c) toy_valid toy_matches (λ _, True) "eth0" None (λ _, None) [anna; ben] synced).
  - apply toy_network.
  - left.
  - by_decide.
  - done.
  - done.
Defined.

Lemma nat_iface_disagrees_witness :
  let _ := toy_firewall "auto" in
  snd (WgConf.natIface fresh) = Ret "eth1" ∧ snd (Firewall.natIface fresh) = Ret "auto".
Proof. intros M. apply nat_iface_disagrees; [reflexivity|vm_compute; reflexivity|done]. Defined.

Lemma pause_by_mac_changes_nothing_witness :
  let _ := toy_firewall "eth0" in
  ∃ w', PauseDevice false "aa:bb:cc:dd:ee:ff" synced = (w', Ret ()) ∧ ss w' = Some [].
Proof.
  intros M.
  apply (pause_by_mac_changes_nothing (λ c, c) toy_valid "eth0" "aa:bb:cc:dd:ee:ff" synced).
  - apply toy_laws.
  - by split.
  - reflexivity.
  - reflexivity.
  - reflexivity.
  - intros w f [->|[->|[]%elem_of_nil]%elem_of_cons]%elem_of_cons; cbn; by destruct (ss w).
Defined.

Lemma quic_block_shadowed_witness :
  let _ := toy_firewall "eth0" in
  ∃ w1 w2, restoreIptablesOnBoot None "wg0" fresh = (w1, Ret ()) ∧
    verdict toy_matches w1 (web "10.10.0.2" "203.0.113.9") = Some "DROP" ∧
    Sync false None (λ _, None) [anna; ben] w1 = (w2, Ret ()) ∧
    verdict toy_matches w2 (web "10.10.0.2" "203.0.113.9") = Some "ACCEPT".
Proof.
  intros M.
  apply (quic_block_shadowed (λ c, c) toy_valid toy_matches (λ _, True) "eth0" None (λ _, None) [] anna [ben] fresh).
  - apply toy_network.
  - reflexivity.
  - reflexivity.
  - reflexivity.
  - reflexivity.
  - reflexivity.
  - done.
  - set_solver.
  - left. split; [done|]. by_decide.
  - reflexivity.
Defined.
