(* ===== verification/Commands.v ===== *)
(** Cloud commands (internal/commands/executor.go and handlers.go, with
    internal/controlsync/commandpoll.go and the command route of
    internal/api/service.go): the ledger, the life cycle of a command, the
    handlers, and the polling loop that fetches, executes and reports.

    The ledger is part of the state, with a schedule of the database faults to
    come; the services the handlers call are a record of operations. *)
From S2P Require Import Prelude Net Os Policy GoString.

Local Open Scope string_scope.
Local Open Scope list_scope.

(** ** Data *)

(** What [encoding/json] decodes into an [any]. *)
#[warnings="-register-all"]
Inductive any :=
| Null
| Bool (b : bool)
| Num (n : Z)
| Str (s : string)
| Arr (l : list any)
| Obj (fields : list (string * any)).

Abbreviation payload := (list (string * any)) (only parsing).

(** [payload[key]]: an object without duplicate keys, as an association list. *)
Fixpoint field (p : payload) (key : string) : option any :=
  match p with
  | [] => None
  | (k, v) :: p => if String.eqb k key then Some v else field p key
  end.

Inductive Status := StatusPending | StatusAcked | StatusExecuting | StatusDone | StatusFailed | StatusExpired.
#[export] Instance Status_eq_dec : EqDecision Status.
Proof. solve_decision. Defined.

Record Command := {
  ID : string;
  Type_ : string;
  Payload : payload;
}.

(** A row of [command_ledger]. *)
Record entry := {
  command_type : string;
  status : Status;
  payload_json : payload;
  result_json : payload;
  error_text : string;
}.

Definition set_entry (s : Status) (result : payload) (errText : string) (e : entry) : entry :=
  {| command_type := command_type e; status := s; payload_json := payload_json e;
     result_json := result; error_text := errText |}.

Definition terminal (s : Status) : bool :=
  match s with StatusDone | StatusFailed | StatusExpired => true | _ => false end.

(** ** Payload helpers *)

Definition requireString (p : payload) (key : string) : go string :=
  match field p key with
  | None => Err ("missing required field " +:+ key)
  | Some (Str s) => if String.eqb s "" then Err ("field " +:+ key +:+ " cannot be empty") else Ret s
  | Some _ => Err ("field " +:+ key +:+ " must be a string")
  end.

Definition stringVal (p : payload) (key : string) : string :=
  match field p key with Some (Str s) => s | _ => "" end.
Definition boolVal (p : payload) (key : string) : bool :=
  match field p key with Some (Bool b) => b | _ => false end.
Definition stringSliceVal (p : payload) (key : string) : list string :=
  match field p key with
  | Some (Arr l) => omap (λ v, match v with Str s => if String.eqb s "" then None else Some s | _ => None end) l
  | _ => []
  end.

(** [pubKey[:8]] *)
Definition first8 (s : string) : go string :=
  if bool_decide (8 ≤ String.length s)%nat then Ret (stake 8 s) else Panic.

(** ** Handlers *)

(** The services of the node; an optional one may not be running. *)
Record Services (W : Type) := {
  SwapBundle : Bundle → io W ();
  Reload : option (io W ());
  Tunnel : option ((string → string → string → io W string) * (string → io W ()));
  Firewall : option ((string → io W ()) * (string → io W ()) * io W ());
  SetRouteProfile : option (string → string → string → io W ());
  now : W → string;
  (** [time.Parse] with the layout RFC3339Nano, then RFC3339 *)
  parseTime : string → option time;
}.
Arguments SwapBundle {_} _ _.
Arguments Reload {_} _.
Arguments Tunnel {_} _.
Arguments Firewall {_} _.
Arguments SetRouteProfile {_} _.
Arguments now {_} _ _.
Arguments parseTime {_} _ _.

Section Handlers.
Context {W : Type} (sv : Services W).

Definition Handler : Type := payload → io W payload.

Definition pure {A} (r : go A) : io W A := λ w, (w, r).

(** [fmt.Errorf("...: %w", err)] *)
Definition wrap {A} (m : io W A) (e : string) : io W A :=
  r ← attempt m; match r with inl a => mret a | inr err => fail (e +:+ ": " +:+ err) end.

Definition ping : Handler := λ _,
  t ← gets (now sv); mret [("pong", Bool true); ("timestamp", Str t)].

Definition device_result (mac : string) (paused enforced : bool) : payload :=
  [("mac", Str mac); ("paused", Bool paused); ("enforced", Bool enforced)].

Definition pause_device : Handler := λ p,
  mac ← pure (requireString p "device_mac");
  match Firewall sv with
  | None => mret (device_result mac true false)
  | Some (pause, _, _) => _ ← wrap (pause mac) "pause_device"; mret (device_result mac true true)
  end.

Definition unpause_device : Handler := λ p,
  mac ← pure (requireString p "device_mac");
  match Firewall sv with
  | None => mret (device_result mac false false)
  | Some (_, unpause, _) => _ ← wrap (unpause mac) "unpause_device"; mret (device_result mac false true)
  end.

Definition child_value (v : any) : option ChildEffectiveState :=
  match v with
  | Obj m => Some (Child (stringVal m "child_id") (stringVal m "device_mac")
      (stringVal m "wireguard_public_key") (stringVal m "wireguard_ip") (stringVal m "mode")
      (boolVal m "lock_enabled") (stringVal m "dns_profile_id") [] (stringSliceVal m "blocked_categories"))
  | _ => None
  end.

Definition parse_stamp (s what : string) : go time :=
  match parseTime sv s with Some t => Ret t | None => Err ("invalid " +:+ what) end.

Definition update_policy : Handler := λ p,
  version ← pure (requireString p "version");
  issuedAtStr ← pure (requireString p "issued_at");
  issuedAt ← pure (parse_stamp issuedAtStr "issued_at");
  expiresAtStr ← pure (requireString p "expires_at");
  expiresAt ← pure (parse_stamp expiresAtStr "expires_at");
  let children := match field p "children" with Some (Arr l) => omap child_value l | _ => [] end in
  _ ← wrap (SwapBundle sv (MkBundle version issuedAt expiresAt (stringVal p "signature") [] children)) "swap bundle";
  mret [("version", Str version); ("children", Num (Z.of_nat (length children)))].

Definition valid_profile (s : string) : bool :=
  String.eqb s "full_tunnel" || String.eqb s "split_tunnel" || String.eqb s "service_only".

Definition set_route_profile : Handler := λ p,
  profile ← pure (requireString p "profile");
  if negb (valid_profile profile) then fail "unknown profile" else
  mac ← pure (requireString p "device_mac");
  let source := if String.eqb (stringVal p "source") "" then "guardian" else stringVal p "source" in
  enforced ← match SetRouteProfile sv with
             | None => mret false
             | Some store =>
                 r ← attempt (store mac profile source);
                 match r, Firewall sv with
                 | inl _, Some (_, _, sync) =>
                     r ← attempt sync; mret (match r with inl _ => true | inr _ => false end)
                 | _, _ => mret false
                 end
             end;
  mret [("mac", Str mac); ("profile", Str profile); ("source", Str source);
        ("enforced", Bool enforced); ("client_synced", Bool false)].

Definition reload_dns_profile : Handler := λ _,
  match Reload sv with
  | None => mret [("reloaded", Bool false); ("reason", Str "dns_server_not_running")]
  | Some reload => _ ← wrap reload "dns reload"; mret [("reloaded", Bool true)]
  end.

Definition add_peer : Handler := λ p,
  match Tunnel sv with
  | None => mret [("added", Bool false); ("reason", Str "tunnel_manager_not_running")]
  | Some (add, _) =>
      pubKey ← pure (requireString p "public_key");
      allowedIP ← wrap (add pubKey (stringVal p "device_mac") (stringVal p "comment")) "add_peer";
      _ ← pure (first8 pubKey);
      mret [("public_key", Str pubKey); ("allowed_ip", Str allowedIP); ("added", Bool true)]
  end.

Definition remove_peer : Handler := λ p,
  match Tunnel sv with
  | None => mret [("removed", Bool false); ("reason", Str "tunnel_manager_not_running")]
  | Some (_, remove) =>
      pubKey ← pure (requireString p "public_key");
      _ ← wrap (remove pubKey) "remove_peer";
      _ ← pure (first8 pubKey);
      mret [("public_key", Str pubKey); ("removed", Bool true)]
  end.

(** The process exits half a second later. *)
Definition restart : Handler := λ _, mret [("restarting", Bool true)].

(** [RegisterHandlers] *)
Definition handlers : list (string * Handler) :=
  [("ping", ping); ("pause_device", pause_device); ("unpause_device", unpause_device);
   ("update_policy", update_policy); ("set_route_profile", set_route_profile);
   ("reload_dns_profile", reload_dns_profile); ("add_peer", add_peer);
   ("remove_peer", remove_peer); ("restart", restart)].
End Handlers.

(** ** The executor *)

(** [order] are the ids of the ledger in the order of insertion, [runs] counts
    the handler calls made for a command, [reported] are the results sent to
    the cloud. *)
Record node (W : Type) := {
  world : W;
  ledger : gmap string entry;
  order : list string;
  faults : list bool;
  runs : gmap string nat;
  reported : list (string * bool * payload * string);
}.
Arguments world {_} _.
Arguments ledger {_} _.
Arguments order {_} _.
Arguments faults {_} _.
Arguments runs {_} _.
Arguments reported {_} _.

Definition set_world {W} (w : W) (n : node W) : node W :=
  {| world := w; ledger := ledger n; order := order n; faults := faults n; runs := runs n; reported := reported n |}.
Definition set_faults {W} (f : list bool) (n : node W) : node W :=
  {| world := world n; ledger := ledger n; order := order n; faults := f; runs := runs n; reported := reported n |}.
Definition set_ledger {W} (l : gmap string entry) (o : list string) (n : node W) : node W :=
  {| world := world n; ledger := l; order := o; faults := faults n; runs := runs n; reported := reported n |}.
Definition count_run {W} (id : string) (n : node W) : node W :=
  {| world := world n; ledger := ledger n; order := order n; faults := faults n;
     runs := <[id := S (default 0%nat (runs n !! id))]> (runs n); reported := reported n |}.
Definition report {W} (r : string * bool * payload * string) (n : node W) : node W :=
  {| world := world n; ledger := ledger n; order := order n; faults := faults n; runs := runs n;
     reported := reported n ++ [r] |}.

Section Executor.
Context {W : Type} (hs : list (string * (payload → io W payload))).

Definition handler_of (t : string) : option (payload → io W payload) :=
  snd <$> List.find (λ kh, String.eqb (fst kh) t) hs.

Definition update (f : node W → node W) : io (node W) () := λ n, (f n, Ret ()).

Definition db_fails : io (node W) bool := λ n,
  match faults n with
  | [] => (n, Ret false)
  | f :: fs => (set_faults fs n, Ret f)
  end.

Definition on_world {A} (m : io W A) : io (node W) A := λ n,
  let '(w, r) := m (world n) in (set_world w n, r).

Definition setStatus (id : string) (s : Status) (result : payload) (errText : string) : io (node W) () :=
  bad ← db_fails;
  if bad : bool then fail "update command status"
  else update (λ n, set_ledger (alter (set_entry s result errText) id (ledger n)) (order n) n).

Definition isTerminal (id : string) : io (node W) bool :=
  bad ← db_fails;
  e ← gets (λ n, ledger n !! id);
  mret (if bad : bool then false else match e with Some e => terminal (status e) | None => false end).

(** [INSERT ... ON CONFLICT(id) DO NOTHING] *)
Definition Enqueue (cmd : Command) : io (node W) () :=
  bad ← db_fails;
  if bad : bool then fail "enqueue command"
  else update (λ n,
    match ledger n !! ID cmd with
    | Some _ => n
    | None => set_ledger (<[ID cmd := {| command_type := Type_ cmd; status := StatusPending;
                  payload_json := Payload cmd; result_json := []; error_text := "" |}]> (ledger n))
                (order n ++ [ID cmd]) n
    end).

Definition pending (n : node W) : list Command :=
  omap (λ id, match ledger n !! id with
              | Some e => if decide (status e = StatusPending)
                          then Some {| ID := id; Type_ := command_type e; Payload := payload_json e |}
                          else None
              | None => None
              end) (order n).

Definition PendingCommands : io (node W) (list Command) :=
  bad ← db_fails;
  if bad : bool then fail "query pending commands" else gets pending.

(** [Execute], cut at its database writes: the idempotency check and the
    acknowledgement; the mark "executing"; the handler; the outcome. *)
Definition acknowledge (cmd : Command) : io (node W) bool :=
  t ← isTerminal (ID cmd);
  if t : bool then mret false else
  r ← attempt (setStatus (ID cmd) StatusAcked [] "");
  mret (match r with inl _ => true | inr _ => false end).

Definition mark_executing (cmd : Command) : io (node W) bool :=
  r ← attempt (setStatus (ID cmd) StatusExecuting [] "");
  mret (match r with inl _ => true | inr _ => false end).

Definition run_handler (cmd : Command) : io (node W) (payload + string) :=
  match handler_of (Type_ cmd) with
  | None => mret (inr ("no handler registered for command type " +:+ Type_ cmd))
  | Some h => _ ← update (count_run (ID cmd)); attempt (on_world (h (Payload cmd)))
  end.

Definition finish (cmd : Command) (r : payload + string) : io (node W) () :=
  match r with
  | inl result => ignore (setStatus (ID cmd) StatusDone result "")
  | inr err => ignore (setStatus (ID cmd) StatusFailed [] err)
  end.

Definition Execute (cmd : Command) : io (node W) () :=
  continue ← acknowledge cmd;
  if negb continue then mret () else
  continue ← mark_executing cmd;
  if negb continue then mret () else
  r ← run_handler cmd;
  finish cmd r.

(** ** Polling *)

(** What is sent to the cloud after [Execute]: the row read back. *)
Definition reportResult (id : string) : io (node W) () :=
  bad ← db_fails;
  e ← gets (λ n, ledger n !! id);
  update (match e with
          | Some e => if bad : bool then report (id, false, [], "")
                      else report (id, bool_decide (status e = StatusDone), result_json e, error_text e)
          | None => report (id, false, [], "")
          end).

Definition fetch_one (c : Command) : io (node W) () :=
  bad ← db_fails;
  exists_ ← gets (λ n, bool_decide (is_Some (ledger n !! ID c)));
  if negb bad && exists_ then mret () else ignore (Enqueue c).

Fixpoint fetchAndEnqueue (cmds : list Command) : io (node W) () :=
  match cmds with
  | [] => mret ()
  | c :: cmds => _ ← fetch_one c; fetchAndEnqueue cmds
  end.

(** One schedule of a drain: one command after the other. *)
Fixpoint drain (cmds : list Command) : io (node W) () :=
  match cmds with
  | [] => mret ()
  | c :: cmds => _ ← Execute c; _ ← reportResult (ID c); drain cmds
  end.

Definition drainPending : io (node W) () :=
  r ← attempt PendingCommands;
  match r with inl cmds => drain cmds | inr _ => mret () end.
End Executor.

(** The command types the local API accepts. *)
Definition isValidCommandType (t : string) : bool :=
  existsb (String.eqb t) ["LOCK"; "UNLOCK"; "REFRESH_POLICY"; "PAUSE"; "RESUME"].

(** ** Concurrent executions and crashes *)

(** How far the execution of a command has come. *)
Inductive stage :=
| AtStart
| AtAcked
| AtExecuting
| AtRan (r : payload + string).

(** The node and its executions, one per command id. *)
Record sys (W : Type) := Sys {
  nd : node W;
  threads : gmap string (Command * stage);
}.
Arguments Sys {_} _ _.
Arguments nd {_} _.
Arguments threads {_} _.

Definition start_all (cmds : list Command) : gmap string (Command * stage) :=
  list_to_map (map (λ c, (ID c, (c, AtStart))) cmds).

Definition continue_at (b : bool) (id : string) (cs : Command * stage) (m : gmap string (Command * stage))
    : gmap string (Command * stage) :=
  if b then <[id := cs]> m else delete id m.

Section System.
Context {W : Type} (hs : list (string * (payload → io W payload))).

(** Executions of different commands interleave at their database writes; a
    new batch is drained only when the previous one has finished; a panic
    in a handler or a crash ends all of them; the database faults to come
    and the world may change at any time. *)
Inductive sys_step : sys W → sys W → Prop :=
| s_enqueue c n t : sys_step (Sys n t) (Sys (fst (Enqueue c n)) t)
| s_drain n n' cmds : PendingCommands n = (n', Ret cmds) →
    sys_step (Sys n ∅) (Sys n' (start_all cmds))
| s_ack id c n n' b t : t !! id = Some (c, AtStart) → acknowledge c n = (n', Ret b) →
    sys_step (Sys n t) (Sys n' (continue_at b id (c, AtAcked) t))
| s_mark id c n n' b t : t !! id = Some (c, AtAcked) → mark_executing c n = (n', Ret b) →
    sys_step (Sys n t) (Sys n' (continue_at b id (c, AtExecuting) t))
| s_run id c n n' r t : t !! id = Some (c, AtExecuting) → run_handler hs c n = (n', Ret r) →
    sys_step (Sys n t) (Sys n' (<[id := (c, AtRan r)]> t))
| s_panic id c n n' t : t !! id = Some (c, AtExecuting) → run_handler hs c n = (n', Panic) →
    sys_step (Sys n t) (Sys n' ∅)
| s_finish id c n r t : t !! id = Some (c, AtRan r) →
    sys_step (Sys n t) (Sys (fst ((_ ← finish c r; reportResult (ID c)) n)) (delete id t))
| s_crash n t : sys_step (Sys n t) (Sys n ∅)
| s_world w f n t : sys_step (Sys n t) (Sys (set_world w (set_faults f n)) t).

Definition same_runs (n n' : node W) : Prop := runs n' = runs n ∧ order n' = order n.

Lemma db_same n n' b : db_fails n = (n', Ret b) → ledger n' = ledger n ∧ same_runs n n'.
Proof. unfold db_fails. destruct (faults n); by intros [= <- <-]. Qed.

Lemma setStatus_spec id s res err n :
  ∃ n' r, setStatus id s res err n = (n', r) ∧ same_runs n n' ∧
    ((r = Ret () ∧ ledger n' = alter (set_entry s res err) id (ledger n)) ∨
     (r = Err "update command status" ∧ ledger n' = ledger n)).
Proof.
  unfold setStatus, mbind, io_bind. destruct (db_fails n) as [n1 [b|e| |]] eqn:E;
    try (unfold db_fails in E; by destruct (faults n)).
  apply db_same in E as [El Er]. destruct b; eexists _, _; split; [reflexivity| |reflexivity|].
  - split; [done|]. right. by rewrite El.
  - split; [exact Er|]. left. cbn. by rewrite El.
Qed.

Lemma acknowledge_spec c n n' b :
  acknowledge c n = (n', Ret b) → same_runs n n' ∧
  ledger n' = if b then alter (set_entry StatusAcked [] "") (ID c) (ledger n) else ledger n.
Proof.
  unfold acknowledge, isTerminal. unfold mbind, io_bind.
  destruct (db_fails n) as [n1 [bad|e| |]] eqn:E; try done.
  apply db_same in E as [El [Er Eo]]. cbn [gets mret io_ret].
  set (t := if bad then _ else _). clearbody t. destruct t.
  - intros [= <- <-]. by split.
  - unfold attempt. destruct (setStatus_spec (ID c) StatusAcked [] "" n1)
      as (n2 & r & -> & [Er2 Eo2] & [[-> Hl]|[-> Hl]]); intros [= <- <-]; rewrite Hl, El;
      (split; [|done]); split; congruence.
Qed.

Lemma mark_executing_spec c n n' b :
  mark_executing c n = (n', Ret b) → same_runs n n' ∧
  ledger n' = if b then alter (set_entry StatusExecuting [] "") (ID c) (ledger n) else ledger n.
Proof.
  unfold mark_executing, attempt, mbind, io_bind.
  destruct (setStatus_spec (ID c) StatusExecuting [] "" n)
    as (n2 & r & -> & Hs & [[-> Hl]|[-> Hl]]); intros [= <- <-]; by rewrite Hl.
Qed.

(** The handler is called at most once, and it does not see the ledger. *)
Lemma run_handler_spec c n n' r :
  run_handler hs c n = (n', r) → ledger n' = ledger n ∧ order n' = order n ∧
  (∀ id, id ≠ ID c → runs n' !! id = runs n !! id) ∧
  (default 0 (runs n' !! ID c) ≤ S (default 0 (runs n !! ID c)))%nat.
Proof.
  unfold run_handler. destruct (handler_of hs (Type_ c)) as [h|].
  - unfold mbind, io_bind, update, attempt, on_world.
    destruct (h (Payload c) _) as [w r']. intros E.
    assert (n' = set_world w (count_run (ID c) n)) as -> by (destruct r'; congruence).
    cbn. repeat split; [intros id Hid; by rewrite lookup_insert_ne by done|].
    by rewrite lookup_insert_eq.
  - intros [= <- _]. repeat split; lia.
Qed.

Lemma reportResult_same id n : ledger (fst (reportResult id n)) = ledger n ∧ same_runs n (fst (reportResult id n)).
Proof.
  unfold reportResult, mbind, io_bind. destruct (db_fails n) as [n1 [bad|e| |]] eqn:E;
    try (unfold db_fails in E; by destruct (faults n)).
  apply db_same in E as [El [Er Eo]]. cbn. rewrite El.
  destruct (ledger n !! id), bad; by repeat split.
Qed.

Lemma finish_spec c r n :
  let n' := fst ((_ ← finish c r; reportResult (ID c)) n) in
  same_runs n n' ∧ (ledger n' = ledger n ∨
    ∃ s res err, terminal s = true ∧ ledger n' = alter (set_entry s res err) (ID c) (ledger n)).
Proof.
  intros n'. unfold n', mbind, io_bind.
  assert (∃ s res err, terminal s = true ∧ finish c r = ignore (setStatus (ID c) s res err)) as (s & res & err & Hs & ->).
  { destruct r; [exists StatusDone|exists StatusFailed]; eauto. }
  destruct (setStatus_spec (ID c) s res err n) as (n1 & r1 & E & [Er Eo] & Hl).
  assert (ignore (setStatus (ID c) s res err) n = (n1, Ret ())) as ->.
  { unfold ignore, attempt, mbind, io_bind. rewrite E. by destruct Hl as [[-> _]|[-> _]]. }
  destruct (reportResult_same (ID c) n1) as [El2 [Er2 Eo2]].
  split; [split; congruence|]. rewrite El2. destruct Hl as [[_ ->]|[_ ->]]; eauto 10.
Qed.

Lemma Enqueue_spec c (n : node W) :
  let n' := fst (Enqueue c n) in runs n' = runs n ∧
  (ledger n' = ledger n ∨ ledger n !! ID c = None ∧ ∃ e, status e = StatusPending ∧ ledger n' = <[ID c := e]> (ledger n)).
Proof.
  intros n'. unfold n', Enqueue, mbind, io_bind. destruct (db_fails n) as [n1 [bad|e| |]] eqn:E;
    try (unfold db_fails in E; by destruct (faults n)).
  apply db_same in E as [El [Er Eo]]. destruct bad; [split; [exact Er|left; exact El]|].
  cbn. destruct (ledger n1 !! ID c) as [e|] eqn:Ee; [split; [exact Er|left; exact El]|].
  split; [exact Er|]. right. rewrite <- El. split; [exact Ee|]. eexists. split; [|reflexivity]. done.
Qed.

Lemma PendingCommands_spec (n n' : node W) cmds :
  PendingCommands n = (n', Ret cmds) → ledger n' = ledger n ∧ same_runs n n' ∧
  ∀ c, c ∈ cmds → status <$> ledger n !! ID c = Some StatusPending.
Proof.
  unfold PendingCommands, mbind, io_bind. destruct (db_fails n) as [n1 [bad|e| |]] eqn:E; try done.
  apply db_same in E as [El Er]. destruct bad; [done|]. intros [= <- <-].
  split; [done|]. split; [done|]. intros c (id & Hid & Hc)%list_elem_of_omap. rewrite <- El.
  destruct (ledger n1 !! id) as [e|] eqn:Ee; [|done]. destruct (decide _) as [Hs|]; [|done].
  simplify_eq. cbn. by rewrite Ee, <- Hs.
Qed.

(** ** Invariants *)

Definition status_of (n : node W) (id : string) : option Status := status <$> ledger n !! id.
Definition count (n : node W) (id : string) : nat := default 0%nat (runs n !! id).

(** The number of handler calls of a command, by how far it has come. *)
Definition inv_id (s : sys W) (id : string) : Prop :=
  match threads s !! id with
  | None => (count (nd s) id ≤ 1)%nat ∧
      (status_of (nd s) id = None ∨ status_of (nd s) id = Some StatusPending → count (nd s) id = 0%nat)
  | Some (c, AtStart) => ID c = id ∧ is_Some (status_of (nd s) id) ∧ count (nd s) id = 0%nat
  | Some (c, AtAcked) | Some (c, AtExecuting) =>
      ID c = id ∧ is_Some (status_of (nd s) id) ∧ status_of (nd s) id ≠ Some StatusPending ∧
      count (nd s) id = 0%nat
  | Some (c, AtRan _) =>
      ID c = id ∧ is_Some (status_of (nd s) id) ∧ status_of (nd s) id ≠ Some StatusPending ∧
      (count (nd s) id ≤ 1)%nat
  end.

Lemma status_alter s res err id id' l (n n' : node W) :
  ledger n = l → ledger n' = alter (set_entry s res err) id' l →
  status_of n' id = if decide (id = id') then (λ _, s) <$> status_of n id else status_of n id.
Proof.
  intros <- Hl. unfold status_of. rewrite Hl. destruct (decide (id = id')) as [->|Hne].
  - rewrite lookup_alter_eq, <- !option_fmap_compose. by destruct (ledger n !! id').
  - by rewrite lookup_alter_ne.
Qed.

Lemma crash_inv n t id : inv_id (Sys n t) id → inv_id (Sys n ∅) id.
Proof.
  unfold inv_id. cbn. rewrite lookup_empty. destruct (t !! id) as [[c []]|]; [| | | |done];
    intros (_ & Hs & H); destruct (status_of n id); naive_solver lia.
Qed.

Lemma inv_same n n' t t' id :
  t' !! id = t !! id → status_of n' id = status_of n id → count n' id = count n id →
  inv_id (Sys n t) id → inv_id (Sys n' t') id.
Proof. unfold inv_id. cbn. by intros -> -> ->. Qed.

Lemma runs_count (n n' : node W) id : runs n' = runs n → count n' id = count n id.
Proof. unfold count. by intros ->. Qed.
Lemma ledger_status (n n' : node W) id : ledger n' = ledger n → status_of n' id = status_of n id.
Proof. unfold status_of. by intros ->. Qed.

Lemma continue_other b i id cs t : id ≠ i → continue_at b i cs t !! id = t !! id.
Proof. intros Hne. destruct b; cbn; [by apply lookup_insert_ne|by apply lookup_delete_ne]. Qed.

(** A write to the row of command [i] by its own execution. *)
Lemma write_inv (b : bool) s i c stg (n n' : node W) t cs id :
  t !! i = Some (c, stg) → ID c = i → stg = AtStart ∨ stg = AtAcked → s ≠ StatusPending →
  cs = (c, match stg with AtStart => AtAcked | _ => AtExecuting end) →
  same_runs n n' →
  ledger n' = (if b then alter (set_entry s [] "") (ID c) (ledger n) else ledger n) →
  inv_id (Sys n t) id → inv_id (Sys n' (continue_at b i cs t)) id.
Proof.
  intros Ht Hc Hstg Hs -> [Hr _] Hl Hid. subst i.
  destruct (decide (id = ID c)) as [->|Hne].
  - unfold inv_id in *. cbn [nd threads] in *. rewrite Ht in Hid. rewrite (runs_count n n') by done.
    destruct b; cbn [continue_at].
    + rewrite lookup_insert_eq. rewrite (status_alter _ _ _ _ _ _ n n' eq_refl Hl), decide_True by done.
      destruct Hstg as [-> | ->]; destruct (status_of n (ID c)); naive_solver.
    + rewrite lookup_delete_eq, (ledger_status n n') by done.
      destruct Hstg as [-> | ->]; destruct (status_of n (ID c)); naive_solver lia.
  - eapply inv_same; [by apply continue_other| | |exact Hid]; [|by apply runs_count].
    destruct b; [|by apply ledger_status].
    by rewrite (status_alter _ _ _ _ _ _ n n' eq_refl Hl), decide_False.
Qed.

Lemma start_all_lookup cmds id :
  match start_all cmds !! id with
  | Some (c, s) => c ∈ cmds ∧ ID c = id ∧ s = AtStart
  | None => True
  end.
Proof.
  destruct (start_all cmds !! id) as [[c s]|] eqn:E; [|done].
  apply elem_of_list_to_map_2, list_elem_of_fmap in E as (c' & [= -> -> ->] & Hc). done.
Qed.

Lemma thread_id s i c stg : (∀ id, inv_id s id) → threads s !! i = Some (c, stg) → ID c = i.
Proof. intros Hinv Ht. specialize (Hinv i). unfold inv_id in Hinv. rewrite Ht in Hinv. by destruct stg, Hinv. Qed.

Lemma step_inv s s' : sys_step s s' → (∀ id, inv_id s id) → ∀ id, inv_id s' id.
Proof.
  intros Hst Hinv id. pose proof (Hinv id) as Hid. pose proof (thread_id s) as Hthr.
  destruct Hst as
    [c n t|n n' cmds Hp|i c n n' b t Ht Ha|i c n n' b t Ht Hm|i c n n' r t Ht Hr|i c n n' t Ht Hr|i c n r t Ht
    |n t|w f n t].
  - destruct (Enqueue_spec c n) as [Hr Hl]. set (n' := fst (Enqueue c n)) in *.
    destruct (decide (is_Some (status_of n id) ∨ id ≠ ID c)) as [Hor|Hno].
    + eapply (inv_same n n' t t); [done| |by apply runs_count|exact Hid].
      destruct Hl as [Hl|(Hnone & e & _ & Hl)]; [by apply ledger_status|].
      unfold status_of in *. rewrite Hl. destruct Hor as [Hsome|Hne]; [|by rewrite lookup_insert_ne].
      rewrite lookup_insert_ne; [done|]. intros <-. rewrite Hnone in Hsome. by destruct Hsome.
    + assert (status_of n id = None ∧ id = ID c) as [Hnone ->].
      { destruct (status_of n id); [naive_solver|]. split; [done|].
        destruct (decide (id = ID c)); [done|]. naive_solver. }
      unfold inv_id in Hid |- *. cbn [nd threads] in *. rewrite (runs_count n n') by done.
      rewrite Hnone in Hid. destruct (t !! ID c) as [[c' []]|]; naive_solver.
  - destruct (PendingCommands_spec _ _ _ Hp) as (Hl & [Hr _] & Hc).
    unfold inv_id in Hid |- *. cbn [nd threads] in *. rewrite lookup_empty in Hid.
    rewrite (runs_count n n'), (ledger_status n n') by done.
    pose proof (start_all_lookup cmds id) as Hs.
    destruct (start_all cmds !! id) as [[c s]|]; [|done].
    destruct Hs as (Hin & <- & ->). specialize (Hc c Hin). fold (status_of n (ID c)) in Hc.
    rewrite Hc in *. naive_solver.
  - destruct (acknowledge_spec _ _ _ _ Ha) as [Hr Hl].
    eapply (write_inv b StatusAcked i c AtStart); try done; [by eapply Hthr|by left].
  - destruct (mark_executing_spec _ _ _ _ Hm) as [Hr Hl].
    eapply (write_inv b StatusExecuting i c AtAcked); try done; [by eapply Hthr|by right].
  - destruct (run_handler_spec _ _ _ _ Hr) as (Hl & _ & Ho & Hc).
    pose proof (Hthr i c AtExecuting Hinv Ht) as <-.
    destruct (decide (id = ID c)) as [->|Hne].
    + unfold inv_id in Hid |- *. cbn [nd threads] in *. rewrite Ht in Hid.
      rewrite lookup_insert_eq, (ledger_status n n') by done. unfold count in *. naive_solver lia.
    + eapply inv_same; [by apply lookup_insert_ne|by apply ledger_status| |exact Hid].
      unfold count. by rewrite Ho.
  - destruct (run_handler_spec _ _ _ _ Hr) as (Hl & _ & Ho & Hc).
    pose proof (Hthr i c AtExecuting Hinv Ht) as <-.
    destruct (decide (id = ID c)) as [->|Hne].
    + unfold inv_id in Hid |- *. cbn [nd threads] in *. rewrite Ht in Hid. rewrite lookup_empty.
      rewrite (ledger_status n n') by done. unfold count in *.
      destruct Hid as (_ & [st Hst] & Hp & Hz). rewrite Hst in *. split; [lia|naive_solver].
    + apply (crash_inv n' t). eapply inv_same; [done|by apply ledger_status| |exact Hid].
      unfold count. by rewrite Ho.
  - pose proof (Hthr i c (AtRan r) Hinv Ht) as <-.
    destruct (finish_spec c r n) as [[Hr _] Hl]. set (n' := fst _) in *.
    destruct (decide (id = ID c)) as [->|Hne].
    + unfold inv_id in Hid |- *. cbn [nd threads] in *. rewrite Ht in Hid. rewrite lookup_delete_eq.
      rewrite (runs_count n n') by done. destruct Hid as (_ & [st Hst] & Hp & Hc).
      split; [done|]. intros Hnp. exfalso. destruct Hl as [Hl|(s & res & err & Hs & Hl)].
      * rewrite (ledger_status n n'), Hst in Hnp by done. naive_solver.
      * rewrite (status_alter _ _ _ _ _ _ n n' eq_refl Hl), decide_True, Hst in Hnp by done.
        cbn in Hnp. destruct Hnp as [[=]|[= ->]]. done.
    + eapply inv_same; [by apply lookup_delete_ne| |by apply runs_count|exact Hid].
      destruct Hl as [Hl|(s & res & err & Hs & Hl)]; [by apply ledger_status|].
      by rewrite (status_alter _ _ _ _ _ _ n n' eq_refl Hl), decide_False.
  - by eapply crash_inv.
  - exact Hid.
Qed.

(** ** Commands no execution holds *)

Definition settled (id : string) (e : entry) (k : nat) (s : sys W) : Prop :=
  threads s !! id = None ∧ ledger (nd s) !! id = Some e ∧ count (nd s) id = k.

Lemma settled_step id e k s s' :
  status e ≠ StatusPending → (∀ id, inv_id s id) → sys_step s s' → settled id e k s → settled id e k s'.
Proof.
  intros Hne Hinv Hst (Ht0 & He & Hk). pose proof (thread_id s) as Hthr. unfold settled.
  destruct Hst as
    [c n t|n n' cmds Hp|i c n n' b t Ht Ha|i c n n' b t Ht Hm|i c n n' r t Ht Hr|i c n n' t Ht Hr|i c n r t Ht
    |n t|w f n t]; cbn [nd threads] in *.
  - destruct (Enqueue_spec c n) as [Hr Hl]. rewrite (runs_count n) by done.
    split; [done|]. split; [|done]. destruct Hl as [->|(Hnone & e' & _ & ->)]; [done|].
    rewrite lookup_insert_ne; [done|]. intros <-. congruence.
  - destruct (PendingCommands_spec _ _ _ Hp) as (Hl & [Hr _] & Hc).
    rewrite (runs_count n), Hl by done. split; [|done].
    pose proof (start_all_lookup cmds id) as Hs. destruct (start_all cmds !! id) as [[c s]|]; [|done].
    destruct Hs as (Hin & <- & ->). specialize (Hc c Hin). rewrite He in Hc. cbn in Hc. congruence.
  - destruct (acknowledge_spec _ _ _ _ Ha) as [[Hr _] Hl]. pose proof (Hthr i c _ Hinv Ht) as <-.
    assert (id ≠ ID c) by congruence.
    rewrite continue_other, (runs_count n), Hl by done. split; [done|]. split; [|done].
    destruct b; [by rewrite lookup_alter_ne|done].
  - destruct (mark_executing_spec _ _ _ _ Hm) as [[Hr _] Hl]. pose proof (Hthr i c _ Hinv Ht) as <-.
    assert (id ≠ ID c) by congruence.
    rewrite continue_other, (runs_count n), Hl by done. split; [done|]. split; [|done].
    destruct b; [by rewrite lookup_alter_ne|done].
  - destruct (run_handler_spec _ _ _ _ Hr) as (Hl & _ & Ho & _). pose proof (Hthr i c _ Hinv Ht) as <-.
    assert (id ≠ ID c) by congruence. rewrite lookup_insert_ne, Hl by done. unfold count. by rewrite Ho.
  - destruct (run_handler_spec _ _ _ _ Hr) as (Hl & _ & Ho & _). pose proof (Hthr i c _ Hinv Ht) as <-.
    assert (id ≠ ID c) by congruence. rewrite lookup_empty, Hl. unfold count. by rewrite Ho.
  - destruct (finish_spec c r n) as [[Hr _] Hl]. pose proof (Hthr i c _ Hinv Ht) as <-.
    assert (id ≠ ID c) by congruence. rewrite lookup_delete_ne, (runs_count n) by done.
    split; [done|]. split; [|done].
    destruct Hl as [->|(s & res & err & Hs & ->)]; [done|by rewrite lookup_alter_ne].
  - by rewrite lookup_empty.
  - done.
Qed.
End System.

(** The node before any command has arrived. *)
Definition no_commands {W} (n : node W) : Prop := ledger n = ∅ ∧ runs n = ∅.

Lemma reachable_inv {W} (hs : list (string * (payload → io W payload))) n s :
  no_commands n → star (sys_step hs) (Sys n ∅) s → ∀ id, inv_id s id.
Proof.
  intros [Hl Hr] Hs. apply (star_invariant (sys_step hs) (λ s, ∀ id, inv_id s id) (Sys n ∅) s); [| |exact Hs].
  - intros s1 s2 Hinv Hstep. by eapply step_inv.
  - intros id. unfold inv_id. cbn. rewrite lookup_empty. unfold count. rewrite Hr. by split; [apply Nat.le_0_l|].
Qed.

(** C12. The handler of a command is called at most once, however the
    executions of a batch interleave, whichever database writes fail, however
    often the same command is delivered and wherever the node crashes. *)
Theorem command_runs_at_most_once {W} (hs : list (string * (payload → io W payload))) n s id :
  no_commands n → star (sys_step hs) (Sys n ∅) s → (default 0 (runs (nd s) !! id) ≤ 1)%nat.
Proof.
  intros Hn Hs. pose proof (reachable_inv hs n s Hn Hs id) as Hid. unfold inv_id, count in Hid.
  destruct (threads s !! id) as [[c []]|]; naive_solver lia.
Qed.

(** A command whose row says something else than pending and whose
    execution is gone (it finished, a database write failed, or the node
    crashed in between) keeps that row and its number of handler calls for
    ever: in particular one that was acknowledged when the node crashed is
    never executed and never fails. *)
Theorem interrupted_command_lost {W} (hs : list (string * (payload → io W payload))) n s s' id e :
  no_commands n → star (sys_step hs) (Sys n ∅) s →
  threads s !! id = None → ledger (nd s) !! id = Some e → status e ≠ StatusPending →
  star (sys_step hs) s s' →
  ledger (nd s') !! id = Some e ∧ count (nd s') id = count (nd s) id.
Proof.
  intros Hn Hs Ht He Hne Hs'.
  pose proof (reachable_inv hs n s Hn Hs) as Hinv.
  assert (settled id e (count (nd s) id) s' ∧ ∀ id, inv_id s' id) as [(_ & ? & ?) _]; [|done].
  apply (star_invariant _ (λ s', settled id e (count (nd s) id) s' ∧ ∀ id, inv_id s' id)) in Hs'; [done| |done].
  intros s1 s2 [Hset Hi] Hstep. split; [by eapply settled_step|by eapply step_inv].
Qed.

(** ** One execution *)

(** The outcome of a command as it is written to the ledger. *)
Definition outcome (r : go payload) (e : entry) : entry :=
  match r with
  | Ret res => set_entry StatusDone res "" e
  | Err err => set_entry StatusFailed [] err e
  | _ => e
  end.

(** What a command of type [t] does on a world. *)
Definition handle {W} (hs : list (string * (payload → io W payload))) (t : string) (p : payload) : io W payload :=
  match handler_of hs t with
  | Some h => h p
  | None => fail ("no handler registered for command type " +:+ t)
  end.

Lemma set_entry_twice s1 r1 t1 s2 r2 t2 e : set_entry s2 r2 t2 (set_entry s1 r1 t1 e) = set_entry s2 r2 t2 e.
Proof. done. Qed.

Lemma setStatus_run {W} id s res err (n : node W) :
  faults n = [] →
  setStatus id s res err n = (set_ledger (alter (set_entry s res err) id (ledger n)) (order n) n, Ret ()).
Proof. intros Hf. unfold setStatus, mbind, io_bind, db_fails. by rewrite Hf. Qed.

Lemma Execute_run {W} (hs : list (string * (payload → io W payload))) c n e w r :
  faults n = [] → ledger n !! ID c = Some e → terminal (status e) = false →
  handle hs (Type_ c) (Payload c) (world n) = (w, r) → safe r →
  ∃ n', Execute hs c n = (n', Ret ()) ∧ world n' = w ∧ ledger n' = <[ID c := outcome r e]> (ledger n).
Proof.
  intros Hf He Hterm Hh Hsafe. unfold Execute, acknowledge, isTerminal, mark_executing.
  unfold mbind at 1, io_bind at 1. unfold mbind at 1, io_bind at 1. unfold mbind at 1, io_bind at 1.
  unfold db_fails at 1. rewrite Hf. unfold mbind at 1, io_bind at 1. cbn [gets mret io_ret].
  rewrite He, Hterm. unfold mbind at 1, io_bind at 1, attempt at 1. rewrite setStatus_run by done.
  cbn [negb]. unfold mret at 1, io_ret at 1. cbn [negb].
  unfold mbind at 1, io_bind at 1, mbind at 1, io_bind at 1, attempt at 1. rewrite setStatus_run by done.
  unfold mret at 1, io_ret at 1. cbn [negb].
  set (n1 := set_ledger _ _ (set_ledger _ _ n)).
  assert (ledger n1 = <[ID c := set_entry StatusExecuting [] "" e]> (ledger n)) as Hn1.
  { unfold n1. cbn. apply map_eq. intros k. destruct (decide (k = ID c)) as [->|Hne].
    - by rewrite !lookup_alter_eq, He, lookup_insert_eq.
    - by rewrite !lookup_alter_ne, lookup_insert_ne by done. }
  assert (∀ (n2 : node W) s res err, ledger n2 = ledger n1 → faults n2 = [] →
            set_entry s res err e = outcome r e →
            ignore (setStatus (ID c) s res err) n2 = (set_ledger (<[ID c := outcome r e]> (ledger n)) (order n2) n2, Ret ())) as Hfin.
  { intros n2 s res err Hl Hf2 Ho. unfold ignore, attempt, mbind, io_bind. rewrite setStatus_run by done.
    unfold mret, io_ret. do 2 f_equal. rewrite Hl, Hn1. apply map_eq. intros k.
    destruct (decide (k = ID c)) as [->|Hne].
    - rewrite lookup_alter_eq, !lookup_insert_eq. cbn. by rewrite set_entry_twice, Ho.
    - by rewrite lookup_alter_ne, !lookup_insert_ne by done. }
  unfold mbind at 1, io_bind at 1, run_handler. unfold handle in Hh.
  destruct (handler_of hs (Type_ c)) as [h|].
  - unfold mbind at 1, io_bind at 1, update, attempt, on_world. cbn [world count_run].
    change (world n1) with (world n). rewrite Hh.
    destruct r as [res|err| |]; [| |by destruct Hsafe..]; cbn [finish];
      rewrite (Hfin (set_world w (count_run (ID c) n1))) by done; eexists; (split; [reflexivity|done]).
  - injection Hh as <- <-. unfold mret, io_ret. cbn [finish]. rewrite (Hfin n1) by done.
    eexists. split; [reflexivity|done].
Qed.

(** Executing a command that is not finished calls its handler on the
    current world and records the outcome, and nothing else changes in the
    ledger: "done" with the handler's result, "failed" with its error, or
    "failed" because no handler is registered for the type. *)
Theorem Execute_outcome {W} (hs : list (string * (payload → io W payload))) c n e w r :
  faults n = [] → ledger n !! ID c = Some e → terminal (status e) = false →
  handle hs (Type_ c) (Payload c) (world n) = (w, r) → safe r →
  ∃ n', Execute hs c n = (n', Ret ()) ∧ world n' = w ∧ ledger n' = <[ID c := outcome r e]> (ledger n).
Proof. apply Execute_run. Qed.

(** Every command type the local API accepts fails: none of them has a
    registered handler. *)
Theorem api_commands_fail {W} (sv : Services W) c n :
  faults n = [] → isValidCommandType (Type_ c) = true → ledger n !! ID c = None →
  let n1 := fst (Enqueue c n) in
  ∃ n' e, Execute (handlers sv) c n1 = (n', Ret ()) ∧ ledger n' !! ID c = Some e ∧
    status e = StatusFailed ∧ error_text e = "no handler registered for command type " +:+ Type_ c ∧
    world n' = world n.
Proof.
  intros Hf Hv Hnew n1.
  assert (handler_of (handlers sv) (Type_ c) = None) as Hnone.
  { unfold isValidCommandType in Hv. cbn [existsb] in Hv.
    rewrite !orb_true_iff, !String.eqb_eq in Hv.
    unfold handler_of. cbn [handlers List.find fst snd].
    destruct Hv as [-> |[-> |[-> |[-> |[-> |[=]]]]]]; reflexivity. }
  set (e := {| command_type := Type_ c; status := StatusPending; payload_json := Payload c;
               result_json := []; error_text := "" |}).
  assert (n1 = set_ledger (<[ID c := e]> (ledger n)) (order n ++ [ID c]) n) as Hn1.
  { unfold n1, Enqueue, mbind, io_bind, db_fails. rewrite Hf. cbn. by rewrite Hnew. }
  destruct (Execute_run (handlers sv) c n1 e (world n) (Err ("no handler registered for command type " +:+ Type_ c)))
    as (n' & E & Hw & Hl).
  - by rewrite Hn1.
  - rewrite Hn1. cbn. apply lookup_insert_eq.
  - done.
  - unfold handle. rewrite Hnone, Hn1. done.
  - by split.
  - exists n', (outcome (Err ("no handler registered for command type " +:+ Type_ c)) e).
    rewrite Hl, lookup_insert_eq. done.
Qed.

(** Removing a peer by a key of fewer than eight bytes panics after the
    peer has been removed: the log line slices the key. *)
Theorem remove_peer_short_key_panics {W} (sv : Services W) add remove key w w' :
  Tunnel sv = Some (add, remove) → key ≠ "" → (String.length key < 8)%nat →
  remove key w = (w', Ret ()) →
  remove_peer sv [("public_key", Str key)] w = (w', Panic).
Proof.
  intros Ht Hne Hlen Hr. unfold remove_peer. rewrite Ht. unfold requireString. cbn [field String.eqb Ascii.eqb Bool.eqb].
  destruct (String.eqb_spec key ""); [done|].
  unfold mbind at 1, io_bind at 1, pure at 1. unfold mbind at 1, io_bind at 1, wrap, attempt, mbind at 1, io_bind at 1.
  rewrite Hr. unfold mret, io_ret, mbind, io_bind, pure, first8. by rewrite bool_decide_eq_false_2 by lia.
Qed.

(** ** Policies sent as commands *)

Definition encode_child (c : ChildEffectiveState) : any :=
  Obj [("child_id", Str (ChildID c)); ("device_mac", Str (DeviceMAC c));
       ("wireguard_public_key", Str (WireGuardPublicKey c)); ("wireguard_ip", Str (WireguardIP c));
       ("mode", Str (Mode c)); ("lock_enabled", Bool (LockEnabled c));
       ("dns_profile_id", Str (DNSProfileID c)); ("allowed_services", Arr (map Str (AllowedServices c)));
       ("blocked_categories", Arr (map Str (BlockedCategories c)))].

Definition encode_bundle (b : Bundle) (issued expires : string) : payload :=
  [("version", Str (Version b)); ("issued_at", Str issued); ("expires_at", Str expires);
   ("signature", Str (Signature b)); ("emergency_domains", Arr (map Str (BundleEmergencyDomains b)));
   ("children", Arr (map encode_child (Children b)))].

(** What arrives: the services and the emergency domains are lost. *)
Definition received_child (c : ChildEffectiveState) : ChildEffectiveState :=
  Child (ChildID c) (DeviceMAC c) (WireGuardPublicKey c) (WireguardIP c) (Mode c) (LockEnabled c)
    (DNSProfileID c) [] (BlockedCategories c).
Definition received (b : Bundle) : Bundle :=
  MkBundle (Version b) (IssuedAt b) (ExpiresAt b) (Signature b) [] (map received_child (Children b)).

Lemma string_slice l : Forall (λ s, s ≠ "") l →
  omap (λ v, match v with Str s => if String.eqb s "" then None else Some s | _ => None end) (map Str l) = l.
Proof.
  induction 1 as [|s l Hs Hl IH]; [done|]. cbn [map omap list_omap].
  destruct (String.eqb_spec s ""); [done|]. f_equal. apply IH.
Qed.

(** A policy bundle sent as an update_policy command is swapped in with
    every child and every field except the allowed services of its children
    and its emergency domains, which the handler drops. *)
Theorem update_policy_received {W} (sv : Services W) b issued expires w :
  Version b ≠ "" → issued ≠ "" → expires ≠ "" →
  parseTime sv issued = Some (IssuedAt b) → parseTime sv expires = Some (ExpiresAt b) →
  Forall (λ c, Forall (λ s, s ≠ "") (BlockedCategories c)) (Children b) →
  update_policy sv (encode_bundle b issued expires) w =
  (_ ← wrap (SwapBundle sv (received b)) "swap bundle";
   mret [("version", Str (Version b)); ("children", Num (Z.of_nat (length (Children b))))]) w.
Proof.
  intros Hv Hi Hx Hpi Hpx Hc.
  assert (omap child_value (map encode_child (Children b)) = map received_child (Children b)) as Hch.
  { clear -Hc. induction Hc as [|c cs Hc Hcs IH]; [done|]. cbn [map omap list_omap].
    assert (child_value (encode_child c) = Some (received_child c)) as ->.
    { unfold child_value, encode_child, received_child, stringSliceVal.
      cbn [field String.eqb Ascii.eqb Bool.eqb]. by rewrite string_slice. }
    f_equal. apply IH. }
  unfold update_policy, encode_bundle, requireString, stringVal.
  cbn [field String.eqb Ascii.eqb Bool.eqb]. rewrite Hch.
  destruct (String.eqb_spec (Version b) ""), (String.eqb_spec issued ""), (String.eqb_spec expires ""); try done.
  unfold mbind at 1, io_bind at 1, pure at 1. unfold mbind at 1, io_bind at 1, pure at 1.
  unfold mbind at 1, io_bind at 1, pure at 1, parse_stamp at 1. rewrite Hpi.
  unfold mbind at 1, io_bind at 1, pure at 1. unfold mbind at 1, io_bind at 1, pure at 1, parse_stamp.
  rewrite Hpx. unfold received. by rewrite length_map.
Qed.

(** ** The theorems at concrete inputs *)

(** The world is the list of calls the services received. *)
Definition call (s : string) : io (list string) () := λ w, (w ++ [s], Ret ()).
Definition toy_services : Services (list string) := {|
  SwapBundle b := call ("swap " +:+ Version b);
  Reload := Some (call "reload");
  Tunnel := Some (λ k _ _ w, (w ++ ["add " +:+ k], Ret "10.10.0.9/32"), λ k, call ("remove " +:+ k));
  Firewall := Some (λ m, call ("pause " +:+ m), λ m, call ("unpause " +:+ m), call "sync");
  SetRouteProfile := Some (λ m p s, call (m +:+ p));
  now _ := "2026-01-01T00:00:00Z";
  parseTime s := if String.eqb s "" then None else Some hour;
|}.

Definition empty_node : node (list string) :=
  {| world := []; ledger := ∅; order := []; faults := []; runs := ∅; reported := [] |}.
Definition reload_command : Command := {| ID := "c1"; Type_ := "reload_dns_profile"; Payload := [] |}.
Definition queued : node (list string) := fst (Enqueue reload_command empty_node).
Definition acked : node (list string) := fst (acknowledge reload_command queued).
Definition marked : node (list string) := fst (mark_executing reload_command acked).

Lemma queued_reachable hs : star (sys_step hs) (Sys empty_node ∅) (Sys queued {["c1" := (reload_command, AtStart)]}).
Proof.
  eapply star_step; [apply (s_enqueue hs reload_command)|].
  eapply star_step; [by apply (s_drain hs queued queued [reload_command])|].
  apply star_refl.
Qed.

Lemma marked_reachable hs : star (sys_step hs) (Sys empty_node ∅) (Sys marked {["c1" := (reload_command, AtExecuting)]}).
Proof.
  eapply star_step; [apply (s_enqueue hs reload_command)|].
  eapply star_step; [by apply (s_drain hs queued queued [reload_command])|].
  eapply star_step; [by apply (s_ack hs "c1" reload_command queued acked true)|].
  eapply star_step; [by apply (s_mark hs "c1" reload_command acked marked true)|].
  apply star_refl.
Qed.

Lemma command_runs_at_most_once_witness :
  (default 0 (runs marked !! "c1") ≤ 1)%nat.
Proof.
  apply (command_runs_at_most_once (handlers toy_services) empty_node
    (Sys marked {["c1" := (reload_command, AtExecuting)]}) "c1"); [by split|apply marked_reachable].
Defined.

(** The node crashes after the acknowledgement. *)
Lemma interrupted_command_lost_witness :
  ∃ e, status e = StatusAcked ∧
  ∀ s', star (sys_step (handlers toy_services)) (Sys acked ∅) s' →
    ledger (nd s') !! "c1" = Some e ∧ count (nd s') "c1" = 0%nat.
Proof.
  eexists. split; [|intros s' Hs'].
  2: { apply (interrupted_command_lost (handlers toy_services) empty_node (Sys acked ∅) s' "c1"
         (set_entry StatusAcked [] "" {| command_type := "reload_dns_profile"; status := StatusPending;
            payload_json := []; result_json := []; error_text := "" |})).
       - by split.
       - eapply star_step; [apply (s_enqueue _ reload_command)|].
         eapply star_step; [by apply (s_drain _ queued queued [reload_command])|].
         eapply star_step; [by apply (s_ack _ "c1" reload_command queued acked true)|].
         eapply star_step; [apply s_crash|apply star_refl].
       - reflexivity.
       - reflexivity.
       - done.
       - exact Hs'. }
  reflexivity.
Defined.

Lemma Execute_outcome_witness :
  ∃ n', Execute (handlers toy_services) reload_command queued = (n', Ret ()) ∧
    world n' = ["reload"] ∧
    (status <$> ledger n' !! "c1") = Some StatusDone.
Proof.
  destruct (Execute_outcome (handlers toy_services) reload_command queued
    {| command_type := "reload_dns_profile"; status := StatusPending; payload_json := [];
       result_json := []; error_text := "" |} ["reload"] (Ret [("reloaded", Bool true)]))
    as (n' & E & Hw & Hl); [reflexivity..|by split|].
  exists n'. split; [exact E|]. split; [exact Hw|]. rewrite Hl. reflexivity.
Defined.

Lemma api_commands_fail_witness :
  ∃ n' e, Execute (handlers toy_services) {| ID := "c2"; Type_ := "PAUSE"; Payload := [] |}
            (fst (Enqueue {| ID := "c2"; Type_ := "PAUSE"; Payload := [] |} empty_node)) = (n', Ret ()) ∧
    ledger n' !! "c2" = Some e ∧ status e = StatusFailed ∧
    error_text e = "no handler registered for command type PAUSE" ∧ world n' = [].
Proof. apply (api_commands_fail toy_services {| ID := "c2"; Type_ := "PAUSE"; Payload := [] |} empty_node); reflexivity. Defined.

Lemma remove_peer_short_key_panics_witness :
  remove_peer toy_services [("public_key", Str "short")] [] = (["remove short"], Panic).
Proof. eapply remove_peer_short_key_panics; [reflexivity|done|cbn; lia|reflexivity]. Defined.

Lemma update_policy_received_witness :
  update_policy toy_services (encode_bundle (MkBundle "v1" hour hour "sig" ["police.gov"] [sample_child]) "i" "x") [] =
  (["swap v1"], Ret [("version", Str "v1"); ("children", Num 1)]).
Proof.
  rewrite (update_policy_received toy_services (MkBundle "v1" hour hour "sig" ["police.gov"] [sample_child]) "i" "x" []);
    [reflexivity|done..|].
  repeat constructor. done.
Defined.
