(* ===== verification/CommandSync.v ===== *)
(** The registration of the command handlers ([internal/commands/executor.go])
    and one round of the command poll ([internal/controlsync/commandpoll.go]): what
    is fetched, acknowledged, executed and reported to the cloud. *)
From stdpp Require Import gmap.
From S2P Require Import Prelude Os Policy Commands GoString.

Local Open Scope string_scope.
Local Open Scope list_scope.

(** ** Registration *)

Section Registration.
Context {H : Type}.

(** [NewExecutor] and [Register]. *)
Definition NewExecutor : gmap string H := ∅.

Definition Register (m : gmap string H) (commandType : string) (h : H) : go (gmap string H) :=
  if bool_decide (is_Some (m !! commandType)) then Panic else Ret (<[commandType := h]> m).

Fixpoint register_all (m : gmap string H) (hs : list (string * H)) : go (gmap string H) :=
  match hs with
  | [] => Ret m
  | (t, h) :: hs => m ← Register m t h; register_all m hs
  end.

Lemma register_all_ok hs m : NoDup (map fst hs) → (∀ t, t ∈ map fst hs → m !! t = None) →
  ∃ m', register_all m hs = Ret m' ∧
    ∀ t, m' !! t = match List.find (λ kh, String.eqb (fst kh) t) hs with Some (_, h) => Some h | None => m !! t end.
Proof.
  revert m. induction hs as [|[t h] hs IH]; intros m Hnd Hm; [by exists m|].
  apply NoDup_cons in Hnd as [Hin Hnd]. cbn [register_all]. unfold Register.
  rewrite (Hm t) by (simpl; left). rewrite bool_decide_false by (by intros [? ?]). cbn [mbind go_bind].
  destruct (IH (<[t := h]> m) Hnd) as (m' & -> & Hm').
  { intros t' Ht'. rewrite lookup_insert_ne; [apply Hm; by right|]. intros ->. done. }
  exists m'. split; [done|]. intros t'. rewrite Hm'. cbn [List.find fst].
  destruct (String.eqb_spec t t') as [->|Hne].
  - assert (List.find (λ kh, String.eqb (fst kh) t') hs = None) as ->; [|by rewrite lookup_insert_eq].
    destruct (List.find _ hs) as [[k x]|] eqn:E; [|done]. apply find_some in E as [Hi He]. apply String.eqb_eq in He as <-.
    destruct Hin. apply list_elem_of_In, in_map_iff. by exists (k, x).
  - destruct (List.find _ hs) as [[]|]; [done|]. by rewrite lookup_insert_ne.
Qed.
End Registration.

(** The handlers of the node register without a panic, each under its own type:
    the table finds exactly the handler of the list, and registering any of the
    types again panics. *)
Theorem handlers_registered {W} (sv : Services W) :
  ∃ m, register_all NewExecutor (handlers sv) = Ret m ∧ (∀ t, m !! t = handler_of (handlers sv) t) ∧
    ∀ t h, is_Some (handler_of (handlers sv) t) → Register m t h = Panic.
Proof.
  destruct (register_all_ok (handlers sv) NewExecutor) as (m & Hm & Hl).
  - change (map fst (handlers sv)) with (map fst (handlers toy_services)). apply (bool_decide_unpack _). vm_compute. done.
  - intros t _. apply lookup_empty.
  - assert (Hf : ∀ t, m !! t = handler_of (handlers sv) t).
    { intros t. rewrite Hl. unfold handler_of. by destruct (List.find _ _) as [[]|]. }
    exists m. split; [done|]. split; [done|]. intros t h Ht. unfold Register. rewrite Hf. by rewrite bool_decide_true.
Qed.

(** ** One poll *)

Section Poll.
Context {W : Type} (hs : list (string * (payload → io W payload))).

(** The loop of [fetchAndEnqueue] with the acknowledgements it sends; their errors
    are only logged. *)
Definition fetch_ack (c : Command) : io (node W) (list string) :=
  bad ← db_fails;
  exists_ ← gets (λ n, bool_decide (is_Some (ledger n !! ID c)));
  if negb bad && exists_ then mret [] else
  r ← attempt (Enqueue c);
  mret (match r with inl _ => [ID c] | inr _ => [] end).

Fixpoint fetch_all (cmds : list Command) : io (node W) (list string) :=
  match cmds with
  | [] => mret []
  | c :: cmds => a ← fetch_ack c; l ← fetch_all cmds; mret (a ++ l)
  end.

(** What a PATCH of a command carries, on [/functions/v1/node-commands/<id>]. *)
Definition ack_body : list (string * string) := [("status", "acked")].
Definition result_body (success : bool) (result_json error_text : string) : list (string * string) :=
  [("status", if success then "done" else "failed"); ("result_json", result_json); ("error_text", error_text)].
Definition command_path (id : string) : string := "/functions/v1/node-commands/" +:+ id.

(** One tick: [fetched] is the decoded answer of the cloud. *)
Definition poll (fetched : go (list Command)) : io (node W) (list string) :=
  acks ← match fetched with Ret cmds => fetch_all cmds | _ => mret [] end;
  _ ← drainPending hs;
  mret acks.

(** The reports sent for a command. *)
Definition reports_of (id : string) (n : node W) : list (string * bool * payload * string) :=
  List.filter (λ r, String.eqb r.1.1.1 id) (reported n).

(** A computation that keeps the row [e] of a command and reports nothing for
    it. *)
Definition quiet {A} (id : string) (e : entry) (m : io (node W) A) : Prop := ∀ n, ledger n !! id = Some e →
  ledger (fst (m n)) !! id = Some e ∧ reports_of id (fst (m n)) = reports_of id n.

Lemma quiet_bind {A B} id e (m : io (node W) A) (f : A → io (node W) B) : quiet id e m → (∀ a, quiet id e (f a)) → quiet id e (m ≫= f).
Proof.
  intros Hm Hf n Hn. unfold mbind, io_bind. destruct (Hm n Hn) as [H1 H2]. destruct (m n) as [n1 [a|x| |]]; simpl in *; try done.
  destruct (Hf a n1 H1) as [H3 H4]. split; congruence.
Qed.

Lemma quiet_attempt {A} id e (m : io (node W) A) : quiet id e m → quiet id e (attempt m).
Proof. intros Hm n Hn. unfold attempt. specialize (Hm n Hn). destruct (m n) as [n1 [a|x| |]]; done. Qed.

Lemma quiet_ret {A} id e (a : A) : quiet id e (mret a).
Proof. by intros n. Qed.

Lemma quiet_gets {A} id e (f : node W → A) : quiet id e (gets f).
Proof. by intros n. Qed.

Lemma quiet_db_fails id e : quiet id e (db_fails (W := W)).
Proof. intros n Hn. unfold db_fails. by destruct (faults n). Qed.

Lemma quiet_update id e (f : node W → node W) : (∀ n, ledger n !! id = Some e → ledger (f n) !! id = Some e ∧ reports_of id (f n) = reports_of id n) →
  quiet id e (update f).
Proof. intros Hf n Hn. by apply Hf. Qed.

Lemma quiet_setStatus id e id' s res err : id ≠ id' → quiet id e (setStatus (W := W) id' s res err).
Proof.
  intros Hne. apply quiet_bind; [apply quiet_db_fails|]. intros []; [by intros n|]. apply quiet_update. intros n Hn. cbn. by rewrite lookup_alter_ne.
Qed.

(** Enqueueing an id that is stored does nothing. *)
Lemma quiet_Enqueue id e (c : Command) : quiet id e (Enqueue (W := W) c).
Proof.
  apply quiet_bind; [apply quiet_db_fails|]. intros []; [by intros n|]. apply quiet_update. intros n Hn.
  destruct (ledger n !! ID c) eqn:E; [done|]. cbn. split; [|done]. rewrite lookup_insert_ne; congruence.
Qed.

Lemma quiet_fetch_all id e cmds : quiet id e (fetch_all cmds).
Proof.
  induction cmds as [|c cmds IH]; [apply quiet_ret|]. apply quiet_bind.
  - unfold fetch_ack. apply quiet_bind; [apply quiet_db_fails|]. intros bad. apply quiet_bind; [apply quiet_gets|]. intros x.
    destruct (negb bad && x); [apply quiet_ret|]. apply quiet_bind; [apply quiet_attempt, quiet_Enqueue|]. intros []; apply quiet_ret.
  - intros a. apply quiet_bind; [exact IH|]. intros l. apply quiet_ret.
Qed.

Lemma quiet_run_handler id e c : quiet id e (run_handler hs c).
Proof.
  intros n Hn. unfold run_handler. destruct (handler_of hs (Type_ c)) as [h|]; [|done].
  unfold mbind, io_bind, update, attempt, on_world. by destruct (h (Payload c) _) as [w []].
Qed.

Lemma quiet_Execute id e c : id ≠ ID c → quiet id e (Execute hs c).
Proof.
  intros Hne. unfold Execute, acknowledge, isTerminal, mark_executing. apply quiet_bind.
  - apply quiet_bind.
    + apply quiet_bind; [apply quiet_db_fails|]. intros bad. apply quiet_bind; [apply quiet_gets|]. intros x. apply quiet_ret.
    + intros [|]; [apply quiet_ret|]. apply quiet_bind; [by apply quiet_attempt, quiet_setStatus|]. intros r. apply quiet_ret.
  - intros [|]; simpl; [|apply quiet_ret]. apply quiet_bind.
    + apply quiet_bind; [by apply quiet_attempt, quiet_setStatus|]. intros r. apply quiet_ret.
    + intros [|]; simpl; [|apply quiet_ret]. apply quiet_bind; [apply quiet_run_handler|].
      intros []; (apply quiet_bind; [by apply quiet_attempt, quiet_setStatus|]; intros r; apply quiet_ret).
Qed.

Lemma quiet_reportResult id e id' : id ≠ id' → quiet id e (reportResult (W := W) id').
Proof.
  intros Hne. apply quiet_bind; [apply quiet_db_fails|]. intros bad. apply quiet_bind; [apply quiet_gets|]. intros x.
  apply quiet_update. intros n Hn. unfold reports_of. split; [by destruct x, bad|].
  assert (H : ∀ b p t, List.filter (λ r, String.eqb r.1.1.1 id) (reported n ++ [(id', b, p, t)]) = List.filter (λ r, String.eqb r.1.1.1 id) (reported n)).
  { intros b p t. rewrite List.filter_app. simpl. apply not_eq_sym, String.eqb_neq in Hne. by rewrite Hne, app_nil_r. }
  destruct x, bad; apply H.
Qed.

Lemma quiet_drain id e cmds : (∀ c, c ∈ cmds → id ≠ ID c) → quiet id e (drain hs cmds).
Proof.
  induction cmds as [|c cmds IH]; intros Hne; [apply quiet_ret|]. apply quiet_bind; [apply quiet_Execute, Hne; by left|].
  intros _. apply quiet_bind; [apply quiet_reportResult, Hne; by left|]. intros _. apply IH. intros c' Hc'. apply Hne. by right.
Qed.

Lemma quiet_drainPending id e : status e ≠ StatusPending → quiet id e (drainPending hs).
Proof.
  intros He n Hn. assert (Hd : drainPending hs n = match PendingCommands n with
    | (n1, Ret cmds) => drain hs cmds n1 | (n1, Err _) => (n1, Ret ()) | (n1, Panic) => (n1, Panic) | (n1, Loop) => (n1, Loop) end).
  { unfold drainPending, attempt, mbind, io_bind. by destruct (PendingCommands n) as [n1 []]. }
  rewrite Hd. assert (Hq : quiet id e (PendingCommands (W := W))).
  { apply quiet_bind; [apply quiet_db_fails|]. intros []; [by intros m|apply quiet_gets]. }
  destruct (Hq n Hn) as [H1 H2]. destruct (PendingCommands n) as [n1 [cmds|x| |]] eqn:E; [|done..]. cbn [fst] in H1, H2.
  rewrite <- H2. apply quiet_drain; [|done]. apply PendingCommands_spec in E as (_ & _ & Hp).
  intros c Hc ->. specialize (Hp c Hc). rewrite Hn in Hp. by injection Hp.
Qed.

(** A sequence of polls: what the cloud answered, and what fails in the database
    and changes in the world before each. *)
Fixpoint polls (n : node W) (rs : list (go (list Command) * list bool * W)) : node W :=
  match rs with
  | [] => n
  | (fetched, f, w) :: rs => polls (fst (poll fetched (set_world w (set_faults f n)))) rs
  end.

(** C5. The result of a command is sent once: when its row has left the status
    pending, no later poll changes the row or sends a report for it, whatever the
    cloud asks for and whatever fails. The request that carried the result is not
    repeated when it was lost, and a command that the cloud still lists as pending
    for that reason stays so. *)
Theorem result_sent_once n rs id e : ledger n !! id = Some e → status e ≠ StatusPending →
  ledger (polls n rs) !! id = Some e ∧ reports_of id (polls n rs) = reports_of id n.
Proof.
  revert n. induction rs as [|[[fetched f] w] rs IH]; intros n Hn He; [done|]. cbn [polls].
  assert (Hq : quiet id e (poll fetched)).
  { unfold poll. apply quiet_bind; [destruct fetched; try apply quiet_ret; apply quiet_fetch_all|].
    intros a. apply quiet_bind; [by apply quiet_drainPending|]. intros _. apply quiet_ret. }
  destruct (Hq (set_world w (set_faults f n)) Hn) as [H1 H2]. destruct (IH _ H1 He) as [H3 H4]. split; [done|].
  rewrite H4, H2. done.
Qed.

(** A command is acknowledged to the cloud only when its row is stored. *)
Theorem acked_is_stored cmds n n' acks : fetch_all cmds n = (n', Ret acks) →
  ∀ id, id ∈ acks → is_Some (ledger n' !! id).
Proof.
  revert n n' acks. induction cmds as [|c cmds IH]; intros n n' acks; simpl; [intros [= <- <-] id []%elem_of_nil|].
  intros H. apply io_bind_Ret_inv in H as (n1 & a & Ha & H). apply io_bind_Ret_inv in H as (n2 & l & Hl & H).
  injection H as <- <-. intros id [Hid|Hid]%elem_of_app; [|by eapply IH].
  assert (Hs : is_Some (ledger n1 !! id)).
  { unfold fetch_ack in Ha. apply io_bind_Ret_inv in Ha as (n3 & bad & _ & Ha). apply io_bind_Ret_inv in Ha as (n4 & x & _ & Ha).
    destruct (negb bad && x); [injection Ha as <- <-; by apply elem_of_nil in Hid|].
    apply io_bind_Ret_inv in Ha as (n5 & r & Hr & Ha). injection Ha as <- <-. destruct r as [u|]; [|by apply elem_of_nil in Hid].
    apply list_elem_of_singleton in Hid as ->. unfold attempt in Hr. destruct (Enqueue c n4) as [m [|x'| |]] eqn:Ee; try done. injection Hr as -> _.
    unfold Enqueue in Ee. apply io_bind_Ret_inv in Ee as (n6 & [] & _ & Ee); [done|]. unfold update in Ee. injection Ee as <-.
    destruct (ledger n6 !! ID c) eqn:El; cbn; [by rewrite El|]. rewrite lookup_insert_eq. by eexists. }
  destruct Hs as [e He]. exists e. destruct (quiet_fetch_all id e cmds n1 He) as [H _]. by rewrite Hl in H.
Qed.
(** A computation that sends no report and meets no fault when none is due. *)
Definition silent {A} (m : io (node W) A) : Prop := ∀ n,
  reported (fst (m n)) = reported n ∧ (faults n = [] → faults (fst (m n)) = []).

Lemma silent_bind {A B} (m : io (node W) A) (f : A → io (node W) B) : silent m → (∀ a, silent (f a)) → silent (m ≫= f).
Proof.
  intros Hm Hf n. unfold mbind, io_bind. destruct (Hm n) as [H1 H2]. destruct (m n) as [n1 [a|x| |]]; simpl in *; try done.
  destruct (Hf a n1) as [H3 H4]. split; [congruence|auto].
Qed.

Lemma silent_attempt {A} (m : io (node W) A) : silent m → silent (attempt m).
Proof. intros Hm n. unfold attempt. specialize (Hm n). destruct (m n) as [n1 [a|x| |]]; done. Qed.

Lemma silent_ret {A} (a : A) : silent (mret a).
Proof. by intros n. Qed.

Lemma silent_db : silent (db_fails (W := W)).
Proof. intros n. unfold db_fails. destruct (faults n) eqn:E; simpl; by rewrite ?E. Qed.

Lemma silent_setStatus id s res err : silent (setStatus (W := W) id s res err).
Proof. apply silent_bind; [apply silent_db|]. by intros [] n. Qed.

Lemma silent_run_handler c : silent (run_handler hs c).
Proof.
  intros n. unfold run_handler. destruct (handler_of hs (Type_ c)) as [h|]; [|done].
  unfold mbind, io_bind, update, attempt, on_world. by destruct (h (Payload c) _) as [w []].
Qed.

Lemma silent_Execute c : silent (Execute hs c).
Proof.
  assert (Hst : ∀ s, silent (r ← attempt (setStatus (W := W) (ID c) s [] ""); mret (match r with inl _ => true | inr _ => false end))).
  { intros s. apply silent_bind; [apply silent_attempt, silent_setStatus|]. intros r. apply silent_ret. }
  unfold Execute, acknowledge, isTerminal, mark_executing. apply silent_bind.
  - apply silent_bind; [apply silent_bind; [apply silent_db|by intros bad n]|]. intros [|]; [apply silent_ret|apply Hst].
  - intros [|]; simpl; [|apply silent_ret]. apply silent_bind; [apply Hst|].
    intros [|]; simpl; [|apply silent_ret]. apply silent_bind; [apply silent_run_handler|].
    intros []; (apply silent_bind; [apply silent_attempt, silent_setStatus|]; intros r; apply silent_ret).
Qed.

Lemma drainPending_one n n1 n2 c : PendingCommands n = (n1, Ret [c]) → Execute hs c n1 = (n2, Ret ()) →
  fst (drainPending hs n) = fst (reportResult (ID c) n2).
Proof.
  intros H1 H2. unfold drainPending, attempt, mbind, io_bind. rewrite H1. cbn [drain]. unfold mbind, io_bind. rewrite H2.
  by destruct (reportResult (ID c) n2) as [n3 [| | |]].
Qed.

Lemma reportResult_run (n : node W) id e : faults n = [] → ledger n !! id = Some e →
  fst (reportResult id n) = report (id, bool_decide (status e = StatusDone), result_json e, error_text e) n.
Proof. intros Hf He. unfold reportResult, mbind, io_bind, db_fails, gets, update. rewrite Hf. cbn. by rewrite He. Qed.

(** The write of the acknowledgement fails. *)
Lemma Execute_unacked n c e : faults n = [false; true] → ledger n !! ID c = Some e → terminal (status e) = false →
  Execute hs c n = (set_faults [] n, Ret ()).
Proof.
  intros Hf He Hs. assert (Ha : acknowledge c n = (set_faults [] n, Ret false)).
  { unfold acknowledge, isTerminal, attempt, setStatus, mbind, io_bind, db_fails, gets. rewrite Hf. cbn. by rewrite He, Hs. }
  unfold Execute. unfold mbind at 1, io_bind at 1. by rewrite Ha.
Qed.

Lemma PendingCommands_run (n : node W) f : faults n = false :: f → PendingCommands n = (set_faults f n, Ret (pending n)).
Proof. intros Hf. unfold PendingCommands, mbind, io_bind, db_fails. by rewrite Hf. Qed.

Lemma reports_of_report id b p t (n : node W) : reports_of id (report (id, b, p, t) n) = reports_of id n ++ [(id, b, p, t)].
Proof. unfold reports_of. cbn [reported report]. rewrite List.filter_app. simpl. by rewrite String.eqb_refl. Qed.

(** A database error at the acknowledgement makes the node report a failure for a
    command that it has not run: the row stays pending, the next poll runs the
    handler, and a second report says that the command is done. *)
Theorem failure_reported_then_done c n e w res :
  pending n = [c] → ledger n !! ID c = Some e → status e = StatusPending → faults n = [false; false; true] →
  handle hs (Type_ c) (Payload c) (world n) = (w, Ret res) →
  let n1 := fst (drainPending hs n) in let n2 := fst (drainPending hs n1) in
  ledger n1 = ledger n ∧ world n1 = world n ∧ reports_of (ID c) n1 = reports_of (ID c) n ++ [(ID c, false, result_json e, error_text e)] ∧
  world n2 = w ∧ reports_of (ID c) n2 = reports_of (ID c) n1 ++ [(ID c, true, res, "")].
Proof.
  intros Hp He Hs Hf Hh. pose proof (PendingCommands_run n _ Hf) as H1. rewrite Hp in H1.
  pose proof (Execute_unacked (set_faults [false; true] n) c e eq_refl He ltac:(by rewrite Hs)) as H2.
  cbv zeta. rewrite (drainPending_one _ _ _ _ H1 H2), (reportResult_run _ _ e) by done.
  rewrite bool_decide_false by (by rewrite Hs). set (m := report (ID c, false, result_json e, error_text e) (set_faults [] (set_faults [false; true] n))).
  split; [done|]. split; [done|]. split; [exact (reports_of_report _ _ _ _ (set_faults [] (set_faults [false; true] n)))|].
  assert (H3 : PendingCommands m = (m, Ret [c])) by (unfold PendingCommands, mbind, io_bind; cbn; unfold gets; change (pending m) with (pending n); by rewrite Hp).
  destruct (Execute_run hs c m e w (Ret res) eq_refl He ltac:(by rewrite Hs) Hh ltac:(by split)) as (n2 & E2 & Hw & Hl).
  destruct (silent_Execute c m) as [Hr Hf2]. rewrite E2 in Hr, Hf2. specialize (Hf2 eq_refl). cbn [fst] in Hr, Hf2.
  rewrite (drainPending_one _ _ _ _ H3 E2), (reportResult_run n2 (ID c) (outcome (Ret res) e)) by (done || by rewrite Hl, lookup_insert_eq).
  split; [exact Hw|]. rewrite reports_of_report. unfold reports_of at 1. by rewrite Hr.
Qed.
End Poll.

(** ** Concrete runs *)

Definition ack_fault : node (list string) := set_faults [false; false; true] queued.

Lemma failure_reported_then_done_witness :
  let n1 := fst (drainPending (handlers toy_services) ack_fault) in
  let n2 := fst (drainPending (handlers toy_services) n1) in
  reports_of "c1" n1 = [("c1", false, [], "")] ∧ world n2 = ["reload"] ∧
  exists r, reports_of "c1" n2 = reports_of "c1" n1 ++ [("c1", true, r, "")].
Proof.
  destruct (failure_reported_then_done (handlers toy_services) reload_command ack_fault
    {| command_type := "reload_dns_profile"; status := StatusPending; payload_json := []; result_json := []; error_text := "" |}
    ["reload"] [("reloaded", Bool true)]) as (_ & _ & H1 & H2 & H3); [reflexivity..|].
  split; [exact H1|]. split; [exact H2|]. eexists. exact H3.
Defined.

Definition executed : node (list string) := fst (Execute (handlers toy_services) reload_command queued).

Lemma result_sent_once_witness :
  reports_of "c1" (polls (handlers toy_services) executed [(Ret [reload_command], [true], []); (Err "timeout", [], [])]) = [].
Proof.
  assert (He : ∃ e, ledger executed !! "c1" = Some e ∧ status e ≠ StatusPending) by (eexists; split; [reflexivity|discriminate]).
  destruct He as (e & He & Hs).
  apply (result_sent_once (handlers toy_services) executed [(Ret [reload_command], [true], []); (Err "timeout", [], [])] "c1" e He Hs).
Defined.

Lemma acked_is_stored_witness : is_Some (ledger (fst (fetch_all [reload_command] empty_node)) !! "c1").
Proof.
  apply (acked_is_stored [reload_command] empty_node (fst (fetch_all [reload_command] empty_node)) ["c1"]); [reflexivity|left].
Defined.
