(* ===== verification/Feeds.v ===== *)
(** [internal/controlsync/blocklistsync.go]: the cloud feeds written to the
    [dns_blocklist] table, their content hashes, and the reload of the DNS
    blocklist that follows. *)
From stdpp Require Import gmap.
From S2P Require Import Prelude Blocklist GoString.

Local Open Scope string_scope.
Local Open Scope list_scope.

Definition blocklistSourceThreatFeeds : string := "threat_feeds".
Definition blocklistSourceCategoryMap : string := "domain_category_map".

(** ** Tables

    [dns_blocklist (domain PRIMARY KEY, category, source)] and
    [tunnel_config (key PRIMARY KEY, value)]. *)
Record entry := Entry { e_category : string; e_source : string }.

#[global] Instance entry_eq_dec : EqDecision entry.
Proof. solve_decision. Defined.

Record feed_db := FeedDb { dns_blocklist : gmap string entry; tunnel_config : gmap string string }.

Record threatFeedRow := FeedRow { Domain : string; Category : string }.

(** [INSERT OR IGNORE]: the primary key is the domain alone. *)
Definition insert_or_ignore (t : gmap string entry) (d : string) (e : entry) : gmap string entry :=
  match t !! d with Some _ => t | None => <[d := e]> t end.

Section Sync.
Context `{U : UnicodeTables}.

(** [hex(sha256(...))] of the bytes written to the hasher. *)
Variable sha256_hex : string → string.

Definition feed_domain (r : threatFeedRow) : string :=
  to_lower (trim_space (trim_suffix (Domain r) ".")).

Definition feed_category (fallbackCategory : string) (r : threatFeedRow) : string :=
  let cat := to_lower (trim_space (Category r)) in
  if String.eqb cat "" then fallbackCategory else cat.

Definition pair_of (r : threatFeedRow) : string :=
  feed_domain r +:+ "|" +:+ to_lower (trim_space (Category r)).

Definition newline : string := String "010" "".

Definition hashRows (rows : list threatFeedRow) : string :=
  let pairs := map pair_of (List.filter (λ r, negb (String.eqb (feed_domain r) "")) rows) in
  sha256_hex (String.concat "" (map (λ p, p +:+ newline) (sort_strings pairs))).

(** The statement loop of [applyBlocklistSource]; [ok n] says whether the
    [n]-th statement of the transaction succeeds. *)
Fixpoint insert_rows (ok : nat → bool) (n : nat) (t : gmap string entry) (source fallbackCategory : string)
    (rows : list threatFeedRow) : go (nat * gmap string entry) :=
  match rows with
  | [] => Ret (n, t)
  | r :: rows =>
      let d := feed_domain r in
      let cat := feed_category fallbackCategory r in
      if String.eqb d "" then insert_rows ok n t source fallbackCategory rows
      else if String.eqb cat "" then insert_rows ok n t source fallbackCategory rows
      else if ok n then insert_rows ok (S n) (insert_or_ignore t d (Entry cat source)) source fallbackCategory rows
      else Err ("insert " +:+ d)
  end.

Definition hash_key (source : string) : string := "blocklist_" +:+ source +:+ "_hash".

(** One transaction: an error before the commit rolls everything back. *)
Definition applyBlocklistSource (ok : nat → bool) (db : feed_db) (source : string)
    (rows : list threatFeedRow) (newHash fallbackCategory : string) : feed_db * option string :=
  if negb (ok 0) then (db, Some "begin") else
  if negb (ok 1) then (db, Some "delete") else
  let t := filter (λ kv : string * entry, e_source kv.2 ≠ source) (dns_blocklist db) in
  if negb (ok 2) then (db, Some "prepare") else
  match insert_rows ok 3 t source fallbackCategory rows with
  | Ret (n, t) =>
      if negb (ok n) then (db, Some "hash write") else
      if negb (ok (S n)) then (db, Some "commit") else
      (FeedDb t (<[hash_key source := newHash]> (tunnel_config db)), None)
  | Err e => (db, Some e)
  | Panic | Loop => (db, None)
  end.

(** [response]: status and decoded rows of the request; [read_ok]: the query
    for the last hash succeeds (its error is ignored and leaves [""]). *)
Definition syncBlocklistSource (ok : nat → bool) (read_ok : bool) (db : feed_db)
    (response : go (Z * go (list threatFeedRow))) (source fallbackCategory : string) : feed_db * option string :=
  match response with
  | Ret (status, body) =>
      if bool_decide (400 ≤ status)%Z then (db, Some "fetch status") else
      match body with
      | Ret rows =>
          let incomingHash := hashRows rows in
          let lastHash := if read_ok then default "" (tunnel_config db !! hash_key source) else "" in
          if String.eqb lastHash incomingHash then (db, None) else
          let '(db, err) := applyBlocklistSource ok db source rows incomingHash fallbackCategory in
          (db, match err with Some e => Some ("apply: " +:+ e) | None => None end)
      | _ => (db, Some "parse")
      end
  | _ => (db, Some "fetch")
  end.

(** What the two requests of a cycle return and which statements succeed. *)
Record cycle_input := Cycle {
  threat_ok : nat → bool;
  threat_read_ok : bool;
  threat_response : go (Z * go (list threatFeedRow));
  category_ok : nat → bool;
  category_read_ok : bool;
  category_response : go (Z * go (list threatFeedRow));
  reload_error : option string;  (** an error of the row iteration of the reload *)
}.

(** The order in which the reload reads the table. *)
Variable select : gmap string entry → list (string * entry).

Definition reload (db : feed_db) (b : Blocklist) (rows_err : option string) : Blocklist :=
  fst (Load b (Ret (map (λ kv : string * entry, Some (kv.1, e_category kv.2)) (select (dns_blocklist db)))) rows_err).

(** One cycle of [runBlocklistSync]. *)
Definition blocklist_cycle (c : cycle_input) (db : feed_db) (b : Blocklist) : feed_db * Blocklist :=
  let '(db, e1) := syncBlocklistSource (threat_ok c) (threat_read_ok c) db (threat_response c)
                     blocklistSourceThreatFeeds "malware" in
  let '(db, e2) := syncBlocklistSource (category_ok c) (category_read_ok c) db (category_response c)
                     blocklistSourceCategoryMap "" in
  let changed := bool_decide (e1 = None) || bool_decide (e2 = None) in
  (db, if changed then reload db b (reload_error c) else b).

(** ** The table after a transaction *)

(** The row that a feed stores for a domain: its first usable one. *)
Definition first_listed (source fallbackCategory : string) (rows : list threatFeedRow) (d : string) : option entry :=
  r ← List.find (λ r, String.eqb (feed_domain r) d && negb (String.eqb (feed_category fallbackCategory r) "")) rows;
  Some (Entry (feed_category fallbackCategory r) source).

Lemma insert_or_ignore_lookup t d e k :
  insert_or_ignore t d e !! k = match t !! k with Some x => Some x | None => if decide (d = k) then Some e else None end.
Proof.
  unfold insert_or_ignore. destruct (t !! d) eqn:E.
  - destruct (t !! k) eqn:Ek; [done|]. by destruct (decide (d = k)) as [->|]; [congruence|].
  - destruct (decide (d = k)) as [->|].
    + by rewrite lookup_insert_eq, E.
    + rewrite lookup_insert_ne by done. by destruct (t !! k).
Qed.

Lemma insert_rows_lookup ok source fb rows : ∀ n t n' t',
  insert_rows ok n t source fb rows = Ret (n', t') →
  ∀ d, d ≠ "" → t' !! d = match t !! d with Some e => Some e | None => first_listed source fb rows d end.
Proof.
  unfold first_listed. induction rows as [|r rows IH]; intros n t n' t'; simpl.
  { intros [= <- <-] d _. by destruct (t !! d). }
  destruct (String.eqb_spec (feed_domain r) "") as [E|E].
  { intros H d Hd. rewrite E. destruct (String.eqb_spec "" d); [congruence|]. simpl. by apply (IH n t n'). }
  destruct (String.eqb_spec (feed_category fb r) "") as [E'|E'].
  { intros H d Hd. rewrite andb_false_r. by apply (IH n t n'). }
  destruct (ok n); [|done]. intros H d Hd. rewrite (IH _ _ _ _ H d Hd), insert_or_ignore_lookup, andb_true_r.
  destruct (t !! d); [done|]. destruct (String.eqb_spec (feed_domain r) d) as [->|Hne].
  - by rewrite decide_True.
  - by rewrite decide_False.
Qed.

Lemma insert_rows_safe ok source fb rows : ∀ n t, safe (insert_rows ok n t source fb rows).
Proof.
  induction rows as [|r rows IH]; intros n t; simpl; [by split|].
  destruct (String.eqb _ _); [done|]. destruct (String.eqb _ _); [done|]. destruct (ok n); [done|by split].
Qed.

(** A feed transaction is exact: on success the table holds, for every
    domain, the row of another source if there was one, else the first usable
    row of the new feed, and nothing else of this source; the hash recorded is
    the new one; on any failure nothing changes. *)
Lemma applyBlocklistSource_table ok db source rows h fb db' err :
  applyBlocklistSource ok db source rows h fb = (db', err) →
  (err ≠ None → db' = db) ∧
  (err = None →
    tunnel_config db' = <[hash_key source := h]> (tunnel_config db) ∧
    ∀ d, d ≠ "" → dns_blocklist db' !! d =
      match dns_blocklist db !! d with
      | Some e => if decide (e_source e = source) then first_listed source fb rows d else Some e
      | None => first_listed source fb rows d
      end).
Proof.
  unfold applyBlocklistSource. destruct (ok 0%nat); [|by intros [= <- <-]].
  destruct (ok 1%nat); [|by intros [= <- <-]]. destruct (ok 2%nat); [|by intros [= <- <-]]. cbn [negb].
  pose proof (insert_rows_safe ok source fb rows 3 (filter (λ kv : string * entry, e_source kv.2 ≠ source) (dns_blocklist db))) as Hs.
  destruct (insert_rows _ _ _ _ _ _) as [[n t]|e| |] eqn:E; [|by intros [= <- <-]|by destruct Hs..].
  destruct (ok n); [|by intros [= <- <-]]. destruct (ok (S n)); [|by intros [= <- <-]].
  intros [= <- <-]. split; [done|]. intros _. split; [done|]. intros d Hd. simpl.
  rewrite (insert_rows_lookup _ _ _ _ _ _ _ _ E d Hd), map_lookup_filter.
  destruct (dns_blocklist db !! d) as [e|]; simpl; [|done].
  destruct (decide (e_source e = source)) as [He|He].
  - by rewrite option_guard_False by auto.
  - by rewrite option_guard_True by done.
Qed.

Lemma filter_perm {A} (f : A → bool) l k : l ≡ₚ k → List.filter f l ≡ₚ List.filter f k.
Proof.
  induction 1 as [|x l k H IH|x y l|l k m _ IH1 _ IH2]; simpl; [done| | |by etrans].
  - destruct (f x); [by f_equiv|done].
  - destruct (f x), (f y); done || by constructor.
Qed.

(** The content hash does not depend on the order in which the server sends
    the rows. *)
Lemma hashRows_order rows rows' : rows ≡ₚ rows' → hashRows rows = hashRows rows'.
Proof.
  intros H. unfold hashRows. do 3 f_equal. apply sort_strings_perm, fmap_Permutation.
  by apply filter_perm.
Qed.

Lemma first_listed_is_Some source fb rows d :
  is_Some (first_listed source fb rows d) ↔ ∃ r, r ∈ rows ∧ feed_domain r = d ∧ feed_category fb r ≠ "".
Proof.
  unfold first_listed. split.
  - intros [e He]. destruct (List.find _ rows) as [r|] eqn:E; [|done].
    apply find_some in E as [Hin Hr]. apply andb_prop in Hr as [H1 H2].
    exists r. rewrite list_elem_of_In. split; [done|]. apply String.eqb_eq in H1. split; [done|].
    by destruct (String.eqb_spec (feed_category fb r) "").
  - intros (r & Hin & Hd & Hc). destruct (List.find _ rows) as [r'|] eqn:E; [by eexists|].
    apply list_elem_of_In in Hin. eapply find_none in E; [|exact Hin]. simpl in E.
    rewrite Hd, String.eqb_refl in E. by destruct (String.eqb_spec (feed_category fb r) "").
Qed.

(** A response the node can use: a success status and a body that decodes. *)
Definition delivers (response : go (Z * go (list threatFeedRow))) (rows : list threatFeedRow) : Prop :=
  ∃ status, (status < 400)%Z ∧ response = Ret (status, Ret rows).

(** The feed has changed since its last recorded hash. *)
Definition moved (db : feed_db) (source : string) (rows : list threatFeedRow) : Prop :=
  default "" (tunnel_config db !! hash_key source) ≠ hashRows rows.

Lemma insert_rows_ok source fb rows : ∀ n t, ∃ n' t', insert_rows (λ _, true) n t source fb rows = Ret (n', t').
Proof.
  induction rows as [|r rows IH]; intros n t; simpl; [eauto|].
  destruct (String.eqb _ _); [done|]. destruct (String.eqb _ _); [done|]. apply IH.
Qed.

(** A synchronisation with no failing statement applies a feed that moved. *)
Lemma sync_applies db response source fb rows :
  delivers response rows → moved db source rows →
  ∃ db', syncBlocklistSource (λ _, true) true db response source fb = (db', None) ∧
    tunnel_config db' = <[hash_key source := hashRows rows]> (tunnel_config db) ∧
    ∀ d, d ≠ "" → dns_blocklist db' !! d =
      match dns_blocklist db !! d with
      | Some e => if decide (e_source e = source) then first_listed source fb rows d else Some e
      | None => first_listed source fb rows d
      end.
Proof.
  intros (status & Hs & ->) Hm. unfold syncBlocklistSource. rewrite bool_decide_false by lia. cbv zeta.
  destruct (String.eqb_spec (default "" (tunnel_config db !! hash_key source)) (hashRows rows)) as [E|_]; [done|].
  destruct (applyBlocklistSource _ _ _ _ _ _) as [db' err] eqn:E.
  assert (err = None) as ->.
  { unfold applyBlocklistSource in E. simpl in E. destruct (insert_rows_ok source fb rows 3
      (filter (λ kv : string * entry, e_source kv.2 ≠ source) (dns_blocklist db))) as (n & t & Hn).
    rewrite Hn in E. by injection E. }
  exists db'. split; [done|]. by apply (proj2 (applyBlocklistSource_table _ _ _ _ _ _ _ _ E)).
Qed.

(** A feed whose hash is the recorded one changes nothing. *)
Lemma sync_skips ok db response source fb rows :
  delivers response rows → tunnel_config db !! hash_key source = Some (hashRows rows) →
  syncBlocklistSource ok true db response source fb = (db, None).
Proof.
  intros (status & Hs & ->) Hh. unfold syncBlocklistSource. rewrite bool_decide_false by lia. cbv zeta.
  by rewrite Hh, String.eqb_refl.
Qed.

(** A cycle in which nothing fails. *)
Definition clean_cycle (r1 r2 : go (Z * go (list threatFeedRow))) : cycle_input :=
  Cycle (λ _, true) true r1 (λ _, true) true r2 None.

(** The table after a cycle that applied both feeds. *)
Lemma cycle_table db b r1 r2 rows1 rows2 :
  delivers r1 rows1 → delivers r2 rows2 →
  moved db blocklistSourceThreatFeeds rows1 → moved db blocklistSourceCategoryMap rows2 →
  ∃ db', blocklist_cycle (clean_cycle r1 r2) db b = (db', reload db' b None) ∧
    tunnel_config db' !! hash_key blocklistSourceThreatFeeds = Some (hashRows rows1) ∧
    tunnel_config db' !! hash_key blocklistSourceCategoryMap = Some (hashRows rows2) ∧
    ∀ d, d ≠ "" → dns_blocklist db' !! d =
      let threat := first_listed blocklistSourceThreatFeeds "malware" rows1 d in
      let category := first_listed blocklistSourceCategoryMap "" rows2 d in
      match dns_blocklist db !! d with
      | Some e =>
          if decide (e_source e = blocklistSourceThreatFeeds) then match threat with Some x => Some x | None => category end
          else if decide (e_source e = blocklistSourceCategoryMap) then category else Some e
      | None => match threat with Some x => Some x | None => category end
      end.
Proof.
  intros H1 H2 M1 M2. unfold blocklist_cycle, clean_cycle. simpl.
  destruct (sync_applies db r1 blocklistSourceThreatFeeds "malware" rows1 H1 M1) as (db1 & -> & C1 & T1).
  assert (M2' : moved db1 blocklistSourceCategoryMap rows2).
  { unfold moved. rewrite C1, lookup_insert_ne by done. exact M2. }
  destruct (sync_applies db1 r2 blocklistSourceCategoryMap "" rows2 H2 M2') as (db2 & -> & C2 & T2).
  exists db2. split; [done|]. rewrite C2, lookup_insert_eq, lookup_insert_ne, C1, lookup_insert_eq by done.
  split; [done|]. split; [done|]. intros d Hd. rewrite T2, T1 by done. cbv zeta.
  assert (Hsrc : ∀ s fb rows x, first_listed s fb rows d = Some x → e_source x = s).
  { intros s fb rows x. unfold first_listed. destruct (List.find _ rows); [|done]. by intros [= <-]. }
  destruct (dns_blocklist db !! d) as [e|]; [destruct (decide (e_source e = blocklistSourceThreatFeeds)) as [He|He]|].
  - destruct (first_listed blocklistSourceThreatFeeds "malware" rows1 d) as [x|] eqn:Ex; [|done].
    rewrite decide_False; [done|]. by rewrite (Hsrc _ _ _ _ Ex).
  - done.
  - destruct (first_listed blocklistSourceThreatFeeds "malware" rows1 d) as [x|] eqn:Ex; [|done].
    rewrite decide_False; [done|]. by rewrite (Hsrc _ _ _ _ Ex).
Qed.

(** A usable row of the feed names [d]. *)
Definition listed_by (fb : string) (rows : list threatFeedRow) (d : string) : Prop :=
  ∃ r, r ∈ rows ∧ feed_domain r = d ∧ feed_category fb r ≠ "".

Lemma reload_blocks db b name : (∀ t, select t ≡ₚ map_to_list t) →
  IsBlocked (reload db b None) name = true ↔
  norm_domain name ≠ "" ∧ ∃ d, norm_domain d ≠ "" ∧ parent (norm_domain name) (norm_domain d) ∧
    is_Some (dns_blocklist db !! d).
Proof.
  intros Hsel. unfold reload, Load. simpl.
  rewrite (IsBlocked_loaded _ _ name (loaded_rows _)).
  assert (Hin : ∀ d c, Some (d, c) ∈ map (λ kv : string * entry, Some (kv.1, e_category kv.2)) (select (dns_blocklist db)) ↔
    ∃ e, dns_blocklist db !! d = Some e ∧ e_category e = c).
  { intros d c. rewrite list_elem_of_fmap. setoid_rewrite (Hsel (dns_blocklist db)). split.
    - intros ([k e] & [= -> ->] & He%elem_of_map_to_list). eauto.
    - intros (e & He & <-). exists (d, e). split; [done|]. by apply elem_of_map_to_list. }
  unfold listed. setoid_rewrite Hin. split.
  - intros (Hn & p & cat & Hp & Hne & d & c & (e & He & <-) & <- & Hc). eauto 10.
  - intros (Hn & d & Hne & Hp & e & He). split; [done|]. exists (norm_domain d), (to_lower (e_category e)).
    split; [done|]. split; [done|]. exists d, (e_category e). eauto.
Qed.

(** C4. End to end, from the cloud feeds to the DNS answer: after a cycle in
    which both feeds were delivered and have changed and no database call failed,
    a name is blocked exactly when it, or a parent of it, is listed by the threat
    feed, listed with a category by the category feed, or was put in the table by
    another source; provided no domain of the threat feed was so far held by the
    category feed ([recategorised_domain_unblocked] otherwise). *)
Theorem feeds_enforced db b r1 r2 rows1 rows2 name :
  (∀ t, select t ≡ₚ map_to_list t) →
  delivers r1 rows1 → delivers r2 rows2 →
  moved db blocklistSourceThreatFeeds rows1 → moved db blocklistSourceCategoryMap rows2 →
  (∀ d e, dns_blocklist db !! d = Some e → e_source e = blocklistSourceCategoryMap → ¬ listed_by "malware" rows1 d) →
  ∃ db' b', blocklist_cycle (clean_cycle r1 r2) db b = (db', b') ∧
    (IsBlocked b' name = true ↔
     norm_domain name ≠ "" ∧ ∃ d, norm_domain d ≠ "" ∧ parent (norm_domain name) (norm_domain d) ∧
       (listed_by "malware" rows1 d ∨ listed_by "" rows2 d ∨
        ∃ e, dns_blocklist db !! d = Some e ∧ e_source e ≠ blocklistSourceThreatFeeds ∧ e_source e ≠ blocklistSourceCategoryMap)).
Proof.
  intros Hsel H1 H2 M1 M2 Hno.
  destruct (cycle_table db b r1 r2 rows1 rows2 H1 H2 M1 M2) as (db' & Hc & _ & _ & Ht).
  exists db', (reload db' b None). split; [done|]. rewrite (reload_blocks db' b name Hsel).
  assert (Hiff : ∀ d, norm_domain d ≠ "" → is_Some (dns_blocklist db' !! d) ↔
    listed_by "malware" rows1 d ∨ listed_by "" rows2 d ∨
    ∃ e, dns_blocklist db !! d = Some e ∧ e_source e ≠ blocklistSourceThreatFeeds ∧ e_source e ≠ blocklistSourceCategoryMap).
  { intros d Hd. rewrite Ht by (intros ->; done). cbv zeta.
    pose proof (first_listed_is_Some blocklistSourceThreatFeeds "malware" rows1 d) as F1.
    pose proof (first_listed_is_Some blocklistSourceCategoryMap "" rows2 d) as F2.
    assert (Hboth : is_Some (match first_listed blocklistSourceThreatFeeds "malware" rows1 d with
      | Some x => Some x | None => first_listed blocklistSourceCategoryMap "" rows2 d end) ↔
      listed_by "malware" rows1 d ∨ listed_by "" rows2 d).
    { unfold listed_by. rewrite <- F1, <- F2. destruct (first_listed _ _ rows1 d); [|naive_solver].
      split; [by left; eexists|]. intros _. by eexists. }
    destruct (dns_blocklist db !! d) as [e|] eqn:Ed; [|naive_solver].
    destruct (decide (e_source e = blocklistSourceThreatFeeds)) as [He|He]; [naive_solver|].
    destruct (decide (e_source e = blocklistSourceCategoryMap)) as [He'|He'].
    - specialize (Hno d e Ed He'). fold (listed_by "" rows2 d) in F2. rewrite F2. naive_solver.
    - split; [|by eexists]. intros _. right. right. eauto. }
  split; intros (Hn & d & Hd & Hp & Hl); (split; [done|]); exists d; (split; [done|]); (split; [done|]); by apply (Hiff d Hd).
Qed.

(** A domain that moves from the category feed to the threat feed is
    unblocked: the first transaction ignores its row because the old one still
    holds the key, the second deletes the old one, and both hashes are recorded,
    so that later cycles with the same feeds leave the domain out of the
    table. *)
Theorem recategorised_domain_unblocked db b r1 r2 rows1 rows2 d e :
  delivers r1 rows1 → delivers r2 rows2 →
  moved db blocklistSourceThreatFeeds rows1 → moved db blocklistSourceCategoryMap rows2 →
  d ≠ "" → dns_blocklist db !! d = Some e → e_source e = blocklistSourceCategoryMap →
  listed_by "malware" rows1 d → ¬ listed_by "" rows2 d →
  ∃ db' b', blocklist_cycle (clean_cycle r1 r2) db b = (db', b') ∧ dns_blocklist db' !! d = None ∧
    ∀ b'', fst (blocklist_cycle (clean_cycle r1 r2) db' b'') = db'.
Proof.
  intros H1 H2 M1 M2 Hd Ed He _ Hl2.
  destruct (cycle_table db b r1 r2 rows1 rows2 H1 H2 M1 M2) as (db' & Hc & C1 & C2 & Ht).
  exists db', (reload db' b None). split; [done|]. split.
  - rewrite Ht, Ed by done. cbv zeta. rewrite decide_False by (by rewrite He). rewrite decide_True by done.
    destruct (first_listed blocklistSourceCategoryMap "" rows2 d) as [x|] eqn:E; [|done].
    destruct Hl2. apply (first_listed_is_Some blocklistSourceCategoryMap). by rewrite E.
  - intros b''. unfold blocklist_cycle, clean_cycle. simpl.
    by rewrite (sync_skips _ _ _ _ _ _ H1 C1), (sync_skips _ _ _ _ _ _ H2 C2).
Qed.
End Sync.

(** ** Concrete runs *)

#[local] Existing Instance ascii_tables.

Definition toy_hash (s : string) : string := s.

Definition threat_rows : list threatFeedRow := [FeedRow "Phish.Example." ""; FeedRow " " "malware"].
Definition category_rows : list threatFeedRow := [FeedRow "bet.example" "Gambling"; FeedRow "plain.example" ""].

(** A seed row, and a domain the category feed held so far. *)
Definition seeded : feed_db :=
  FeedDb {["router.example" := Entry "doh_bypass" "safeswitch"]} ∅.
Definition recategorised : feed_db :=
  FeedDb {["phish.example" := Entry "browsing" blocklistSourceCategoryMap]} ∅.

Lemma feeds_enforced_witness :
  ∃ db' b', blocklist_cycle toy_hash map_to_list (clean_cycle (Ret (200%Z, Ret threat_rows)) (Ret (206%Z, Ret category_rows)))
      seeded NewBlocklist = (db', b') ∧
    IsBlocked b' "login.phish.example" = true.
Proof.
  destruct (feeds_enforced toy_hash map_to_list seeded NewBlocklist (Ret (200%Z, Ret threat_rows)) (Ret (206%Z, Ret category_rows))
    threat_rows category_rows "login.phish.example") as (db' & b' & Hc & Hb).
  - done.
  - by exists 200%Z.
  - by exists 206%Z.
  - by vm_compute.
  - by vm_compute.
  - intros d e Hd He. simpl in Hd. apply lookup_singleton_Some in Hd as [<- <-]. done.
  - exists db', b'. split; [exact Hc|]. apply Hb. split; [by vm_compute|]. exists "phish.example".
    split; [by vm_compute|]. split.
    + eapply parent_up; [by vm_compute|]. apply parent_self.
    + left. exists (FeedRow "Phish.Example." ""). split; [constructor|]. by split; vm_compute.
Defined.

Lemma recategorised_domain_unblocked_witness :
  ∃ db' b', blocklist_cycle toy_hash map_to_list (clean_cycle (Ret (200%Z, Ret threat_rows)) (Ret (206%Z, Ret category_rows)))
      recategorised NewBlocklist = (db', b') ∧ dns_blocklist db' !! "phish.example" = None.
Proof.
  destruct (recategorised_domain_unblocked toy_hash map_to_list recategorised NewBlocklist
    (Ret (200%Z, Ret threat_rows)) (Ret (206%Z, Ret category_rows)) threat_rows category_rows "phish.example"
    (Entry "browsing" blocklistSourceCategoryMap)) as (db' & b' & Hc & Hd & _).
  - by exists 200%Z.
  - by exists 206%Z.
  - by vm_compute.
  - by vm_compute.
  - done.
  - by vm_compute.
  - done.
  - exists (FeedRow "Phish.Example." ""). split; [constructor|]. by split; vm_compute.
  - intros (r & Hin & Hr & _). unfold category_rows in Hin.
    apply elem_of_cons in Hin as [->|Hin]; [by vm_compute in Hr|].
    apply list_elem_of_singleton in Hin as ->. by vm_compute in Hr.
  - exists db', b'. split; [exact Hc|exact Hd].
Defined.
