(* ===== verification/CloudClient.v ===== *)
(** [internal/controlsync/client.go], [bundlesync.go], [enforcementsync.go] and
    the bootstrap seed of [commandpoll.go]: requests with retries, the fetch of
    the policy bundle, and the reaction to enforcement rows. *)
From stdpp Require Import gmap.
From S2P Require Import Prelude Wire Blocklist Policy Resolver GoString.

Local Open Scope Z_scope.
Local Open Scope string_scope.
Local Open Scope list_scope.

Definition millisecond : duration := 1000000%Z.

(** ** One request, and the retries *)

Section Client.
Context {Body : Type}.

(** What [http.Client.Do] and [io.ReadAll] give: no response, a response whose
    body cannot be read, or a response. *)
Inductive exchange :=
| NoResponse (e : string)
| BrokenBody (status : Z) (e : string)
| Response (status : Z) (body : Body).

(** [doOnce]: 416 is returned, any other status from 400 on is an error. *)
Definition doOnce (x : exchange) : go (Body * Z) :=
  match x with
  | NoResponse e => Err ("http: " +:+ e)
  | BrokenBody _ e => Err ("read body: " +:+ e)
  | Response status body =>
      if bool_decide (400 ≤ status)%Z then
        if bool_decide (status = 416%Z) then Ret (body, status) else Err "http status"
      else Ret (body, status)
  end.

Definition delays : list duration := [0; 500 * millisecond; second; 2 * second]%Z.

(** The network as one call sees it: the outcome and the time taken by its
    [k]-th request, and the instant at which the caller's context is done. *)
Record network := Network { serve : nat → exchange; took : nat → duration; ctx_done : time }.

(** The loop of [doWithRetry]; the first component lists the times at which
    requests are sent. *)
Fixpoint attempts (net : network) (ds : list duration) (k : nat) (now : time) (lastErr : string)
    : list time * go (Body * Z) :=
  match ds with
  | [] => ([], Err ("all attempts failed: " +:+ lastErr))
  | delay :: ds =>
      if bool_decide (0 < delay)%Z && bool_decide (ctx_done net ≤ now + delay)%Z then ([], Err "context done")
      else
        let now := (now + Z.max 0 delay)%Z in
        match doOnce (serve net k) with
        | Ret r => ([now], Ret r)
        | Err e => let '(sent, r) := attempts net ds (S k) (now + took net k)%Z e in (now :: sent, r)
        | Panic => ([now], Panic)
        | Loop => ([now], Loop)
        end
  end.

Definition doWithRetry (net : network) (now : time) : list time * go (Body * Z) :=
  attempts net delays 0 now "".

Lemma doOnce_safe x : safe (doOnce x).
Proof. destruct x; simpl; repeat case_bool_decide; by split. Qed.

Lemma attempts_spec net : ∀ ds k now e sent r,
  attempts net ds k now e = (sent, r) →
  (length sent ≤ length ds)%nat ∧
  (∀ j, (k ≤ j < k + length sent - 1)%nat → ∃ e, doOnce (serve net j) = Err e) ∧
  match r with
  | Ret a => (0 < length sent)%nat ∧ doOnce (serve net (k + length sent - 1)) = Ret a
  | Err _ => ∀ j, (k ≤ j < k + length sent)%nat → ∃ e, doOnce (serve net j) = Err e
  | _ => False
  end.
Proof.
  induction ds as [|d ds IH]; intros k now e sent r; simpl.
  { intros [= <- <-]. simpl. split; [lia|]. split; intros; lia. }
  destruct (_ && _); [intros [= <- <-]; simpl; split; [lia|]; split; intros; lia|].
  pose proof (doOnce_safe (serve net k)) as [Hp Hl].
  destruct (doOnce (serve net k)) as [a|e'| |] eqn:Ek; [| |done..].
  - intros [= <- <-]. simpl. split; [lia|]. split; [intros; lia|]. split; [lia|].
    by replace (k + 1 - 1)%nat with k by lia.
  - destruct (attempts net ds (S k) _ e') as [sent' r'] eqn:E. intros [= <- <-].
    apply IH in E as (H1 & H2 & H3). simpl. split; [lia|]. split.
    + intros j Hj. destruct (decide (j = k)) as [->|]; [by exists e'|]. apply H2. lia.
    + destruct r' as [a|e''| |]; [|intros j Hj|done..].
      * destruct H3 as [H3 H4]. split; [lia|]. by replace (k + S (length sent') - 1)%nat with (S k + length sent' - 1)%nat by lia.
      * destruct (decide (j = k)) as [->|]; [by exists e'|]. apply H3. lia.
Qed.

(** A call sends at most four requests and stops at the first that
    succeeds: its result is that request's, every earlier one failed, and if it
    fails every request that was sent failed; it never panics or loops. *)
Theorem doWithRetry_first_success net now sent r :
  doWithRetry net now = (sent, r) →
  (length sent ≤ 4)%nat ∧
  (∀ j, (j < length sent - 1)%nat → ∃ e, doOnce (serve net j) = Err e) ∧
  match r with
  | Ret a => (0 < length sent)%nat ∧ doOnce (serve net (length sent - 1)) = Ret a
  | Err _ => ∀ j, (j < length sent)%nat → ∃ e, doOnce (serve net j) = Err e
  | _ => False
  end.
Proof.
  intros H. apply attempts_spec in H as (H1 & H2 & H3). split; [exact H1|].
  split; [intros j Hj; apply H2; simpl; lia|]. destruct r; [done|intros j Hj; apply H3; simpl; lia|done..].
Qed.

(** An answer that is a client error (other than 416) every time. *)
Lemma client_error_retry net now :
  (∀ k, ∃ status body, serve net k = Response status body ∧ (400 ≤ status < 500)%Z ∧ status ≠ 416%Z) →
  ∃ e, snd (doWithRetry net now) = Err e.
Proof.
  intros H. destruct (doWithRetry net now) as [sent r] eqn:E. simpl.
  apply attempts_spec in E as (_ & _ & Hr).
  destruct r as [a|e| |]; [|by exists e|done..]. destruct Hr as [_ Hr].
  destruct (H (0 + length sent - 1)%nat) as (st & b & Hs & Hst & Hne). rewrite Hs in Hr. simpl in Hr.
  by rewrite bool_decide_true, bool_decide_false in Hr by (done || lia).
Qed.
End Client.
Arguments exchange : clear implicits.
Arguments network : clear implicits.

(** ** The policy bundle *)

Section Bundles.
Context {Body Json : Type}.
Variable parse : Body → go Bundle.        (** [json.Unmarshal] of a response *)
Variable Marshal : Bundle → go Json.

Definition bundleRetryCount : nat := 3.

(** The retry loop of [fetchBundle]: [get i] is the result of its [i]-th
    [client.get]. *)
Fixpoint get_loop (get : nat → go (Body * Z)) (n i : nat) (last : go (Body * Z)) : go (Body * Z) :=
  match n with
  | O => last
  | S n =>
      match get i with
      | Ret (body, status) =>
          if bool_decide (status < 400)%Z then Ret (body, status) else get_loop get n (S i) (Ret (body, status))
      | x => get_loop get n (S i) x
      end
  end.

(** [current.Version == b.Version && len(...) == len(...) && ...Equal(...)] *)
Definition unchanged (current : go Bundle) (b : Bundle) : bool :=
  match current with
  | Ret c => String.eqb (Version c) (Version b) && bool_decide (length (Children c) = length (Children b)) &&
             bool_decide (ExpiresAt c = ExpiresAt b)
  | _ => false
  end.

(** [push]: the node is not a VPS relay and has a tunnel; the result says
    whether the tunnel was told to reconcile. *)
Definition fetchBundle (push : bool) (get : nat → go (Body * Z)) (now : time) (write_fails : bool)
    (r : Runtime Json) : Runtime Json * bool :=
  match get_loop get bundleRetryCount 0 (Err "") with
  | Ret (body, status) =>
      if bool_decide (400 ≤ status)%Z then (r, false) else
      match parse body with
      | Ret b =>
          if String.eqb (Version b) "" then (r, false)
          else if negb (is_zero (ExpiresAt b)) && bool_decide (ExpiresAt b < now)%Z then (r, false)
          else if unchanged (ActiveBundle r) b then (r, false)
          else
            match SwapBundle Marshal write_fails r (Some b) with
            | (r, Some _) => (r, false)
            | (r, None) => (r, push)
            end
      | _ => (r, false)
      end
  | _ => (r, false)
  end.

Definition bootstrapBundle (now : time) : Bundle :=
  MkBundle "bootstrap-local-v1" now (now + 24 * hour)%Z "bootstrap-local" [] [].

Definition seedBootstrapBundle (now : time) (write_fails : bool) (r : Runtime Json) : Runtime Json :=
  match ActiveBundle r with
  | Ret _ => r
  | _ => fst (SwapBundle Marshal write_fails r (Some (bootstrapBundle now)))
  end.

(** The bundle the cloud offers: the first of three responses below 400. *)
Definition offers (get : nat → go (Body * Z)) (b : Bundle) : Prop :=
  ∃ i body status, (i < bundleRetryCount)%nat ∧ get i = Ret (body, status) ∧ (status < 400)%Z ∧ parse body = Ret b ∧
    ∀ j body' status', (j < i)%nat → get j = Ret (body', status') → (400 ≤ status')%Z.

Lemma get_loop_first get : ∀ n i last k body status,
  (i ≤ k < i + n)%nat → get k = Ret (body, status) → (status < 400)%Z →
  (∀ j body' status', (i ≤ j < k)%nat → get j = Ret (body', status') → (400 ≤ status')%Z) →
  get_loop get n i last = Ret (body, status).
Proof.
  induction n as [|n IH]; intros i last k body status Hk Hg Hs Hf; [lia|]. simpl.
  destruct (decide (k = i)) as [->|Hne].
  - rewrite Hg. by rewrite bool_decide_true.
  - destruct (get i) as [[b' s']|e| |] eqn:Ei.
    + assert (400 ≤ s')%Z by (apply (Hf i b'); [lia|done]). rewrite bool_decide_false by lia.
      apply (IH _ _ k); [lia|done|done|]. intros j ?? Hj. apply Hf. lia.
    + apply (IH _ _ k); [lia|done|done|]. intros j ?? Hj. apply Hf. lia.
    + apply (IH _ _ k); [lia|done|done|]. intros j ?? Hj. apply Hf. lia.
    + apply (IH _ _ k); [lia|done|done|]. intros j ?? Hj. apply Hf. lia.
Qed.

(** A new, unexpired bundle that can be stored becomes the active one. *)
Lemma fetch_adopts push get now r b raw :
  offers get b → Version b ≠ "" → (ExpiresAt b = 0 ∨ now ≤ ExpiresAt b)%Z →
  unchanged (ActiveBundle r) b = false → Marshal b = Ret raw →
  snd (fetchBundle push get now false r) = push ∧ active (fst (fetchBundle push get now false r)) = Some b.
Proof.
  intros (i & body & status & Hi & Hg & Hs & Hp & Hf) Hv He Hu Hm. unfold fetchBundle.
  rewrite (get_loop_first get _ 0 _ i body status); [|lia|done|done|intros j ?? Hj; apply Hf; lia].
  rewrite bool_decide_false by lia. rewrite Hp. destruct (String.eqb_spec (Version b) ""); [done|].
  assert (negb (is_zero (ExpiresAt b)) && bool_decide (ExpiresAt b < now)%Z = false) as ->.
  { unfold is_zero. destruct He as [->|He]; [done|]. rewrite (bool_decide_false (ExpiresAt b < now)%Z) by lia.
    apply andb_false_r. }
  rewrite Hu. unfold SwapBundle. by rewrite Hm.
Qed.
End Bundles.

(** A pause travels from the cloud to the DNS answer: when the cloud
    offers a bundle that is not the active one, not expired and can be stored,
    and the child whose tunnel address is [ip] is locked or paused in it, then
    after the fetch every query from that address gets the block reply and
    contacts no server. *)
Theorem pause_reaches_dns {Body Json} `{U : UnicodeTables} parse (Marshal : Bundle → go Json) fwd push
    (get : nat → go (Body * Z)) now r b raw c ip bl ups query m q qs :
  offers parse get b → Version b ≠ "" → (ExpiresAt b = 0 ∨ now ≤ ExpiresAt b)%Z →
  unchanged (ActiveBundle r) b = false → Marshal b = Ret raw →
  child_for_ip b ip = Some c → LockEnabled c = true ∨ Mode c = "paused" →
  parseQuery query = Ret m → m_questions m = q :: qs →
  let r' := fst (fetchBundle parse Marshal push get now false r) in
  ∃ resp, Resolve fwd (MkResolver bl (Some r') ups) query ip = ([], Ret (Some resp)) ∧
    block_reply (bool_decide (q_type q = qTypeA)) query = Ret (Some resp).
Proof.
  intros Ho Hv He Hu Hm Hc Hp Hq Hqs r'.
  destruct (fetch_adopts parse Marshal push get now r b raw Ho Hv He Hu Hm) as [_ Ha].
  assert (Hpause : paused (MkResolver bl (Some r') ups) ip = true).
  { unfold paused. simpl. unfold InternetPausedForIP, r'. rewrite Ha, Hc.
    destruct Hp as [->| ->]; [done|]. apply orb_true_r. }
  destruct (blocked_resolution fwd (MkResolver bl (Some r') ups) query m q qs ip Hq Hqs (or_introl Hpause))
    as (resp & Hb & HR).
  exists resp. split; [|done]. by rewrite HR, Hpause.
Qed.

(** ** Enforcement rows *)

Record syncRow := SyncRow { row_ID : string; row_DedupeKey : string }.

Definition bundleCooldown : duration := (2 * second)%Z.
Definition dedupe_window : duration := (30 * second)%Z.

(** The variables of [runEnforcementSync]. *)
Record enforcement := Enforcement { dedupe : gmap string time; lastBundleApply : time }.

Definition row_key (row : syncRow) : string :=
  if String.eqb (row_DedupeKey row) "" then row_ID row else row_DedupeKey row.

(** The expiry loop over the recorded keys. *)
Definition forget_old (now : time) (d : gmap string time) : gmap string time :=
  filter (λ kv : string * time, ¬ (dedupe_window < time_sub now kv.2)%Z) d.

(** The row loop: the keys seen, and the rows not seen before. *)
Fixpoint dedupe_rows (now : time) (d : gmap string time) (rows : list syncRow) : gmap string time * list syncRow :=
  match rows with
  | [] => (d, [])
  | row :: rows =>
      let key := row_key row in
      match d !! key with
      | Some _ => dedupe_rows now d rows
      | None => let '(d, filtered) := dedupe_rows now (<[key := now]> d) rows in (d, row :: filtered)
      end
  end.

(** [pollAndEnforce] at time [now]: [rows] is the decoded response ([None] for
    any failure before), [applied] the time at which [fetchBundle] returns; the
    second component says whether the bundle is fetched. *)
Definition pollAndEnforce (s : enforcement) (rows : option (list syncRow)) (now applied : time) : enforcement * bool :=
  match rows with
  | None | Some [] => (s, false)
  | Some rows =>
      let '(d, filtered) := dedupe_rows now (forget_old now (dedupe s)) rows in
      if bool_decide (length filtered = 0%nat) then (Enforcement d (lastBundleApply s), false)
      else if bool_decide (time_sub now (lastBundleApply s) < bundleCooldown)%Z then (Enforcement d (lastBundleApply s), false)
      else (Enforcement d applied, true)
  end.

(** A key recorded less than 30 s ago is not forgotten. *)
Lemma forget_old_keeps now d k t : (0 ≤ now - t ≤ dedupe_window)%Z → d !! k = Some t → forget_old now d !! k = Some t.
Proof.
  intros Ht Hk. unfold forget_old. rewrite map_lookup_filter, Hk. simpl. rewrite option_guard_True; [done|].
  simpl. unfold time_sub, dedupe_window, second, max_duration, min_duration in *. lia.
Qed.

Lemma dedupe_rows_keeps now rows : ∀ d k t, d !! k = Some t → fst (dedupe_rows now d rows) !! k = Some t.
Proof.
  induction rows as [|row rows IH]; intros d k t Hk; simpl; [done|].
  destruct (d !! row_key row) eqn:E; [by apply IH|].
  assert (H : fst (dedupe_rows now (<[row_key row := now]> d) rows) !! k = Some t).
  { apply IH. rewrite lookup_insert_ne; [done|]. congruence. }
  by destruct (dedupe_rows now (<[row_key row := now]> d) rows).
Qed.

Lemma dedupe_rows_known now rows : ∀ d, (∀ row, row ∈ rows → is_Some (d !! row_key row)) → dedupe_rows now d rows = (d, []).
Proof.
  induction rows as [|row rows IH]; intros d Hd; simpl; [done|].
  destruct (Hd row) as [t Ht]; [constructor|]. rewrite Ht. apply IH. intros r Hr. apply Hd. by constructor.
Qed.

(** A sequence of polls. *)
Fixpoint polls (s : enforcement) (ps : list (list syncRow * time * time)) : enforcement * bool :=
  match ps with
  | [] => (s, false)
  | (rows, now, applied) :: ps =>
      let '(s, f) := pollAndEnforce s (Some rows) now applied in
      let '(s, fs) := polls s ps in (s, f || fs)
  end.

(** An enforcement that arrives during the cool-down is dropped: its key
    is recorded although the bundle is not fetched, so however often it is
    delivered again within the next 30 s, no poll fetches the bundle for it. *)
Theorem enforcement_lost_in_cooldown s row now applied ps :
  (time_sub now (lastBundleApply s) < bundleCooldown)%Z →
  dedupe s !! row_key row = None →
  Forall (λ p : list syncRow * time * time,
    (∀ r, r ∈ p.1.1 → row_key r = row_key row) ∧ (now ≤ p.1.2 ≤ now + dedupe_window)%Z) ps →
  snd (pollAndEnforce s (Some [row]) now applied) = false ∧
  snd (polls (fst (pollAndEnforce s (Some [row]) now applied)) ps) = false.
Proof.
  intros Hcool Hnew Hps. unfold pollAndEnforce at 1 2. simpl.
  assert (forget_old now (dedupe s) !! row_key row = None) as ->.
  { unfold forget_old. by rewrite map_lookup_filter, Hnew. }
  simpl. rewrite bool_decide_true by done. simpl. split; [done|].
  assert (Hd : <[row_key row:=now]> (forget_old now (dedupe s)) !! row_key row = Some now) by apply lookup_insert_eq.
  revert Hd. generalize (<[row_key row:=now]> (forget_old now (dedupe s))) as d.
  induction Hps as [|[[rows n] a] ps [Hk Hn] _ IH]; intros d Hd; simpl; [done|]. simpl in Hk, Hn.
  assert (Hd' : forget_old n d !! row_key row = Some now) by (apply forget_old_keeps; [lia|done]).
  destruct rows as [|r rows].
  - simpl. specialize (IH d Hd). by destruct (polls _ ps).
  - unfold pollAndEnforce. rewrite dedupe_rows_known by (intros r' Hr'; rewrite Hk by done; eauto).
    simpl. specialize (IH _ Hd'). by destruct (polls _ ps).
Qed.

(** ** Concrete runs *)

#[local] Existing Instance ascii_tables.

Lemma doWithRetry_first_success_witness :
  ∃ sent, doWithRetry (Network (λ k, if bool_decide (k < 2)%nat then NoResponse "refused" else Response 200 "ok")
      (λ _, second) (hour : time)) 0%Z = (sent, Ret ("ok", 200%Z)) ∧ (length sent ≤ 4)%nat ∧ length sent = 3%nat.
Proof.
  eexists. assert (H : doWithRetry (Network (λ k, if bool_decide (k < 2)%nat then NoResponse "refused" else Response 200 "ok")
    (λ _, second) (hour : time)) 0%Z = ([0; 1500000000; 3500000000]%Z, Ret ("ok", 200%Z))) by (vm_compute; reflexivity).
  split; [exact H|]. split; [exact (proj1 (doWithRetry_first_success _ _ _ _ H))|reflexivity].
Defined.

Definition cloud_bundle : Bundle := MkBundle "v2" 0 hour "sig" [] [sample_child].

(** The query of a paused child for a name nobody lists, the second of three
    requests being the one that succeeds. *)
Lemma pause_reaches_dns_witness :
  ∃ resp, Resolve (λ _ _, Err "unused")
    (MkResolver NewBlocklist (Some (fst (fetchBundle Ret (Ret : Bundle → go Bundle) true
       (λ i, if bool_decide (i = 0%nat) then Err "timeout" else Ret (cloud_bundle, 200%Z)) second false (NewRuntime None))))
       ["1.1.1.1:53"]) Wire.sample "10.10.0.5" = ([], Ret (Some resp)).
Proof.
  destruct (pause_reaches_dns Ret (Ret : Bundle → go Bundle) (λ _ _, Err "unused") true
    (λ i, if bool_decide (i = 0%nat) then Err "timeout" else Ret (cloud_bundle, 200%Z)) second (NewRuntime None)
    cloud_bundle cloud_bundle sample_child "10.10.0.5" NewBlocklist ["1.1.1.1:53"] Wire.sample
    (Msg 258 256 1 [Question "x.bad" 1 1] Wire.sample) (Question "x.bad" 1 1) []) as (resp & HR & _).
  - exists 1%nat, cloud_bundle, 200%Z. split; [unfold bundleRetryCount; lia|]. split; [done|]. split; [lia|]. split; [done|].
    intros j b' s' Hj. by destruct j; [|lia].
  - done.
  - right. by vm_compute.
  - done.
  - done.
  - by vm_compute.
  - right. done.
  - by vm_compute.
  - done.
  - exists resp. exact HR.
Defined.

Definition cooling : enforcement := Enforcement ∅ (100 * second)%Z.

Lemma enforcement_lost_in_cooldown_witness :
  snd (polls (fst (pollAndEnforce cooling (Some [SyncRow "r1" ""]) (101 * second) (101 * second)))
    [([SyncRow "r1" ""], 104 * second, 104 * second); ([SyncRow "r2" "r1"], 130 * second, 130 * second)]%Z) = false.
Proof.
  apply (enforcement_lost_in_cooldown cooling (SyncRow "r1" "") (101 * second) (101 * second)
    [([SyncRow "r1" ""], 104 * second, 104 * second); ([SyncRow "r2" "r1"], 130 * second, 130 * second)]%Z).
  - by vm_compute.
  - done.
  - constructor; [|constructor; [|constructor]].
    + split; [intros r Hr; by apply list_elem_of_singleton in Hr as ->|by vm_compute].
    + split; [intros r Hr; by apply list_elem_of_singleton in Hr as ->|by vm_compute].
Defined.
