(* ===== verification/Node.v ===== *)
(** [internal/app/wiring.go]: what a node does when its bundle changes. The
    policy, the firewall, the tunnel and the DNS server as they share one
    database and one machine. *)
From stdpp Require Import gmap.
From S2P Require Import Prelude Os Net Wire Blocklist Policy Resolver WgConf Tunnel Firewall CloudClient GoString.

Local Open Scope string_scope.
Local Open Scope list_scope.

(** ** The node *)

Section Node.
Context {W : Type} `{Machine W} `{IPv6Text} {Body Json : Type}.
Context (parse : Body → go Bundle) (Marshal : Bundle → go Json).
Context (range : gmap string string → list (string * string)) (wgKeyFile : string) (devMode isRelay : bool).
Context (rp : option RouteProfileReader).

(** [box]: the tables of the tunnel and the machine, which the firewall shares. *)
Record node := Node { runtime : Runtime Json; box : tunnel W }.

(** The query of [resolveIP]: [replace(allowed_ip, '/32', '')]; an address that
    parses has it at its end only. *)
Definition peer_ip (t : tunnel W) (key : string) : option string := (λ r, cleanIP (allowed_ip r)) <$> tunnel_peers t !! key.

Definition firewall_sync (n : node) : node :=
  Node (runtime n) (fst (lift (SyncFromBundle devMode rp (peer_ip (box n)) (ActiveBundle (runtime n))) (box n))).

Definition tunnel_sync (now : string) (n : node) : node :=
  Node (runtime n) (fst (TriggerSync range wgKeyFile devMode (ActiveBundle (runtime n)) now (box n))).

(** The callback that wiring.go sets. *)
Definition on_swap (now : string) (n : node) : node :=
  if isRelay then n else tunnel_sync now (firewall_sync n).

(** The callback has run when [swaps] has moved. *)
Definition after_swap (now : string) (r : Runtime Json) (n : node) : node :=
  let n' := Node r (box n) in
  if decide (swaps r = swaps (runtime n)) then n' else on_swap now n'.

(** [fetchBundle] with the callback and the push to the tunnel that follows. *)
Definition fetch (get : nat → go (Body * Z)) (clock : time) (write_fails : bool) (now : string) (n : node) : node :=
  let '(r, push) := fetchBundle parse Marshal (negb isRelay) get clock write_fails (runtime n) in
  let n := after_swap now r n in
  if push then tunnel_sync now n else n.

(** [update_policy], and the bundle of the first command poll. *)
Definition swap (write_fails : bool) (now : string) (b : option Bundle) (n : node) : node :=
  after_swap now (fst (SwapBundle Marshal write_fails (runtime n) b)) n.

Definition seed (clock : time) (write_fails : bool) (now : string) (n : node) : node :=
  after_swap now (seedBootstrapBundle Marshal clock write_fails (runtime n)) n.

(** The commands on peers (handlers.go): each ends in a synchronisation of the
    tunnel, unless it fails before or finds nothing to do. *)
Definition add_peer_command (now key mac comment : string) (n : node) : node :=
  Node (runtime n) (fst (AddPeer range wgKeyFile devMode (ActiveBundle (runtime n)) now key mac comment (box n))).
Definition remove_peer_command (now key : string) (n : node) : node :=
  Node (runtime n) (fst (RemovePeer range wgKeyFile devMode (ActiveBundle (runtime n)) now key (box n))).

(** The command [pause_device]; [unpause_device] and [set_route_profile] end in a
    [firewall_sync], the latter with the profiles it stored. *)
Definition pause_command (mac : string) (n : node) : node :=
  Node (runtime n) (fst (lift (PauseDevice devMode mac) (box n))).

(** The tickers of the firewall (30 s) and of the tunnel (60 s), a fetch that
    finds nothing new, and the commands on peers. *)
Inductive tick : node → node → Prop :=
| firewall_tick n : tick n (firewall_sync n)
| tunnel_tick now n : tick n (tunnel_sync now n)
| idle_fetch get clock write_fails now n :
    swaps (runtime (fetch get clock write_fails now n)) = swaps (runtime n) → tick n (fetch get clock write_fails now n)
| added now key mac comment n : tick n (add_peer_command now key mac comment n)
| removed now key n : tick n (remove_peer_command now key n).
End Node.

(** What changes the node: ticks, fetches, the commands, and the database
    beginning or ceasing to fail. Each step may find other route profiles. Calls
    of the firewall and of the tunnel do not overlap here. *)
Inductive node_step {W : Type} `{Machine W} `{IPv6Text} {Body Json : Type} (parse : Body → go Bundle) (Marshal : Bundle → go Json)
    (range : gmap string string → list (string * string)) (wgKeyFile : string) (devMode isRelay : bool) :
    node (W := W) (Json := Json) → node (W := W) (Json := Json) → Prop :=
| ticked rp n n' : tick parse Marshal range wgKeyFile devMode isRelay rp n n' → node_step parse Marshal range wgKeyFile devMode isRelay n n'
| fetched rp get clock write_fails now n :
    node_step parse Marshal range wgKeyFile devMode isRelay n (fetch parse Marshal range wgKeyFile devMode isRelay rp get clock write_fails now n)
| swapped rp write_fails now b n :
    node_step parse Marshal range wgKeyFile devMode isRelay n (swap Marshal range wgKeyFile devMode isRelay rp write_fails now b n)
| seeded rp clock write_fails now n :
    node_step parse Marshal range wgKeyFile devMode isRelay n (seed Marshal range wgKeyFile devMode isRelay rp clock write_fails now n)
| device_paused mac n : node_step parse Marshal range wgKeyFile devMode isRelay n (pause_command devMode mac n)
| database f n : node_step parse Marshal range wgKeyFile devMode isRelay n (Node (runtime n) (set_faults f (box n))).
Arguments node : clear implicits.
Arguments Node {_ _} _ _.
Arguments runtime {_ _} _.
Arguments box {_ _} _.

(** ** What the tunnel leaves alone *)

(** Commands and files of the tunnel do not touch the filter table, and a rule
    appended to the per-child chain leaves FORWARD as it is. *)
Record apart {W} `{Machine W} (fw : W → chains) : Prop := {
  ap_append w spec : forward (fw (fst (exec w ("iptables" :: "-A" :: SSChain :: spec)))) = forward (fw w);
  ap_exec_in w argv s : head argv ≠ Some "iptables" → fw (fst (exec_in w argv s)) = fw w;
  ap_mkdir w p : fw (fst (mkdir_all w p)) = fw w;
  ap_write w p s : fw (fst (write_file w p s)) = fw w;
  ap_chmod w p m : fw (fst (chmod w p m)) = fw w;
  ap_rename w p q : fw (fst (rename w p q)) = fw w;
  ap_remove w p : fw (remove_file w p) = fw w;
  ap_temp w p : fw (fst (create_temp w p)) = fw w }.

Section Apart.
Context {W : Type} `{Machine W} `{IPv6Text} (fw : W → chains) (valid : list string → Prop).
Hypothesis Hfw : iptables_laws fw valid.
Hypothesis Hap : apart fw.
Context (range : gmap string string → list (string * string)) (wgKeyFile : string) (devMode : bool) (c : chains) (quiet : Prop).

Definition still (w : W) : Prop := fw w = c.

Lemma still_command argv : head argv ≠ Some "iptables" → preserves still (command argv).
Proof. intros Hh w Hw. unfold still, command in *. pose proof (other_law _ _ Hfw w argv Hh). destruct (exec w argv). simpl in *. congruence. Qed.
Lemma still_nat t args : t ≠ "filter" → preserves still (command ("iptables" :: "-t" :: t :: args)).
Proof. intros Ht w Hw. unfold still, command in *. pose proof (table_law _ _ Hfw w t args Ht). destruct (exec w _). simpl in *. congruence. Qed.
Lemma still_must argv e : preserves still (command argv) → preserves still (must argv e).
Proof. intros Hc. apply preserves_bind; [done|intros r]. destruct (ok r); [apply preserves_ret|apply preserves_fail]. Qed.
Lemma still_in argv s : head argv ≠ Some "iptables" → preserves still (command_in argv s).
Proof. intros Hh w Hw. unfold still, command_in in *. pose proof (ap_exec_in _ Hap w argv s Hh). destruct (exec_in w argv s). simpl in *. congruence. Qed.
Lemma still_step f e : (∀ w, fw (fst (f w)) = fw w) → preserves still (step_io f e).
Proof. intros Hf w Hw. unfold still, step_io in *. specialize (Hf w). destruct (f w) as [w' b]. simpl in *. congruence. Qed.
Lemma still_temp (p e : string) : preserves still (λ w : W, let '(w, t) := create_temp w p in (w, match t with Some t => Ret t | None => Err e end)).
Proof. intros w Hw. unfold still in *. pose proof (ap_temp _ Hap w p). destruct (create_temp w p). simpl in *. congruence. Qed.
Lemma still_remove p : preserves still (λ w : W, (remove_file w p, Ret ())).
Proof. intros w Hw. unfold still in *. simpl. by rewrite (ap_remove _ Hap). Qed.
Lemma still_read p (e : string) : preserves still (λ w : W, (w, match read_file w p with Some s => Ret s | None => Err e end)).
Proof. by intros w. Qed.

Ltac still := repeat first
  [ progress (cbv zeta)
  | solve [simple apply preserves_ret | simple apply preserves_fail | simple apply preserves_gets | eauto 2 with io]
  | simple apply still_must
  | simple apply still_temp | simple apply still_remove | simple apply still_read
  | simple apply still_in; done
  | simple apply still_nat; done
  | simple apply still_command; done
  | simple apply still_step; intros; apply Hap
  | simple apply preserves_bind; [|intros]
  | simple apply preserves_ignore
  | simple apply preserves_attempt
  | progress intros
  | match goal with |- preserves _ (match ?x with _ => _ end) => destruct x end ].

Lemma still_natIface : preserves still WgConf.natIface.
Proof. unfold WgConf.natIface, WgConf.detectDefaultIface. still. Qed.
Lemma still_add_peers l : ∀ live, preserves still (add_peers range l live).
Proof. induction l as [|p l IH]; intros live; cbn [add_peers]; still; apply IH. Qed.
Lemma still_remove_orphans keys l : preserves still (remove_orphans keys l).
Proof. induction l as [|[k i] l IH]; cbn [remove_orphans]; still. Qed.
Hint Resolve still_natIface still_add_peers still_remove_orphans : io.

Lemma still_Apply now iface peers : preserves still (Apply range devMode now iface peers).
Proof.
  unfold Apply, writeConf, buildConf, ensureInterfaceNonDisruptive, setPrivateKeyViaFile, EnsureNAT, syncPeersDiff, readLivePeers, syncconfFallback.
  still.
Qed.

(** If [quiet], moreover, no database call is going to fail. *)
Definition calm (t : tunnel W) : Prop := (quiet → faults t = []) ∧ still (machine t).

Lemma calm_lift {A} (m : io W A) : preserves still m → preserves calm (lift m).
Proof. intros Hm t [Hf Ht]. specialize (Hm _ Ht). unfold lift. by destruct (m (machine t)). Qed.
Lemma calm_db : preserves calm (@db_fails W).
Proof.
  intros t [Hf Ht]. unfold db_fails. destruct (faults t) as [|b l] eqn:E; [split; [by intros _|done]|].
  split; [|done]. intros Hq. by specialize (Hf Hq).
Qed.
Lemma calm_config f : preserves calm (update (W := W) (λ t, set_config (f t) t)).
Proof. by intros t. Qed.
Lemma calm_peers f : preserves calm (peers_io (W := W) f).
Proof. by intros t. Qed.
Hint Resolve calm_db calm_config calm_peers : io.

Lemma calm_upsert_config l : preserves calm (upsert_config (W := W) l).
Proof. induction l as [|[k v] l IH]; cbn [upsert_config]; io_quiet. Qed.
Hint Resolve calm_upsert_config : io.

Lemma calm_writeKey p k : preserves calm (lift (writeCanonicalPrivateKey p k)).
Proof. apply calm_lift. unfold writeCanonicalPrivateKey. still. Qed.
Lemma calm_pubkey k : preserves calm (lift (derivePublicKey k)).
Proof. apply calm_lift. unfold derivePublicKey. still. Qed.
Lemma calm_Apply now iface peers : preserves calm (lift (Apply range devMode now iface peers)).
Proof. apply calm_lift, still_Apply. Qed.
Hint Resolve calm_writeKey calm_pubkey calm_Apply : io.

Lemma calm_apply now : preserves calm (apply_state range wgKeyFile devMode now).
Proof. unfold apply_state, loadPeers, loadInterfaceConfig, loadCanonicalPrivateKey, key_path, mirrorWGKeysToDB. io_quiet. Qed.
Lemma calm_upsertPeer k ip mac co : preserves calm (upsertPeer (W := W) k ip mac co).
Proof. unfold upsertPeer. io_quiet. Qed.
Hint Resolve calm_apply calm_upsertPeer : io.
Lemma calm_upsert_children cs : ∀ keys, preserves calm (upsert_children (W := W) cs keys).
Proof. induction cs as [|ch cs IH]; intros keys; cbn [upsert_children]; io_quiet. Qed.
Lemma calm_delete_peers keys : preserves calm (delete_peers (W := W) keys).
Proof. induction keys as [|k keys IH]; cbn [delete_peers]; io_quiet. Qed.
Hint Resolve calm_upsert_children calm_delete_peers : io.

(** A reconciliation of the tunnel leaves the filter table as it is. *)
Lemma calm_sync active now : preserves calm (sync range wgKeyFile devMode active now).
Proof. unfold sync. io_quiet. Qed.
Hint Resolve calm_sync : io.

(** So do the commands on peers. *)
Lemma calm_AddPeer active now k mac co : preserves calm (AddPeer range wgKeyFile devMode active now k mac co).
Proof. unfold AddPeer, allocateIP. io_quiet. Qed.
Lemma calm_RemovePeer active now k : preserves calm (RemovePeer range wgKeyFile devMode active now k).
Proof. unfold RemovePeer. io_quiet. Qed.
End Apart.

(** ** The commands on peers, under a bundle *)

Section Peers.
Context {W : Type} `{Machine W} `{IPv6Text} (range : gmap string string → list (string * string)) (wgKeyFile : string) (devMode : bool).
Context (b : Bundle) (now : string) (t : tunnel W).
Hypotheses (Hb : is_bootstrap b = false) (Hg : good_bundle b) (Hf : faults t = []) (Ht : tunnel_peers t = bundle_table b).

Lemma ignore_fst {A} (m : io (tunnel W) A) u : fst (ignore m u) = fst (m u).
Proof. unfold ignore, attempt, mbind, io_bind. by destruct (m u) as [u' []]. Qed.

(** A reconciliation gives back the table of the bundle, whatever was changed. *)
Lemma resynced f : tunnel_peers (fst (ignore (sync range wgKeyFile devMode (Ret b) now) (set_peers f t))) = bundle_table b.
Proof. rewrite ignore_fst. by apply sync_exact. Qed.

Lemma AddPeer_table key mac comment : tunnel_peers (fst (AddPeer range wgKeyFile devMode (Ret b) now key mac comment t)) = bundle_table b.
Proof.
  unfold AddPeer, allocateIP, upsertPeer, peers_io, update. destruct (validateWireGuardKey key "public"); try done.
  unfold mbind, io_bind, mret, io_ret, gets, db_fails, fail. rewrite Hf. cbn beta iota. case_match; [done|]. rewrite Hf. cbn beta iota.
  destruct (List.find (A := Z) _ _) as [z|]; [|done]. cbn beta iota. destruct (parse_cidr _); [|done]. rewrite Hf. cbn beta iota.
  pose proof (resynced (insert_or_replace key {| allowed_ip := normalizeAllowedIP (candidate z +:+ "/32"); device_mac := mac; Tunnel.comment := comment |}
    (tunnel_peers t))) as Hr. by destruct (ignore _ _) as [u []].
Qed.

Lemma RemovePeer_table key : tunnel_peers (fst (RemovePeer range wgKeyFile devMode (Ret b) now key t)) = bundle_table b.
Proof. unfold RemovePeer, peers_io, update, mbind, io_bind, db_fails. rewrite Hf. apply resynced. Qed.
End Peers.

(** ** What the firewall leaves alone *)

Lemma appended_forward {W} `{Machine W} fw (rules : list Rule) (w : W) : apart fw → Forall appends rules →
  forward (fw (fst (run_rules rules w))) = forward (fw w).
Proof.
  intros Hap Ha. revert w. assert (Hall : ∀ w0, preserves (λ v, forward (fw v) = forward (fw w0)) (run_rules (W := W) rules)); [|intros w; by apply (Hall w)].
  intros w0. induction Ha as [|r rules Hr _ IH]; cbn [run_rules]; [apply preserves_ret|].
  apply preserves_bind; [|intros; exact IH]. apply preserves_ignore, preserves_bind; [|intros v; destruct (ok v); eauto with io].
  intros v Hv. unfold command. rewrite Hr. pose proof (ap_append _ Hap v (spec_of r)) as Hl. destruct (exec v _). simpl in *. congruence.
Qed.

Lemma Sync_forward {W} `{Machine W} fw valid iface rp f cs (w : W) :
  iptables_laws fw valid → apart fw → steady (W := W) iface →
  valid conntrack_spec → valid (exit_spec iface) → valid jump_spec →
  forward (fw (fst (Sync false rp f cs w))) = ensured iface (forward (fw w)).
Proof.
  intros Hfw Hap Hst Hv1 Hv2 Hv3.
  destruct (ensure_base_run fw valid Hfw iface w Hst Hv1 Hv2 Hv3) as (w1 & E1 & Hw1).
  destruct (flush_law _ _ Hfw w1) as (w2 & r2 & E2 & Hr2 & Hw2); [by rewrite Hw1|].
  unfold Sync, mbind, io_bind. rewrite E1. unfold runIPTables, must, ChainFlushArgs, mbind, io_bind, command. rewrite E2, Hr2.
  unfold mret, io_ret. rewrite apply_children_rules, appended_forward, Hw2, Hw1; [done..|].
  apply Forall_concat, Forall_map, Forall_forall. intros ch _. apply child_rules_appends.
Qed.

Lemma PauseDevice_forward {W} `{Machine W} fw valid iface mac (w : W) :
  iptables_laws fw valid → apart fw → steady (W := W) iface →
  valid conntrack_spec → valid (exit_spec iface) → valid jump_spec →
  forward (fw (fst (PauseDevice false mac w))) = ensured iface (forward (fw w)).
Proof.
  intros Hfw Hap Hst Hv1 Hv2 Hv3.
  destruct (ensure_base_run fw valid Hfw iface w Hst Hv1 Hv2 Hv3) as (w1 & E1 & Hw1).
  unfold PauseDevice, mbind, io_bind. rewrite E1, appended_forward, Hw1; [done..|]. by repeat constructor.
Qed.

(** ** The policy *)

Section Swaps.
Context {Body Json : Type} (parse : Body → go Bundle) (Marshal : Bundle → go Json).

Definition adopted (b : Bundle) (r r' : Runtime Json) : Prop :=
  active r' = Some b ∧ onSwap r' = true ∧ swaps r' = S (swaps r).

Lemma SwapBundle_cases wf r b : onSwap r = true →
  (∃ e, SwapBundle Marshal wf r b = (r, Some e)) ∨
  ∃ b' r', b = Some b' ∧ SwapBundle Marshal wf r b = (r', None) ∧ adopted b' r r'.
Proof.
  intros Ho. unfold SwapBundle. destruct b as [b|]; [|left; by eexists]. destruct (Marshal b); [|left; by eexists..].
  destruct wf; [left; by eexists|]. right. eexists _, _. split; [done|]. split; [done|]. by rewrite Ho.
Qed.

Lemma fetchBundle_cases push get clock wf r : onSwap r = true →
  fetchBundle parse Marshal push get clock wf r = (r, false) ∨
  ∃ b r', fetchBundle parse Marshal push get clock wf r = (r', push) ∧ adopted b r r'.
Proof.
  intros Ho. unfold fetchBundle. destruct (get_loop _ _ _ _) as [[body status]|e| |]; [|by left..].
  case_bool_decide; [by left|]. destruct (parse body) as [b|e| |]; [|by left..].
  destruct (String.eqb (Version b) ""); [by left|]. destruct (negb _ && _); [by left|]. destruct (unchanged _ b); [by left|].
  destruct (SwapBundle_cases wf r (Some b) Ho) as [[er ->]|(b' & r' & [= <-] & -> & Ha)]; [by left|]. right. by exists b, r'.
Qed.

Lemma seed_cases clock wf r : onSwap r = true →
  seedBootstrapBundle Marshal clock wf r = r ∨ ∃ b, adopted b r (seedBootstrapBundle Marshal clock wf r).
Proof.
  intros Ho. unfold seedBootstrapBundle. destruct (ActiveBundle r); [by left| | |];
    (destruct (SwapBundle_cases wf r (Some (bootstrapBundle clock)) Ho) as [[er ->]|(b' & r' & _ & -> & Ha)]; [by left|right; by exists b']).
Qed.
End Swaps.

(** ** The node after a bundle *)

Section Enforced.
Context {W : Type} `{Machine W} `{IPv6Text} {Body Json : Type}.
Context (parse : Body → go Bundle) (Marshal : Bundle → go Json).
Context (range : gmap string string → list (string * string)) (wgKeyFile : string) (rp : option RouteProfileReader).
Context (fw : W → chains) (valid : list string → Prop) (matches : list string → packet → bool) (host : string → Prop) (iface : string).

(** The machine of a node, as long as the upstream interface is configured. *)
Record environment : Prop := {
  env_laws : iptables_laws fw valid;
  env_apart : apart fw;
  env_matching : matching matches host;
  env_steady : steady (W := W) iface;
  env_conntrack : valid conntrack_spec;
  env_exit : valid (exit_spec iface);
  env_jump : valid jump_spec }.

(** A bundle whose children have their own tunnel address each. *)
Record proper (b : Bundle) : Prop := {
  pr_good : good_bundle b;
  pr_signed : is_bootstrap b = false;
  pr_inside : Forall (λ c, has_prefix (Policy.WireguardIP c) "10.10.0." = true) (Children b);
  pr_hosts : Forall (λ c, host (Policy.WireguardIP c)) (Children b);
  pr_valid : Forall valid (all_rules rp (λ _, None) (map child_of (Children b))) }.

Abbreviation chains_of := (λ n : node W Json, fw (machine (box n))).
Abbreviation address := (λ c, cleanIP (Policy.WireguardIP c)).

(** What it means that the node enforces [b]. *)
Record enforces (b : Bundle) (n : node W Json) : Prop := {
  en_active : active (runtime n) = Some b;
  en_peers : tunnel_peers (box n) = bundle_table b;
  en_packets pre c post p : Children b = pre ++ c :: post → (address c ∉ map address pre) → crosses (map address pre) (address c) p →
    verdict matches (chains_of n) p = Some (decision (resolveState rp (child_of c)));
  en_dns `{UnicodeTables} fwd bl ups query m q qs ip c :
    child_for_ip b ip = Some c → LockEnabled c = true ∨ Mode c = "paused" → parseQuery query = Ret m → m_questions m = q :: qs →
    ∃ resp, Resolve fwd (MkResolver bl (Some (runtime n)) ups) query ip = ([], Ret (Some resp)) ∧
      block_reply (bool_decide (q_type q = qTypeA)) query = Ret (Some resp) }.

(** What every step keeps, whatever the database does. *)
Record node_base (n : node W Json) : Prop := {
  nb_swap : onSwap (runtime n) = true;
  nb_ready : ready iface (forward (chains_of n)) }.

(** And no database call is going to fail. *)
Record node_inv (n : node W Json) : Prop := {
  ni_faults : faults (box n) = [];
  ni_swap : onSwap (runtime n) = true;
  ni_ready : ready iface (forward (chains_of n)) }.

(** The per-child chain of [b] with the jump on top of FORWARD. *)
Record holds_rules (b : Bundle) (n : node W Json) : Prop := {
  hr_rules : ss (chains_of n) = Some (all_rules rp (λ _, None) (map child_of (Children b)));
  hr_installed : installed iface (forward (chains_of n)) }.

(** The state behind [enforces]. *)
Record holds (b : Bundle) (n : node W Json) : Prop := {
  ho_inv : node_inv n;
  ho_active : active (runtime n) = Some b;
  ho_peers : tunnel_peers (box n) = bundle_table b;
  ho_rules : ss (chains_of n) = Some (all_rules rp (λ _, None) (map child_of (Children b)));
  ho_installed : installed iface (forward (chains_of n)) }.

Hypothesis Henv : environment.
Implicit Types n : node W Json.

Lemma own_address f c : has_prefix (Policy.WireguardIP c) "10.10.0." = true → resolveIP f (child_of c) = Policy.WireguardIP c.
Proof. intros Hc. unfold resolveIP, child_of. cbn [WireguardIP]. rewrite Hc. destruct (String.eqb_spec (Policy.WireguardIP c) "") as [E|]; [by rewrite E in Hc|done]. Qed.

Lemma own_rules f cs : Forall (λ c, has_prefix (Policy.WireguardIP c) "10.10.0." = true) cs →
  all_rules rp f (map child_of cs) = all_rules rp (λ _, None) (map child_of cs).
Proof.
  intros Hc. unfold all_rules. f_equal. f_equal. rewrite !map_map. apply map_ext_Forall. eapply Forall_impl; [exact Hc|].
  intros c Hp. unfold child_rules. by rewrite !own_address.
Qed.

Abbreviation fw_sync := (firewall_sync false rp).
Abbreviation wg_sync := (tunnel_sync range wgKeyFile false).

Lemma machine_lift {A} (m : io W A) (t : tunnel W) : machine (fst (lift m t)) = fst (m (machine t)).
Proof. unfold lift. by destruct (m (machine t)). Qed.

Lemma firewall_keeps n : runtime (fw_sync n) = runtime n ∧ faults (box (fw_sync n)) = faults (box n) ∧
  tunnel_peers (box (fw_sync n)) = tunnel_peers (box n).
Proof.
  unfold firewall_sync, lift. cbn [runtime box]. generalize (SyncFromBundle false rp (peer_ip (box n)) (ActiveBundle (runtime n))).
  intros m. by destruct (m (machine (box n))).
Qed.

Lemma firewall_forward n : ready iface (forward (chains_of n)) → installed iface (forward (chains_of (fw_sync n))).
Proof.
  intros Hr. destruct Henv as [E1 E2 E3 E4 E5 E6 E7]. unfold firewall_sync. cbn [box]. rewrite machine_lift. unfold SyncFromBundle.
  rewrite (Sync_forward fw valid iface) by done. by apply ensured_installed.
Qed.

Lemma firewall_rules b n : proper b → active (runtime n) = Some b →
  ss (chains_of (fw_sync n)) = Some (all_rules rp (λ _, None) (map child_of (Children b))).
Proof.
  intros Hb Ha. destruct Henv as [E1 E2 E3 E4 E5 E6 E7]. unfold firewall_sync. cbn [box]. rewrite machine_lift.
  unfold SyncFromBundle, ActiveBundle. rewrite Ha. cbn [bundleProvider].
  destruct (Sync_chains fw valid E1 iface rp (peer_ip (box n)) (map child_of (Children b)) (machine (box n)) E4 E5 E6 E7) as (w' & E & Hw').
  { rewrite own_rules by apply Hb. apply Hb. }
  rewrite E. cbn [fst]. rewrite Hw'. cbn [ss]. by rewrite own_rules by apply Hb.
Qed.

Lemma tunnel_chains now n : chains_of (wg_sync now n) = chains_of n.
Proof.
  destruct Henv as [E1 E2 E3 E4 E5 E6 E7].
  apply (calm_sync fw valid E1 E2 range wgKeyFile false (fw (machine (box n))) False (ActiveBundle (runtime n)) now (box n)). by split.
Qed.

Lemma tunnel_keeps now n : faults (box n) = [] → runtime (wg_sync now n) = runtime n ∧ faults (box (wg_sync now n)) = [] ∧
  chains_of (wg_sync now n) = chains_of n.
Proof.
  intros Hf. split; [done|]. split; [|apply tunnel_chains]. destruct Henv as [E1 E2 E3 E4 E5 E6 E7].
  apply (calm_sync fw valid E1 E2 range wgKeyFile false (fw (machine (box n))) True (ActiveBundle (runtime n)) now (box n)); [by split|done].
Qed.

Lemma firewall_base n : node_base n → node_base (fw_sync n).
Proof. intros [Ho Hr]. destruct (firewall_keeps n) as (E1 & _). split; [by rewrite E1|right; by apply firewall_forward]. Qed.
Lemma tunnel_base now n : node_base n → node_base (wg_sync now n).
Proof. intros [Ho Hr]. split; [done|by rewrite tunnel_chains]. Qed.
Lemma inv_base n : node_inv n → node_base n.
Proof. by intros []. Qed.

Lemma firewall_inv n : node_inv n → node_inv (fw_sync n).
Proof.
  intros [Hf Ho Hr]. destruct (firewall_keeps n) as (E1 & E2 & _). split; [by rewrite E2|by rewrite E1|]. right. by apply firewall_forward.
Qed.
Lemma tunnel_inv now n : node_inv n → node_inv (wg_sync now n).
Proof. intros [Hf Ho Hr]. destruct (tunnel_keeps now n Hf) as (E1 & E2 & E3). split; [done|by rewrite E1|]. cbv beta in *. by rewrite E3. Qed.

(** From any rules of earlier, of other profiles for one. *)
Lemma firewall_adopts b n : proper b → node_inv n → active (runtime n) = Some b → tunnel_peers (box n) = bundle_table b → holds b (fw_sync n).
Proof.
  intros Hb Hi Ha Hp. destruct (firewall_keeps n) as (E1 & E2 & E3).
  split; [by apply firewall_inv|by rewrite E1|by rewrite E3|by apply firewall_rules|by apply firewall_forward, Hi].
Qed.
Lemma firewall_succeeds b n : proper b → active (runtime n) = Some b →
  snd (lift (SyncFromBundle false rp (peer_ip (box n)) (ActiveBundle (runtime n))) (box n)) = Ret ().
Proof.
  intros Hb Ha. destruct Henv as [E1 E2 E3 E4 E5 E6 E7]. unfold lift, SyncFromBundle, ActiveBundle. rewrite Ha. cbn [bundleProvider].
  destruct (Sync_chains fw valid E1 iface rp (peer_ip (box n)) (map child_of (Children b)) (machine (box n)) E4 E5 E6 E7) as (w' & E & _);
    [rewrite own_rules; apply Hb|]. by rewrite E.
Qed.
Lemma firewall_holds b n : proper b → holds b n → holds b (fw_sync n).
Proof. intros Hb Hh. by apply firewall_adopts; try apply Hh. Qed.
Lemma tunnel_holds now b n : proper b → active (runtime n) = Some b → node_inv n →
  ss (chains_of n) = Some (all_rules rp (λ _, None) (map child_of (Children b))) → installed iface (forward (chains_of n)) →
  holds b (wg_sync now n).
Proof.
  intros Hb Ha Hi Hr Hin. destruct (tunnel_keeps now n (ni_faults _ Hi)) as (E1 & E2 & E3).
  split; [by apply tunnel_inv|by rewrite E1| |cbv beta in *; by rewrite E3..].
  unfold tunnel_sync, TriggerSync, ActiveBundle. simpl. rewrite Ha. apply sync_exact; [apply Hi|apply Hb..].
Qed.

Abbreviation fetch_ := (fetch parse Marshal range wgKeyFile false false rp).

(** A bundle adopted: the firewall first, then the tunnel. *)
Lemma adopt_holds now b n r : proper b → node_inv n → adopted b (runtime n) r →
  holds b (after_swap range wgKeyFile false false rp now r n).
Proof.
  intros Hb [Hf Ho Hr] (Ha & Ho' & Hs). unfold after_swap. rewrite decide_False by lia. unfold on_swap.
  set (n1 := Node r (box n)). assert (I1 : node_inv n1) by (by split).
  destruct (firewall_keeps n1) as (E1 & _). apply tunnel_holds; [done|by rewrite E1|by apply firewall_inv|by apply firewall_rules|by apply firewall_forward].
Qed.

Lemma adopt_base now b n r : node_base n → adopted b (runtime n) r → node_base (after_swap range wgKeyFile false false rp now r n).
Proof. intros [Ho Hr] (Ha & Ho' & Hs). unfold after_swap. rewrite decide_False by lia. apply tunnel_base, firewall_base. by split. Qed.

Lemma same_runtime now n : after_swap range wgKeyFile false false rp now (runtime n) n = n.
Proof. unfold after_swap. rewrite decide_True by done. by destruct n. Qed.

Lemma fetch_cases get clock wf now n : onSwap (runtime n) = true →
  fetch_ get clock wf now n = n ∨
  ∃ b r, fetchBundle parse Marshal true get clock wf (runtime n) = (r, true) ∧ adopted b (runtime n) r ∧
    fetch_ get clock wf now n = wg_sync now (after_swap range wgKeyFile false false rp now r n).
Proof.
  intros Ho. unfold fetch. simpl. destruct (fetchBundle_cases parse Marshal true get clock wf (runtime n) Ho) as [->|(b & r & E & Ha)].
  - left. apply same_runtime.
  - right. exists b, r. by rewrite E.
Qed.

Lemma fetch_base get clock wf now n : node_base n → node_base (fetch_ get clock wf now n).
Proof.
  intros Hi. destruct (fetch_cases get clock wf now n (nb_swap _ Hi)) as [->|(b & r & _ & Ha & ->)]; [done|].
  by eapply tunnel_base, adopt_base.
Qed.

Lemma swap_base wf now b n : node_base n → node_base (swap Marshal range wgKeyFile false false rp wf now b n).
Proof.
  intros Hi. unfold swap. destruct (SwapBundle_cases Marshal wf (runtime n) b (nb_swap _ Hi)) as [[er ->]|(b' & r' & _ & -> & Ha)]; simpl.
  - by rewrite same_runtime.
  - by eapply adopt_base.
Qed.

Lemma seed_base clock wf now n : node_base n → node_base (seed Marshal range wgKeyFile false false rp clock wf now n).
Proof.
  intros Hi. unfold seed. destruct (seed_cases Marshal clock wf (runtime n) (nb_swap _ Hi)) as [->|[b Ha]]; [by rewrite same_runtime|by eapply adopt_base].
Qed.

(** The commands on peers: the machine, and the faults to come, are as before. *)
Lemma box_chains {A} (m : io (tunnel W) A) n :
  (∀ c quiet, preserves (calm fw c quiet) m) → chains_of (Node (runtime n) (fst (m (box n)))) = chains_of n.
Proof. intros Hm. apply (Hm (fw (machine (box n))) False (box n)). by split. Qed.
Lemma box_faults {A} (m : io (tunnel W) A) n :
  (∀ c quiet, preserves (calm fw c quiet) m) → faults (box n) = [] → faults (fst (m (box n))) = [].
Proof. intros Hm Hf. destruct (Hm (fw (machine (box n))) True (box n)) as [Hq _]; [by split|by apply Hq]. Qed.

Lemma box_base {A} (m : io (tunnel W) A) n :
  (∀ c quiet, preserves (calm fw c quiet) m) → node_base n → node_base (Node (runtime n) (fst (m (box n)))).
Proof. intros Hm [Ho Hr]. split; [done|by rewrite box_chains]. Qed.
Lemma box_holds {A} (m : io (tunnel W) A) b n :
  (∀ c quiet, preserves (calm fw c quiet) m) → tunnel_peers (fst (m (box n))) = bundle_table b →
  holds b n → holds b (Node (runtime n) (fst (m (box n)))).
Proof.
  intros Hm Hp [[Hf Ho Hr] Ha _ Hss Hin]. pose proof (box_chains m n Hm) as Hc. cbv beta in *.
  split; [split; [by apply box_faults|done|by rewrite Hc]|done|done|by rewrite Hc..].
Qed.

Lemma tick_base n n' : tick parse Marshal range wgKeyFile false false rp n n' → node_base n → node_base n'.
Proof.
  destruct Henv as [E1 E2 E3 E4 E5 E6 E7].
  intros Ht Hi. destruct Ht; [by apply firewall_base|by apply tunnel_base|by apply fetch_base|apply box_base; [intros ? ?|done]..].
  - by apply (calm_AddPeer fw valid).
  - by apply (calm_RemovePeer fw valid).
Qed.

Lemma tick_holds b n n' : proper b → holds b n → tick parse Marshal range wgKeyFile false false rp n n' → holds b n'.
Proof.
  intros Hb Hh Ht. destruct Ht as [m|now m|get clock wf now m Hs|now key mac co m|now key m].
  - by apply firewall_holds.
  - by apply tunnel_holds; try apply Hh.
  - destruct (fetch_cases get clock wf now m (ni_swap _ (ho_inv _ _ Hh))) as [->|(b' & r & _ & (_ & _ & Hr) & E)]; [done|].
    exfalso. rewrite E in Hs. unfold after_swap in Hs. rewrite decide_False in Hs by lia. simpl in Hs. lia.
  - apply box_holds; [|unfold ActiveBundle; rewrite (ho_active _ _ Hh)|done];
      [intros ? ?; by apply (calm_AddPeer fw valid); destruct Henv|apply AddPeer_table; apply Hb || apply Hh].
  - apply box_holds; [|unfold ActiveBundle; rewrite (ho_active _ _ Hh)|done];
      [intros ? ?; by apply (calm_RemovePeer fw valid); destruct Henv|apply RemovePeer_table; apply Hb || apply Hh].
Qed.

Lemma rules_decide b n pre c post p : proper b → holds_rules b n →
  Children b = pre ++ c :: post → (address c ∉ map address pre) → crosses (map address pre) (address c) p →
  verdict matches (chains_of n) p = Some (decision (resolveState rp (child_of c))).
Proof.
  intros Hb [Hr Hin] Hc Hpre Hx. pose proof (pr_inside _ Hb) as Hins. pose proof (pr_hosts _ Hb) as Hho.
  assert (E : ∀ cs, Forall (λ c, has_prefix (Policy.WireguardIP c) "10.10.0." = true) cs →
    map (λ c, cleanIP (resolveIP (λ _, None) c)) (map child_of cs) = map address cs).
  { intros cs Hcs. rewrite map_map. apply map_ext_Forall. eapply Forall_impl; [exact Hcs|]. intros c' Hc'. by rewrite own_address. }
  rewrite Hc in Hins, Hho. apply Forall_app in Hins as [Hi1 [Hi2 Hi3]%Forall_cons]. apply Forall_app in Hho as [Ho1 [Ho2 Ho3]%Forall_cons].
  cbv beta in *. destruct (fw (machine (box n))) as [rules f]. simpl in Hr, Hin. rewrite Hr.
  destruct Henv as [E1 E2 E3 _ _ _ _]. apply (installed_verdict matches host iface); [done|done|].
  rewrite Hc, map_app. cbn [map]. apply (all_rules_verdict matches host E3).
  - rewrite own_address by done. intros Hn. by rewrite Hn in Hi2.
  - apply Forall_app. split; [|constructor; [|constructor]; right; by rewrite own_address].
    apply Forall_map. apply Forall_forall. intros c' Hc'. right. cbv beta. rewrite Forall_forall in Hi1, Ho1. rewrite own_address by (by apply Hi1). by apply Ho1.
  - by rewrite E, own_address.
  - by rewrite E, own_address.
Qed.

Lemma holds_enforces b n : proper b → holds b n → enforces b n.
Proof.
  intros Hb [Hi Ha Hp Hr Hin]. split; [done|done| |].
  - intros pre c post p Hc Hpre Hx. by apply (rules_decide b n pre c post).
  - intros ? fwd bl ups query m q qs ip c Hc Hpause Hm Hqs.
    assert (Hps : paused (MkResolver bl (Some (runtime n)) ups) ip = true).
    { unfold paused. simpl. unfold InternetPausedForIP. rewrite Ha, Hc. destruct Hpause as [->| ->]; [done|apply orb_true_r]. }
    destruct (blocked_resolution fwd (MkResolver bl (Some (runtime n)) ups) query m q qs ip Hm Hqs (or_introl Hps)) as (resp & Hbr & HR).
    exists resp. split; [|done]. by rewrite HR, Hps.
Qed.

(** A fetch that adopts [b]. *)
Lemma fetch_holds get clock now b raw n :
  node_inv n → proper b → offers parse get b → (ExpiresAt b = 0 ∨ clock ≤ ExpiresAt b)%Z →
  unchanged (ActiveBundle (runtime n)) b = false → Marshal b = Ret raw → holds b (fetch_ get clock false now n).
Proof.
  intros Hi Hb Ho He Hu Hm.
  assert (Hv : Version b ≠ "") by (intros E; pose proof (pr_signed _ Hb) as Hbs; unfold is_bootstrap in Hbs; rewrite E, orb_true_r in Hbs; done).
  destruct (fetch_adopts parse Marshal true get clock (runtime n) b raw Ho Hv He Hu Hm) as [Hpush Hact].
  destruct (fetchBundle_cases parse Marshal true get clock false (runtime n) (ni_swap _ Hi)) as [E|(b' & r & E & Ha)]; rewrite E in Hpush, Hact; [done|].
  simpl in Hact. assert (b' = b) as -> by (destruct Ha as (Ha & _); congruence).
  unfold fetch. simpl. rewrite E. pose proof (adopt_holds now b n r Hb Hi Ha) as Hh. by apply tunnel_holds; try apply Hh.
Qed.

(** A tick of the firewall that read the bundle [old] before a swap and runs
    after it: the enforcer has no lock. *)
Definition overtaken_tick (old : Bundle) (n : node W Json) : node W Json :=
  Node (runtime n) (fst (lift (Sync false rp (peer_ip (box n)) (bundleProvider (Ret old))) (box n))).

(** A tick overtaken by a swap puts the old rules back: a child just paused
    keeps its access, while the new bundle is active, until the next tick. *)
Theorem overtaken_tick_reopens old b n pre c post p : proper old → proper b → holds b n →
  Children old = pre ++ c :: post → (address c ∉ map address pre) → crosses (map address pre) (address c) p →
  let n' := overtaken_tick old n in
  active (runtime n') = Some b ∧ verdict matches (chains_of n') p = Some (decision (resolveState rp (child_of c))) ∧
  enforces b (fw_sync n').
Proof.
  intros Hold Hb Hh Hc Hpre Hx n'. set (m := Node (MkRuntime (db (runtime n)) (Some old) true 0) (box n) : node W Json).
  assert (Eb : box n' = box (fw_sync m)) by done.
  destruct (firewall_keeps m) as (_ & E2 & E3). split; [apply Hh|]. split.
  - cbv beta. rewrite Eb. assert (Ho : holds_rules old (fw_sync m)); [|by apply (rules_decide old _ pre c post)].
    split; [by apply firewall_rules|]. apply firewall_forward. apply Hh.
  - apply holds_enforces; [done|]. destruct Hh as [[Hf Hsw Hr] Ha Hp Hru Hin].
    assert (I : node_inv n').
    { split; [by rewrite Eb, E2|done|]. right. rewrite Eb. apply firewall_forward. by right. }
    destruct (firewall_keeps n') as (F1 & F2 & F3). split; [by apply firewall_inv|by rewrite F1| |by apply firewall_rules|by apply firewall_forward, I].
    by rewrite F3, Eb, E3.
Qed.
End Enforced.

(** ** From the cloud to every layer *)

Section History.
Context {W : Type} `{Machine W} `{IPv6Text} {Body Json : Type}.
Context (parse : Body → go Bundle) (Marshal : Bundle → go Json).
Context (range : gmap string string → list (string * string)) (wgKeyFile : string).
Context (fw : W → chains) (valid : list string → Prop) (matches : list string → packet → bool) (host : string → Prop) (iface : string).
Hypothesis Henv : environment fw valid matches host iface.

Lemma node_step_base n n' : node_step parse Marshal range wgKeyFile false false n n' → node_base (Json := Json) fw iface n → node_base fw iface n'.
Proof.
  intros Hs Hi. destruct Hs as [rp n n' Ht|rp get clock wf now n|rp wf now b n|rp clock wf now n|mac n|f n].
  - by eapply (tick_base parse Marshal range wgKeyFile rp fw valid).
  - by apply (fetch_base parse Marshal range wgKeyFile rp fw valid matches host iface Henv).
  - by apply (swap_base Marshal range wgKeyFile rp fw valid matches host iface Henv).
  - by apply (seed_base Marshal range wgKeyFile rp fw valid matches host iface Henv).
  - destruct Henv as [E1 E2 E3 E4 E5 E6 E7]. split; [apply Hi|]. right. cbn [box pause_command].
    rewrite machine_lift, (PauseDevice_forward fw valid iface) by done. apply ensured_installed, Hi.
  - by split; apply Hi.
Qed.

End History.

(** ** A concrete node *)

(** Anna has full access, Ben is paused; before, he was not. *)
Definition home_bundle (version mode : string) : Bundle :=
  MkBundle version 0 0 "sig" []
    [Policy.Child "anna" "" anna_key "10.10.0.2/32" "full_access" false "" [] [];
     Policy.Child "ben" "" ben_key "10.10.0.3/32" mode false "" [] []].

Definition ben_state (mode : string) : ChildEffectiveState := Policy.Child "ben" "" ben_key "10.10.0.3/32" mode false "" [] [].

Definition no_chains : chains := {| ss := None; forward := [] |}.
Definition new_node : node chains Bundle :=
  Node (MkRuntime None None true 0) {| machine := no_chains; tunnel_peers := ∅; tunnel_config := ∅; latestHealth := None; faults := [] |}.

Lemma toy_environment : let _ := toy_firewall "eth0" in environment (W := chains) (λ c, c) toy_valid toy_matches (λ _, True) "eth0".
Proof.
  intros M. split; [apply toy_laws| |apply toy_matching|by split|reflexivity..].
  split; try done. intros w spec. simpl. destruct (ss w) as [l|]; [|done]. by destruct (decide _).
Qed.

Lemma home_proper version mode : version ≠ "" → mode ∈ ["full_access"; "paused"] →
  let _ := toy_firewall "eth0" in let _ := no_v6 in proper None toy_valid (λ _, True) (home_bundle version mode).
Proof.
  intros Hv Hmode M V. rewrite !elem_of_cons in Hmode. destruct Hmode as [->|[->|[]%elem_of_nil]]; (split;
    [split; [repeat constructor; vm_compute; reflexivity|by_decide..]
    |unfold is_bootstrap; simpl; by destruct (String.eqb_spec version "")|repeat constructor..]).
Qed.

Definition offered (b : Bundle) (i : nat) : go (Bundle * Z) := Ret (b, 200%Z).

Lemma offered_offers b : offers Ret (offered b) b.
Proof. exists 0%nat, b, 200%Z. split; [unfold bundleRetryCount; lia|]. split; [done|]. split; [lia|]. split; [done|]. lia. Qed.


(** A tick that read the first bundle runs after the second one is adopted. *)
Lemma overtaken_tick_reopens_witness :
  let _ := toy_firewall "eth0" in let _ := no_v6 in
  let n := fetch (Json := Bundle) Ret Ret map_to_list "" false false None (offered (home_bundle "v2" "paused")) 0 false "" new_node in
  verdict toy_matches (machine (box (overtaken_tick None (home_bundle "v1" "full_access") n))) (web "10.10.0.3" "203.0.113.9") = Some "ACCEPT".
Proof.
  intros M V n.
  assert (Hh : holds None (λ c, c) "eth0" (home_bundle "v2" "paused") n).
  { eapply (fetch_holds Ret Ret map_to_list "" None (λ c, c) toy_valid toy_matches (λ _, True) "eth0" toy_environment); [|..|reflexivity].
    - split; [done|done|left; apply not_elem_of_nil].
    - apply home_proper; [done|set_solver].
    - apply offered_offers.
    - by left.
    - vm_compute. reflexivity. }
  refine (proj1 (proj2 (overtaken_tick_reopens None (λ c, c) toy_valid toy_matches (λ _, True) "eth0" toy_environment
    (home_bundle "v1" "full_access") (home_bundle "v2" "paused") n
    [Policy.Child "anna" "" anna_key "10.10.0.2/32" "full_access" false "" [] []] (ben_state "full_access") [] _ _ _ Hh eq_refl _ _))).
  - apply home_proper; [done|set_solver].
  - apply home_proper; [done|set_solver].
  - by_decide.
  - left. split; [done|by_decide].
Defined.
