(* ===== verification/Profiles.v ===== *)
(** [internal/commands/handlers.go] (the store of route profiles) and
    [internal/app/wiring.go] (what the handlers are given): commands on the node
    of [Node]. *)
From stdpp Require Import gmap.
From S2P Require Import Prelude Os Net Wire Blocklist Policy Resolver WgConf Tunnel Firewall Commands CloudClient Node GoString.

Local Open Scope string_scope.
Local Open Scope list_scope.

(** ** The table [device_route_profiles] *)

Record profile_row := ProfileRow { route_profile : string; route_profile_source : string; route_profile_version : Z; client_applied : bool }.
Abbreviation profile_table := (gmap string profile_row).

(** The upsert of [SetRouteProfile]. *)
Definition set_profile (mac profile source : string) (m : profile_table) : profile_table :=
  <[mac := ProfileRow profile source (match m !! mac with Some r => route_profile_version r + 1 | None => 1 end)%Z false]> m.

(** [query]: the query by key, whose error is dropped. *)
Definition RouteProfileForKey (query : string → option string) (publicKey : string) : string :=
  if String.eqb publicKey "" then "" else default "" (query publicKey).

Definition RouteProfileForMAC (m : profile_table) (mac : string) : string :=
  let profile := match m !! mac with Some r => route_profile r | None => "" end in
  if String.eqb profile "" then "split_tunnel" else profile.

(** The table has no column [public_key], so the query by key always fails
    ([Store.statements_well_typed]). *)
Definition DBRouteProfileStore (m : profile_table) : RouteProfileReader :=
  {| Firewall.RouteProfileForKey := RouteProfileForKey (λ _, None); Firewall.RouteProfileForMAC := RouteProfileForMAC m |}.

(** ** The node with its profiles *)

Section Home.
Context {W : Type} `{Machine W} `{IPv6Text} {Json : Type}.
Context (Marshal : Bundle → go Json) (range : gmap string string → list (string * string)) (wgKeyFile : string) (devMode : bool).

Record home := Home { hn : Node.node W Json; profiles : profile_table; blocks : Blocklist }.

Definition reader (h : home) : option RouteProfileReader := Some (DBRouteProfileStore (profiles h)).
Definition active_of (h : home) : go Bundle := ActiveBundle (runtime (hn h)).

Definition on_box {A} (m : home → io (tunnel W) A) : io home A := λ h,
  let '(t, r) := m h (box (hn h)) in (Home (Node (runtime (hn h)) t) (profiles h) (blocks h), r).

(** The services that wiring.go hands to [RegisterHandlers] on a home node.
    [load]: the loading of the block list. *)
Definition home_services (load : Blocklist → Blocklist * option string) (clock : home → string) (parse : string → option time) :
    Services home := {|
  SwapBundle b := λ h,
    let '(h, r) := on_box (λ _, Tunnel.db_fails) h in
    let bad := match r with Ret bad => bad | _ => true end in
    (Home (swap Marshal range wgKeyFile devMode false (reader h) bad (clock h) (Some b) (hn h)) (profiles h) (blocks h),
     match snd (Policy.SwapBundle Marshal bad (runtime (hn h)) (Some b)) with Some e => Err e | None => Ret () end);
  Reload := Some (λ h, let '(b, e) := load (blocks h) in (Home (hn h) (profiles h) b, match e with Some e => Err e | None => Ret () end));
  Commands.Tunnel := Some
    (λ key mac comment h, on_box (λ h, AddPeer range wgKeyFile devMode (active_of h) (clock h) key mac comment) h,
     λ key h, on_box (λ h, RemovePeer range wgKeyFile devMode (active_of h) (clock h) key) h);
  Commands.Firewall := Some
    (λ mac, on_box (λ _, lift (PauseDevice devMode mac)),
     λ mac, on_box (λ h, lift (UnpauseDevice devMode (reader h) (peer_ip (box (hn h))) (active_of h) mac)),
     on_box (λ h, lift (SyncFromBundle devMode (reader h) (peer_ip (box (hn h))) (active_of h))));
  Commands.SetRouteProfile := Some (λ mac profile source,
    bad ← on_box (λ _, Tunnel.db_fails);
    if bad : bool then fail "insert device_route_profiles" else
    λ h, (Home (hn h) (set_profile mac profile source (profiles h)) (blocks h), Ret ()));
  now := clock;
  parseTime := parse |}.
End Home.
Arguments home : clear implicits.
Arguments Home {_ _} _ _ _.
Arguments hn {_ _} _.
Arguments profiles {_ _} _.
Arguments blocks {_ _} _.

(** ** Properties *)

(** What a stored profile decides, and what is left to the bundle. *)
Lemma state_with_profile m c : resolveState (Some (DBRouteProfileStore m)) c =
  match profile_state (RouteProfileForMAC m (DeviceMAC c)) with Some s => s | None => resolveState None c end.
Proof. unfold resolveState. simpl. unfold RouteProfileForKey. by destruct (String.eqb (WireguardPublicKey c) ""). Qed.

Lemma profile_set mac profile source m : profile ≠ "" → RouteProfileForMAC (set_profile mac profile source m) mac = profile.
Proof. intros Hp. unfold RouteProfileForMAC, set_profile. rewrite lookup_insert_eq. simpl. by destruct (String.eqb_spec profile ""). Qed.
Lemma profile_other mac mac' profile source m : mac' ≠ mac → RouteProfileForMAC (set_profile mac profile source m) mac' = RouteProfileForMAC m mac'.
Proof. intros Hp. unfold RouteProfileForMAC, set_profile. by rewrite lookup_insert_ne. Qed.

Section Enforced.
Context {W : Type} `{Machine W} `{IPv6Text} {Json : Type}.
Context (Marshal : Bundle → go Json) (range : gmap string string → list (string * string)) (wgKeyFile : string).
Context (fw : W → chains) (valid : list string → Prop) (matches : list string → packet → bool) (host : string → Prop) (iface : string).
Hypothesis Henv : environment fw valid matches host iface.
Context (load : Blocklist → Blocklist * option string) (clock : home W Json → string) (parse : string → option time).

Abbreviation address := (λ c, cleanIP (Policy.WireguardIP c)).

(** C13. A route profile set by a command decides, when the command returns, for
    the child with that device, and for no other, what becomes of the packets that cross
    between the child and the outside: every address but the gateway and the
    children listed before it. On a node that holds a proper bundle the command
    reports that it is enforced; these packets are accepted for full_tunnel, even
    of a paused child and also to and from a child listed later, dropped for
    service_only, and left to the bundle for split_tunnel; those of every other
    child keep their verdict; and the answers of DNS do not change, so a paused
    child stays blocked there. What a child exchanges with the gateway is not
    decided here. *)
Theorem profile_command_enforced b (h : home W Json) p mac profile :
  (∀ m, proper (Some (DBRouteProfileStore m)) valid host b) →
  holds (reader h) fw iface b (hn h) →
  requireString p "profile" = Ret profile → valid_profile profile = true → requireString p "device_mac" = Ret mac →
  ∃ h' result, set_route_profile (home_services Marshal range wgKeyFile false load clock parse) p h = (h', Ret result) ∧
    field result "enforced" = Some (Bool true) ∧ runtime (hn h') = runtime (hn h) ∧ blocks h' = blocks h ∧
    ∀ pre c post pkt, Children b = pre ++ c :: post → (address c ∉ map address pre) → crosses (map address pre) (address c) pkt →
      verdict matches (fw (machine (box (hn h')))) pkt = Some (
        if bool_decide (Policy.DeviceMAC c = mac) then
          (if String.eqb profile "full_tunnel" then "ACCEPT" else if String.eqb profile "service_only" then "DROP"
           else decision (resolveState None (child_of c)))
        else decision (resolveState (reader h) (child_of c))).
Proof.
  intros Hb Hh Hp Hvp Hm.
  set (source := if String.eqb (stringVal p "source") "" then "guardian" else stringVal p "source").
  set (ps := set_profile mac profile source (profiles h)).
  set (rp := Some (DBRouteProfileStore ps)).
  set (n' := firewall_sync false rp (hn h)).
  assert (Hn : holds rp fw iface b n') by (by apply (firewall_adopts _ _ valid matches host iface Henv); apply Hh || apply Hb).
  assert (Hsync : on_box (λ h : home W Json, lift (SyncFromBundle false (reader h) (peer_ip (box (hn h))) (active_of h))) (Home (hn h) ps (blocks h))
    = (Home n' ps (blocks h), Ret ())).
  { unfold on_box. cbn [hn]. pose proof (firewall_succeeds rp fw valid matches host iface Henv b (hn h) (Hb ps) (ho_active _ _ _ _ _ Hh)) as Hs.
    unfold n', firewall_sync, active_of, reader. cbn [profiles hn blocks]. fold rp. destruct (lift _ _) as [t r]. simpl in *. by subst r. }
  exists (Home n' ps (blocks h)), [("mac", Str mac); ("profile", Str profile); ("source", Str source); ("enforced", Bool true); ("client_synced", Bool false)].
  split; [|split; [done|split; [apply firewall_keeps|split; [done|]]]].
  - unfold set_route_profile, pure, mbind at 1, io_bind at 1. rewrite Hp, Hvp. cbn [negb]. unfold mbind at 1, io_bind at 1. rewrite Hm. fold source.
    cbn [Commands.SetRouteProfile Commands.Firewall home_services].
    unfold attempt, mbind, io_bind, mret, io_ret. unfold on_box at 1, Tunnel.db_fails. rewrite (ni_faults _ _ _ (ho_inv _ _ _ _ _ Hh)).
    cbn [hn profiles blocks]. fold ps. change (Home (Node (runtime (hn h)) (box (hn h))) ps (blocks h)) with (Home (Node (runtime (hn h)) (box (hn h))) ps (blocks h)).
    replace (Node (runtime (hn h)) (box (hn h))) with (hn h) by (by destruct (hn h)). by rewrite Hsync.
  - intros pre c post pkt Hc Hpre Hx. cbn [hn].
    rewrite (en_packets _ _ _ _ _ (holds_enforces _ _ valid matches host iface Henv b n' (Hb ps) Hn) pre c post pkt Hc Hpre Hx).
    f_equal. unfold rp, reader. rewrite !state_with_profile. change (DeviceMAC (child_of c)) with (Policy.DeviceMAC c).
    case_bool_decide as Hmac; [|unfold ps; by rewrite profile_other].
    assert (Hne : profile ≠ "") by (intros ->; done). rewrite Hmac. unfold ps. rewrite profile_set by done.
    unfold valid_profile in Hvp. unfold profile_state.
    destruct (String.eqb_spec profile "full_tunnel"); [done|]. destruct (String.eqb_spec profile "service_only"); [done|].
    destruct (String.eqb_spec profile "split_tunnel") as [->|]; done.
Qed.
End Enforced.

(** ** A concrete node *)

Definition ben_mac : string := "b8:27:eb:00:00:02".
Definition ben_paused : ChildEffectiveState := Policy.Child "ben" ben_mac ben_key "10.10.0.3/32" "paused" false "" [] [].
Definition one_paused : Bundle := MkBundle "v1" 0 0 "sig" [] [ben_paused].

Lemma toy_rules state : Forall toy_valid (map spec_of (Rules (BuildRules "10.10.0.3/32" state))).
Proof. unfold BuildRules. cbn [Rules]. repeat case_match; repeat constructor. Qed.

Lemma one_proper rp : let _ := toy_firewall "eth0" in let _ := no_v6 in proper rp toy_valid (λ _, True) one_paused.
Proof.
  intros M V. split; [split; [repeat constructor; vm_compute; reflexivity|by_decide..]|reflexivity|repeat constructor..|].
  unfold all_rules. simpl. rewrite app_nil_r. apply toy_rules.
Qed.

Definition ben_home : home chains Bundle :=
  let _ := toy_firewall "eth0" in let _ := no_v6 in
  Home (fetch (Json := Bundle) Ret Ret map_to_list "" false false (Some (DBRouteProfileStore ∅)) (offered one_paused) 0 false "" new_node) ∅ NewBlocklist.

Definition profile_payload : payload := [("profile", Str "full_tunnel"); ("device_mac", Str ben_mac)].

(** A paused child given the full tunnel by a command. *)
Lemma profile_command_enforced_witness :
  let _ := toy_firewall "eth0" in let _ := no_v6 in
  ∃ h' result, set_route_profile (home_services Ret map_to_list "" false (λ b, (b, None)) (λ _, "") (λ _, None)) profile_payload ben_home = (h', Ret result) ∧
    verdict toy_matches (machine (box (hn h'))) (web "10.10.0.3" "203.0.113.9") = Some "ACCEPT".
Proof.
  intros M V.
  assert (Hh : holds (reader ben_home) (λ c, c) "eth0" one_paused (hn ben_home)).
  { eapply (fetch_holds Ret Ret map_to_list "" (Some (DBRouteProfileStore ∅)) (λ c, c) toy_valid toy_matches (λ _, True) "eth0" toy_environment); [| | | | |reflexivity].
    - split; [done|done|left; apply not_elem_of_nil].
    - apply one_proper.
    - apply offered_offers.
    - by left.
    - vm_compute. reflexivity. }
  destruct (profile_command_enforced Ret map_to_list "" (λ c, c) toy_valid toy_matches (λ _, True) "eth0" toy_environment (λ b, (b, None)) (λ _, "") (λ _, None)
    one_paused ben_home profile_payload ben_mac "full_tunnel" (λ m, one_proper _) Hh eq_refl eq_refl eq_refl) as (h' & result & E & _ & _ & _ & Hv).
  exists h', result. split; [exact E|].
  apply (Hv [] ben_paused [] (web "10.10.0.3" "203.0.113.9")); [done|by_decide|left; split; [done|by_decide]].
Defined.
