(* ===== verification/Requests.v ===== *)
(** [internal/controlsync/client.go] and its callers: authentication modes,
    request options and headers, the calls that the package makes, and which
    secret each of them sends. *)
From stdpp Require Import gmap.
From S2P Require Import Prelude CloudClient GoString.

Local Open Scope string_scope.
Local Open Scope list_scope.

(** ** Header maps *)

Abbreviation Header := (gmap string string).

Definition token_byte (a : ascii) : bool :=
  let n := N_of_ascii a in
  (N.leb 48 n && N.leb n 57) || (N.leb 65 n && N.leb n 90) || (N.leb 97 n && N.leb n 122) ||
  contains_byte a "!#$%&'*+-.^_`|~".

Definition upper_ascii (a : ascii) : ascii :=
  let n := N_of_ascii a in if N.leb 97 n && N.leb n 122 then ascii_of_N (n - 32) else a.

Fixpoint canonical_from (up : bool) (s : string) : string :=
  match s with
  | "" => ""
  | String a s => String (if up then upper_ascii a else lower_ascii a) (canonical_from (Ascii.eqb a "-") s)
  end.

Fixpoint all_tokens (s : string) : bool :=
  match s with "" => true | String a s => token_byte a && all_tokens s end.

(** [CanonicalMIMEHeaderKey]: a key with a byte that is no token is kept. *)
Definition canonical (k : string) : string := if all_tokens k then canonical_from true k else k.

(** [Header.Set] and [Header.Get]. *)
Definition hset (k v : string) (h : Header) : Header := <[canonical k := v]> h.
Definition hget (k : string) (h : Header) : string := default "" (h !! canonical k).

(** ** The client and its options *)

Record client := Client { baseURL : string; nodeToken : string; anonKey : string; serviceRoleKey : string }.

Inductive authMode := authAnon | authNodeToken | authServiceRole.

Record reqOpts := ReqOpts { auth : authMode; extraHeaders : gmap string string; wantRespHdrs : bool }.

Definition reqOpt : Type := reqOpts → reqOpts.

Definition withAuth (a : authMode) : reqOpt := λ o, ReqOpts a (extraHeaders o) (wantRespHdrs o).
Definition withHeader (key value : string) : reqOpt := λ o, ReqOpts (auth o) (<[key := value]> (extraHeaders o)) (wantRespHdrs o).
Definition withRespHeaders : reqOpt := λ o, ReqOpts (auth o) (extraHeaders o) true.

Definition resolveOpts (defaultAuth : authMode) (opts : list reqOpt) : reqOpts :=
  foldl (λ r opt, opt r) (ReqOpts defaultAuth ∅ false) opts.

Record request := Request { method : string; url : string; headers : Header; body : option string }.

Definition set_auth (c : client) (a : authMode) (h : Header) : Header :=
  match a with
  | authNodeToken => hset "Authorization" ("Bearer " +:+ nodeToken c) h
  | authServiceRole => hset "apikey" (serviceRoleKey c) (hset "Authorization" ("Bearer " +:+ serviceRoleKey c) h)
  | authAnon => hset "Authorization" ("Bearer " +:+ anonKey c) h
  end.

Section Client.
(** The order in which the map of extra headers is iterated. *)
Variable iter : gmap string string → list (string * string).

(** The request that [doOnce] builds. *)
Definition build (c : client) (meth path : string) (b : option string) (opts : reqOpts) : request :=
  let h := set_auth c (auth opts) ∅ in
  let h := if String.eqb (hget "apikey" h) "" then hset "apikey" (anonKey c) h else h in
  let h := hset "Accept" "application/json" (hset "Content-Type" "application/json" h) in
  let h := if String.eqb meth "PATCH" then hset "Prefer" "return=representation" h else h in
  Request meth (baseURL c +:+ path) (foldl (λ h kv, hset kv.1 kv.2 h) h (iter (extraHeaders opts))) b.

(** What [doOnce] makes of the response, the headers included. *)
Definition answer {Body} (opts : reqOpts) (x : exchange Body) (hdrs : Header) : go (Body * Z * option Header) :=
  let with_headers := if wantRespHdrs opts then Some hdrs else None in
  match x with
  | NoResponse e => Err ("http: " +:+ e)
  | BrokenBody _ e => Err ("read body: " +:+ e)
  | Response status body =>
      if bool_decide (400 ≤ status)%Z then
        if bool_decide (status = 416%Z) then Ret (body, status, with_headers) else Err "http status"
      else Ret (body, status, with_headers)
  end.

(** *** The methods *)

Definition post (c : client) (path b : string) : request := build c "POST" path (Some b) (resolveOpts authNodeToken []).
Definition get (c : client) (path : string) : request := build c "GET" path None (resolveOpts authNodeToken []).
Definition patch (c : client) (path b : string) : request := build c "PATCH" path (Some b) (resolveOpts authNodeToken []).
Definition getREST (c : client) (path : string) (opts : list reqOpt) : request := build c "GET" path None (resolveOpts authAnon opts).
Definition postREST (c : client) (path b : string) (opts : list reqOpt) : request := build c "POST" path (Some b) (resolveOpts authAnon opts).
Definition patchREST (c : client) (path b : string) (opts : list reqOpt) : request := build c "PATCH" path (Some b) (resolveOpts authAnon opts).
Definition deleteREST (c : client) (path : string) (opts : list reqOpt) : request := build c "DELETE" path None (resolveOpts authAnon opts).
Definition getRESTWithHeaders (c : client) (path : string) (opts : list reqOpt) : request :=
  build c "GET" path None (withRespHeaders (resolveOpts authAnon opts)).

(** The activity writer builds its request itself. *)
Definition postRESTPrefer (c : client) (path prefer b : string) : request :=
  Request "POST" (baseURL c +:+ path)
    (hset "Prefer" prefer (hset "Accept" "application/json" (hset "Content-Type" "application/json"
      (hset "apikey" (serviceRoleKey c) (hset "Authorization" ("Bearer " +:+ serviceRoleKey c) ∅))))) (Some b).

(** *** The calls of the package

    [arg] is what the caller puts into the path: ids, tokens, time stamps. *)
Definition node_heartbeat_request (c : client) (b : string) : request :=
  post c "/functions/v1/node-heartbeat" b.
Definition node_commands_request (c : client) (arg : string) : request :=
  get c ("/functions/v1/node-commands?node_id=" +:+ arg +:+ "&status=pending").
Definition command_result_request (c : client) (arg : string) (b : string) : request :=
  patch c ("/functions/v1/node-commands/" +:+ arg) b.
Definition node_policy_bundle_request (c : client) (arg : string) : request :=
  get c ("/functions/v1/node-policy-bundle?node_id=" +:+ arg).
Definition fetch_enforcement_request (c : client) (b : string) : request :=
  post c "/functions/v1/fetch-enforcement-sync" b.
Definition fallback_state_request (c : client) (b : string) : request :=
  post c "/functions/v1/relay-fallback-state" b.
Definition family_config_request (c : client) (arg : string) : request :=
  get c ("/functions/v1/relay-family-config?family_id=" +:+ arg).
Definition tunnel_stats_request (c : client) (b : string) : request :=
  post c "/functions/v1/sync-tunnel-stats" b.
Definition election_heartbeat_request (c : client) (b : string) : request :=
  postREST c "/rest/v1/rpc/upsert_node_heartbeat" b [].
Definition register_node_request (c : client) (b : string) : request :=
  postREST c "/rest/v1/rpc/register_lan_node" b [].
Definition blocklist_request (c : client) (arg : string) : request :=
  getREST c arg [].
Definition nrd_upsert_request (c : client) (b : string) : request :=
  postREST c "/rest/v1/nrd_blocklist" b
    [withAuth authServiceRole; withHeader "Prefer" "resolution=merge-duplicates,return=minimal"].
Definition nrd_prune_request (c : client) (arg : string) : request :=
  deleteREST c ("/rest/v1/nrd_blocklist?last_seen_at=lt." +:+ arg)
    [withAuth authServiceRole; withHeader "Prefer" "count=exact,return=minimal"; withRespHeaders].
Definition nrd_start_run_request (c : client) (b : string) : request :=
  postREST c "/rest/v1/nrd_ingest_runs" b
    [withAuth authServiceRole; withHeader "Prefer" "return=representation"].
Definition nrd_finalize_request (c : client) (arg : string) (b : string) : request :=
  patchREST c ("/rest/v1/nrd_ingest_runs?id=eq." +:+ arg) b
    [withAuth authServiceRole; withHeader "Prefer" "return=minimal"].
Definition nrd_page_request (c : client) (first : string) (last : string) : request :=
  getRESTWithHeaders c "/rest/v1/nrd_blocklist?select=domain&order=domain.asc"
    [withAuth authServiceRole; withHeader "Range-Unit" "items"; withHeader "Range" (first +:+ "-" +:+ last)].
Definition activity_rows_request (c : client) (b : string) : request :=
  postRESTPrefer c "/rest/v1/activity_log" "return=minimal" b.

(** [NotifyFamilyFallback]: [encode] is [json.Marshal]; a family without a name
    is not reported, and the answer changes nothing. *)
Record fallbackNotifyPayload := FallbackNotify { fn_FamilyID : string; fn_InFallback : bool; fn_NodeID : string; fn_OccurredAt : string }.

Definition NotifyFamilyFallback (encode : fallbackNotifyPayload → string) (c : client) (nodeID now familyID : string)
    (inFallback : bool) : option request :=
  if String.eqb familyID "" then None
  else Some (fallback_state_request c (encode (FallbackNotify familyID inFallback nodeID now))).

(** [registerNodeType], which has no caller: the parameters of the procedure,
    in the order of the source. *)
Definition registerNodeType (encode : list (string * string) → string) (c : client)
    (familyID nodeName wgPubKey publicEndpoint : string) : option request :=
  if String.eqb familyID "" then None
  else Some (register_node_request c (encode [("p_family_id", familyID); ("p_node_token", ""); ("p_display_name", nodeName);
    ("p_os_platform", "linux"); ("p_wireguard_pub_key", wgPubKey); ("p_wireguard_endpoint", publicEndpoint)])).

(** [truncate], for the text of an error answer. *)
Definition truncate (s : string) (n : nat) : string :=
  if decide (String.length s ≤ n)%nat then s else stake n s +:+ "...".

(** All of them. *)
Inductive call :=
| node_heartbeat | node_commands (arg : string) | command_result (arg : string) | node_policy_bundle (arg : string)
| fetch_enforcement | fallback_state | family_config (arg : string) | tunnel_stats
| election_heartbeat | register_node | blocklist (arg : string)
| nrd_upsert | nrd_prune (arg : string) | nrd_start_run | nrd_finalize (arg : string) | nrd_page (first last : string)
| activity_rows.

#[global] Instance call_eq_dec : EqDecision call.
Proof. solve_decision. Defined.

Definition send (c : client) (b : string) (x : call) : request :=
  match x with
  | node_heartbeat => node_heartbeat_request c b
  | node_commands arg => node_commands_request c arg
  | command_result arg => command_result_request c arg b
  | node_policy_bundle arg => node_policy_bundle_request c arg
  | fetch_enforcement => fetch_enforcement_request c b
  | fallback_state => fallback_state_request c b
  | family_config arg => family_config_request c arg
  | tunnel_stats => tunnel_stats_request c b
  | election_heartbeat => election_heartbeat_request c b
  | register_node => register_node_request c b
  | blocklist arg => blocklist_request c arg
  | nrd_upsert => nrd_upsert_request c b
  | nrd_prune arg => nrd_prune_request c arg
  | nrd_start_run => nrd_start_run_request c b
  | nrd_finalize arg => nrd_finalize_request c arg b
  | nrd_page first last => nrd_page_request c first last
  | activity_rows => activity_rows_request c b
  end.
End Client.

(** ** Properties *)

(** The credential that a call is meant to use. *)
Definition mode (x : call) : authMode :=
  match x with
  | nrd_upsert | nrd_prune _ | nrd_start_run | nrd_finalize _ | nrd_page _ _ | activity_rows => authServiceRole
  | election_heartbeat | register_node | blocklist _ => authAnon
  | _ => authNodeToken
  end.

Definition token (c : client) (a : authMode) : string :=
  match a with authAnon => anonKey c | authNodeToken => nodeToken c | authServiceRole => serviceRoleKey c end.

(** The other credential, sent as [apikey]: the anonymous key, except that the
    service-role key replaces it where that is used. *)
Definition api_key (c : client) (x : call) : string :=
  match x with
  | activity_rows => serviceRoleKey c
  | _ => match mode x with
         | authServiceRole => if String.eqb (serviceRoleKey c) "" then anonKey c else serviceRoleKey c
         | _ => anonKey c
         end
  end.

Lemma fold_hset_other k l : ∀ h : Header, Forall (λ kv : string * string, canonical kv.1 ≠ k) l →
  foldl (λ h kv, hset kv.1 kv.2 h) h l !! k = h !! k.
Proof.
  induction l as [|kv l IH]; intros h Hf; [done|]. apply Forall_cons in Hf as [Hk Hf]. simpl.
  rewrite (IH _ Hf). unfold hset. by rewrite lookup_insert_ne.
Qed.

Lemma fold_hset_perm l l' : l ≡ₚ l' → NoDup (map (λ kv : string * string, canonical kv.1) l) →
  ∀ h : Header, foldl (λ h kv, hset kv.1 kv.2 h) h l = foldl (λ h kv, hset kv.1 kv.2 h) h l'.
Proof.
  induction 1 as [|kv l l' Hp IH|a b l|l1 l2 l3 H1 IH1 H2 IH2]; intros Hd h; simpl in *; [done| | |].
  - apply IH. by apply NoDup_cons in Hd as [_ Hd].
  - unfold hset at 2 3 5 6. rewrite insert_insert_ne; [done|]. intros He.
    apply NoDup_cons in Hd as [Hn _]. apply Hn. rewrite He. by left.
  - rewrite IH1 by done. apply IH2. by rewrite <- H1.
Qed.

Section Iteration.
Variable iter : gmap string string → list (string * string).
Hypothesis Hiter : ∀ m, iter m ≡ₚ map_to_list m.

Lemma iter_keys m (P : string → Prop) : map_Forall (λ k _, P k) m → Forall (λ kv : string * string, P kv.1) (iter m).
Proof.
  intros H. rewrite Hiter. apply Forall_forall. intros [k v] Hin%elem_of_map_to_list. by apply (H k v).
Qed.

Lemma iter_NoDup m : (∀ k k' v v', m !! k = Some v → m !! k' = Some v' → canonical k = canonical k' → k = k') →
  NoDup (map (λ kv : string * string, canonical kv.1) (iter m)).
Proof.
  intros Hinj. rewrite Hiter. change (map (λ kv : string * string, canonical kv.1) (map_to_list m)) with
    ((λ kv : string * string, canonical kv.1) <$> map_to_list m).
  apply NoDup_fmap_2_strong; [|apply NoDup_map_to_list]. intros [k v] [k' v'] H1%elem_of_map_to_list H2%elem_of_map_to_list He.
  simpl in He. assert (k = k') as -> by eauto. by rewrite H1 in H2; simplify_eq.
Qed.

(** The extra headers of every call: none is a credential, and no two have
    the same canonical name. *)
Definition plain_headers (m : gmap string string) : Prop :=
  map_Forall (λ k _, canonical k ≠ "Authorization" ∧ canonical k ≠ "Apikey") m ∧
  (∀ k k' v v', m !! k = Some v → m !! k' = Some v' → canonical k = canonical k' → k = k').

Lemma plain_empty : plain_headers ∅.
Proof. split; [apply map_Forall_empty|]. by intros k k' v v' ?%lookup_empty_Some. Qed.

Lemma plain_one k v : canonical k ≠ "Authorization" → canonical k ≠ "Apikey" → plain_headers {[k := v]}.
Proof.
  intros H1 H2. split; [by apply map_Forall_singleton|].
  intros a b x y [<- _]%lookup_singleton_Some [<- _]%lookup_singleton_Some. done.
Qed.

Lemma plain_insert k v m : canonical k ≠ "Authorization" → canonical k ≠ "Apikey" → plain_headers m →
  map_Forall (λ k' _, canonical k' ≠ canonical k) m → plain_headers (<[k := v]> m).
Proof.
  intros H1 H2 [Hm Hi] Hf. split; [by apply map_Forall_insert_2|].
  intros a b x y [[<- _]|[Ha Hx]]%lookup_insert_Some [[<- _]|[Hb Hy]]%lookup_insert_Some He; [done| | |by eapply Hi].
  - by destruct (Hf _ _ Hy).
  - by destruct (Hf _ _ Hx).
Qed.

Lemma plain_of meth path b c opts k : plain_headers (extraHeaders opts) → k = "Authorization" ∨ k = "Apikey" →
  headers (build iter c meth path b opts) !! k =
  Some (if decide (k = "Authorization") then "Bearer " +:+ token c (auth opts)
        else match auth opts with
             | authServiceRole => if String.eqb (serviceRoleKey c) "" then anonKey c else serviceRoleKey c
             | _ => anonKey c
             end).
Proof.
  intros [Hp _] Hk. unfold build. cbn [headers]. rewrite fold_hset_other.
  2:{ apply (iter_keys _ (λ k', canonical k' ≠ k)). eapply map_Forall_impl; [exact Hp|]. intros k' v [H1 H2]. by destruct Hk as [-> | ->]. }
  assert (E : ∀ h : Header, (if String.eqb meth "PATCH" then hset "Prefer" "return=representation" h else h) !! k = h !! k).
  { intros h. destruct (String.eqb meth "PATCH"); [|done]. unfold hset. rewrite lookup_insert_ne; [done|]. by destruct Hk as [-> | ->]. }
  rewrite E. unfold hset. rewrite !(lookup_insert_ne _ (canonical "Accept")), !(lookup_insert_ne _ (canonical "Content-Type"))
    by (destruct Hk as [-> | ->]; done).
  change (canonical "apikey") with "Apikey". unfold hget. change (canonical "apikey") with "Apikey".
  destruct (auth opts); cbn [set_auth token]; unfold hset; change (canonical "Authorization") with "Authorization";
    change (canonical "apikey") with "Apikey".
  all: repeat (rewrite lookup_insert_eq || rewrite lookup_insert_ne by done || rewrite lookup_empty); simpl.
  3: destruct (String.eqb (serviceRoleKey c) "") eqn:Es.
  all: by destruct Hk as [-> | ->]; repeat (rewrite lookup_insert_eq || rewrite lookup_insert_ne by done).
Qed.
End Iteration.

(** The extra headers of a call do not depend on the iteration, and neither
    does the request. *)
Lemma build_iter iter iter' c meth path b opts :
  (∀ m, iter m ≡ₚ map_to_list m) → (∀ m, iter' m ≡ₚ map_to_list m) → plain_headers (extraHeaders opts) →
  build iter c meth path b opts = build iter' c meth path b opts.
Proof.
  intros H H' [_ Hi]. unfold build. f_equal. apply fold_hset_perm; [by rewrite H, H'|by apply iter_NoDup].
Qed.

Lemma send_build x : x ≠ activity_rows → ∀ b, ∃ meth path body opts,
  (∀ iter c, send iter c b x = build iter c meth path body opts) ∧ auth opts = mode x ∧ plain_headers (extraHeaders opts).
Proof.
  intros Hx b. destruct x; try done; do 4 eexists; (split; [intros iter c; reflexivity|]); (split; [reflexivity|]);
    simpl; try apply plain_empty; try (apply (plain_one "Prefer"); done).
  apply plain_insert; [done|done|apply plain_insert; [done|done|apply plain_empty|apply map_Forall_empty]|].
  apply map_Forall_insert_2; [done|apply map_Forall_empty].
Qed.

Definition fallback_key (c : client) (a : authMode) : string :=
  match a with authServiceRole => if String.eqb (serviceRoleKey c) "" then anonKey c else serviceRoleKey c | _ => anonKey c end.

Lemma build_secrets iter c c' meth path b opts : baseURL c = baseURL c' → token c (auth opts) = token c' (auth opts) →
  fallback_key c (auth opts) = fallback_key c' (auth opts) →
  build iter c meth path b opts = build iter c' meth path b opts.
Proof.
  intros Hu Ht Hk. unfold build, set_auth. rewrite Hu. destruct (auth opts); simpl in *; rewrite ?Ht, ?Hk; try done.
  unfold hget, hset. rewrite lookup_insert_eq. simpl. rewrite Ht in Hk.
  destruct (String.eqb (serviceRoleKey c') "") eqn:E; [by rewrite Hk|done].
Qed.

Lemma build_url iter c meth path b opts : has_prefix (url (build iter c meth path b opts)) (baseURL c) = true.
Proof. apply prefix_append. Qed.

(** C7. A request depends on the secrets of its call only: clients that agree
    on the base URL, on the credential of the call's mode and on the key it sends
    as [apikey] (the anonymous key, also in the calls with the node token, except
    that a service-role call with a key sends that) send the same request. So the service-role key reaches
    only the five accesses to the tables of newly registered domains and the
    activity rows, and the node token only the edge functions; each request
    goes to a path of the base URL with the Bearer token of its mode, in
    whatever order the extra headers are iterated. A client without a
    service-role key does not leave the privileged calls out: it sends them
    with an empty Bearer token. *)
Theorem secrets_confined iter b x :
  (∀ m, iter m ≡ₚ map_to_list m) →
  (∀ c c', baseURL c = baseURL c' → token c (mode x) = token c' (mode x) → api_key c x = api_key c' x →
    send iter c b x = send iter c' b x) ∧
  (∀ c, headers (send iter c b x) !! "Authorization" = Some ("Bearer " +:+ token c (mode x)) ∧
    headers (send iter c b x) !! "Apikey" = Some (api_key c x) ∧
    has_prefix (url (send iter c b x)) (baseURL c) = true) ∧
  (∀ iter' c, (∀ m, iter' m ≡ₚ map_to_list m) → send iter c b x = send iter' c b x) ∧
  (∀ c, mode x = authServiceRole → serviceRoleKey c = "" → headers (send iter c b x) !! "Authorization" = Some "Bearer ").
Proof.
  intros Hiter.
  assert (Hauth : ∀ c, headers (send iter c b x) !! "Authorization" = Some ("Bearer " +:+ token c (mode x)) ∧
    headers (send iter c b x) !! "Apikey" = Some (api_key c x)).
  { intros c. destruct (decide (x = activity_rows)) as [->|Hx]; [by split; vm_compute|].
    destruct (send_build x Hx b) as (meth & path & body & opts & E & Ha & Hp). rewrite E.
    rewrite !(plain_of iter Hiter) by auto. simpl. rewrite Ha. split; [done|]. by destruct x. }
  split; [|split; [|split]].
  - intros c c' Hu Ht Hk. destruct (decide (x = activity_rows)) as [->|Hx].
    { simpl in Ht. simpl. unfold activity_rows_request, postRESTPrefer. by rewrite Hu, Ht. }
    destruct (send_build x Hx b) as (meth & path & body & opts & E & Ha & Hp). rewrite !E.
    apply build_secrets; rewrite ?Ha; [done|done|]. by destruct x.
  - intros c. destruct (Hauth c) as [H1 H2]. split; [done|]. split; [done|].
    destruct (decide (x = activity_rows)) as [->|Hx]; [apply prefix_append|].
    destruct (send_build x Hx b) as (meth & path & body & opts & E & _). rewrite E. apply build_url.
  - intros iter' c H'. destruct (decide (x = activity_rows)) as [->|Hx]; [done|].
    destruct (send_build x Hx b) as (meth & path & body & opts & E & Ha & Hp). rewrite !E. by apply build_iter.
  - intros c Hm Hs. rewrite (proj1 (Hauth c)), Hm. simpl. by rewrite Hs.
Qed.

(** The iteration by key. *)
Definition by_key (m : gmap string string) : list (string * string) := map_to_list m.

Definition home_client : client := Client "https://cloud" "node-token" "anon" "".

Lemma secrets_confined_witness :
  headers (send by_key home_client "[]" nrd_upsert) !! "Authorization" = Some "Bearer " ∧
  headers (send by_key home_client "{}" node_heartbeat) !! "Authorization" = Some "Bearer node-token".
Proof.
  split.
  - exact (proj2 (proj2 (proj2 (secrets_confined by_key "[]" nrd_upsert (λ m, reflexivity _)))) home_client eq_refl eq_refl).
  - exact (proj1 (proj1 (proj2 (secrets_confined by_key "{}" node_heartbeat (λ m, reflexivity _))) home_client)).
Defined.

(** The client with response headers agrees with [doOnce], and gives the
    headers exactly to the callers that ask for them. *)
Lemma answer_doOnce {Body} opts (x : exchange Body) hdrs :
  (r ← answer opts x hdrs; Ret r.1) = doOnce x ∧
  ∀ r h, answer opts x hdrs = Ret (r, h) → h = if wantRespHdrs opts then Some hdrs else None.
Proof.
  destruct x as [e|st e|st b]; simpl; [by split|by split|]. repeat case_bool_decide; simpl; split; try done; congruence.
Qed.

Lemma truncate_length s n : (String.length (truncate s n) ≤ n + 3)%nat.
Proof. unfold truncate. destruct (decide _); [lia|]. rewrite length_append, length_stake. simpl. lia. Qed.

(** A family is reported by its own node's token, to the edge function. *)
Lemma notify_request iter encode c nodeID now familyID b r : NotifyFamilyFallback iter encode c nodeID now familyID b = Some r →
  familyID ≠ "" ∧ r = send iter c (encode (FallbackNotify familyID b nodeID now)) fallback_state.
Proof. unfold NotifyFamilyFallback. destruct (String.eqb_spec familyID ""); [done|]. by intros [= <-]. Qed.
