(* ===== verification/Lifecycle.v ===== *)
(** [internal/controlsync/service.go] and the loops it starts,
    [internal/tunnel/manager.go] (its loop), [internal/dns/server.go]: how
    services start their goroutines, what wakes these up, and when a service
    has stopped. *)
From S2P Require Import Prelude Wire Blocklist Policy Resolver GoString.

Local Open Scope list_scope.

(** ** Ticker loops *)

(** What a [select] of a loop receives: a tick of one of its tickers, or the end
    of its context. *)
Inductive wake (T : Type) := Tick (t : T) | Cancelled.
Arguments Tick {_} _.
Arguments Cancelled {_}.

Section Loops.
Context {T A : Type}.

(** The calls that a loop makes on a sequence of wake-ups, and whether it has
    returned. *)
Fixpoint ticks (body : T → list A) (ws : list (wake T)) : list A * bool :=
  match ws with
  | [] => ([], false)
  | Cancelled :: _ => ([], true)
  | Tick t :: ws => let '(l, returned) := ticks body ws in (body t ++ l, returned)
  end.

(** The ticks before the loop is cancelled, and whether it is. *)
Fixpoint before_cancel (ws : list (wake T)) : list T :=
  match ws with Tick t :: ws => t :: before_cancel ws | _ => [] end.

Fixpoint cancelled (ws : list (wake T)) : bool :=
  match ws with [] => false | Tick _ :: ws => cancelled ws | Cancelled :: _ => true end.

Lemma ticks_spec body ws : ticks body ws = (concat (map body (before_cancel ws)), cancelled ws).
Proof. induction ws as [|[t|] ws IH]; simpl; [done|by rewrite IH|done]. Qed.
End Loops.

(** The calls of the loops of [controlsync.Service]. *)
Inductive action :=
| SendHeartbeat | SeedBootstrapBundle | FetchAndEnqueue | DrainPending | PollAndEnforce | FetchBundle | BlocklistCycle.

Abbreviation one_ticker := (list (wake unit)).

Definition runHeartbeat (ws : one_ticker) : list action * bool :=
  let '(l, returned) := ticks (λ _, [SendHeartbeat]) ws in (SendHeartbeat :: l, returned).

Fixpoint command_ticks (bootstrapped : bool) (ws : one_ticker) : list action * bool :=
  match ws with
  | [] => ([], false)
  | Cancelled :: _ => ([], true)
  | Tick _ :: ws =>
      let '(l, returned) := command_ticks true ws in
      ((if bootstrapped then [] else [SeedBootstrapBundle]) ++ [FetchAndEnqueue; DrainPending] ++ l, returned)
  end.

Definition runCommandPoll (ws : one_ticker) : list action * bool := command_ticks false ws.

Definition runEnforcementSync (ws : one_ticker) : list action * bool := ticks (λ _, [PollAndEnforce]) ws.

Definition runBundleFetch (ws : one_ticker) : list action * bool :=
  let '(l, returned) := ticks (λ _, [FetchBundle]) ws in (FetchBundle :: l, returned).

Definition runBlocklistSync (nodeType : string) (ws : one_ticker) : list action * bool :=
  if String.eqb nodeType "vps_relay" then ([], true) else ticks (λ _, [BlocklistCycle]) ws.

(** The tunnel manager's loop, with its two tickers. *)
Inductive tunnel_tick := SyncTick | HealthTick.
Inductive tunnel_action := Sync | CheckHealth.

Definition runSyncLoop (ws : list (wake tunnel_tick)) : list tunnel_action * bool :=
  ticks (λ t, match t with SyncTick => [Sync] | HealthTick => [CheckHealth] end) ws.

Lemma command_ticks_spec ws : ∀ b, command_ticks b ws =
  ((if b then [] else match before_cancel ws with [] => [] | _ => [SeedBootstrapBundle] end) ++
   concat (map (λ _, [FetchAndEnqueue; DrainPending]) (before_cancel ws)), cancelled ws).
Proof. induction ws as [|[t|] ws IH]; intros b; simpl; [by destruct b|rewrite (IH true); by destruct b|by destruct b]. Qed.

(** Whatever the wake-ups, the node is told to the cloud and its bundle fetched
    before the first tick and once at each, the bootstrap bundle is seeded once,
    before any command of the loop is fetched, and commands are drained after
    each fetch; a relay never touches the block lists; and every loop returns at
    the first cancellation it sees. *)
Theorem loops_exact ws nodeType :
  let n := length (before_cancel ws) in
  let returned := cancelled ws in
  runHeartbeat ws = (replicate (S n) SendHeartbeat, returned) ∧
  runBundleFetch ws = (replicate (S n) FetchBundle, returned) ∧
  runEnforcementSync ws = (replicate n PollAndEnforce, returned) ∧
  runCommandPoll ws = ((if bool_decide (n = 0)%nat then [] else [SeedBootstrapBundle]) ++
    concat (replicate n [FetchAndEnqueue; DrainPending]), returned) ∧
  runBlocklistSync nodeType ws = (if String.eqb nodeType "vps_relay" then ([], true) else (replicate n BlocklistCycle, returned)).
Proof.
  intros n returned.
  assert (R : ∀ (x : action) l, concat (map (λ _ : unit, [x]) l) = replicate (length l) x) by (intros x l; induction l as [|y l IH]; simpl; [done|by rewrite IH]).
  unfold runHeartbeat, runBundleFetch, runEnforcementSync, runCommandPoll, runBlocklistSync.
  rewrite !ticks_spec, command_ticks_spec, !R. fold n. fold returned. split; [done|]. split; [done|]. split; [done|]. split.
  - unfold n. destruct (before_cancel ws) as [|u l]; [done|]. rewrite bool_decide_false by done. do 2 f_equal. simpl. do 2 f_equal.
    clear. induction l as [|v l IH]; simpl; [done|by rewrite IH].
  - by destruct (String.eqb nodeType "vps_relay").
Qed.

(** ** Start and Stop of [controlsync.Service] *)

Definition default_node_type (nodeType : string) : string := if String.eqb nodeType "" then "home_node" else nodeType.

(** The goroutines counted by the wait group: the five loops that [Start]
    launches, and one for each activity writer, which runs on the context of the
    program instead of the service's own. *)
Inductive goroutine := HeartbeatLoop | CommandLoop | EnforcementLoop | BundleLoop | BlocklistLoop | Writer (i : nat).

#[global] Instance goroutine_eq_dec : EqDecision goroutine.
Proof. solve_decision. Defined.

Definition loops : list goroutine := [HeartbeatLoop; CommandLoop; EnforcementLoop; BundleLoop; BlocklistLoop].

Record service := Service {
  nodeType : string;
  started : bool;
  program_done : bool;
  run_done : bool;
  live : list goroutine;
  wg : Z;
  stopping : bool;
  stopped : bool }.

Definition NewService (node_type : string) : service := Service (default_node_type node_type) false false false [] 0 false false.

(** A loop returns when its context is done, and that of the block lists at
    once on a relay; the service's context is a child of the program's. *)
Definition may_return (s : service) (g : goroutine) : bool :=
  match g with
  | Writer _ => program_done s
  | BlocklistLoop => program_done s || run_done s || String.eqb (nodeType s) "vps_relay"
  | _ => program_done s || run_done s
  end.

(** [Start] is called once. *)
Inductive life_step : service → service → Prop :=
| life_start s : started s = false → life_step s (Service (nodeType s) true (program_done s) false (loops ++ live s) (wg s + 5) (stopping s) (stopped s))
| life_writer s i : life_step s (Service (nodeType s) (started s) (program_done s) (run_done s) (Writer i :: live s) (wg s + 1) (stopping s) (stopped s))
| life_return s l1 g l2 : live s = l1 ++ g :: l2 → may_return s g = true →
    life_step s (Service (nodeType s) (started s) (program_done s) (run_done s) (l1 ++ l2) (wg s - 1) (stopping s) (stopped s))
| life_signal s : life_step s (Service (nodeType s) (started s) true (run_done s) (live s) (wg s) (stopping s) (stopped s))
| life_stop s : stopping s = false → life_step s (Service (nodeType s) (started s) (program_done s) true (live s) (wg s) true (stopped s))
| life_stopped s : stopping s = true → wg s = 0%Z →
    life_step s (Service (nodeType s) (started s) (program_done s) (run_done s) (live s) (wg s) true true).

(** After [Stop] is called nothing is started any more. *)
Inductive shutdown_step : service → service → Prop :=
| shut_return s s' l1 g l2 : live s = l1 ++ g :: l2 → may_return s g = true →
    s' = Service (nodeType s) (started s) (program_done s) (run_done s) (l1 ++ l2) (wg s - 1) (stopping s) (stopped s) → shutdown_step s s'
| shut_signal s : shutdown_step s (Service (nodeType s) (started s) true (run_done s) (live s) (wg s) (stopping s) (stopped s))
| shut_stopped s : stopping s = true → wg s = 0%Z →
    shutdown_step s (Service (nodeType s) (started s) (program_done s) (run_done s) (live s) (wg s) true true).

Lemma life_count s s' : wg s = Z.of_nat (length (live s)) → life_step s s' → wg s' = Z.of_nat (length (live s')).
Proof.
  intros H Hs. destruct Hs as [s _|s i|s l1 g l2 El _|s|s _|s _ _]; simpl; try done; try (simpl in *; lia).
  rewrite H, El, !length_app. simpl. lia.
Qed.

Lemma shutdown_count s s' : wg s = Z.of_nat (length (live s)) → shutdown_step s s' → wg s' = Z.of_nat (length (live s')).
Proof.
  intros H Hs. destruct Hs as [s s' l1 g l2 El _ ->|s|s _ _]; simpl; try done.
  rewrite H, El, !length_app. simpl. lia.
Qed.

(** The goroutines return one after the other, then [Stop]. *)
Lemma all_return n : ∀ s, length (live s) = n → wg s = Z.of_nat n → stopping s = true → program_done s = true →
  star shutdown_step s (Service (nodeType s) (started s) true (run_done s) [] 0 true true).
Proof.
  induction n as [|n IH]; intros s Hl Hw Hst Hp.
  - destruct s as [t sta p r l w st sd]. simpl in *. subst. apply nil_length_inv in Hl as ->.
    eapply star_step; [by apply shut_stopped|]. apply star_refl.
  - destruct s as [t sta p r l w st sd]. simpl in *. subst p st. destruct l as [|g l]; [done|].
    eapply star_step; [apply (shut_return (Service t sta true r (g :: l) w true sd) _ [] g l); [done|by destruct g|done]|].
    apply (IH (Service t sta true r l (w - 1) true sd)); simpl in *; [lia|lia|done|done].
Qed.

(** C34. [Stop] waits for all and for nothing else. Whatever was started in whatever
    order, the wait group counts the live goroutines, so it never goes negative;
    once the program's context is done a pending [Stop] can return by steps of
    the goroutines alone; when it has returned during a shutdown none is alive;
    and while an activity writer lives and that context is not done it cannot. *)
Theorem stop_returns t s : star life_step (NewService t) s → 
  wg s = Z.of_nat (length (live s)) ∧
  (stopping s = true → program_done s = true → ∃ s', star shutdown_step s s' ∧ stopped s' = true ∧ live s' = []) ∧
  (stopped s = false → ∀ s', star shutdown_step s s' →
    (stopped s' = true → live s' = []) ∧
    (∀ i, Writer i ∈ live s → program_done s' = false → stopped s' = false)).
Proof.
  intros Hs. assert (Hw : wg s = Z.of_nat (length (live s))).
  { revert Hs. apply (star_invariant life_step (λ u, wg u = Z.of_nat (length (live u)))); [intros ? ?; apply life_count|done]. }
  split; [done|]. split.
  - intros Hst Hp. eexists. split; [by eapply all_return|done].
  - intros Hns s' Hs'.
    set (I := λ u : service, wg u = Z.of_nat (length (live u)) ∧ (stopped u = true → live u = []) ∧
      (∀ i, Writer i ∈ live s → program_done u = false → Writer i ∈ live u)).
    assert (HI : I s').
    { revert Hs'. apply (star_invariant shutdown_step I); [|by split; [done|split; [by rewrite Hns|]]].
      intros u v (I1 & I2 & I3) Hstep. split; [by eapply shutdown_count|]. destruct Hstep as [u v l1 g l2 El Hg ->|u|u Hst H0]; simpl.
      - split; [intros E; specialize (I2 E); rewrite El in I2; by destruct l1|].
        intros i Hi Hp. specialize (I3 i Hi Hp). rewrite El in I3. apply elem_of_app in I3 as [|[<-|]%elem_of_cons]; apply elem_of_app; [by left| |by right].
        exfalso. simpl in *. congruence.
      - by split.
      - split; [|done]. intros _. destruct (live u); [done|]. simpl in I1. lia. }
    destruct HI as (I1 & I2 & I3). split; [done|]. intros i Hi Hp. specialize (I3 i Hi Hp).
    destruct (stopped s') eqn:E; [|done]. rewrite (I2 eq_refl) in I3. by apply elem_of_nil in I3.
Qed.

(** A writer made by the wiring, then the service, then both contexts end. *)
Definition shutting_down : service :=
  Service "home_node" true true true (loops ++ [Writer 0]) 6 true false.

Lemma shutting_down_reachable : star life_step (NewService "") shutting_down.
Proof.
  eapply star_step; [apply (life_writer _ 0)|]. eapply star_step; [by apply life_start|].
  eapply star_step; [apply life_signal|]. eapply star_step; [by apply life_stop|]. apply star_refl.
Qed.

Lemma stop_returns_witness : ∃ s', star shutdown_step shutting_down s' ∧ stopped s' = true ∧ live s' = [].
Proof. exact (proj1 (proj2 (stop_returns "" shutting_down shutting_down_reachable)) eq_refl eq_refl). Defined.
