(* ===== verification/RelayRun.v ===== *)
(** [internal/relay]: how a node is admitted by the relay ([runSession] and
    [handleNodeConn], with the URL and the request line between them), the routes and loops of the broker's service, what one
    sweep of its janitor leaves, and the way of a packet to the home node. *)
From stdpp Require Import gmap.
From S2P Require Import Prelude GoString Registry Fallback Frame RelaySession Broker Lifecycle.

Local Open Scope string_scope.
Local Open Scope list_scope.

(** ** Query strings ([net/url]) *)

(** [url.QueryUnescape]: [None] for a malformed escape. *)
Fixpoint QueryUnescape (s : string) : option string :=
  match s with
  | EmptyString => Some ""
  | String "%" (String h (String l r)) =>
      v ← hex_value h; w ← hex_value l; t ← QueryUnescape r; Some (String (ascii_of_N (Z.to_N (16 * v + w))) t)
  | String a r =>
      if Ascii.eqb a "%" then None
      else t ← QueryUnescape r; Some (String (if Ascii.eqb a "+" then " " else a) t)
  end.

(** [strings.Cut(s, c)] without the flag. *)
Definition cut (c : ascii) (s : string) : string * string :=
  match before_byte c s with Some k => (k, default "" (after_byte c s)) | None => (s, "") end.

(** One part of the query; a malformed one is skipped. *)
Definition query_pair (part : string) : option (string * string) :=
  if contains_byte ";" part then None else
  if String.eqb part "" then None else
  k ← QueryUnescape (cut "=" part).1; v ← QueryUnescape (cut "=" part).2; Some (k, v).

(** [URL.Query]; [Values.Get] is the first value of a key. *)
Definition Query (raw : string) : list (string * string) := omap query_pair (split_byte "&" raw).

Definition Get (q : list (string * string)) (key : string) : string :=
  match List.find (λ kv, String.eqb kv.1 key) q with Some (_, v) => v | None => "" end.

(** ** The request ([net/url], [net/http]) *)

(** [url.ParseRequestURI] refuses a control byte anywhere. *)
Fixpoint has_control (s : string) : bool :=
  match s with
  | EmptyString => false
  | String a r => bool_decide (N_of_ascii a < 32 ∨ N_of_ascii a = 127)%N || has_control r
  end.

(** [http.ParseHTTPVersion]: HTTP/X.Y. *)
Definition ParseHTTPVersion (vers : string) : bool :=
  let digit i := match String.get i vers with Some a => bool_decide (48 ≤ N_of_ascii a ≤ 57)%N | None => false end in
  bool_decide (String.length vers = 8%nat) && has_prefix vers "HTTP/" && digit 5%nat &&
  bool_decide (String.get 6 vers = Some "."%char) && digit 7%nat.

(** The target of a request line: it ends at the first space, and what follows
    must be the version. *)
Definition parseRequestLine (line : string) : option string :=
  _ ← before_byte " " line; rest ← after_byte " " line;
  requestURI ← before_byte " " rest; proto ← after_byte " " rest;
  if ParseHTTPVersion proto then Some requestURI else None.

(** The query of the request as the relay reads it, when the client dials the
    broker's address with [raw] behind it; [None] when the client refuses the
    URL or the server the request. Both copy a query as it is, without escaping;
    the opening of a WebSocket is a GET of the URL's target. *)
Definition received_query (raw : string) : option string :=
  if has_control raw then None else
  target ← parseRequestLine ("GET " +:+ ("/relay/node?" +:+ raw) +:+ " HTTP/1.1");
  if has_control target then None else Some (cut "?" target).2.

(** ** Admission *)

(** The query that [runSession] puts behind the address of the broker. *)
Definition session_query (nodeID familyID token : string) : string :=
  join "&" ["node_id=" +:+ nodeID; "family_id=" +:+ familyID; "token=" +:+ token].

(** [handleNodeConn] and [handleDeviceConn], up to the registration. *)
Definition admit_node (nodeToken raw : string) : option (string * string) :=
  let q := Query raw in
  let nodeID := Get q "node_id" in
  let familyID := Get q "family_id" in
  let token := Get q "token" in
  if String.eqb nodeID "" || String.eqb familyID "" then None else
  if negb (String.eqb token nodeToken) then None else Some (nodeID, familyID).

(** A session as the relay, whose secret is [nodeToken], begins it. *)
Definition begin_session (nodeToken nodeID familyID token : string) : option (string * string) :=
  raw ← received_query (session_query nodeID familyID token); admit_node nodeToken raw.

Definition admit_device (nodeToken raw : string) : option (string * string) :=
  let q := Query raw in
  let familyID := Get q "family_id" in
  let deviceID := Get q "device_id" in
  let token := Get q "token" in
  if String.eqb familyID "" || String.eqb deviceID "" || String.eqb token "" then None else
  if negb (String.eqb token nodeToken) then None else Some (familyID, deviceID).

(** The routes of the service; [mux] matches these paths exactly. *)
Inductive route := NodeConn_ | DeviceConn | StatusPage | NotFound.

Definition RegisterRoutes (path : string) : route :=
  if String.eqb path "/relay/node" then NodeConn_
  else if String.eqb path "/relay/device" then DeviceConn
  else if String.eqb path "/relay/status" then StatusPage
  else NotFound.

(** A byte that is not special in a query. *)
Definition plain_byte (a : ascii) : bool :=
  negb (List.existsb (Ascii.eqb a) ["%"; "+"; "&"; ";"]%char).
Fixpoint plain (s : string) : bool :=
  match s with EmptyString => true | String a r => plain_byte a && plain r end.

Lemma plain_app s t : plain (s +:+ t) = plain s && plain t.
Proof. induction s as [|a s IH]; simpl; [done|]. by rewrite IH, andb_assoc. Qed.

Lemma plain_byte_ne a : plain_byte a = true → a ≠ "%"%char ∧ a ≠ "+"%char ∧ a ≠ "&"%char ∧ a ≠ ";"%char.
Proof. intros H. repeat split; intros ->; discriminate H. Qed.

Lemma QueryUnescape_plain_byte a r : plain_byte a = true →
  QueryUnescape (String a r) = String a <$> QueryUnescape r.
Proof.
  intros (H1 & H2 & _)%plain_byte_ne.
  assert (E : QueryUnescape (String a r) = (t ← QueryUnescape r; Some (String (if Ascii.eqb a "+" then " " else a)%char t))).
  { destruct a as [[] [] [] [] [] [] [] []]; try reflexivity. by destruct H1. }
  rewrite E. destruct (Ascii.eqb_spec a "+"); [done|]. by destruct (QueryUnescape r).
Qed.

Lemma QueryUnescape_plain s t : plain s = true → QueryUnescape (s +:+ t) = String.append s <$> QueryUnescape t.
Proof.
  induction s as [|a s IH]; [intros _; simpl; by destruct (QueryUnescape t)|]. intros [Ha Hs]%andb_true_iff.
  change (String a s +:+ t) with (String a (s +:+ t)). rewrite QueryUnescape_plain_byte, IH by done. by destruct (QueryUnescape t).
Qed.

Lemma contains_plain c s : List.existsb (Ascii.eqb c) ["%"; "+"; "&"; ";"]%char = true → plain s = true → contains_byte c s = false.
Proof.
  intros Hc. induction s as [|a s IH]; simpl; [done|]. intros [Ha Hs]%andb_true_iff. rewrite IH by done.
  destruct (Ascii.eqb_spec a c) as [->|]; [|done]. unfold plain_byte in Ha. by rewrite Hc in Ha.
Qed.

Lemma plain_spec s : contains_byte "%" s = false ∧ contains_byte "+" s = false ∧ contains_byte "&" s = false ∧ contains_byte ";" s = false → plain s = true.
Proof.
  induction s as [|a s IH]; [done|]. simpl. rewrite !orb_false_iff. intros ([H1 K1] & [H2 K2] & [H3 K3] & [H4 K4]).
  rewrite IH by done. unfold plain_byte. simpl. by rewrite H1, H2, H3, H4.
Qed.

Lemma before_after_app c k v : contains_byte c k = false →
  before_byte c (k +:+ String c v) = Some k ∧ after_byte c (k +:+ String c v) = Some v.
Proof.
  intros Hk. induction k as [|a k IH]; simpl in *; [by rewrite Ascii.eqb_refl|].
  destruct (Ascii.eqb a c); [done|]. destruct (IH Hk) as [-> ->]. done.
Qed.

Lemma cut_app c k v : contains_byte c k = false → cut c (k +:+ String c v) = (k, v).
Proof. intros Hk. unfold cut. by destruct (before_after_app c k v Hk) as [-> ->]. Qed.

(** A text that holds a byte, cut at the first one. *)
Lemma contains_split c s : contains_byte c s = true → ∃ k v, s = k +:+ String c v ∧ contains_byte c k = false.
Proof.
  induction s as [|a s IH]; [done|]. simpl. destruct (Ascii.eqb_spec a c) as [->|Hne]; [intros _; by exists "", s|].
  intros (k & v & -> & Hk)%IH. exists (String a k), v. simpl. split; [done|]. by destruct (Ascii.eqb_spec a c).
Qed.

Lemma has_control_app s t : has_control (s +:+ t) = has_control s || has_control t.
Proof. induction s as [|a s IH]; simpl; [done|]. by rewrite IH, orb_assoc. Qed.

(** A text that can stand in a URL and in the line of a request. *)
Definition url_safe (s : string) : bool := negb (has_control s || contains_byte " " s).

Lemma url_safe_app s t : url_safe (s +:+ t) = url_safe s && url_safe t.
Proof.
  unfold url_safe. rewrite has_control_app, contains_byte_append.
  by destruct (has_control s), (has_control t), (contains_byte " " s), (contains_byte " " t).
Qed.

Lemma request_line target :
  parseRequestLine ("GET " +:+ target +:+ " HTTP/1.1") = if contains_byte " " target then None else Some target.
Proof.
  unfold parseRequestLine. change ("GET " +:+ target +:+ " HTTP/1.1") with ("GET" +:+ String " " (target +:+ " HTTP/1.1")).
  destruct (before_after_app " " "GET" (target +:+ " HTTP/1.1") eq_refl) as [-> ->]. cbn [mbind option_bind].
  destruct (contains_byte " " target) eqn:Es.
  - apply contains_split in Es as (k & v & -> & Hk). rewrite sappend_assoc. change (String " " v +:+ " HTTP/1.1") with (String " " (v +:+ " HTTP/1.1")).
    destruct (before_after_app " " k (v +:+ " HTTP/1.1") Hk) as [-> ->]. cbn [mbind option_bind].
    unfold ParseHTTPVersion. rewrite bool_decide_eq_false_2; [done|]. rewrite length_append. simpl. lia.
  - by destruct (before_after_app " " target "HTTP/1.1" Es) as [-> ->].
Qed.

Lemma received raw : received_query raw = if url_safe raw then Some raw else None.
Proof.
  unfold received_query, url_safe. destruct (has_control raw) eqn:Ec; [done|].
  rewrite request_line, contains_byte_append. change (contains_byte " " "/relay/node?") with false. simpl orb.
  destruct (contains_byte " " raw); [done|]. cbn [mbind option_bind negb]. rewrite has_control_app, Ec.
  change (has_control "/relay/node?") with false. cbn [orb]. cbv iota.
  change ("/relay/node?" +:+ raw) with ("/relay/node" +:+ String "?" raw). by rewrite cut_app.
Qed.

(** A part [key=value] without a separator is read as [QueryUnescape] reads
    its value. *)
Lemma query_pair_value key value : plain key = true → contains_byte "=" key = false → key ≠ "" →
  contains_byte ";" value = false →
  query_pair (key +:+ String "=" value) = pair key <$> QueryUnescape value.
Proof.
  intros Hk He Hne Hv. unfold query_pair.
  assert (Hs : contains_byte ";" (key +:+ String "=" value) = false).
  { assert (Hk' : contains_byte ";" key = false) by (by apply contains_plain). revert Hk' Hv. clear.
    induction key as [|a k IH]; simpl; [done|]. destruct (Ascii.eqb a ";"); [done|]. by apply IH. }
  rewrite Hs. destruct (String.eqb_spec (key +:+ String "=" value) "") as [E|_]; [by destruct key|].
  rewrite cut_app by done. cbn [fst snd]. rewrite <- (append_nil_r key), QueryUnescape_plain, append_nil_r by done. simpl.
  rewrite append_nil_r. by destruct (QueryUnescape value).
Qed.

Lemma QueryUnescape_length n : ∀ s t, (String.length s ≤ n)%nat → QueryUnescape s = Some t → (String.length t ≤ String.length s)%nat.
Proof.
  induction n as [|n IH]; intros s t Hn H; [destruct s; [by injection H as <-|simpl in Hn; lia]|].
  destruct s as [|a r]; [by injection H as <-|]. simpl in Hn.
  assert (Hplain : ∀ t', QueryUnescape r = Some t' → (String.length t' ≤ String.length r)%nat) by (intros; eapply IH; [|done]; lia).
  destruct (Ascii.eqb_spec a "%") as [->|Ha].
  - destruct r as [|h [|l r']]; try done. simpl in H, Hn. destruct (hex_value h); [|done]. destruct (hex_value l); [|done]. simpl in H.
    destruct (QueryUnescape r') as [t'|] eqn:E; [|done]. injection H as <-. apply IH in E; simpl; lia.
  - assert (E : ∃ b, QueryUnescape (String a r) = String b <$> QueryUnescape r).
    { destruct a as [[] [] [] [] [] [] [] []]; (by destruct Ha) || (eexists; simpl; by destruct (QueryUnescape r)). }
    destruct E as [b E]. rewrite E in H. destruct (QueryUnescape r) as [t'|]; [|done]. injection H as <-. simpl. apply le_n_S. by apply Hplain.
Qed.

(** A text that is read as itself has no escape and no plus. *)
Lemma QueryUnescape_id s : QueryUnescape s = Some s ↔ contains_byte "%" s = false ∧ contains_byte "+" s = false.
Proof.
  split.
  - induction s as [|a r IH]; [done|]. intros H. destruct (Ascii.eqb_spec a "%") as [->|Ha].
    + exfalso. destruct r as [|h [|l r']]; try done. simpl in H. destruct (hex_value h); [|done]. destruct (hex_value l); [|done]. simpl in H.
      destruct (QueryUnescape r') as [t'|] eqn:E; [|done]. apply (QueryUnescape_length _ _ _ (le_n _)) in E.
      injection H as _ H. rewrite H in E. simpl in E. lia.
    + assert (E : QueryUnescape (String a r) = String (if Ascii.eqb a "+" then " " else a)%char <$> QueryUnescape r).
      { destruct a as [[] [] [] [] [] [] [] []]; (by destruct Ha) || (simpl; by destruct (QueryUnescape r)). }
      rewrite E in H. destruct (QueryUnescape r) as [t'|]; [|done]. injection H as Hb ->. simpl.
      destruct (IH eq_refl) as [-> ->]. rewrite !orb_false_r. split; apply Ascii.eqb_neq; [done|].
      intros ->. discriminate Hb.
  - induction s as [|a r IH]; [done|]. simpl contains_byte. rewrite !orb_false_iff. intros [[Ha Hr] [Ha' Hr']].
    apply Ascii.eqb_neq in Ha, Ha'.
    assert (E : QueryUnescape (String a r) = String (if Ascii.eqb a "+" then " " else a)%char <$> QueryUnescape r).
    { destruct a as [[] [] [] [] [] [] [] []]; (by destruct Ha) || (simpl; by destruct (QueryUnescape r)). }
    rewrite E, (IH (conj Hr Hr')). simpl. by destruct (Ascii.eqb_spec a "+").
Qed.

(** ** What the relay reads *)

(** The values of a query are no longer than its parts. *)
Lemma query_pair_length part k v : query_pair part = Some (k, v) → (String.length v ≤ String.length part)%nat.
Proof.
  unfold query_pair. case_match; [done|]. case_match; [done|]. intros H2.
  destruct (QueryUnescape (cut "=" part).1); [|done]. simpl in H2. destruct (QueryUnescape (cut "=" part).2) as [w|] eqn:Ev; [|done].
  injection H2 as -> ->. apply (QueryUnescape_length _ _ _ (le_n _)) in Ev. etrans; [exact Ev|]. unfold cut.
  destruct (before_byte _ _); [|simpl; lia]. destruct (after_byte "=" part) as [r|] eqn:E; [|simpl; lia]. apply after_byte_length in E. simpl. lia.
Qed.

Lemma Get_length parts key n : Forall (λ p, (String.length p ≤ n)%nat) parts → (String.length (Get (omap query_pair parts) key) ≤ n)%nat.
Proof.
  unfold Get. intros Hp. destruct (List.find _ _) as [[k v]|] eqn:E; [|simpl; lia].
  apply List.find_some in E as [E _]. apply list_elem_of_In, list_elem_of_omap in E as (p & Hin & E).
  rewrite Forall_forall in Hp. apply query_pair_length in E. specialize (Hp p Hin). lia.
Qed.

Section Admission.
Variables nodeID familyID token : string.
Hypothesis Hn : plain nodeID = true.
Hypothesis Hf : plain familyID = true.

(** The name and the family come first and are read as they are. *)
Lemma session_query_read : Query (session_query nodeID familyID token) =
  ("node_id", nodeID) :: ("family_id", familyID) :: omap query_pair (split_byte "&" ("token=" +:+ token)).
Proof.
  unfold Query, session_query.
  assert (Hp : ∀ key s, plain key = true → contains_byte "=" key = false → key ≠ "" → plain s = true →
    contains_byte "&" (key +:+ String "=" s) = false ∧ query_pair (key +:+ String "=" s) = Some (key, s)).
  { intros key s Hk He Hne Hs. split; [rewrite contains_byte_append; simpl; by rewrite !(contains_plain "&"%char)|].
    rewrite query_pair_value by (done || by apply contains_plain). rewrite <- (append_nil_r s), QueryUnescape_plain by done. simpl. by rewrite append_nil_r. }
  destruct (Hp "node_id" nodeID) as [N1 N2], (Hp "family_id" familyID) as [F1 F2]; try done.
  change (join "&" _) with (("node_id" +:+ String "=" nodeID) +:+ String "&" (("family_id" +:+ String "=" familyID) +:+ String "&" ("token=" +:+ token))).
  rewrite !split_byte_append by done. cbn [omap list_omap]. by rewrite N2, F2.
Qed.

Lemma token_part k : query_pair ("token=" +:+ k) = if contains_byte ";" k then None else pair "token" <$> QueryUnescape k.
Proof.
  destruct (contains_byte ";" k) eqn:Hs; [|by apply (query_pair_value "token")].
  unfold query_pair. rewrite contains_byte_append, Hs. done.
Qed.

(** The value of [token] as the relay reads it. *)
Lemma token_read : contains_byte "&" token = false → contains_byte ";" token = false →
  Get (omap query_pair (split_byte "&" ("token=" +:+ token))) "token" = default "" (QueryUnescape token).
Proof.
  intros Ha Hs. rewrite split_byte_none by done. cbn [omap list_omap]. change ("token=" +:+ token) with ("token" +:+ String "=" token).
  rewrite query_pair_value by done. by destruct (QueryUnescape token).
Qed.

(** It is the secret itself only if that has no special byte. *)
Lemma token_is : Get (omap query_pair (split_byte "&" ("token=" +:+ token))) "token" = token ↔ plain token = true.
Proof.
  split.
  - intros E. destruct (contains_byte "&" token) eqn:Ha.
    + exfalso. apply contains_split in Ha as (k & v & Ht & Hk). pose proof (Get_length (split_byte "&" v) "token" _ (split_byte_length "&" v)) as Hv.
      apply (f_equal String.length) in E. rewrite Ht in E. change ("token=" +:+ k +:+ String "&" v) with (("token=" +:+ k) +:+ String "&" v) in E.
      rewrite split_byte_append, length_append in E by done. cbn [omap list_omap String.length] in E. rewrite token_part in E.
      destruct (contains_byte ";" k); [lia|]. destruct (QueryUnescape k) as [w|] eqn:Ew; [|simpl in E; lia].
      apply (QueryUnescape_length _ _ _ (le_n _)) in Ew. unfold Get in E. simpl in E. lia.
    + rewrite split_byte_none in E by done. cbn [omap list_omap] in E. rewrite token_part in E. apply plain_spec.
      destruct (contains_byte ";" token) eqn:Hs; [by rewrite <- E in Hs|].
      destruct (QueryUnescape token) as [w|] eqn:Ew; unfold Get in E; simpl in E; [|by rewrite <- E in Ew].
      subst w. apply QueryUnescape_id in Ew as [-> ->]. done.
  - intros Hp. rewrite token_read by (by apply contains_plain). rewrite <- (append_nil_r token) at 1. rewrite QueryUnescape_plain by done. simpl. apply append_nil_r.
Qed.
End Admission.

(** C39. The request of a session puts the node's name, its family and the shared
    secret into the address without escaping them. Names with no byte that is
    special in a query, a URL or a request line are read as they are, whatever
    the secret holds. With the same secret on both sides the relay begins the
    session exactly when the secret has none of those bytes either: no percent
    sign, plus, ampersand, semicolon, space or control byte. With another secret
    it does so only if the client's text decodes to the relay's. *)
Theorem session_admitted nodeID familyID token secret :
  plain nodeID = true → plain familyID = true → url_safe nodeID = true → url_safe familyID = true → nodeID ≠ "" → familyID ≠ "" →
  (begin_session token nodeID familyID token = Some (nodeID, familyID) ↔ plain token = true ∧ url_safe token = true) ∧
  (∀ r, begin_session secret nodeID familyID token = Some r → r = (nodeID, familyID) ∧ url_safe token = true ∧
    (contains_byte "&" token = false → contains_byte ";" token = false → default "" (QueryUnescape token) = secret)).
Proof.
  intros Hn Hf Un Uf Hn' Hf'.
  assert (E : ∀ secret, begin_session secret nodeID familyID token =
    if url_safe token && String.eqb (Get (omap query_pair (split_byte "&" ("token=" +:+ token))) "token") secret then Some (nodeID, familyID) else None).
  { intros sec. unfold begin_session. rewrite received.
    assert (Eu : url_safe (session_query nodeID familyID token) = url_safe token).
    { unfold session_query. change (join "&" _) with ("node_id=" +:+ nodeID +:+ "&family_id=" +:+ familyID +:+ "&token=" +:+ token). by rewrite !url_safe_app, Un, Uf. }
    rewrite Eu. destruct (url_safe token); [|done]. cbn [mbind option_bind andb]. unfold admit_node. rewrite session_query_read by done.
    change (Get (("node_id", nodeID) :: _) "node_id") with nodeID. change (Get (_ :: ("family_id", familyID) :: _) "family_id") with familyID.
    destruct (String.eqb_spec nodeID ""), (String.eqb_spec familyID ""); try done. simpl orb. cbv iota.
    change (Get (("node_id", nodeID) :: ("family_id", familyID) :: ?q) "token") with (Get q "token"). by destruct (String.eqb _ sec). }
  split.
  - rewrite E, <- token_is. destruct (url_safe token), (String.eqb_spec (Get (omap query_pair (split_byte "&" ("token=" +:+ token))) "token") token); simpl; naive_solver.
  - intros r. rewrite E. destruct (url_safe token); [|done]. destruct (String.eqb_spec (Get (omap query_pair (split_byte "&" ("token=" +:+ token))) "token") secret) as [<-|]; [|done].
    cbn [andb]. intros [= <-]. split; [done|]. split; [done|]. intros Ha Hs. by rewrite token_read.
Qed.

(** ** The loops of the relay *)

(** [startJanitor]: the sweeps at the ticks until [Shutdown] cancels it. *)
Fixpoint startJanitor (iter_nodes : gmap string nodeEntry → list (string * nodeEntry)) (b : Broker) (ws : list (wake time)) :
    Broker * list effect * bool :=
  match ws with
  | [] => (b, [], false)
  | Cancelled :: _ => (b, [], true)
  | Tick now :: ws =>
      let '(b, es) := sweepStaleFamilies iter_nodes b now in
      let '(b, es', returned) := startJanitor iter_nodes b ws in (b, es ++ es', returned)
  end.

(** [connectLoop]: the sessions and the waits between them; an element tells
    whether the test before the session sees the end of the context, and what
    ends the wait after it. *)
Inductive connect_action := RunSession | Sleep (d : duration).

Fixpoint connectLoop (delay : duration) (ws : list (bool * wake unit)) : list connect_action * bool :=
  match ws with
  | [] => ([], false)
  | (true, _) :: _ => ([], true)
  | (false, Cancelled) :: _ => ([RunSession; Sleep delay], true)
  | (false, Tick _) :: ws => let '(l, returned) := connectLoop (next_delay delay) ws in (RunSession :: Sleep delay :: l, returned)
  end.

Definition sleeps (l : list connect_action) : list duration :=
  omap (λ a, match a with Sleep d => Some d | RunSession => None end) l.

(** The n-th wait of a client: 5, 10, 20 seconds and then 30, whether or not
    the sessions in between worked. *)
Lemma connect_delays ws : ∀ delay i d, (0 < delay)%Z → sleeps (connectLoop delay ws).1 !! i = Some d → d = Nat.iter i next_delay delay.
Proof.
  induction ws as [|[[] [u|]] ws IH]; intros delay i d Hd; simpl; try done.
  - destruct (connectLoop (next_delay delay) ws) as [l r] eqn:E. simpl. destruct i as [|i]; simpl; [by intros [= <-]|].
    intros Hi. rewrite <- Nat.iter_succ_r || idtac. specialize (IH (next_delay delay) i d). rewrite E in IH. simpl in IH.
    rewrite (IH ltac:(unfold next_delay; case_bool_decide; unfold clientReconnectMax, second in *; lia) Hi).
    clear. induction i as [|i IH]; simpl; [done|by rewrite IH].
  - destruct i as [|i]; simpl; [by intros [= <-]|done].
Qed.

(** ** One sweep *)

Section Sweep.
Variable iter_nodes : gmap string nodeEntry → list (string * nodeEntry).
Hypothesis iter_nodes_perm : ∀ m, iter_nodes m ≡ₚ map_to_list m.

(** The families that have a connected node. *)
Definition connected (b : Broker) (fam : string) : Prop := ∃ n e, nodeConns b !! n = Some e ∧ ne_FamilyID e = fam.

(** What the janitor makes of the degraded mark of a family. *)
Definition swept_mark (b : Broker) (now : time) (fam : string) : bool :=
  let status := Status (registry b) now fam in
  if bool_decide (0 < HealthyCount status)%nat then false
  else if HasFallback status then true else degraded b fam.

Lemma sweep_family_exact b now fam b' es : sweep_family now b fam = (b', es) →
  registry b' = registry b ∧ notifier b' = notifier b ∧ degraded b' fam = swept_mark b now fam ∧
  (∀ f, f ≠ fam → degraded b' f = degraded b f) ∧
  es = (if Bool.eqb (degraded b fam) (swept_mark b now fam) then [] else notifyFallback b fam (swept_mark b now fam)).
Proof.
  unfold sweep_family, swept_mark, degraded. set (st := Status (registry b) now fam).
  assert (Ho : ∀ (f f' : FallbackResolver), (∀ fam', fam' ≠ fam → active f' !! fam' = active f !! fam') →
    ∀ g, g ≠ fam → IsActive f' g = IsActive f g) by (intros f f' Hf g Hg; unfold IsActive; by rewrite Hf).
  destruct (decide (HealthyCount st = 0%nat)) as [Hz|Hz].
  - rewrite (bool_decide_true (HealthyCount st = 0%nat)), (bool_decide_false (0 < _)%nat) by (done || lia). cbn [andb].
    destruct (HasFallback st); simpl.
    + pose proof (EnterFallback_spec (fallback b) now fam) as He. destruct (EnterFallback _ _ _) as [f entered].
      destruct He as (H1 & -> & H2 & _). intros [= <- <-]. simpl. split; [done|]. split; [done|]. split; [done|]. split; [by apply Ho|].
      rewrite app_nil_r. by destruct (IsActive (fallback b) fam).
    + intros [= <- <-]. simpl. repeat split. by rewrite Bool.eqb_reflx.
  - rewrite (bool_decide_false (HealthyCount st = 0%nat)), (bool_decide_true (0 < _)%nat) by (done || lia). cbn [andb].
    pose proof (ExitFallback_spec (fallback b) fam) as He. destruct (ExitFallback _ _) as [f exited].
    destruct He as (H1 & -> & H2 & _). intros [= <- <-]. simpl. split; [done|]. split; [done|]. split; [done|]. split; [by apply Ho|].
    by destruct (IsActive (fallback b) fam).
Qed.

(** The notice of a change of a mark. *)
Lemma notice_spec b f old new e :
  e ∈ (if Bool.eqb old new then [] else notifyFallback b f new) ↔ e = NotifyFallback f new ∧ notifier b = true ∧ old = negb new.
Proof.
  unfold notifyFallback. destruct old, new, (notifier b); simpl; rewrite ?list_elem_of_singleton, ?elem_of_nil; intuition congruence.
Qed.

Lemma sweep_families_exact now fams : ∀ b b' es, NoDup fams → sweep_families now b fams = (b', es) →
  (∀ fam, degraded b' fam = if decide (fam ∈ fams) then swept_mark b now fam else degraded b fam) ∧
  (∀ fam v, NotifyFallback fam v ∈ es ↔ notifier b = true ∧ fam ∈ fams ∧ degraded b fam = negb v ∧ swept_mark b now fam = v) ∧
  (∀ e, e ∈ es → ∃ fam v, e = NotifyFallback fam v).
Proof.
  induction fams as [|f fams IH]; intros b b' es Hnd; simpl.
  { intros [= <- <-]. split; [done|]. split; [|by intros e ?%elem_of_nil]. intros fam v.
    split; [by intros ?%elem_of_nil|by intros (_ & ?%elem_of_nil & _)]. }
  apply NoDup_cons in Hnd as [Hf Hnd]. destruct (sweep_family now b f) as [b1 e1] eqn:E1.
  destruct (sweep_families now b1 fams) as [b2 e2] eqn:E2. intros [= <- <-].
  apply sweep_family_exact in E1 as (Hr & Hn & Hd & Ho & He). destruct (IH b1 b2 e2 Hnd E2) as (K1 & K2 & K3).
  assert (Hm : ∀ g, g ≠ f → swept_mark b1 now g = swept_mark b now g) by (intros g Hg; unfold swept_mark; by rewrite Hr, Ho).
  assert (Hset : ∀ g, (g ∈ f :: fams) ↔ g = f ∨ g ∈ fams) by (intros; apply elem_of_cons).
  split; [|split].
  - intros g. rewrite K1. destruct (decide (g = f)) as [->|Hg].
    + rewrite decide_False, decide_True by (done || left). done.
    + destruct (decide (g ∈ fams)); [rewrite decide_True by (by right); by apply Hm|].
      rewrite decide_False by (rewrite Hset; by intros [|]). by apply Ho.
  - intros g v. rewrite elem_of_app, K2, Hn, He, Hset.
    destruct (decide (g = f)) as [->|Hg].
    + rewrite notice_spec. destruct (degraded b f), v, (swept_mark b now f); intuition congruence.
    + rewrite notice_spec, (Ho g Hg), (Hm g Hg). intuition congruence.
  - intros e. rewrite elem_of_app. intros [Hin|Hin]; [|by apply K3]. rewrite He, notice_spec in Hin. destruct Hin as [-> _]. eauto.
Qed.

(** One sweep puts the degraded mark of every family with a connected node to
    what the registry says at that moment, leaves all other families alone, and
    tells the cloud exactly the marks it changed. *)
Theorem sweep_exact b now b' es : sweepStaleFamilies iter_nodes b now = (b', es) →
  (∀ fam, connected b fam → degraded b' fam = swept_mark b now fam) ∧
  (∀ fam, ¬ connected b fam → degraded b' fam = degraded b fam) ∧
  (∀ fam v, NotifyFallback fam v ∈ es ↔ notifier b = true ∧ connected b fam ∧ degraded b fam = negb v ∧ degraded b' fam = v).
Proof.
  unfold sweepStaleFamilies. intros H. apply sweep_families_exact in H as (H1 & H2 & _); [|apply NoDup_remove_dups].
  assert (Hc : ∀ fam, fam ∈ remove_dups (map (λ e, ne_FamilyID e.2) (iter_nodes (nodeConns b))) ↔ connected b fam).
  { intros fam. rewrite elem_of_remove_dups, list_elem_of_fmap. unfold connected. split.
    - intros ([n e] & -> & Hin). rewrite iter_nodes_perm, elem_of_map_to_list in Hin. by exists n, e.
    - intros (n & e & Hn & <-). exists (n, e). by rewrite iter_nodes_perm, elem_of_map_to_list. }
  split; [|split].
  - intros fam Hf. by rewrite H1, decide_True by (by apply Hc).
  - intros fam Hf. by rewrite H1, decide_False by (by rewrite Hc).
  - intros fam v. rewrite H2, Hc, H1. split.
    + intros (? & Hf & ? & ?). by rewrite decide_True by (by apply Hc).
    + intros (? & Hf & ? & Hv). rewrite decide_True in Hv by (by apply Hc). done.
Qed.
End Sweep.

(** ** From the bridge to WireGuard on the home node *)

(** The messages of the relay's loop for a node carry the datagrams that the
    bridge framed for it, besides pings and pongs; WebSocket delivers a prefix
    of what is written. Then WireGuard on the home node is given some of these
    datagrams, unchanged and in order, and nothing else. *)
Theorem relay_path_ordered wgAddr r s queued :
  (Z.of_nat (String.length wgAddr) < 65536)%Z → Forall (λ ap, (Z.of_nat (String.length ap.1) < 65536)%Z) queued →
  star loop_step open_loop r → star (session_step wgAddr) dial_session s →
  List.filter (λ m, bool_decide (is_Some (payload_of m))) (accepted (r_out r)) = map (λ ap, wrapFrame ap.1 ap.2) queued →
  ws_in s `prefix_of` written (r_out r) →
  wg_out s `sublist_of` map snd queued.
Proof.
  intros Hw Hq Hr Hs Hf [k1 Hp].
  destruct (closed_queue_crashes r Hr) as ([k2 Hpre] & _). destruct (session_reachable wgAddr s Hw Hs) as [_ _ _ Hsub].
  assert (E : omap payload_of (accepted (r_out r)) = map snd queued).
  { transitivity (omap payload_of (List.filter (λ m, bool_decide (is_Some (payload_of m))) (accepted (r_out r)))).
    - generalize (accepted (r_out r)) as l. clear. induction l as [|m l IH]; [done|]. simpl. destruct (payload_of m) as [p|] eqn:E; simpl.
      + rewrite E. f_equal. exact IH.
      + exact IH.
    - rewrite Hf. clear - Hq. induction Hq as [|[a p] l Hl _ IH]; [done|]. simpl in *.
      change (wrapFrame a p) with (wrapClientFrame a p). rewrite payload_of_wrapped by done. f_equal. exact IH. }
  rewrite <- E, Hpre, Hp, !omap_app, <- app_assoc. etrans; [exact Hsub|]. by apply sublist_inserts_r.
Qed.

(** ** Concrete instances *)

Lemma session_admitted_witness :
  begin_session "s3cret/=" "pi" "smith" "s3cret/=" = Some ("pi", "smith") ∧
  begin_session "s3&cret" "pi" "smith" "s3&cret" ≠ Some ("pi", "smith") ∧
  begin_session "s3 cret" "pi" "smith" "s3 cret" ≠ Some ("pi", "smith").
Proof.
  split; [|split].
  - apply (session_admitted "pi" "smith" "s3cret/=" ""); [reflexivity..|done|done|by split].
  - intros H. destruct (session_admitted "pi" "smith" "s3&cret" "" eq_refl eq_refl eq_refl eq_refl) as [[H1 _] _]; [done..|].
    apply H1 in H as [H _]. discriminate H.
  - intros H. destruct (session_admitted "pi" "smith" "s3 cret" "" eq_refl eq_refl eq_refl eq_refl) as [[H1 _] _]; [done..|].
    apply H1 in H as [_ H]. discriminate H.
Defined.

(** The family's only node has been silent for longer than a minute. *)
Lemma sweep_exact_witness : ∃ b' es, sweepStaleFamilies map_to_list sample_broker (100 * second)%Z = (b', es) ∧
  degraded b' "smith" = true ∧ NotifyFallback "smith" true ∈ es.
Proof.
  destruct (sweepStaleFamilies map_to_list sample_broker (100 * second)%Z) as [b' es] eqn:E. exists b', es. split; [done|].
  assert (Hc : connected sample_broker "smith") by (exists "pi", (MkEntry "smith" 1); split; vm_compute; reflexivity).
  destruct (sweep_exact map_to_list (λ m, Permutation_refl _) sample_broker (100 * second)%Z b' es E) as (H1 & _ & H3).
  assert (Hm : degraded b' "smith" = true) by (rewrite (H1 "smith" Hc); vm_compute; reflexivity).
  split; [exact Hm|]. apply H3. split; [vm_compute; reflexivity|]. split; [exact Hc|]. split; [vm_compute; reflexivity|exact Hm].
Defined.

(** One packet is framed, written, received and given to WireGuard. *)
Definition framed : bytes := wrapFrame "203.0.113.9:4000" [x04].
Definition relayed : relay_loop := RelayLoop (Outbox [framed] None [] [framed]) false false true true [] false false.
Definition arrived : session := RelaySession.Session new_outbox [] [] [framed] [[x04]] None.

Lemma relayed_reachable : star loop_step open_loop relayed.
Proof.
  eapply star_step; [apply (ls_forward _ _ _ _ _ _ _ framed)|]. eapply star_step; [apply ls_writer, take_next|].
  eapply star_step; [apply ls_writer, write_done|]. apply star_refl.
Qed.

Lemma arrived_reachable : star (session_step wg_addr) dial_session arrived.
Proof.
  eapply star_step; [apply (ss_message _ _ framed [] [[x04]] 1); reflexivity|]. apply star_refl.
Qed.

Lemma relay_path_ordered_witness : wg_out arrived `sublist_of` map snd [("203.0.113.9:4000", [x04])].
Proof.
  apply (relay_path_ordered wg_addr relayed arrived [("203.0.113.9:4000", [x04])]);
    [simpl; lia|repeat constructor|exact relayed_reachable|exact arrived_reachable|vm_compute; reflexivity|by exists []].
Defined.
