(* ===== verification/Heartbeat.v ===== *)
(** [internal/controlsync/heartbeat.go]: the periodic heartbeat, which stores
    the bundle's expiry, decides whether the cloud is reachable, drives the
    fail-safe check and reports a health score. *)
From stdpp Require Import gmap.
From Stdlib Require Import QArith.
From S2P Require Import Prelude Wire Blocklist Policy Resolver CloudClient Failsafe GoString.

Local Open Scope Z_scope.
Local Open Scope string_scope.
Local Open Scope list_scope.

(** ** Percentages

    A [float64] is the rational it stands for. The columns of
    [health_snapshots] hold no NaN: SQLite stores one as NULL, which they
    reject. *)
Abbreviation percent := Q.

Definition above (x : percent) (n : Z) : bool := negb (Qle_bool x (inject_Z n)).

Record stats := Stats { cpu : percent; mem : percent; disk : percent }.

(** The score of [sendElectionHeartbeat]. *)
Definition healthScore (s : stats) (cloudReachable fsActive : bool) : Z :=
  let score := 100 in
  let score := if above (cpu s) 85 then score - 20 else if above (cpu s) 70 then score - 10 else score in
  let score := if above (mem s) 80 then score - 10 else score in
  let score := if above (disk s) 90 then score - 10 else score in
  let score := if cloudReachable then score else score - 15 in
  let score := if fsActive then score - 25 else score in
  if bool_decide (score < 0) then 0 else score.

Definition registrationState (cloudReachable fsActive : bool) : string :=
  if fsActive then "failsafe" else if cloudReachable then "active" else "degraded".

(** The score lies between 20 and 100, so the clamp at zero never acts; it
    is 100 exactly when nothing is wrong, and a node in fail-safe scores
    strictly less than the same node outside it. *)
Theorem healthScore_range (s : stats) (reachable fsActive : bool) :
  (20 ≤ healthScore s reachable fsActive ≤ 100)%Z ∧
  (healthScore s reachable fsActive = 100%Z ↔
   above (cpu s) 70 = false ∧ above (cpu s) 85 = false ∧ above (mem s) 80 = false ∧ above (disk s) 90 = false ∧
   reachable = true ∧ fsActive = false) ∧
  (healthScore s reachable true < healthScore s reachable false)%Z.
Proof.
  unfold healthScore.
  destruct (above (cpu s) 85), (above (cpu s) 70), (above (mem s) 80), (above (disk s) 90), reachable, fsActive;
    vm_compute; intuition (try done; try congruence).
Qed.

(** The fields of the election payload that are computed. *)
Record election := Election {
  el_FamilyID : string;
  el_HealthScore : Z;
  el_RegistrationState : string;
  el_CloudConnected : bool;
  el_DNSServiceOK : bool;
  el_WireGuardOK : bool;
  el_PolicyCacheOK : bool;
  el_WGPeers : Z;
  el_PolicyVersion : string;
  el_DevicesSeen : Z;
}.

Section Heartbeat.
Context {Json : Type}.
(** [time.Time.Format] and [time.Parse] with the layout RFC3339, and
    [fmt.Sscan] into an [int64], 0 when it fails. *)
Variable format_rfc3339 : time → string.
Variable parse_rfc3339 : string → option time.
Variable sscan_int64 : string → Z.

Abbreviation config := (gmap string string).

Definition persistBundleExpiry (ok : bool) (c : config) (expiresAt : time) : config :=
  if ok then <["bundle_expires_at" := format_rfc3339 expiresAt]> c else c.

Definition loadBundleExpiry (ok : bool) (c : config) : time :=
  match c !! "bundle_expires_at" with
  | Some raw => if negb ok || String.eqb raw "" then 0 else default 0 (parse_rfc3339 raw)
  | None => 0
  end.

(** The grace in seconds, multiplied in 64-bit arithmetic. *)
Definition loadFailsafeGrace (ok : bool) (c : config) : duration :=
  match c !! "failsafe_grace_seconds" with
  | Some raw => if negb ok || String.eqb raw "" then 0 else wrap_int64 (sscan_int64 raw * second)
  | None => 0
  end.

Definition loadFamilyID (ok : bool) (c : config) : string := if ok then default "" (c !! "family_id") else "".

(** [SELECT COALESCE(dns_ok, 1) ...]: [None] without a snapshot. *)
Definition isDNSAlive (dns_ok : option Z) : bool :=
  match dns_ok with Some v => bool_decide (v = 1) | None => true end.

(** What one heartbeat reads and meets: the health snapshot, the counts, the
    result of the POST, the time of the check, and which database calls
    succeed. *)
Record beat := Beat {
  b_stats : stats;
  b_dns_ok : option Z;
  b_peers : Z;
  b_devices : Z;
  b_post : go (string * Z);
  b_now : time;
  b_persist_ok : bool;
  b_expiry_ok : bool;
  b_grace_ok : bool;
  b_family_ok : bool;
}.

Record node := Node { n_config : config; n_failsafe : FailsafeState }.

Definition cloudReachable (post : go (string * Z)) : bool :=
  match post with Ret (_, status) => bool_decide (status < 500)%Z | _ => false end.

Definition sendElectionHeartbeat (n : node) (b : beat) (bundleVersion : string) (reachable : bool) : option election :=
  let familyID := loadFamilyID (b_family_ok b) (n_config n) in
  if String.eqb familyID "" then None else
  let fsActive := fst (GetFailsafeState (n_failsafe n)) in
  Some (Election familyID (healthScore (b_stats b) reachable fsActive) (registrationState reachable fsActive) reachable
    (isDNSAlive (b_dns_ok b)) (bool_decide (0 ≤ b_peers b)%Z)
    (negb (String.eqb bundleVersion "none") && negb (String.eqb bundleVersion ""))
    (b_peers b) bundleVersion (b_devices b)).

(** [sendHeartbeat]: the new state, the fail-safe report and the election
    payload. *)
Definition sendHeartbeat (r : Runtime Json) (n : node) (b : beat) : node * option report * option election :=
  let '(cfg, fs, bundleVersion) :=
    match ActiveBundle r with
    | Ret bundle =>
        (if is_zero (ExpiresAt bundle) then n_config n
         else persistBundleExpiry (b_persist_ok b) (n_config n) (ExpiresAt bundle),
         UpdateEmergencyDomains (n_failsafe n) (BundleEmergencyDomains bundle), Version bundle)
    | _ => (n_config n, n_failsafe n, "none")
    end in
  let reachable := cloudReachable (b_post b) in
  let bundleExpiresAt := loadBundleExpiry (b_expiry_ok b) cfg in
  let gracePeriod := loadFailsafeGrace (b_grace_ok b) cfg in
  let '(fs, rep) := CheckAndEnterFailsafe fs (b_now b) bundleExpiresAt reachable gracePeriod in
  let n := Node cfg fs in
  (n, rep, sendElectionHeartbeat n b bundleVersion reachable).

Definition next (r : Runtime Json) (n : node) (b : beat) : node := fst (fst (sendHeartbeat r n b)).

(** ** The fail-safe decision of a heartbeat *)

Lemma UpdateEmergencyDomains_Active s ds : Active (UpdateEmergencyDomains s ds) = Active s.
Proof. unfold UpdateEmergencyDomains. by case_bool_decide. Qed.

(** The configuration after the first step of a heartbeat. *)
Definition config_of (r : Runtime Json) (n : node) (b : beat) : config :=
  match ActiveBundle r with
  | Ret bundle => if is_zero (ExpiresAt bundle) then n_config n
                  else persistBundleExpiry (b_persist_ok b) (n_config n) (ExpiresAt bundle)
  | _ => n_config n
  end.

Lemma next_Active r n b :
  Active (n_failsafe (next r n b)) =
  shouldBeActive (b_now b) (loadBundleExpiry (b_expiry_ok b) (config_of r n b)) (cloudReachable (b_post b))
    (loadFailsafeGrace (b_grace_ok b) (config_of r n b)) ∧
  n_config (next r n b) = config_of r n b.
Proof.
  unfold next, sendHeartbeat, config_of. destruct (ActiveBundle r) as [bundle|e| |]; simpl;
  match goal with |- context [CheckAndEnterFailsafe ?s ?t ?e ?c ?g] =>
    pose proof (check_Active s (Input t e c g)) as H; unfold check_step in H; simpl in H;
    destruct (CheckAndEnterFailsafe s t e c g) as [fs rep] end; simpl; auto.
Qed.

(** A cloud that answers every request with a client error (a revoked
    token, say) counts as unreachable: the client has already turned the status
    into an error when the test [status < 500] is made, so a node whose stored
    expiry is past enters fail-safe and reports itself as such although the
    cloud answered. *)
Theorem client_error_is_outage r n b net t0 :
  (∀ k, ∃ status body, serve net k = Response status body ∧ (400 ≤ status < 500)%Z ∧ status ≠ 416%Z) →
  b_post b = snd (doWithRetry net t0) →
  (loadBundleExpiry (b_expiry_ok b) (config_of r n b) + loadFailsafeGrace (b_grace_ok b) (config_of r n b) < b_now b)%Z →
  Active (n_failsafe (next r n b)) = true ∧
  ∀ e, snd (sendHeartbeat r n b) = Some e → el_RegistrationState e = "failsafe" ∧ el_CloudConnected e = false.
Proof.
  intros Hnet Hpost Hexp. destruct (client_error_retry net t0 Hnet) as [err He]. rewrite He in Hpost.
  assert (Ha : Active (n_failsafe (next r n b)) = true).
  { destruct (next_Active r n b) as [-> _]. rewrite Hpost. unfold shouldBeActive, bundleExpired.
    rewrite (bool_decide_true (_ < _)%Z) by exact Hexp. by rewrite orb_true_r. }
  split; [done|]. intros e. revert Ha. unfold next, sendHeartbeat. rewrite Hpost. cbn [cloudReachable].
  destruct (ActiveBundle r) as [bundle|x| |]; destruct (CheckAndEnterFailsafe _ _ _ _ _) as [fs rep];
    cbn [fst snd n_failsafe]; intros Ha; unfold sendElectionHeartbeat; cbn [GetFailsafeState n_failsafe n_config fst];
    destruct (String.eqb _ ""); try done; intros [= <-]; simpl; rewrite Ha; done.
Qed.

(** A stored expiry outlives its bundle: a heartbeat stores the expiry of
    a bundle that has one and never removes it, so with an active bundle that
    never expires the node still enters fail-safe once the old expiry is past
    and a heartbeat fails. *)
Theorem expiry_outlives_bundle r n b bundle raw old :
  active r = Some bundle → ExpiresAt bundle = 0%Z →
  n_config n !! "bundle_expires_at" = Some raw → raw ≠ "" → parse_rfc3339 raw = Some old →
  b_expiry_ok b = true → cloudReachable (b_post b) = false →
  (old + loadFailsafeGrace (b_grace_ok b) (n_config n) < b_now b)%Z →
  Active (n_failsafe (next r n b)) = true ∧ n_config (next r n b) !! "bundle_expires_at" = Some raw.
Proof.
  intros Ha He Hc Hr Hp Hx Hcloud Hnow. destruct (next_Active r n b) as [-> ->].
  assert (Hcfg : config_of r n b = n_config n) by (unfold config_of, ActiveBundle; by rewrite Ha, He).
  rewrite Hcfg, Hx, Hcloud. split; [|done]. unfold loadBundleExpiry. rewrite Hc. simpl.
  destruct (String.eqb_spec raw "") as [|_]; [done|]. rewrite Hp. simpl.
  unfold shouldBeActive, bundleExpired. rewrite (bool_decide_true (_ < _)%Z) by exact Hnow. by rewrite orb_true_r.
Qed.

(** ** With the RFC3339 text of a time

    What package [time] documents for the years 1 to 9999: the text of a time
    is not empty and parses to that time without its fraction of a second. *)
Definition year_10000 : time := 315537897600 * second.
Definition whole_seconds (t : time) : time := t / second * second.

Hypothesis rfc3339_roundtrip : ∀ t, (0 ≤ t < year_10000)%Z → parse_rfc3339 (format_rfc3339 t) = Some (whole_seconds t).
Hypothesis rfc3339_nonempty : ∀ t, format_rfc3339 t ≠ "".

Lemma load_persisted ok c t : (0 ≤ t < year_10000)%Z → ok = true →
  loadBundleExpiry true (persistBundleExpiry ok c t) = whole_seconds t.
Proof.
  intros Ht ->. unfold loadBundleExpiry, persistBundleExpiry. rewrite lookup_insert_eq. simpl.
  destruct (String.eqb_spec (format_rfc3339 t) "") as [E|_]; [by apply rfc3339_nonempty in E|].
  by rewrite rfc3339_roundtrip.
Qed.

Lemma whole_seconds_pos t : (second ≤ t)%Z → (second ≤ whole_seconds t)%Z.
Proof. unfold whole_seconds, second. intros H. assert (1 ≤ t / 1000000000)%Z by (apply Z.div_le_lower_bound; lia). lia. Qed.

(** The expiry a heartbeat works with, for an active bundle that expires. *)
Lemma expiry_of_active r n b bundle :
  active r = Some bundle → (second ≤ ExpiresAt bundle < year_10000)%Z → b_persist_ok b = true →
  loadBundleExpiry true (config_of r n b) = whole_seconds (ExpiresAt bundle).
Proof.
  intros Ha He Hp. unfold config_of, ActiveBundle. rewrite Ha.
  assert (is_zero (ExpiresAt bundle) = false) as ->.
  { unfold is_zero. apply bool_decide_false. unfold second in He. lia. }
  apply load_persisted; [unfold second in He; lia|done].
Qed.

(** C17. With an active bundle that expires and no database failure, the node
    is in fail-safe after a heartbeat exactly when the heartbeat did not reach
    the cloud and the bundle's expiry, in whole seconds, plus the configured
    grace period is past; whatever state it was in before. *)
Theorem failsafe_follows_expiry r n b bundle :
  active r = Some bundle → (second ≤ ExpiresAt bundle < year_10000)%Z →
  b_persist_ok b = true → b_expiry_ok b = true →
  Active (n_failsafe (next r n b)) = true ↔
  cloudReachable (b_post b) = false ∧
  (whole_seconds (ExpiresAt bundle) + loadFailsafeGrace (b_grace_ok b) (n_config (next r n b)) < b_now b)%Z.
Proof.
  intros Ha He Hp Hx. destruct (next_Active r n b) as [-> ->]. rewrite Hx, (expiry_of_active r n b bundle Ha He Hp).
  unfold shouldBeActive, bundleExpired, noBundleEver, is_zero.
  pose proof (whole_seconds_pos _ (proj1 He)) as Hw. unfold second in Hw.
  rewrite (bool_decide_false (whole_seconds (ExpiresAt bundle) = 0)%Z) by lia. simpl.
  rewrite andb_true_iff, bool_decide_eq_true, negb_true_iff. tauto.
Qed.

(** The bootstrap bundle hides that no bundle was ever received: once it
    has been seeded at [t0], no heartbeat before its expiry a day later (plus
    the grace period) puts the node in fail-safe, although the cloud never
    answered and no bundle of the cloud was ever received; and when the node
    enters fail-safe later, it is not in the deny-all mode meant for that. *)
Theorem bootstrap_hides_missing_bundle (Marshal : Bundle → go Json) r t0 raw n b :
  active r = None → Marshal (bootstrapBundle t0) = Ret raw →
  (0 ≤ t0)%Z → (t0 + 24 * hour < year_10000)%Z → b_persist_ok b = true → b_expiry_ok b = true →
  let r' := seedBootstrapBundle Marshal t0 false r in
  ((b_now b ≤ whole_seconds (t0 + 24 * hour) + loadFailsafeGrace (b_grace_ok b) (n_config (next r' n b)))%Z →
   Active (n_failsafe (next r' n b)) = false) ∧
  (Active (n_failsafe n) = false → IsDenyAll (n_failsafe (next r' n b)) = false).
Proof.
  intros Ha Hm Ht0 Ht1 Hp Hx r'.
  assert (Hr : active r' = Some (bootstrapBundle t0)).
  { unfold r', seedBootstrapBundle, ActiveBundle. rewrite Ha. unfold SwapBundle. by rewrite Hm. }
  assert (He : (second ≤ ExpiresAt (bootstrapBundle t0) < year_10000)%Z).
  { simpl. unfold hour, minute, second in *. lia. }
  destruct (next_Active r' n b) as [HA HC]. rewrite Hx, (expiry_of_active r' n b _ Hr He Hp) in HA.
  pose proof (whole_seconds_pos _ (proj1 He)) as Hw. unfold second in Hw. split.
  - rewrite HC, HA. intros Hnow. unfold shouldBeActive, bundleExpired, noBundleEver, is_zero.
    rewrite (bool_decide_false (whole_seconds _ = 0)%Z) by lia. simpl in *.
    by rewrite bool_decide_false by lia.
  - intros Hin. revert HA. unfold next, sendHeartbeat, ActiveBundle. rewrite Hr.
    cbn [ExpiresAt bootstrapBundle Version BundleEmergencyDomains].
    assert (is_zero (t0 + 24 * hour) = false) as ->.
    { unfold is_zero. apply bool_decide_false. unfold hour, minute, second in *. lia. }
    rewrite Hx, Hp, (load_persisted true) by (done || (simpl in He; unfold second in He; lia)).
    unfold CheckAndEnterFailsafe at 1 2. rewrite UpdateEmergencyDomains_Active, Hin. cbn [negb].
    destruct (shouldBeActive _ _ _ _); cbn [andb negb fst snd n_failsafe Active].
    + intros _. unfold IsDenyAll, is_zero. simpl. apply bool_decide_false. simpl in Hw. lia.
    + by intros _.
Qed.
End Heartbeat.

(** ** Concrete runs

    A text form for times that satisfies the two laws: the seconds in binary. *)
Fixpoint pos_text (p : positive) : string :=
  match p with xH => "1" | xO p => String "0" (pos_text p) | xI p => String "I" (pos_text p) end.

Fixpoint text_pos (s : string) : option positive :=
  match s with
  | String "1" "" => Some xH
  | String "0" s => xO <$> text_pos s
  | String "I" s => xI <$> text_pos s
  | _ => None
  end.

Definition toy_format (t : time) : string :=
  match (t / second)%Z with Zpos p => String "+" (pos_text p) | _ => "zero" end.
Definition toy_parse (s : string) : option time :=
  match s with
  | String "+" s => p ← text_pos s; Some (Zpos p * second)%Z
  | _ => if String.eqb s "zero" then Some 0%Z else None
  end.

Lemma text_pos_text p : text_pos (pos_text p) = Some p.
Proof. induction p as [p IH|p IH|]; [cbn [pos_text text_pos]; by rewrite IH..|done]. Qed.

Lemma toy_roundtrip t : (0 ≤ t < year_10000)%Z → toy_parse (toy_format t) = Some (whole_seconds t).
Proof.
  intros Ht. unfold toy_format, whole_seconds.
  assert (0 ≤ t / second)%Z by (apply Z.div_pos; unfold second; lia).
  destruct (t / second)%Z as [|p|p]; [done| |lia].
  cbn [toy_parse]. by rewrite text_pos_text.
Qed.

Lemma toy_nonempty t : toy_format t ≠ "".
Proof. unfold toy_format. by destruct (t / second)%Z. Qed.

Definition toy_beat (now : time) (post : go (string * Z)) : beat :=
  Beat (Stats 0 0 0) None 2 3 post now true true true true.

Definition fresh_node : node := Node {["family_id" := "smith"]} globalFailsafe.
Definition booted : Runtime Bundle := NewRuntime None.
Definition holding (b : Bundle) : Runtime Bundle := fst (SwapBundle Ret false booted (Some b)).

(** The token is revoked: every request is answered with 401. *)
Definition revoked : network string := Network (λ _, Response 401 "unauthorized") (λ _, second) (2 * hour)%Z.

Lemma client_error_is_outage_witness :
  Active (n_failsafe (next toy_format toy_parse (λ _, 0%Z) (holding sample_bundle) fresh_node
    (toy_beat (2 * hour) (snd (doWithRetry revoked (2 * hour - minute)%Z))))) = true.
Proof.
  apply (client_error_is_outage toy_format toy_parse (λ _, 0%Z) _ _ _ revoked (2 * hour - minute)%Z).
  - intros k. exists 401%Z, "unauthorized". split; [done|]. lia.
  - done.
  - by vm_compute.
Defined.

Definition endless_bundle : Bundle := MkBundle "v3" 0 0 "sig" [] [sample_child].
Definition old_expiry : node :=
  Node {["bundle_expires_at" := toy_format hour]} globalFailsafe.

Lemma expiry_outlives_bundle_witness :
  Active (n_failsafe (next toy_format toy_parse (λ _, 0%Z) (holding endless_bundle) old_expiry
    (toy_beat (2 * hour) (Err "no route")))) = true.
Proof.
  apply (expiry_outlives_bundle toy_format toy_parse (λ _, 0%Z) (holding endless_bundle) old_expiry
    (toy_beat (2 * hour) (Err "no route")) endless_bundle (toy_format hour) hour); by vm_compute.
Defined.

Lemma failsafe_follows_expiry_witness :
  Active (n_failsafe (next toy_format toy_parse (λ _, 0%Z) (holding sample_bundle) fresh_node
    (toy_beat (2 * hour) (Err "no route")))) = true.
Proof.
  apply (failsafe_follows_expiry toy_format toy_parse (λ _, 0%Z) toy_roundtrip toy_nonempty
    (holding sample_bundle) fresh_node (toy_beat (2 * hour) (Err "no route")) sample_bundle); try done.
Defined.

Lemma bootstrap_hides_missing_bundle_witness :
  Active (n_failsafe (next toy_format toy_parse (λ _, 0%Z)
    (seedBootstrapBundle Ret hour false booted) fresh_node (toy_beat (20 * hour) (Err "no route")))) = false.
Proof.
  apply (bootstrap_hides_missing_bundle toy_format toy_parse (λ _, 0%Z) toy_roundtrip toy_nonempty Ret booted hour
    (bootstrapBundle hour) fresh_node (toy_beat (20 * hour) (Err "no route"))); by vm_compute.
Defined.
