(* ===== verification/Telemetry.v ===== *)
(** What a node reports: the event journal ([internal/events]), and the two
    documents of a heartbeat ([internal/controlsync/heartbeat.go]) with the JSON
    text of their field tags. *)
From stdpp Require Import gmap.
From Stdlib Require Import QArith.
From S2P Require Import Prelude GoString Policy Failsafe Heartbeat.

Local Open Scope Z_scope.
Local Open Scope string_scope.
Local Open Scope list_scope.

(** ** The journal *)

Section Journal.
Context {P : Type}.
(** [json.Marshal] of a payload; the ids that [uuid] draws. *)
Variable Marshal : P → go string.

Record Event := MkEvent { ID : string; Type_ : string; Severity : string; EventPayload : P }.

(** A row of [event_journal], by its primary key [id]. *)
Record event_row := EventRow { event_type : string; severity : string; payload_json : string; drained : bool }.

Abbreviation journal := (gmap string event_row).

(** [Append]: [uuid] is the id drawn when the event has none, [insert_ok] that the
    database runs the statement, which the primary key can still refuse. *)
Definition Append (uuid : string) (insert_ok : bool) (j : journal) (evt : Event) : journal * go () :=
  let id := if String.eqb (ID evt) "" then uuid else ID evt in
  match Marshal (EventPayload evt) with
  | Ret raw =>
      if negb insert_ok || bool_decide (is_Some (j !! id)) then (j, Err "insert event")
      else (<[id := EventRow (Type_ evt) (Severity evt) raw false]> j, Ret ())
  | Err e => (j, Err ("marshal event payload: " +:+ e))
  | Panic => (j, Panic)
  | Loop => (j, Loop)
  end.

(** Appends one after another; their errors are dropped by every caller. *)
Fixpoint appends (j : journal) (es : list (string * bool * Event)) : journal * nat :=
  match es with
  | [] => (j, O)
  | (uuid, ok, evt) :: es =>
      let '(j, r) := Append uuid ok j evt in
      let '(j, n) := appends j es in
      (j, match r with Ret _ => S n | _ => n end)
  end.

Lemma Append_cases uuid ok j evt :
  let '(j', r) := Append uuid ok j evt in
  match r with
  | Ret _ => ∃ id row, j !! id = None ∧ j' = <[id := row]> j
  | _ => j' = j
  end.
Proof.
  unfold Append. destruct (Marshal _); try done. destruct ok; simpl; [|done]. case_bool_decide as Hn; [done|].
  eexists _, _. split; [|done]. by apply eq_None_not_Some.
Qed.

(** The journal is append-only: whatever fails on the way, no row is ever changed
    or lost, and it grows by exactly one row for each append that reported
    success. Since nothing deletes rows, it grows as long as the node sends
    heartbeats. *)
Theorem journal_grows j es :
  let '(j', n) := appends j es in j ⊆ j' ∧ size j' = (size j + n)%nat.
Proof.
  revert j. induction es as [|[[uuid ok] evt] es IH]; intros j; simpl; [by split; [|lia]|].
  pose proof (Append_cases uuid ok j evt) as H. destruct (Append uuid ok j evt) as [j1 r].
  specialize (IH j1). destruct (appends j1 es) as [j2 n]. destruct IH as [Hs Hn].
  destruct r; [destruct H as (id & row & Hid & ->)|subst j1..]; [|by split..].
  split.
  - etrans; [|exact Hs]. by apply insert_subseteq.
  - rewrite Hn, map_size_insert_None by done. lia.
Qed.
End Journal.

(** ** JSON documents *)

Inductive json :=
| JStr (s : string) | JInt (n : Z) | JFloat (q : Q) | JBool (b : bool) | JObj (fields : list (string * json)).

Fixpoint field (k : string) (fs : list (string * json)) : option json :=
  match fs with
  | [] => None
  | (k', v) :: fs => if String.eqb k k' then Some v else field k fs
  end.

(** The value at the end of a path of keys. *)
Fixpoint at_path (ks : list string) (j : json) : option json :=
  match ks with
  | [] => Some j
  | k :: ks => match j with JObj fs => v ← field k fs; at_path ks v | _ => None end
  end.

(** A string field with [omitempty]. *)
Definition omitempty (k s : string) : list (string * json) := if String.eqb s "" then [] else [(k, JStr s)].

Definition unique_keys (j : json) : bool :=
  match j with JObj fs => bool_decide (NoDup (map fst fs)) | _ => true end.

(** ** The heartbeat *)

Record heartbeatPayload := HeartbeatPayload {
  h_NodeID : string;
  h_NodeName : string;
  h_Version : string;
  h_UptimeSeconds : Z;
  h_CPUPct : percent;
  h_MemPct : percent;
  h_DiskPct : percent;
  h_TunnelPeerCount : Z;
  h_ActiveBundleVersion : string;
  h_DeviceCount : Z;
}.

Definition encode_heartbeat (p : heartbeatPayload) : json :=
  JObj [("node_id", JStr (h_NodeID p)); ("node_name", JStr (h_NodeName p)); ("version", JStr (h_Version p));
        ("uptime_seconds", JInt (h_UptimeSeconds p)); ("cpu_pct", JFloat (h_CPUPct p)); ("mem_pct", JFloat (h_MemPct p));
        ("disk_pct", JFloat (h_DiskPct p)); ("tunnel_peer_count", JInt (h_TunnelPeerCount p));
        ("active_bundle_version", JStr (h_ActiveBundleVersion p)); ("device_count", JInt (h_DeviceCount p))].

(** The nested records of the election document. *)
Record ehConnectivity := EhConnectivity { CloudConnected : bool; LANOK : bool; InternetOK : bool; RTTToCloudMS : Z; PacketLossPct : percent }.
Record ehHealth := EhHealth {
  HealthScore : Z; CPUPct : percent; MemoryPct : percent; DiskPct : percent; ProcessOK : bool;
  DNSServiceOK : bool; WireGuardOK : bool; PolicyCacheOK : bool; UptimeSeconds : Z }.
Record ehPower := EhPower { PowerClass : string; OnACPower : bool }.
Record ehDNSMetrics := EhDNS { dns_Eligible : bool; BindOK : bool; LatencyMSP50 : Z; ErrorRatePct : percent }.
Record ehExitMetrics := EhExit { exit_Eligible : bool; WGPeers : Z }.
Record ehPolicyMetrics := EhPolicy { policy_Eligible : bool; CommandBusOK : bool; PolicyVersion : string }.
Record ehRoleMetrics := EhRoles { DNS : ehDNSMetrics; Exit : ehExitMetrics; PolicyRole : ehPolicyMetrics }.
Record ehObservations := EhObservations { PresenceDevicesSeen : Z }.

Record electionHeartbeat := ElectionHeartbeat {
  WireguardPublicKey : string;
  SchemaVersion : Z;
  FamilyID : string;
  NodeID : string;
  NodeEpoch : Z;
  SentAt : string;
  AgentVersion : string;
  CapabilityHash : string;
  RegistrationState : string;
  NodeType : string;
  IsLANLocal : bool;
  PublicEndpoint : string;
  Connectivity : ehConnectivity;
  NodeHealth : ehHealth;
  Power : ehPower;
  RoleMetrics : ehRoleMetrics;
  Observations : ehObservations;
}.

Definition encode_election (h : electionHeartbeat) : json :=
  let c := Connectivity h in let e := NodeHealth h in let r := RoleMetrics h in
  JObj (omitempty "wireguard_public_key" (WireguardPublicKey h) ++
    [("schema_version", JInt (SchemaVersion h)); ("family_id", JStr (FamilyID h)); ("node_id", JStr (NodeID h));
     ("node_epoch", JInt (NodeEpoch h)); ("sent_at", JStr (SentAt h)); ("agent_version", JStr (AgentVersion h));
     ("capability_hash", JStr (CapabilityHash h)); ("registration_state", JStr (RegistrationState h));
     ("node_type", JStr (NodeType h)); ("is_lan_local", JBool (IsLANLocal h))] ++
    omitempty "public_endpoint" (PublicEndpoint h) ++
    [("connectivity", JObj [("cloud_connected", JBool (CloudConnected c)); ("lan_ok", JBool (LANOK c));
        ("internet_ok", JBool (InternetOK c)); ("rtt_to_cloud_ms", JInt (RTTToCloudMS c)); ("packet_loss_pct", JFloat (PacketLossPct c))]);
     ("health", JObj [("health_score", JInt (HealthScore e)); ("cpu_pct", JFloat (CPUPct e)); ("memory_pct", JFloat (MemoryPct e));
        ("disk_pct", JFloat (DiskPct e)); ("process_ok", JBool (ProcessOK e)); ("dns_service_ok", JBool (DNSServiceOK e));
        ("wireguard_ok", JBool (WireGuardOK e)); ("policy_cache_ok", JBool (PolicyCacheOK e)); ("uptime_seconds", JInt (UptimeSeconds e))]);
     ("power", JObj [("power_class", JStr (PowerClass (Power h))); ("on_ac_power", JBool (OnACPower (Power h)))]);
     ("role_metrics", JObj [
        ("dns", JObj [("eligible", JBool (dns_Eligible (DNS r))); ("bind_ok", JBool (BindOK (DNS r)));
           ("latency_ms_p50", JInt (LatencyMSP50 (DNS r))); ("error_rate_pct", JFloat (ErrorRatePct (DNS r)))]);
        ("exit", JObj [("eligible", JBool (exit_Eligible (Exit r))); ("wg_peers", JInt (WGPeers (Exit r)))]);
        ("policy", JObj [("eligible", JBool (policy_Eligible (PolicyRole r))); ("command_bus_ok", JBool (CommandBusOK (PolicyRole r)));
           ("policy_version", JStr (PolicyVersion (PolicyRole r)))])]);
     ("observations", JObj [("presence_devices_seen", JInt (PresenceDevicesSeen (Observations h)))])]).

Record upsertNodeHeartbeatRPC := UpsertRPC {
  p_FamilyID : string;
  p_NodeID : string;
  p_SentAt : string;
  p_Heartbeat : electionHeartbeat;
  p_HealthScore : Z;
  p_CloudConnected : bool;
  p_LANOK : bool;
  p_InternetOK : bool;
}.

Definition encode_rpc (p : upsertNodeHeartbeatRPC) : json :=
  JObj [("p_family_id", JStr (p_FamilyID p)); ("p_node_id", JStr (p_NodeID p)); ("p_sent_at", JStr (p_SentAt p));
        ("p_heartbeat", encode_election (p_Heartbeat p)); ("p_health_score", JInt (p_HealthScore p));
        ("p_cloud_connected", JBool (p_CloudConnected p)); ("p_lan_ok", JBool (p_LANOK p)); ("p_internet_ok", JBool (p_InternetOK p))].

(** What stands at the paths of the election document. *)
Definition rpc_fields (p : upsertNodeHeartbeatRPC) : list (list string * json) :=
  let h := p_Heartbeat p in let e := NodeHealth h in let r := RoleMetrics h in
  [(["p_family_id"], JStr (p_FamilyID p)); (["p_node_id"], JStr (p_NodeID p)); (["p_sent_at"], JStr (p_SentAt p));
   (["p_health_score"], JInt (p_HealthScore p)); (["p_cloud_connected"], JBool (p_CloudConnected p));
   (["p_heartbeat"; "family_id"], JStr (FamilyID h)); (["p_heartbeat"; "node_id"], JStr (NodeID h));
   (["p_heartbeat"; "sent_at"], JStr (SentAt h)); (["p_heartbeat"; "registration_state"], JStr (RegistrationState h));
   (["p_heartbeat"; "connectivity"; "cloud_connected"], JBool (CloudConnected (Connectivity h)));
   (["p_heartbeat"; "health"; "health_score"], JInt (HealthScore e)); (["p_heartbeat"; "health"; "dns_service_ok"], JBool (DNSServiceOK e));
   (["p_heartbeat"; "health"; "wireguard_ok"], JBool (WireGuardOK e)); (["p_heartbeat"; "health"; "policy_cache_ok"], JBool (PolicyCacheOK e));
   (["p_heartbeat"; "role_metrics"; "dns"; "eligible"], JBool (dns_Eligible (DNS r)));
   (["p_heartbeat"; "role_metrics"; "exit"; "eligible"], JBool (exit_Eligible (Exit r)));
   (["p_heartbeat"; "role_metrics"; "policy"; "eligible"], JBool (policy_Eligible (PolicyRole r)));
   (["p_heartbeat"; "role_metrics"; "exit"; "wg_peers"], JInt (WGPeers (Exit r)));
   (["p_heartbeat"; "role_metrics"; "policy"; "policy_version"], JStr (PolicyVersion (PolicyRole r)));
   (["p_heartbeat"; "observations"; "presence_devices_seen"], JInt (PresenceDevicesSeen (Observations h)))].

Lemma rpc_at p : fold_right (λ kv P, at_path kv.1 (encode_rpc p) = Some kv.2 ∧ P) True (rpc_fields p).
Proof.
  destruct p as [f n t h sc cc lo io], h as [wg sv fam nid ep sent av ch rs ty lan pe c e pw ro ob].
  unfold rpc_fields, encode_rpc, encode_election, omitempty. cbn [WireguardPublicKey PublicEndpoint p_Heartbeat].
  destruct (String.eqb wg ""), (String.eqb pe ""); repeat split.
Qed.

Section Documents.
Context {Json : Type}.
Variable format_rfc3339 : time → string.
Variable parse_rfc3339 : string → option time.
Variable sscan_int64 : string → Z.
(** [time.Format] with nanoseconds and the lower-case hexadecimal SHA-256. *)
Variable format_nano : time → string.
Variable sha256_hex : string → string.

(** The first 24 characters; a slice past the end panics. *)
Definition capabilityHash (nodeID : string) : go string :=
  let s := "sha256:" +:+ sha256_hex ("nas:mains:ethernet:home_lan:v1:" +:+ nodeID) in
  if bool_decide (String.length s < 24)%nat then Panic else Ret (stake 24 s).

Definition loadWGPublicKey (c : gmap string string) : string := default "" (c !! "wireguard_public_key").

(** What [Service] and [identity] hold. *)
Record agent := Agent {
  a_NodeID : string;
  a_NodeName : string;
  a_version : string;
  a_nodeType : string;
  a_isLANLocal : bool;
  a_publicEndpoint : string;
}.

(** The payload that [sendHeartbeat] posts. *)
Definition heartbeat_of (a : agent) (r : Runtime Json) (b : beat) (uptime : Z) : heartbeatPayload :=
  HeartbeatPayload (a_NodeID a) (a_NodeName a) (a_version a) uptime (cpu (b_stats b)) (mem (b_stats b)) (disk (b_stats b))
    (b_peers b) (match ActiveBundle r with Ret bundle => Version bundle | _ => "none" end) (b_devices b).

(** [sendElectionHeartbeat] around the fields that [Heartbeat] computes: [now] is
    its own reading of the clock. *)
Definition election_rpc (a : agent) (n : node) (b : beat) (el : election) (uptime : Z) (now : time) : go upsertNodeHeartbeatRPC :=
  hash ← capabilityHash (a_NodeID a);
  let hb := ElectionHeartbeat (loadWGPublicKey (n_config n)) 1 (el_FamilyID el) (a_NodeID a) 1 (format_nano now) (a_version a)
    hash (el_RegistrationState el) (a_nodeType a) (a_isLANLocal a) (a_publicEndpoint a)
    (EhConnectivity (el_CloudConnected el) true true 0 0)
    (EhHealth (el_HealthScore el) (cpu (b_stats b)) (mem (b_stats b)) (disk (b_stats b)) true (el_DNSServiceOK el)
       (el_WireGuardOK el) (el_PolicyCacheOK el) uptime)
    (EhPower "mains" true)
    (EhRoles (EhDNS (el_DNSServiceOK el) (el_DNSServiceOK el) 3 0) (EhExit (el_WireGuardOK el) (el_WGPeers el))
       (EhPolicy (el_PolicyCacheOK el) true (el_PolicyVersion el)))
    (EhObservations (el_DevicesSeen el)) in
  Ret (UpsertRPC (el_FamilyID el) (a_NodeID a) (format_nano now) hb (el_HealthScore el) (el_CloudConnected el) true true).

(** Both documents of one heartbeat: the new state, and what is posted. *)
Definition documents (a : agent) (r : Runtime Json) (n : node) (b : beat) (uptime : Z) (now : time) :
    node * json * go (option json) :=
  let '(n', _, el) := sendHeartbeat format_rfc3339 parse_rfc3339 sscan_int64 r n b in
  (n', encode_heartbeat (heartbeat_of a r b uptime),
   match el with
   | None => Ret None
   | Some el => rpc ← election_rpc a n' b el uptime now; Ret (Some (encode_rpc rpc))
   end).

(** A SHA-256 in hexadecimal has 64 characters. *)
Hypothesis sha256_length : ∀ s, String.length (sha256_hex s) = 64%nat.

Lemma capabilityHash_ok nodeID : ∃ h, capabilityHash nodeID = Ret ("sha256:" +:+ h) ∧ String.length h = 17%nat.
Proof.
  unfold capabilityHash. set (x := sha256_hex _). assert (Hx : String.length x = 64%nat) by apply sha256_length.
  rewrite bool_decide_false by (rewrite length_append, Hx; simpl; lia).
  exists (stake 17 x). split; [done|]. rewrite length_stake, Hx. lia.
Qed.

Lemma election_of (r : Runtime Json) n b : loadFamilyID (b_family_ok b) (n_config n) ≠ "" →
  ∃ n' rep bv family, sendHeartbeat format_rfc3339 parse_rfc3339 sscan_int64 r n b = (n', rep,
    Some (Election family (healthScore (b_stats b) (cloudReachable (b_post b)) (GetFailsafeState (n_failsafe n')).1)
      (registrationState (cloudReachable (b_post b)) (GetFailsafeState (n_failsafe n')).1) (cloudReachable (b_post b))
      (isDNSAlive (b_dns_ok b)) (bool_decide (0 ≤ b_peers b)%Z)
      (negb (String.eqb bv "none") && negb (String.eqb bv "")) (b_peers b) bv (b_devices b))) ∧
    match ActiveBundle r with Ret bundle => Version bundle | _ => "none" end = bv.
Proof.
  intros Hf. unfold sendHeartbeat.
  assert (Hc : ∀ t ok, loadFamilyID (b_family_ok b) (persistBundleExpiry format_rfc3339 ok (n_config n) t) = loadFamilyID (b_family_ok b) (n_config n)).
  { intros t ok. unfold persistBundleExpiry, loadFamilyID. destruct ok; [|done]. destruct (b_family_ok b); [|done]. by rewrite lookup_insert_ne by discriminate. }
  destruct (ActiveBundle r) as [bundle|e| |]; cbn [Version];
    match goal with |- context [CheckAndEnterFailsafe ?s ?t ?e ?c ?g] => destruct (CheckAndEnterFailsafe s t e c g) as [fs rep] end;
    unfold sendElectionHeartbeat; cbn [n_config n_failsafe];
    [destruct (is_zero (ExpiresAt bundle)); [|rewrite Hc]|..];
    apply String.eqb_neq in Hf; rewrite Hf; eexists (Node _ fs), rep, _, _; (split; [reflexivity|]); reflexivity.
Qed.

(** C37. The two documents of a heartbeat agree with each other and with the state
    that the heartbeat leaves: a node with a family always posts the election
    document (the hash of the node id is never too short), what the call repeats
    outside the document is what stands in it, both documents carry the same
    version of the policy and the same counts, a role is eligible exactly when its
    health flag is set, the document says failsafe exactly when the node is in
    fail-safe afterwards, and its score is between 20 and 100. *)
Theorem heartbeat_documents a (r : Runtime Json) n b uptime now : loadFamilyID (b_family_ok b) (n_config n) ≠ "" →
  ∃ n' hb rpc score (state : string), documents a r n b uptime now = (n', hb, Ret (Some rpc)) ∧
    at_path ["p_health_score"] rpc = Some (JInt score) ∧ at_path ["p_heartbeat"; "health"; "health_score"] rpc = Some (JInt score) ∧
    (20 ≤ score ≤ 100)%Z ∧
    at_path ["p_heartbeat"; "registration_state"] rpc = Some (JStr state) ∧ (state = "failsafe" ↔ Active (n_failsafe n') = true) ∧
    (∀ k k', In (k, k') [("p_node_id", ["p_heartbeat"; "node_id"]); ("p_family_id", ["p_heartbeat"; "family_id"]);
        ("p_sent_at", ["p_heartbeat"; "sent_at"]); ("p_cloud_connected", ["p_heartbeat"; "connectivity"; "cloud_connected"])] →
      at_path [k] rpc = at_path k' rpc ∧ is_Some (at_path [k] rpc)) ∧
    at_path ["active_bundle_version"] hb = at_path ["p_heartbeat"; "role_metrics"; "policy"; "policy_version"] rpc ∧
    at_path ["tunnel_peer_count"] hb = at_path ["p_heartbeat"; "role_metrics"; "exit"; "wg_peers"] rpc ∧
    at_path ["device_count"] hb = at_path ["p_heartbeat"; "observations"; "presence_devices_seen"] rpc ∧
    (∀ role flag, In (role, flag) [("dns", "dns_service_ok"); ("exit", "wireguard_ok"); ("policy", "policy_cache_ok")] →
      at_path ["p_heartbeat"; "role_metrics"; role; "eligible"] rpc = at_path ["p_heartbeat"; "health"; flag] rpc).
Proof.
  intros Hf. destruct (election_of r n b Hf) as (n' & rep & bv & family & E & Hbv).
  unfold documents. rewrite E. unfold election_rpc, heartbeat_of. destruct (capabilityHash_ok (a_NodeID a)) as (h & -> & _).
  cbn [mbind go_bind]. rewrite Hbv. generalize ("sha256:" +:+ h). clear h. intros h.
  set (reg := registrationState _ _). set (score := healthScore _ _ _).
  assert (Hreg : reg = "failsafe" ↔ Active (n_failsafe n') = true).
  { unfold reg, registrationState. change (GetFailsafeState (n_failsafe n')).1 with (Active (n_failsafe n')).
    destruct (Active (n_failsafe n')); [done|]. by destruct (cloudReachable _). }
  pose proof (healthScore_range (b_stats b) (cloudReachable (b_post b)) (GetFailsafeState (n_failsafe n')).1) as [Hs _].
  fold score in Hs. clearbody reg score. set (p := UpsertRPC _ _ _ _ _ _ _ _).
  eexists n', _, (encode_rpc p), score, reg. split; [reflexivity|].
  pose proof (rpc_at p) as H. generalize dependent (encode_rpc p). intros doc H. subst p.
  cbn -[at_path] in H. decompose [and] H. clear H E Hbv.
  do 2 (split; [assumption|]). split; [exact Hs|]. split; [assumption|]. split; [exact Hreg|].
  refine (conj _ (conj _ (conj _ (conj _ _)))).
  - intros k k' Hk. repeat (destruct Hk as [[= <- <-]|Hk]; [split; [congruence|eexists; eassumption]|]). destruct Hk.
  - cbn [at_path encode_heartbeat field String.eqb Ascii.eqb Bool.eqb mbind option_bind]. symmetry. assumption.
  - cbn [at_path encode_heartbeat field String.eqb Ascii.eqb Bool.eqb mbind option_bind]. symmetry. assumption.
  - cbn [at_path encode_heartbeat field String.eqb Ascii.eqb Bool.eqb mbind option_bind]. symmetry. assumption.
  - intros role flag Hk. repeat (destruct Hk as [[= <- <-]|Hk]; [congruence|]). destruct Hk.
Qed.
End Documents.

(** ** Concrete runs *)

(** A function with the length of a hash. *)
Definition toy_hash (s : string) : string := stake 64 (s +:+ String.concat "" (repeat "00000000" 8)).

Lemma toy_hash_length s : String.length (toy_hash s) = 64%nat.
Proof. unfold toy_hash. rewrite length_stake, length_append. set (z := String.concat _ _). change (String.length z) with 64%nat. lia. Qed.

Definition toy_agent : agent := Agent "node-1" "attic" "dev" "home_node" true "".

Lemma heartbeat_documents_witness :
  ∃ n' hb rpc, documents toy_format toy_parse (λ _, 0%Z) toy_format toy_hash toy_agent (holding sample_bundle) fresh_node
      (toy_beat (2 * hour) (Err "no route")) 60 (2 * hour) = (n', hb, Ret (Some rpc)) ∧
    at_path ["p_node_id"] rpc = at_path ["p_heartbeat"; "node_id"] rpc.
Proof.
  destruct (heartbeat_documents toy_format toy_parse (λ _, 0%Z) toy_format toy_hash toy_hash_length toy_agent (holding sample_bundle)
    fresh_node (toy_beat (2 * hour) (Err "no route")) 60 (2 * hour)) as (n' & hb & rpc & score & st & E & _ & _ & _ & _ & _ & Hk & _).
  { vm_compute. discriminate. }
  exists n', hb, rpc. split; [exact E|]. apply Hk. by left.
Defined.
