(* ===== verification/Activity.v ===== *)
(** [internal/controlsync/activity_writer.go]: the buffer of block events and
    their batched, deduplicated upload. *)
From stdpp Require Import gmap.
From S2P Require Import Prelude Wire Blocklist Policy Resolver GoString.

Local Open Scope string_scope.
Local Open Scope list_scope.

Definition activityWriterBufSize : nat := 512.

(** [activityLogRow]; the constant columns are [event_type = "dns_blocked"],
    [severity = "info"] and [actor_kind = "system"]. *)
Record activityLogRow := LogRow {
  FamilyID : string;
  Title : string;
  DomainBlocked : string;
  ThreatCategory : string;      (** [""] is omitted *)
  Metadata_src_ip : option string;
}.

Section Flush.
Context `{U : UnicodeTables}.

Abbreviation dedup_key := (string * string)%type.

Definition event_key (evt : BlockEvent) : dedup_key := (to_lower (be_Domain evt), be_SrcIP evt).

Definition log_row (familyID : string) (evt : BlockEvent) : activityLogRow :=
  let domain := to_lower (be_Domain evt) in
  LogRow familyID ("Blocked: " +:+ domain) domain
    (if String.eqb (be_Category evt) "" then "" else to_lower (be_Category evt))
    (if String.eqb (be_SrcIP evt) "" then None else Some (be_SrcIP evt)).

(** The row loop of [flush]. *)
Fixpoint rows_loop (familyID : string) (seen : gset dedup_key) (batch : list BlockEvent) : list activityLogRow :=
  match batch with
  | [] => []
  | evt :: batch =>
      if String.eqb (to_lower (be_Domain evt)) "" then rows_loop familyID seen batch
      else if bool_decide (event_key evt ∈ seen) then rows_loop familyID seen batch
      else log_row familyID evt :: rows_loop familyID ({[event_key evt]} ∪ seen) batch
  end.

(** [flush] up to the POST: the rows it uploads, none without a family id. *)
Definition flush (familyID : string) (batch : list BlockEvent) : list activityLogRow :=
  if String.eqb familyID "" then [] else rows_loop familyID ∅ batch.

(** ** The writer as a transition system

    [ch] is the channel, [batch] the variable of [run], [handed] the batches
    given to [flush] so far, [stored] the rows that the cloud has taken,
    [accepted] and [dropped] what [RecordBlock] did with its events. *)
Record writer := Writer {
  ch : list BlockEvent;
  batch : list BlockEvent;
  handed : list (list BlockEvent);
  stored : list activityLogRow;
  stopped : bool;
  accepted : list BlockEvent;
  dropped : list BlockEvent;
}.

Definition NewActivityWriter : writer := Writer [] [] [] [] false [] [].

(** Never blocks: a full buffer drops the new event. *)
Definition RecordBlock (w : writer) (evt : BlockEvent) : writer :=
  if decide (length (ch w) < activityWriterBufSize)%nat
  then Writer (ch w ++ [evt]) (batch w) (handed w) (stored w) (stopped w) (accepted w ++ [evt]) (dropped w)
  else Writer (ch w) (batch w) (handed w) (stored w) (stopped w) (accepted w) (dropped w ++ [evt]).

(** What a flush adds to the table: [familyID] is what [loadFamilyID] returns,
    [taken] whether its one POST succeeds; its outcome is only logged. *)
Definition upload (familyID : string) (taken : bool) (b : list BlockEvent) : list activityLogRow :=
  if taken then flush familyID b else [].

(** The steps of the world: an event is recorded; [run] receives one event (in
    its main [select] or in a drain loop); on a tick with an empty channel it
    flushes; on cancellation with an empty channel it flushes a last time and
    returns. *)
Inductive writer_step : writer → writer → Prop :=
| ws_record w evt : writer_step w (RecordBlock w evt)
| ws_receive w evt rest : stopped w = false → ch w = evt :: rest →
    writer_step w (Writer rest (batch w ++ [evt]) (handed w) (stored w) false (accepted w) (dropped w))
| ws_tick w familyID taken : stopped w = false → ch w = [] → batch w ≠ [] →
    writer_step w (Writer [] [] (handed w ++ [batch w]) (stored w ++ upload familyID taken (batch w)) false (accepted w) (dropped w))
| ws_cancel w familyID taken : stopped w = false → ch w = [] →
    writer_step w (if decide (batch w = []) then Writer [] [] (handed w) (stored w) true (accepted w) (dropped w)
                   else Writer [] (batch w) (handed w ++ [batch w]) (stored w ++ upload familyID taken (batch w)) true (accepted w) (dropped w)).

(** The rows are those of the flushes, each with the family id it found and
    the fate of its request. *)
Definition explains (w : writer) (fates : list (string * bool)) : Prop :=
  length fates = length (handed w) ∧ stored w = concat (zip_with (λ (f : string * bool) b, upload f.1 f.2 b) fates (handed w)).

Record writer_inv (w : writer) : Prop := {
  wi_bound : (length (ch w) ≤ activityWriterBufSize)%nat;
  wi_order : accepted w = concat (handed w) ++ (if stopped w then [] else batch w) ++ ch w;
  wi_batches : Forall (λ b, b ≠ []) (handed w);
  wi_rows : ∃ fates, explains w fates;
}.

Lemma explains_flush w fates f taken b ch' batch' st acc dr : explains w fates →
  explains (Writer ch' batch' (handed w ++ [b]) (stored w ++ upload f taken b) st acc dr) (fates ++ [(f, taken)]).
Proof.
  intros [H1 H2]. split; simpl; [rewrite !length_app; simpl; lia|].
  rewrite zip_with_app by done. rewrite concat_app, H2. simpl. by rewrite app_nil_r.
Qed.

Lemma writer_step_inv w w' : writer_inv w → writer_step w w' → writer_inv w'.
Proof.
  intros [H1 H2 H3 [fates H4]] Hs. destruct Hs as [w evt|w evt rest Hst Hc|w f taken Hst Hc Hb|w f taken Hst Hc].
  - unfold RecordBlock. case_decide as Hl; split; simpl; try done; try (by exists fates).
    + rewrite length_app. simpl. lia.
    + rewrite H2. by rewrite <- !app_assoc.
  - rewrite Hst, Hc in *. split; simpl in *; [lia| |done|by exists fates]. by rewrite H2, <- !app_assoc.
  - rewrite Hst, Hc in *. split; simpl; [lia| | |eexists; by apply explains_flush].
    + rewrite H2, concat_app. simpl. by rewrite !app_nil_r.
    + apply Forall_app. split; [done|]. by constructor.
  - rewrite Hst, Hc in *. case_decide as Hb; (split; simpl; [lia| | |]); try done.
    + by rewrite H2, Hb.
    + by exists fates.
    + rewrite H2, concat_app. simpl. by rewrite !app_nil_r.
    + apply Forall_app. split; [done|]. by constructor.
    + eexists. by apply explains_flush.
Qed.

Lemma writer_ended w w' : stopped w = true → star writer_step w w' → stopped w' = true ∧ handed w' = handed w ∧ stored w' = stored w.
Proof.
  intros Hst. apply (star_invariant writer_step (λ w', stopped w' = true ∧ handed w' = handed w ∧ stored w' = stored w)); [|done].
  intros u v (H1 & H2 & H3) Hs. destruct Hs; try congruence. unfold RecordBlock. by case_decide.
Qed.

(** C20. No accepted event is lost, duplicated or reordered inside the writer,
    whatever the interleaving of the recorders with the writer's goroutine: the
    accepted events are, in order, those of the batches handed to [flush], those
    in the current batch, and those in the channel; the channel never holds more
    than 512; and an event is dropped only when it is full. What the cloud stores
    is, batch by batch, the deduplicated rows of a batch if there was a family
    id and the one request succeeded, and nothing otherwise. Once the writer has
    returned on cancellation no batch is left over, and nothing is handed over or
    stored any more: what is accepted from then on stays in the channel. *)
Theorem activity_conservation w :
  star writer_step NewActivityWriter w →
  accepted w = concat (handed w) ++ (if stopped w then [] else batch w) ++ ch w ∧
  (length (ch w) ≤ activityWriterBufSize)%nat ∧
  (∀ evt, dropped (RecordBlock w evt) ≠ dropped w ↔ length (ch w) = activityWriterBufSize) ∧
  (∃ fates : list (string * bool), length fates = length (handed w) ∧
     stored w = concat (zip_with (λ (f : string * bool) b, if f.2 then flush f.1 b else []) fates (handed w))) ∧
  (stopped w = true → ∀ w', star writer_step w w' → handed w' = handed w ∧ stored w' = stored w).
Proof.
  intros Hs. assert (Hi : writer_inv w).
  { eapply (star_invariant writer_step writer_inv); eauto using writer_step_inv. split; simpl; [lia|done|constructor|by exists []]. }
  destruct Hi as [H1 H2 _ H4]. split; [done|]. split; [done|]. split; [|split; [exact H4|intros Hst w' Hw; by apply (writer_ended w w')]].
  intros evt. unfold RecordBlock. case_decide as Hl; simpl.
  - split; [done|lia].
  - split; [lia|]. intros _ Heq. apply (f_equal length) in Heq. rewrite length_app in Heq. simpl in Heq. lia.
Qed.

(** ** The rows of an upload *)

Definition row_key (r : activityLogRow) : dedup_key := (DomainBlocked r, default "" (Metadata_src_ip r)).

Lemma log_row_key fam evt : row_key (log_row fam evt) = event_key evt.
Proof. unfold row_key, event_key. simpl. by destruct (String.eqb_spec (be_SrcIP evt) "") as [->|]. Qed.

(** The first event of the batch with a key. *)
Definition first_event (b : list BlockEvent) (k : dedup_key) : option BlockEvent :=
  List.find (λ e, bool_decide (event_key e = k)) b.

Lemma rows_loop_spec fam b : ∀ seen,
  NoDup (row_key <$> rows_loop fam seen b) ∧
  ∀ r, (r ∈ rows_loop fam seen b) ↔ ∃ evt, first_event b (event_key evt) = Some evt ∧
    to_lower (be_Domain evt) ≠ "" ∧ (event_key evt ∉ seen) ∧ r = log_row fam evt.
Proof.
  induction b as [|e b IH]; intros seen; simpl.
  { split; [constructor|]. intros r. split; [by intros ?%elem_of_nil|]. by intros (? & ? & _). }
  unfold first_event. simpl. fold (first_event b).
  destruct (String.eqb_spec (to_lower (be_Domain e)) "") as [E|E].
  { destruct (IH seen) as [Hn Hr]. split; [done|]. intros r. rewrite Hr. split.
    - intros (evt & Hf & Hd & Hs & ->). exists evt. rewrite bool_decide_false; [done|].
      intros Hk. apply Hd. by injection Hk as <- _.
    - intros (evt & Hf & Hd & Hs & ->). exists evt. case_bool_decide as Hk; [|done]. injection Hf as ->. by destruct Hd. }
  case_bool_decide as Hseen.
  { destruct (IH seen) as [Hn Hr]. split; [done|]. intros r. rewrite Hr. split.
    - intros (evt & Hf & Hd & Hs & ->). exists evt.
      rewrite bool_decide_false by (intros Heq; rewrite Heq in Hseen; done). done.
    - intros (evt & Hf & Hd & Hs & ->). exists evt. case_bool_decide as Hk; [|done].
      rewrite Hk in Hseen. done. }
  destruct (IH ({[event_key e]} ∪ seen)) as [Hn Hr]. split.
  - rewrite fmap_cons. constructor; [|done]. rewrite log_row_key. intros (r & Hk & Hin)%list_elem_of_fmap.
    apply Hr in Hin as (evt & _ & _ & Hs & ->). rewrite log_row_key in Hk.
    apply not_elem_of_union in Hs as [Hs _]. by apply Hs, elem_of_singleton.
  - intros r. rewrite elem_of_cons, Hr. split.
    + intros [->|(evt & Hf & Hd & Hs & ->)].
      * exists e. rewrite bool_decide_true by done. done.
      * apply not_elem_of_union in Hs as [Hne Hs]. rewrite elem_of_singleton in Hne.
        exists evt. rewrite bool_decide_false by (intros Heq; by apply Hne). done.
    + intros (evt & Hf & Hd & Hs & ->). case_bool_decide as Hk; [injection Hf as ->; by left|].
      right. exists evt. split; [done|]. split; [done|]. split; [|done].
      apply not_elem_of_union. split; [|done]. rewrite elem_of_singleton. intros Heq. by apply Hk.
Qed.

(** An upload has exactly one row for each (domain, device) pair of its
    batch: no two rows share a lower-cased domain and source address, each row
    is built from the first event of the batch with its pair, and every event
    with a domain has such a row. Without a family id nothing is uploaded. *)
Theorem flush_rows_exact fam b :
  NoDup (row_key <$> flush fam b) ∧
  (∀ r, r ∈ flush fam b → ∃ evt, first_event b (row_key r) = Some evt ∧ r = log_row fam evt) ∧
  (fam ≠ "" → ∀ evt, evt ∈ b → to_lower (be_Domain evt) ≠ "" → event_key evt ∈ (row_key <$> flush fam b)) ∧
  (fam = "" → flush fam b = []).
Proof.
  unfold flush. destruct (String.eqb_spec fam "") as [->|Hf].
  { split; [constructor|]. split; [by intros ? ?%elem_of_nil|]. done. }
  destruct (rows_loop_spec fam b ∅) as [Hn Hr]. split; [done|]. split; [|split; [|done]].
  - intros r Hin. apply Hr in Hin as (evt & He & _ & _ & ->). exists evt. by rewrite log_row_key.
  - intros _ evt Hin Hd. assert (Hfe : is_Some (first_event b (event_key evt))).
    { unfold first_event. destruct (List.find _ b) eqn:E; [by eexists|].
      apply list_elem_of_In in Hin. eapply find_none in E; [|exact Hin]. by rewrite bool_decide_true in E. }
    destruct Hfe as [e He]. pose proof He as Hk. apply find_some in Hk as [_ Hk]. apply bool_decide_eq_true in Hk.
    apply list_elem_of_fmap. exists (log_row fam e). split; [by rewrite log_row_key|].
    apply Hr. exists e. rewrite Hk. split; [done|]. split; [|done]. by injection Hk as -> _.
Qed.
End Flush.

(** ** A concrete run *)

#[local] Existing Instance ascii_tables.

Definition blocked (d s : string) : BlockEvent := MkBlockEvent d s "adult".

(** One event is stored, another one queued; then the writer is stopped. *)
Lemma activity_conservation_witness :
  ∃ w, star writer_step NewActivityWriter w ∧ stored w = [log_row "smith" (blocked "a.bad" "10.10.0.5")] ∧
    accepted w = [blocked "a.bad" "10.10.0.5"; blocked "b.bad" "10.10.0.6"] ∧
    ∀ w', star writer_step w w' → stored w' = stored w.
Proof.
  set (a := blocked "a.bad" "10.10.0.5"). set (w1 := RecordBlock NewActivityWriter a).
  set (w2 := Writer [] [a] [] [] false [a] []).
  set (w3 := Writer [] [] [[a]] [log_row "smith" a] false [a] []).
  set (w4 := Writer [] [] [[a]] [log_row "smith" a] true [a] []).
  assert (Hs : star writer_step NewActivityWriter (RecordBlock w4 (blocked "b.bad" "10.10.0.6"))).
  { eapply star_step; [apply (ws_record _ a)|].
    eapply star_step; [apply (ws_receive w1 a []); reflexivity|].
    eapply star_step; [apply (ws_tick w2 "smith" true); done|].
    eapply star_step; [apply (ws_cancel w3 "smith" true); done|].
    eapply star_step; [apply (ws_record w4)|]. apply star_refl. }
  eexists. split; [exact Hs|]. split; [reflexivity|].
  destruct (activity_conservation _ Hs) as (E & _ & _ & _ & Hend). split; [rewrite E; reflexivity|].
  intros w' Hw. by apply (Hend eq_refl).
Defined.
