(* ===== verification/FamilyCache.v ===== *)
(** [internal/controlsync/family_config.go]: the cache of terminator
    configurations and the coalescing of concurrent fetches. *)
From stdpp Require Import gmap.
From S2P Require Import Prelude GoString Registry Fallback Frame Broker Terminator.

Local Open Scope string_scope.
Local Open Scope list_scope.

Definition familyConfigCacheTTL : duration := (5 * minute)%Z.

Record familyConfigCacheEntry := CacheEntry { ce_cfg : FamilyConfig; ce_fetchedAt : time }.

(** [inflight] maps a family to the channel of its pending fetch; a channel is
    a number, and [closed] the set of those closed so far. *)
Record familyConfigCache := Cache {
  entries : gmap string familyConfigCacheEntry;
  inflight : gmap string nat;
  closed : gset nat;
}.

Definition newFamilyConfigCache : familyConfigCache := Cache ∅ ∅ ∅.

Definition cache_get (c : familyConfigCache) (now : time) (familyID : string) : option FamilyConfig :=
  match entries c !! familyID with
  | None => None
  | Some e => if bool_decide (familyConfigCacheTTL < time_sub now (ce_fetchedAt e))%Z then None else Some (ce_cfg e)
  end.

Definition cache_set (c : familyConfigCache) (now : time) (familyID : string) (cfg : FamilyConfig) : familyConfigCache :=
  Cache (<[familyID := CacheEntry cfg now]> (entries c)) (inflight c) (closed c).

Definition invalidate (c : familyConfigCache) (familyID : string) : familyConfigCache :=
  Cache (delete familyID (entries c)) (inflight c) (closed c).

(** ** The fetch *)

Record familyConfigResponse := FamilyConfigResponse {
  fr_FamilyID : string;
  fr_PrivateKey : string;
  fr_ListenPort : Z;
  fr_BlockedCategories : list string;
  fr_Peers : list (string * list string);
}.

(** [fetchFamilyConfigUncached] after the request: what [s.client.get] and
    [json.Unmarshal] returned decides the result. The family of the answer is
    not compared with the family asked for. *)
Definition fetchFamilyConfigUncached (reply : go Z) (resp : option familyConfigResponse) : go FamilyConfig :=
  match reply with
  | Ret status =>
      if negb (Z.eqb status 200) then Err "controlsync: fetch family config: status" else
      match resp with
      | None => Err "controlsync: decode family config"
      | Some resp =>
          if String.eqb (fr_PrivateKey resp) "" then Err "controlsync: empty private key in family config response" else
          Ret (MkFamilyConfig (fr_FamilyID resp) (fr_PrivateKey resp) (fr_ListenPort resp)
            (map (λ p, MkPeer p.1 p.2) (fr_Peers resp)) (fr_BlockedCategories resp))
      end
  | _ => Err "controlsync: fetch family config"
  end.

(** ** One call of [FetchFamilyConfig], from lock to lock *)

Inductive caller :=
| Missed (fam : string)                        (** the first [get] found nothing *)
| Waiting (fam : string) (chan : nat)          (** in the [select] on the other caller's channel *)
| Woken (fam : string)                         (** that channel was closed *)
| Retrying (fam : string)                      (** and the second [get] found nothing *)
| Fetching (fam : string) (chan : nat)         (** in [fetchFamilyConfigUncached] *)
| Finishing (fam : string) (chan : nat) (r : go FamilyConfig)  (** in the deferred function *)
| Returned (fam : string) (r : go FamilyConfig).

(** The cache, the callers by number, and the successful fetches so far. *)
Record world := World {
  cache : familyConfigCache;
  callers : gmap nat caller;
  fetched : list (string * FamilyConfig * time);
}.

Definition registered (c : familyConfigCache) (fam : string) (chan : nat) : familyConfigCache :=
  Cache (entries c) (<[fam := chan]> (inflight c)) (closed c).

(** The deferred function: [delete(cache.inflight, familyID)], whatever channel
    is there, and [close(done)]. The close follows the unlock; nothing else
    touches that channel, so the two are one step. *)
Definition finished (c : familyConfigCache) (fam : string) (chan : nat) : familyConfigCache :=
  Cache (entries c) (delete fam (inflight c)) ({[chan]} ∪ closed c).

(** A channel that no caller, family or close has used. *)
Definition fresh_chan (w : world) (chan : nat) : Prop :=
  (chan ∉ closed (cache w)) ∧ (∀ fam, inflight (cache w) !! fam ≠ Some chan) ∧
  ∀ i fam r, callers w !! i ≠ Some (Waiting fam chan) ∧ callers w !! i ≠ Some (Fetching fam chan) ∧
    callers w !! i ≠ Some (Finishing fam chan r).

Inductive world_step : world → world → Prop :=
| w_hit w i fam now cfg : fam ≠ "" → callers w !! i = None → cache_get (cache w) now fam = Some cfg →
    world_step w (World (cache w) (<[i := Returned fam (Ret cfg)]> (callers w)) (fetched w))
| w_empty w i : callers w !! i = None →
    world_step w (World (cache w) (<[i := Returned "" (Err "controlsync: empty family id")]> (callers w)) (fetched w))
| w_miss w i fam now : fam ≠ "" → callers w !! i = None → cache_get (cache w) now fam = None →
    world_step w (World (cache w) (<[i := Missed fam]> (callers w)) (fetched w))
| w_wait w i fam chan : callers w !! i = Some (Missed fam) → inflight (cache w) !! fam = Some chan →
    world_step w (World (cache w) (<[i := Waiting fam chan]> (callers w)) (fetched w))
| w_fetch w i fam chan : callers w !! i = Some (Missed fam) → inflight (cache w) !! fam = None → fresh_chan w chan →
    world_step w (World (registered (cache w) fam chan) (<[i := Fetching fam chan]> (callers w)) (fetched w))
| w_wake w i fam chan : callers w !! i = Some (Waiting fam chan) → chan ∈ closed (cache w) →
    world_step w (World (cache w) (<[i := Woken fam]> (callers w)) (fetched w))
| w_cancel w i fam chan : callers w !! i = Some (Waiting fam chan) →
    world_step w (World (cache w) (<[i := Returned fam (Err "context")]> (callers w)) (fetched w))
| w_woken_hit w i fam now cfg : callers w !! i = Some (Woken fam) → cache_get (cache w) now fam = Some cfg →
    world_step w (World (cache w) (<[i := Returned fam (Ret cfg)]> (callers w)) (fetched w))
| w_woken_miss w i fam now : callers w !! i = Some (Woken fam) → cache_get (cache w) now fam = None →
    world_step w (World (cache w) (<[i := Retrying fam]> (callers w)) (fetched w))
| w_retry w i fam chan : callers w !! i = Some (Retrying fam) → fresh_chan w chan →
    world_step w (World (registered (cache w) fam chan) (<[i := Fetching fam chan]> (callers w)) (fetched w))
| w_fetched w i fam chan now reply resp cfg : callers w !! i = Some (Fetching fam chan) →
    fetchFamilyConfigUncached reply resp = Ret cfg →
    world_step w (World (cache_set (cache w) now fam cfg) (<[i := Finishing fam chan (Ret cfg)]> (callers w))
      ((fam, cfg, now) :: fetched w))
| w_failed w i fam chan reply resp e : callers w !! i = Some (Fetching fam chan) →
    fetchFamilyConfigUncached reply resp = Err e →
    world_step w (World (cache w) (<[i := Finishing fam chan (Err e)]> (callers w)) (fetched w))
| w_finish w i fam chan r : callers w !! i = Some (Finishing fam chan r) →
    world_step w (World (finished (cache w) fam chan) (<[i := Returned fam r]> (callers w)) (fetched w))
| w_invalidate w fam : world_step w (World (invalidate (cache w) fam) (callers w) (fetched w)).

Definition idle_world : world := World newFamilyConfigCache ∅ [].

(** A caller that will close the channel. *)
Definition owns (c : caller) (fam : string) (chan : nat) : Prop :=
  match c with Fetching f ch => f = fam ∧ ch = chan | Finishing f ch _ => f = fam ∧ ch = chan | _ => False end.

Definition owned_by_some (cs : gmap nat caller) (fam : string) (chan : nat) : Prop :=
  ∃ i c, cs !! i = Some c ∧ owns c fam chan.

(** The result a caller has in hand. *)
Definition result_of (c : caller) : option (string * FamilyConfig) :=
  match c with Returned f (Ret cfg) => Some (f, cfg) | Finishing f _ (Ret cfg) => Some (f, cfg) | _ => None end.

Record world_inv (w : world) : Prop := {
  inv_entries : ∀ fam e, entries (cache w) !! fam = Some e → (fam, ce_cfg e, ce_fetchedAt e) ∈ fetched w;
  inv_inflight : ∀ fam chan, inflight (cache w) !! fam = Some chan → owned_by_some (callers w) fam chan;
  inv_waiting : ∀ i fam chan, callers w !! i = Some (Waiting fam chan) →
    (chan ∈ closed (cache w)) ∨ owned_by_some (callers w) fam chan;
  inv_open : ∀ i c fam chan, callers w !! i = Some c → owns c fam chan → chan ∉ closed (cache w);
  inv_unique : ∀ i j c d f g chan, callers w !! i = Some c → callers w !! j = Some d →
    owns c f chan → owns d g chan → i = j;
  inv_results : ∀ i c fam cfg, callers w !! i = Some c → result_of c = Some (fam, cfg) → ∃ t, (fam, cfg, t) ∈ fetched w;
}.

Lemma cache_get_entry c now fam cfg : cache_get c now fam = Some cfg →
  ∃ t, entries c !! fam = Some (CacheEntry cfg t) ∧ (time_sub now t ≤ familyConfigCacheTTL)%Z.
Proof.
  unfold cache_get. destruct (entries c !! fam) as [[cfg' t]|]; [|done]. case_bool_decide as H; [done|].
  intros [= ->]. exists t. split; [done|]. simpl in H. lia.
Qed.

(** The owner of a channel stays unless it is the caller that moves. *)
Lemma owner_kept cs i new fam chan :
  owned_by_some cs fam chan → (∀ c, cs !! i = Some c → owns c fam chan → owns new fam chan) →
  owned_by_some (<[i := new]> cs) fam chan.
Proof.
  intros (j & c & Hj & Ho) Hi. destruct (decide (i = j)) as [->|Hne].
  - exists j, new. rewrite lookup_insert_eq. eauto.
  - exists j, c. by rewrite lookup_insert_ne.
Qed.

(** A caller that holds no channel moves to one that holds none, the cache
    keeping its channels: everything about channels is kept. *)
Lemma inv_quiet w i new es fs :
  world_inv w → (∀ c fam chan, callers w !! i = Some c → ¬ owns c fam chan) → (∀ fam chan, ¬ owns new fam chan) →
  (∀ fam chan, new = Waiting fam chan → (chan ∈ closed (cache w)) ∨ owned_by_some (callers w) fam chan) →
  (∀ x, x ∈ fetched w → x ∈ fs) →
  (∀ fam e, es !! fam = Some e → (fam, ce_cfg e, ce_fetchedAt e) ∈ fs) →
  (∀ fam cfg, result_of new = Some (fam, cfg) → ∃ t, (fam, cfg, t) ∈ fs) →
  world_inv (World (Cache es (inflight (cache w)) (closed (cache w))) (<[i := new]> (callers w)) fs).
Proof.
  intros [I1 I2 I3 I4 I5 I6] Hold Hnew Hw Hfs Hes Hr. split; simpl.
  - done.
  - intros fam chan H. apply owner_kept; [by apply I2|]. intros c Hc Ho. by destruct (Hold c fam chan Hc).
  - intros j fam chan [[<- E]|[_ Hj]]%lookup_insert_Some.
    + destruct (Hw fam chan E) as [?|H]; [by left|right]. apply owner_kept; [done|]. intros c Hc Ho. by destruct (Hold c fam chan Hc).
    + destruct (I3 j fam chan Hj) as [?|H]; [by left|right]. apply owner_kept; [done|]. intros c Hc Ho. by destruct (Hold c fam chan Hc).
  - intros j c fam chan [[<- <-]|[_ Hj]]%lookup_insert_Some Ho; [by destruct (Hnew fam chan)|by eapply I4].
  - intros j k c d f g chan [[<- <-]|[_ Hj]]%lookup_insert_Some [[<- <-]|[_ Hk]]%lookup_insert_Some Ho1 Ho2;
      [done|by destruct (Hnew f chan)|by destruct (Hnew g chan)|by eapply I5].
  - intros j c fam cfg [[<- <-]|[_ Hj]]%lookup_insert_Some Hres; [by apply Hr|].
    destruct (I6 _ _ _ _ Hj Hres) as [t Ht]. eauto.
Qed.

(** A caller takes a fresh channel and registers it. *)
Lemma inv_register w i fam chan :
  world_inv w → (∀ c f ch, callers w !! i = Some c → ¬ owns c f ch) → fresh_chan w chan →
  world_inv (World (registered (cache w) fam chan) (<[i := Fetching fam chan]> (callers w)) (fetched w)).
Proof.
  intros [I1 I2 I3 I4 I5 I6] Hold (F1 & F2 & F3).
  assert (Hfree : ∀ j c f, callers w !! j = Some c → ¬ owns c f chan).
  { intros j c f Hj Ho. destruct (F3 j f (Err "")) as (_ & H1 & _).
    destruct c as [| | | |g ch|g ch r|]; simpl in Ho; try done.
    - destruct Ho as [-> ->]. done.
    - destruct Ho as [-> ->]. by destruct (F3 j f r) as (_ & _ & H3). }
  split; simpl.
  - done.
  - intros f ch [[<- <-]|[_ H]]%lookup_insert_Some.
    + exists i, (Fetching fam chan). by rewrite lookup_insert_eq.
    + apply owner_kept; [by apply I2|]. intros c Hc Ho. by destruct (Hold c f ch Hc).
  - intros j f ch [[<- E]|[_ Hj]]%lookup_insert_Some; [done|].
    destruct (I3 j f ch Hj) as [?|H]; [by left|right]. apply owner_kept; [done|]. intros c Hc Ho. by destruct (Hold c f ch Hc).
  - intros j c f ch [[<- <-]|[_ Hj]]%lookup_insert_Some Ho; [by destruct Ho as [_ <-]|by eapply I4].
  - intros j k c d f g ch [[<- <-]|[_ Hj]]%lookup_insert_Some [[<- <-]|[_ Hk]]%lookup_insert_Some Ho1 Ho2; [done| | |by eapply I5].
    + destruct Ho1 as [_ <-]. by destruct (Hfree _ _ _ Hk Ho2).
    + destruct Ho2 as [_ <-]. by destruct (Hfree _ _ _ Hj Ho1).
  - intros j c f cfg [[<- <-]|[_ Hj]]%lookup_insert_Some Hres; [done|by eapply I6].
Qed.

(** The fetch of caller [i] ends, successfully or not. *)
Lemma inv_fetched w i fam chan r es fs :
  world_inv w → callers w !! i = Some (Fetching fam chan) →
  (∀ x, x ∈ fetched w → x ∈ fs) → (∀ f e, es !! f = Some e → (f, ce_cfg e, ce_fetchedAt e) ∈ fs) →
  (∀ cfg, r = Ret cfg → ∃ t, (fam, cfg, t) ∈ fs) →
  world_inv (World (Cache es (inflight (cache w)) (closed (cache w))) (<[i := Finishing fam chan r]> (callers w)) fs).
Proof.
  intros [I1 I2 I3 I4 I5 I6] Hi Hfs Hes Hr.
  assert (Hsame : ∀ c f ch, callers w !! i = Some c → owns c f ch → owns (Finishing fam chan r) f ch).
  { intros c f ch Hc Ho. rewrite Hi in Hc. injection Hc as <-. exact Ho. }
  assert (Hown : ∀ f ch, owns (Finishing fam chan r) f ch → owns (Fetching fam chan) f ch) by done.
  split; simpl.
  - done.
  - intros f ch H. apply owner_kept; [by apply I2|]. eauto.
  - intros j f ch [[<- E]|[_ Hj]]%lookup_insert_Some; [done|].
    destruct (I3 j f ch Hj) as [?|H]; [by left|right]. apply owner_kept; eauto.
  - intros j c f ch [[<- <-]|[_ Hj]]%lookup_insert_Some Ho; [by eapply I4|by eapply I4].
  - intros j k c d f g ch [[<- <-]|[_ Hj]]%lookup_insert_Some [[<- <-]|[_ Hk]]%lookup_insert_Some Ho1 Ho2; by eauto.
  - intros j c f cfg [[<- <-]|[_ Hj]]%lookup_insert_Some Hres.
    + simpl in Hres. destruct r as [cfg'|?| |]; try done. injection Hres as <- <-. by apply Hr.
    + destruct (I6 _ _ _ _ Hj Hres) as [t Ht]. eauto.
Qed.

Lemma inv_finish w i fam chan r :
  world_inv w → callers w !! i = Some (Finishing fam chan r) →
  world_inv (World (finished (cache w) fam chan) (<[i := Returned fam r]> (callers w)) (fetched w)).
Proof.
  intros [I1 I2 I3 I4 I5 I6] Hi.
  assert (Hother : ∀ f ch, owned_by_some (callers w) f ch → ch ≠ chan → owned_by_some (<[i := Returned fam r]> (callers w)) f ch).
  { intros f ch Ho Hne. apply owner_kept; [done|]. intros c Hc Hco. rewrite Hi in Hc. injection Hc as <-. by destruct Hco as [_ <-]. }
  split; simpl.
  - done.
  - intros f ch [Hf H]%lookup_delete_Some. apply Hother; [by apply I2|]. intros ->.
    destruct (I2 _ _ H) as (j & c & Hj & Ho).
    assert (i = j) as <- by (eapply (I5 i j); [exact Hi|exact Hj|by split|exact Ho]).
    rewrite Hi in Hj. injection Hj as <-. by destruct Ho as [? _].
  - intros j f ch [[<- E]|[_ Hj]]%lookup_insert_Some; [done|].
    destruct (decide (ch = chan)) as [->|Hne]; [left; set_solver|].
    destruct (I3 j f ch Hj) as [?|H]; [left; set_solver|right; by apply Hother].
  - intros j c f ch [[<- <-]|[Hne Hj]]%lookup_insert_Some Ho; [done|]. apply not_elem_of_union. split; [|by eapply I4].
    rewrite elem_of_singleton. intros ->. apply Hne. eapply (I5 i j); [exact Hi|exact Hj|by split|exact Ho].
  - intros j k c d f g ch [[<- <-]|[_ Hj]]%lookup_insert_Some [[<- <-]|[_ Hk]]%lookup_insert_Some Ho1 Ho2; done || by eapply I5.
  - intros j c f cfg [[<- <-]|[_ Hj]]%lookup_insert_Some Hres; [|by eapply I6].
    eapply (I6 i); [exact Hi|]. destruct r; exact Hres.
Qed.

(** ** Every step keeps the invariant *)

Ltac holds_nothing H := let Hc := fresh in let Ho := fresh in
  intros ??? Hc Ho; rewrite H in Hc; try done; injection Hc as <-; done.

Lemma world_eta w : World (Cache (entries (cache w)) (inflight (cache w)) (closed (cache w))) (callers w) (fetched w) = w.
Proof. by destruct w as [[]]. Qed.

(** The moves that leave the cache and the fetches alone. *)
Lemma inv_move w i new :
  world_inv w → (∀ c fam chan, callers w !! i = Some c → ¬ owns c fam chan) → (∀ fam chan, ¬ owns new fam chan) →
  (∀ fam chan, new = Waiting fam chan → inflight (cache w) !! fam = Some chan) →
  (∀ fam cfg, result_of new = Some (fam, cfg) → ∃ t, (fam, cfg, t) ∈ fetched w) →
  world_inv (World (cache w) (<[i := new]> (callers w)) (fetched w)).
Proof.
  intros I Hold Hnew Hw Hr. replace (cache w) with (Cache (entries (cache w)) (inflight (cache w)) (closed (cache w))) at 1 by (by destruct w as [[]]).
  apply inv_quiet; auto.
  - intros fam chan E. right. apply (inv_inflight _ I). by apply Hw.
  - apply (inv_entries _ I).
Qed.

(** A hit was fetched. *)
Lemma hit_fetched w now fam cfg :
  world_inv w → cache_get (cache w) now fam = Some cfg → ∃ t, (fam, cfg, t) ∈ fetched w.
Proof. intros I (t & H & _)%cache_get_entry. exists t. exact (inv_entries _ I _ _ H). Qed.

Lemma world_step_inv w w' : world_inv w → world_step w w' → world_inv w'.
Proof.
  intros I St. destruct St as [w i fam now cfg _ Hi Hg|w i Hi|w i fam now _ Hi Hg|w i fam chan Hi Hf|w i fam chan Hi Hf Hfr
    |w i fam chan Hi Hcl|w i fam chan Hi|w i fam now cfg Hi Hg|w i fam now Hi Hg|w i fam chan Hi Hfr|w i fam chan now reply resp cfg Hi _
    |w i fam chan reply resp e Hi _|w i fam chan r Hi|w fam].
  - apply inv_move; try done; try (by intros ?? []); [holds_nothing Hi|]. intros f c [= <- <-]. by eapply hit_fetched.
  - apply inv_move; try done; try (by intros ?? []). holds_nothing Hi.
  - apply inv_move; try done; try (by intros ?? []). holds_nothing Hi.
  - apply inv_move; try done; try (by intros ?? []); [holds_nothing Hi|]. by intros f c [= <- <-].
  - apply inv_register; [done| |done]. holds_nothing Hi.
  - apply inv_move; try done; try (by intros ?? []). holds_nothing Hi.
  - apply inv_move; try done; try (by intros ?? []). holds_nothing Hi.
  - apply inv_move; try done; try (by intros ?? []); [holds_nothing Hi|]. intros f c [= <- <-]. by eapply hit_fetched.
  - apply inv_move; try done; try (by intros ?? []). holds_nothing Hi.
  - apply inv_register; [done| |done]. holds_nothing Hi.
  - apply inv_fetched; [done|done| | |].
    + intros x Hx. by apply elem_of_cons; right.
    + intros f en [[<- <-]|[_ H]]%lookup_insert_Some; [left|right]. by apply (inv_entries _ I).
    + intros c [= <-]. exists now. left.
  - replace (cache w) with (Cache (entries (cache w)) (inflight (cache w)) (closed (cache w))) by (by destruct w as [[]]).
    apply inv_fetched; [done|done|done|apply (inv_entries _ I)|done].
  - by apply inv_finish.
  - destruct I as [I1 I2 I3 I4 I5 I6]. split; simpl; try done. intros f e [_ H]%lookup_delete_Some. by apply I1.
Qed.

Lemma idle_world_inv : world_inv idle_world.
Proof. split; simpl; intros; by rewrite ?lookup_empty in *. Qed.

Lemma world_reachable_inv w : rtc world_step idle_world w → world_inv w.
Proof.
  intros H. remember idle_world as w0 eqn:E. assert (world_inv w0) as I by (subst; apply idle_world_inv). clear E.
  induction H as [|w0 w1 w2 St _ IH]; [done|]. apply IH. by eapply world_step_inv.
Qed.

Lemma fetched_has_key w : rtc world_step idle_world w →
  ∀ fam cfg t, (fam, cfg, t) ∈ fetched w → fc_PrivateKey cfg ≠ "".
Proof.
  intros H. remember idle_world as w0 eqn:E.
  assert (H0 : ∀ fam cfg t, (fam, cfg, t) ∈ fetched w0 → fc_PrivateKey cfg ≠ "") by (subst; intros ??? []%elem_of_nil).
  clear E. induction H as [|w0 w1 w2 St _ IH]; [done|]. apply IH.
  destruct St as [| | | | | | | | | |w i f ch now reply resp c Hi Hf| | |]; try exact H0.
  simpl. intros fam cfg t [[= -> -> ->]|Hin]%elem_of_cons; [|by eapply H0].
  unfold fetchFamilyConfigUncached in Hf. destruct reply as [st| | |]; try done.
  destruct (negb _); [done|]. destruct resp as [resp|]; [|done].
  destruct (String.eqb_spec (fr_PrivateKey resp) ""); [done|]. by injection Hf as <-.
Qed.

(** A configuration a caller is given was fetched for the family it asked
    for and has a private key, and one answered from the cache was fetched at
    most five minutes before. *)
Theorem cached_config_fresh w : rtc world_step idle_world w →
  (∀ i fam cfg, callers w !! i = Some (Returned fam (Ret cfg)) →
    ∃ t, ((fam, cfg, t) ∈ fetched w) ∧ fc_PrivateKey cfg ≠ "") ∧
  ∀ now fam cfg, cache_get (cache w) now fam = Some cfg →
    ∃ t, ((fam, cfg, t) ∈ fetched w) ∧ fc_PrivateKey cfg ≠ "" ∧ (time_sub now t ≤ familyConfigCacheTTL)%Z.
Proof.
  intros R. pose proof (fetched_has_key w R) as K. apply world_reachable_inv in R as I. split.
  - intros i fam cfg H. destruct (inv_results _ I _ _ _ _ H eq_refl) as [t Ht]. eauto.
  - intros now fam cfg (t & H & Ht)%cache_get_entry. pose proof (inv_entries _ I _ _ H). eauto.
Qed.

Lemma finishing_wakes w i fam chan j g r : i ≠ j →
  callers w !! i = Some (Waiting fam chan) → callers w !! j = Some (Finishing g chan r) →
  ∃ w', rtc world_step w w' ∧ callers w' !! i = Some (Woken fam).
Proof.
  intros Hne Hi Hj. eexists. split.
  - eapply rtc_l; [eapply w_finish; exact Hj|]. apply rtc_once. apply (w_wake _ i fam chan).
    + simpl. by rewrite lookup_insert_ne.
    + simpl. apply elem_of_union. left. by apply elem_of_singleton.
  - simpl. by rewrite lookup_insert_eq.
Qed.

(** C33. No wake-up is lost: in every reachable state, a caller waiting for the
    fetch of another is woken once that fetch ends, whether it succeeds or
    fails, without its own context having to expire. *)
Theorem waiter_woken w i fam chan :
  rtc world_step idle_world w → callers w !! i = Some (Waiting fam chan) →
  ∃ w', rtc world_step w w' ∧ callers w' !! i = Some (Woken fam).
Proof.
  intros I%world_reachable_inv Hi. destruct (inv_waiting _ I _ _ _ Hi) as [Hc|(j & c & Hj & Ho)].
  - eexists. split; [apply rtc_once; by eapply w_wake|]. simpl. by rewrite lookup_insert_eq.
  - assert (Hne : i ≠ j) by (intros ->; rewrite Hi in Hj; injection Hj as <-; done).
    destruct c as [| | | |g ch|g ch r|]; simpl in Ho; try done; destruct Ho as [-> ->]; [|by eapply finishing_wakes].
    set (e := @Err FamilyConfig "controlsync: fetch family config").
    set (w1 := World (cache w) (<[j := Finishing fam chan e]> (callers w)) (fetched w)).
    assert (St : world_step w w1) by (by apply (w_failed w j fam chan (Err "") None _ Hj)).
    destruct (finishing_wakes w1 i fam chan j fam e Hne) as (w' & R & Hw); simpl.
    + by rewrite lookup_insert_ne.
    + by rewrite lookup_insert_eq.
    + exists w'. split; [eapply rtc_l; [exact St|exact R]|exact Hw].
Qed.

(** ** After a failed fetch *)

(** Caller 0 is fetching and callers 1 to [k] wait for it. *)
Record gathered (fam : string) (k : nat) (w : world) : Prop := {
  g_reach : rtc world_step idle_world w;
  g_entries : entries (cache w) = ∅;
  g_inflight : inflight (cache w) = {[fam := 0%nat]};
  g_closed : closed (cache w) = ∅;
  g_first : callers w !! 0%nat = Some (Fetching fam 0);
  g_waiting : ∀ i, (1 ≤ i ≤ k)%nat → callers w !! i = Some (Waiting fam 0);
  g_none : ∀ i, (k < i)%nat → callers w !! i = None;
}.

Lemma missed_none c now fam : entries c = ∅ → cache_get c now fam = None.
Proof. intros H. unfold cache_get. by rewrite H, lookup_empty. Qed.

Lemma gather fam k : fam ≠ "" → ∃ w, gathered fam k w.
Proof.
  intros Hf. induction k as [|k [w [R E1 E2 E3 E4 E5 E6]]].
  - eexists (World (registered newFamilyConfigCache fam 0) (<[0%nat := Fetching fam 0]> (<[0%nat := Missed fam]> ∅)) []).
    split; simpl; try done.
    + eapply rtc_l; [apply (w_miss idle_world 0 fam 0%Z Hf); [apply lookup_empty|by apply missed_none]|].
      apply rtc_once. apply (w_fetch (World _ _ _) 0 fam 0); simpl; [apply lookup_insert_eq|apply lookup_empty|].
      repeat split; simpl; try done; intros H; apply lookup_insert_Some in H as [[_ H]|[_ H]]; done.
    + intros i Hi. lia.
    + intros i Hi. rewrite !lookup_insert_ne by lia. apply lookup_empty.
  - eexists (World (cache w) (<[S k := Waiting fam 0]> (<[S k := Missed fam]> (callers w))) (fetched w)). split; simpl; try done.
    + eapply rtc_r; [eapply rtc_r; [exact R|]|].
      * apply (w_miss w (S k) fam 0%Z Hf); [apply E6; lia|by apply missed_none].
      * apply (w_wait (World _ _ _) (S k) fam 0); simpl; [apply lookup_insert_eq|]. rewrite E2. by rewrite lookup_singleton_eq.
    + by rewrite !lookup_insert_ne.
    + intros i Hi. destruct (decide (i = S k)) as [->|]; [by rewrite lookup_insert_eq|]. rewrite !lookup_insert_ne by done. apply E5. lia.
    + intros i Hi. rewrite !lookup_insert_ne by lia. apply E6. lia.
Qed.

(** Callers 1 to [k] are fetching, each on its own channel, and those from
    [k + 1] to [n] are still to be woken. *)
Record stormed (fam : string) (n k : nat) (w : world) : Prop := {
  s_reach : rtc world_step idle_world w;
  s_entries : entries (cache w) = ∅;
  s_inflight : ∀ f c, inflight (cache w) !! f = Some c → (c ≤ k)%nat;
  s_closed : closed (cache w) = {[0%nat]};
  s_first : ∀ i f c r, callers w !! i = Some (Fetching f c) ∨ callers w !! i = Some (Finishing f c r) ∨
    callers w !! i = Some (Waiting f c) → (c ≤ k)%nat;
  s_fetching : ∀ i, (1 ≤ i ≤ k)%nat → ∃ c, callers w !! i = Some (Fetching fam c);
  s_waiting : ∀ i, (k < i ≤ n)%nat → callers w !! i = Some (Waiting fam 0);
}.

Lemma storm_start fam n : fam ≠ "" → ∃ w, stormed fam n 0 w.
Proof.
  intros Hf. destruct (gather fam n Hf) as [w [R E1 E2 E3 E4 E5 E6]].
  set (e := "controlsync: fetch family config").
  exists (World (finished (cache w) fam 0) (<[0%nat := Returned fam (Err e)]> (<[0%nat := Finishing fam 0 (Err e)]> (callers w))) (fetched w)).
  split; simpl.
  - eapply rtc_r; [eapply rtc_r; [exact R|]|].
    + by apply (w_failed w 0 fam 0 (Err "") None).
    + apply (w_finish (World _ _ _) 0 fam 0 (Err e)). simpl. apply lookup_insert_eq.
  - done.
  - intros f c. rewrite E2, lookup_delete_Some. intros [Hne H]. by rewrite lookup_singleton_ne in H.
  - rewrite E3. set_solver.
  - intros i f c r H. destruct (decide (i = 0%nat)) as [->|Hi]; [rewrite lookup_insert_eq in H; naive_solver|].
    rewrite !lookup_insert_ne in H by done. destruct (decide (i ≤ n)%nat) as [Hn|Hn].
    + rewrite E5 in H by lia. destruct H as [H|[H|H]]; [done..|]. injection H as _ <-. lia.
    + rewrite E6 in H by lia. naive_solver.
  - lia.
  - intros i Hi. rewrite !lookup_insert_ne by lia. apply E5. lia.
Qed.

Lemma storm_step fam n k w : (k < n)%nat → stormed fam n k w → ∃ w', stormed fam n (S k) w'.
Proof.
  intros Hk [R E1 E2 E3 E4 E5 E6]. pose proof (E6 (S k) ltac:(lia)) as Hi.
  exists (World (registered (cache w) fam (S k))
    (<[S k := Fetching fam (S k)]> (<[S k := Retrying fam]> (<[S k := Woken fam]> (callers w)))) (fetched w)).
  split; simpl; try done.
  - eapply rtc_r; [eapply rtc_r; [eapply rtc_r; [exact R|]|]|].
    + apply (w_wake w (S k) fam 0 Hi). rewrite E3. by apply elem_of_singleton.
    + apply (w_woken_miss (World _ _ _) (S k) fam 0%Z); simpl; [apply lookup_insert_eq|by apply missed_none].
    + apply (w_retry (World _ _ _) (S k) fam (S k)); simpl; [apply lookup_insert_eq|]. split; [|split]; simpl.
      * rewrite E3, elem_of_singleton. lia.
      * intros f H%E2. lia.
      * intros i f r. destruct (decide (i = S k)) as [->|]; [rewrite lookup_insert_eq; by repeat split|].
        rewrite !lookup_insert_ne by done.
        repeat split; intros H; assert (S k ≤ k)%nat by (eapply (E4 i f _ r); eauto); lia.
  - intros f c [[_ <-]|[_ H]]%lookup_insert_Some; [done|]. apply E2 in H. lia.
  - intros i f c r. destruct (decide (i = S k)) as [->|].
    + rewrite lookup_insert_eq. intros [H|[H|H]]; [|done..]. injection H as _ <-. done.
    + rewrite !lookup_insert_ne by done. intros H%E4. lia.
  - intros i H. destruct (decide (i = S k)) as [->|]; [rewrite lookup_insert_eq; by eexists|].
    rewrite !lookup_insert_ne by done. apply E5. lia.
  - intros i H. rewrite !lookup_insert_ne by lia. apply E6. lia.
Qed.

(** A failed fetch releases every waiter into a fetch of its own: however
    many callers wait, all of them can be fetching the same family at once,
    although the cache is there so that "only one HTTP fetch runs". *)
Theorem failed_fetch_storm fam n : fam ≠ "" →
  ∃ w, rtc world_step idle_world w ∧ ∀ i, (1 ≤ i ≤ n)%nat → ∃ chan, callers w !! i = Some (Fetching fam chan).
Proof.
  intros Hf. assert (∀ k, (k ≤ n)%nat → ∃ w, stormed fam n k w) as H.
  { induction k as [|k IH]; intros Hk; [by apply storm_start|]. destruct IH as [w Hw]; [lia|]. by apply (storm_step fam n k w); [lia|]. }
  destruct (H n (le_n n)) as [w [R _ _ _ _ E _]]. by exists w.
Qed.

Lemma failed_fetch_storm_witness : "fam" ≠ "" ∧
  ∃ w, rtc world_step idle_world w ∧ ∀ i, (1 ≤ i ≤ 100)%nat → ∃ chan, callers w !! i = Some (Fetching "fam" chan).
Proof. split; [done|]. apply (failed_fetch_storm "fam" 100). done. Defined.

(** Two callers of one family, the second waiting for the first. *)
Definition two_callers : world :=
  World (registered newFamilyConfigCache "fam" 0)
    (<[1%nat := Waiting "fam" 0]> (<[1%nat := Missed "fam"]> (<[0%nat := Fetching "fam" 0]> (<[0%nat := Missed "fam"]> ∅)))) [].

Lemma two_callers_reachable : rtc world_step idle_world two_callers.
Proof.
  eapply rtc_l; [apply (w_miss idle_world 0 "fam" 0%Z); done|].
  eapply rtc_l; [apply (w_fetch (World _ _ _) 0 "fam" 0); [done|done|]|].
  { repeat split; simpl; try done; intros H; apply lookup_insert_Some in H as [[_ H]|[_ H]]; done. }
  eapply rtc_l; [apply (w_miss (World _ _ _) 1 "fam" 0%Z); done|].
  apply rtc_once. by apply (w_wait (World _ _ _) 1 "fam" 0).
Qed.

Lemma waiter_woken_witness : callers two_callers !! 1%nat = Some (Waiting "fam" 0) ∧
  ∃ w', rtc world_step two_callers w' ∧ callers w' !! 1%nat = Some (Woken "fam").
Proof. split; [reflexivity|]. apply (waiter_woken two_callers 1 "fam" 0 two_callers_reachable). reflexivity. Defined.

Definition one_config : FamilyConfig := MkFamilyConfig "fam" "key" 51820 [] [].

(** One caller has fetched a configuration at instant 7. *)
Definition one_fetched : world :=
  World (finished (cache_set (registered newFamilyConfigCache "fam" 0) 7 "fam" one_config) "fam" 0)
    (<[0%nat := Returned "fam" (Ret one_config)]> (<[0%nat := Finishing "fam" 0 (Ret one_config)]>
      (<[0%nat := Fetching "fam" 0]> (<[0%nat := Missed "fam"]> ∅)))) [("fam", one_config, 7%Z)].

Lemma one_fetched_reachable : rtc world_step idle_world one_fetched.
Proof.
  eapply rtc_l; [apply (w_miss idle_world 0 "fam" 0%Z); done|].
  eapply rtc_l; [apply (w_fetch (World _ _ _) 0 "fam" 0); [done|done|]|].
  { repeat split; simpl; try done; intros H; apply lookup_insert_Some in H as [[_ H]|[_ H]]; done. }
  eapply rtc_l; [apply (w_fetched (World _ _ _) 0 "fam" 0 7%Z (Ret 200%Z) (Some (FamilyConfigResponse "fam" "key" 51820 [] []))); done|].
  apply rtc_once. by apply (w_finish (World _ _ _) 0 "fam" 0).
Qed.

Lemma cached_config_fresh_witness : cache_get (cache one_fetched) 8 "fam" = Some one_config ∧
  ∃ t, (("fam", one_config, t) ∈ fetched one_fetched) ∧ fc_PrivateKey one_config ≠ "" ∧ (time_sub 8 t ≤ familyConfigCacheTTL)%Z.
Proof.
  split; [vm_compute; reflexivity|]. apply (proj2 (cached_config_fresh one_fetched one_fetched_reachable)). vm_compute. reflexivity.
Defined.
