(* ===== verification/Nrd.v ===== *)
(** [internal/controlsync/nrdsync.go]: the ingest of newly registered domains
    into the cloud table, and the mirror of that table on the node. *)
From stdpp Require Import gmap sorting.
From S2P Require Import Prelude Blocklist Feeds GoString.

Local Open Scope string_scope.
Local Open Scope list_scope.

Definition NRDSourceTag : string := "cenk_nrd_30d".
Definition nrdBatchSize : nat := 5000.
Definition nrdMirrorPageSize : nat := Z.to_nat 50000.
Definition nrdHashKey : string := "blocklist_nrd_hash".

(** The buffer given to the scanner. *)
Definition nrd_buffer : nat := Z.to_nat 4096.

Section Line.
Context `{U : UnicodeTables}.

Definition forbidden : list ascii := [" "; "009"; "/"; "?"; ":"]%char.

(** [strings.ContainsAny(s, " \t/?:")] *)
Definition contains_any (cs : list ascii) (s : string) : bool := existsb (λ c, contains_byte c s) cs.

Definition normalizeNRDLine (line : string) : string :=
  let s := trim_space line in
  if String.eqb s "" || has_prefix s "#" then "" else
  let s := to_lower s in
  if contains_any forbidden s then "" else
  if bool_decide (253 < String.length s)%nat then "" else s.

(** What a feed body lists, in order: the lines the scanner gives before its
    error, normalised, those to skip left out. *)
Definition feed_lines (body : string) (read_err : option string) : list string * option string :=
  let '(ls, e) := scan_with nrd_buffer (split_byte "010" body) in
  (ls, match e with Some e => Some e | None => read_err end).

Definition usable (ls : list string) : list string :=
  List.filter (λ d, negb (String.eqb d "")) (map normalizeNRDLine ls).

Lemma normalizeNRDLine_shape l d :
  normalizeNRDLine l = d → d ≠ "" →
  (String.length d ≤ 253)%nat ∧ Forall (λ c, contains_byte c d = false) forbidden ∧ d = to_lower (trim_space l).
Proof.
  unfold normalizeNRDLine. destruct (_ || _); [by intros <-|].
  destruct (contains_any forbidden _) eqn:E; [by intros <-|]. case_bool_decide as Hl; [by intros <-|].
  intros <- _. split; [lia|]. split; [|done]. apply Forall_forall. intros c Hc.
  apply not_true_is_false. intros Ht. assert (contains_any forbidden (to_lower (trim_space l)) = true); [|congruence].
  apply existsb_exists. exists c. by rewrite <- list_elem_of_In.
Qed.
End Line.

(** ** The cloud

    The table is on the server: [upsert] and [prune] are what it does with the
    two requests, and [applied] says whether it did so, which the client only
    knows from a success status. *)
Record nrd_row := NrdRow { r_Domain : string; r_Source : string; r_FirstSeenAt : time; r_LastSeenAt : time }.

Record answered := Answered { applied : bool; client : go Z }.

Record nrdRunResult := RunResult { fetched : nat; upserted : nat; pruned : nat; finished_scan : bool }.

Section Ingest.
Context `{U : UnicodeTables}.
Context {T : Type}.
Variable upsert : T → list nrd_row → T.
Variable prune : T → time → T.

(** The answer to the [k]-th request, the number a prune reports, and whether
    the context is done after so many domains. *)
Record cloud := Cloud { reply : nat → answered; content_range : nat; cancelled : nat → bool }.

Variable c : cloud.

Definition accepted (r : go Z) : bool := match r with Ret status => bool_decide (status < 300)%Z | _ => false end.

Record ingest := Ingest { table : T; sent : nat; batch : list string; n_fetched : nat; n_upserted : nat }.

Definition nrd_rows (domains : list string) (runStartedAt : time) : list nrd_row :=
  map (λ d, NrdRow d NRDSourceTag runStartedAt runStartedAt) domains.

(** One request; [true] when the node takes it to have succeeded. *)
Definition nrdUpsertBatch (t : T) (k : nat) (domains : list string) (runStartedAt : time) : T * bool :=
  (if applied (reply c k) then upsert t (nrd_rows domains runStartedAt) else t, accepted (client (reply c k))).

Definition nrdPruneStale (t : T) (k : nat) (runStartedAt : time) : T * option nat :=
  (if applied (reply c k) then prune t runStartedAt else t,
   if accepted (client (reply c k)) then Some (content_range c) else None).

(** The scanner loop, over the lines of the body. *)
Fixpoint ingest_lines (runStartedAt : time) (ls : list string) (s : ingest) : ingest * option string :=
  match ls with
  | [] => (s, None)
  | l :: ls =>
      let domain := normalizeNRDLine l in
      if String.eqb domain "" then ingest_lines runStartedAt ls s else
      let b := batch s ++ [domain] in
      let f := S (n_fetched s) in
      if Nat.leb nrdBatchSize (length b) then
        let '(t, ok) := nrdUpsertBatch (table s) (sent s) b runStartedAt in
        if ok then
          let s := Ingest t (S (sent s)) [] f (n_upserted s + length b) in
          if cancelled c f then (s, Some "context") else ingest_lines runStartedAt ls s
        else (Ingest t (S (sent s)) b f (n_upserted s), Some "upsert at line")
      else
        let s := Ingest (table s) (sent s) b f (n_upserted s) in
        if cancelled c f then (s, Some "context") else ingest_lines runStartedAt ls s
  end.

(** [nrdRunInner]: [feed] is the response to the feed request. *)
Definition nrdRunInner (t : T) (feed : go (Z * string * option string)) (runStartedAt : time) :
    T * nrdRunResult * option string :=
  match feed with
  | Ret (status, body, read_err) =>
      if negb (Z.eqb status 200) then (t, RunResult 0 0 0 false, Some "fetch HTTP") else
      let '(ls, scan_err) := feed_lines body read_err in
      let '(s, err) := ingest_lines runStartedAt ls (Ingest t 1 [] 0 0) in
      let res := RunResult (n_fetched s) (n_upserted s) 0 false in
      match err with
      | Some e => (table s, res, Some e)
      | None =>
          match scan_err with
          | Some e => (table s, res, Some e)
          | None =>
              let '(t, k, ok, up) :=
                if bool_decide (0 < length (batch s))%nat then
                  let '(t, ok) := nrdUpsertBatch (table s) (sent s) (batch s) runStartedAt in
                  (t, S (sent s), ok, n_upserted s + length (batch s))
                else (table s, sent s, true, n_upserted s) in
              if negb ok then (t, res, Some "upsert final") else
              let '(t, n) := nrdPruneStale t k runStartedAt in
              match n with
              | None => (t, RunResult (n_fetched s) up 0 true, Some "prune")
              | Some n => (t, RunResult (n_fetched s) up n true, None)
              end
          end
      end
  | _ => (t, RunResult 0 0 0 false, Some "fetch")
  end.

(** The audit row of a run. *)
Inductive audit := Running | Finished (r : nrdRunResult) (error_message : option string).

(** [ingestNRDOnce]: the first request opens the audit row, the last one, sent
    whatever happened between, closes it; a failure to close is only logged. *)
Definition ingestNRDOnce (t : T) (runs : go (list string)) (feed : go (Z * string * option string)) (runStartedAt : time)
    (finalize : answered) : T * option audit * option string :=
  let opened := if applied (reply c 0) then Some Running else None in
  if negb (accepted (client (reply c 0))) then (t, opened, Some "start run") else
  match runs with
  | Ret (runID :: _) =>
      let '(t, res, err) := nrdRunInner t feed runStartedAt in
      (t, if applied finalize then Some (Finished res err) else opened, err)
  | Ret [] => (t, opened, Some "start run: no row returned")
  | _ => (t, opened, Some "start run: decode run id")
  end.

(** ** What the requests do, as documented by PostgREST

    An upsert that merges duplicates overwrites every column it is given; a
    delete with [last_seen_at=lt.t] removes the rows older than [t]; a success
    status means that the statement was applied. [seen] is the table's content:
    the first and last time stamps of each domain. *)
Variable seen : T → gmap string (time * time).
Hypothesis upsert_law : ∀ t rows d, seen (upsert t rows) !! d =
  match List.find (λ r, String.eqb (r_Domain r) d) rows with
  | Some r => Some (r_FirstSeenAt r, r_LastSeenAt r)
  | None => seen t !! d
  end.
Hypothesis prune_law : ∀ t ts, seen (prune t ts) = filter (λ kv : string * (time * time), (ts ≤ kv.2.2)%Z) (seen t).
Hypothesis honest : ∀ k, accepted (client (reply c k)) = true → applied (reply c k) = true.

(** [m'] is [m] with some domains of [D] stamped [start]. *)
Definition stamped (start : time) (D : list string) (m m' : gmap string (time * time)) : Prop :=
  ∀ d, m' !! d = m !! d ∨ ((d ∈ D) ∧ m' !! d = Some (start, start)).

Lemma stamped_refl start D m : stamped start D m m.
Proof. intros d. by left. Qed.

Lemma stamped_trans start D E m1 m2 m3 :
  stamped start D m1 m2 → stamped start E m2 m3 → stamped start (D ++ E) m1 m3.
Proof.
  intros H1 H2 d. destruct (H2 d) as [->|[Hin ->]]; [|right; split; [apply elem_of_app; by right|done]].
  destruct (H1 d) as [->|[Hin ->]]; [by left|right; split; [apply elem_of_app; by left|done]].
Qed.

Lemma stamped_weaken start D E m m' : (∀ d, d ∈ D → d ∈ E) → stamped start D m m' → stamped start E m m'.
Proof. intros Hs H d. destruct (H d) as [?|[? ?]]; [by left|right; auto]. Qed.

Lemma stamped_stays start D m m' d : stamped start D m m' → m !! d = Some (start, start) → m' !! d = Some (start, start).
Proof. intros H Hd. by destruct (H d) as [->|[_ ->]]. Qed.

Lemma find_nrd_rows start D d :
  List.find (λ r, String.eqb (r_Domain r) d) (nrd_rows D start) =
  if bool_decide (d ∈ D) then Some (NrdRow d NRDSourceTag start start) else None.
Proof.
  induction D as [|x D IH]; simpl; [done|]. destruct (String.eqb_spec x d) as [->|Hne].
  - rewrite bool_decide_true; [done|by left].
  - rewrite IH. apply (f_equal (λ b : bool, if b then _ else _)), bool_decide_ext. rewrite elem_of_cons. naive_solver.
Qed.

Lemma seen_upsert t start D d :
  seen (upsert t (nrd_rows D start)) !! d = if bool_decide (d ∈ D) then Some (start, start) else seen t !! d.
Proof. rewrite upsert_law, find_nrd_rows. by destruct (bool_decide _). Qed.

Lemma nrdUpsertBatch_spec t k D start t' ok :
  nrdUpsertBatch t k D start = (t', ok) →
  stamped start D (seen t) (seen t') ∧ (ok = true → ∀ d, d ∈ D → seen t' !! d = Some (start, start)).
Proof.
  unfold nrdUpsertBatch. intros [= <- <-]. split.
  - destruct (applied _); [|apply stamped_refl]. intros d. rewrite seen_upsert. case_bool_decide; auto.
  - intros H%honest d Hd. rewrite H, seen_upsert. by rewrite bool_decide_true.
Qed.

Lemma nrdPruneStale_spec t k start t2 n :
  nrdPruneStale t k start = (t2, n) → (t2 = t ∨ t2 = prune t start) ∧ (n ≠ None → t2 = prune t start).
Proof.
  unfold nrdPruneStale. destruct (accepted _) eqn:Ea; [rewrite (honest _ Ea)|destruct (applied _)]; intros [= <- <-]; split; by auto.
Qed.

Lemma usable_cons l ls :
  usable (l :: ls) = if String.eqb (normalizeNRDLine l) "" then usable ls else normalizeNRDLine l :: usable ls.
Proof. unfold usable. simpl. by destruct (String.eqb _ ""). Qed.

(** Every domain of a list is in the batch or in the table, stamped. *)
Definition held (start : time) (D : list string) (s : ingest) : Prop :=
  ∀ d, d ∈ D → (d ∈ batch s) ∨ seen (table s) !! d = Some (start, start).

Record ingested (start : time) (D : list string) (s s' : ingest) : Prop := {
  i_stamped : stamped start (batch s ++ D) (seen (table s)) (seen (table s'));
  i_held : held start (batch s ++ D) s';
  i_batch : ∀ d, d ∈ batch s' → d ∈ batch s ++ D;
  i_fetched : n_fetched s' = (n_fetched s + length D)%nat;
  i_upserted : (n_upserted s' + length (batch s') = n_upserted s + length (batch s) + length D)%nat;
}.

Lemma ingested_refl start s : ingested start [] s s.
Proof.
  split; rewrite ?app_nil_r; simpl; try lia; try done.
  - apply (stamped_weaken start []); [by intros ? ?%elem_of_nil|apply stamped_refl].
  - by left.
Qed.

Lemma ingested_trans start D E s1 s2 s3 :
  ingested start D s1 s2 → ingested start E s2 s3 → ingested start (D ++ E) s1 s3.
Proof.
  intros [A1 A2 A3 A4 A5] [B1 B2 B3 B4 B5]. split; rewrite ?length_app; try lia.
  - eapply (stamped_weaken start ((batch s1 ++ D) ++ (batch s2 ++ E))); [|by eapply stamped_trans].
    intros d. rewrite !elem_of_app. intros [H|[H|H]]; [naive_solver| |naive_solver]. apply A3, elem_of_app in H. naive_solver.
  - intros d Hd. rewrite app_assoc, elem_of_app in Hd. destruct Hd as [Hd|Hd].
    + destruct (A2 d Hd) as [H|H]; [apply B2, elem_of_app; by left|]. right. by eapply stamped_stays.
    + apply B2, elem_of_app. by right.
  - intros d Hd%B3%elem_of_app. rewrite app_assoc. apply elem_of_app. destruct Hd as [Hd|Hd]; [left; by apply A3|by right].
Qed.

(** A domain joins the batch. *)
Lemma ingested_batch start d s :
  ingested start [d] s (Ingest (table s) (sent s) (batch s ++ [d]) (S (n_fetched s)) (n_upserted s)).
Proof.
  split; simpl; rewrite ?length_app; simpl; try lia; try done.
  - apply (stamped_weaken start []); [by intros ? ?%elem_of_nil|apply stamped_refl].
  - by left.
Qed.

(** The batch is written. *)
Lemma ingested_upsert start s t k :
  nrdUpsertBatch (table s) k (batch s) start = (t, true) →
  ingested start [] s (Ingest t (S k) [] (n_fetched s) (n_upserted s + length (batch s))).
Proof.
  intros [H1 H2]%nrdUpsertBatch_spec. split; rewrite ?app_nil_r; simpl; try lia; try done.
  - intros d Hd. right. by apply H2.
  - by intros d ?%elem_of_nil.
Qed.

Lemma ingest_lines_spec start ls : ∀ s s' err, ingest_lines start ls s = (s', err) →
  stamped start (batch s ++ usable ls) (seen (table s)) (seen (table s')) ∧
  (err = None → ingested start (usable ls) s s').
Proof.
  induction ls as [|l ls IH]; intros s s' err; cbn [ingest_lines]; cbv zeta.
  { intros [= <- <-]. pose proof (ingested_refl start s) as H. split; [apply H|intros _; exact H]. }
  rewrite usable_cons. destruct (String.eqb _ "") eqn:El; [apply IH|]. set (d := normalizeNRDLine l).
  pose proof (ingested_batch start d s) as Hb. set (s1 := Ingest (table s) (sent s) (batch s ++ [d]) (S (n_fetched s)) (n_upserted s)) in Hb.
  assert (Hpre : ∀ m, stamped start (batch s ++ [d]) (seen (table s)) m → stamped start (batch s ++ d :: usable ls) (seen (table s)) m).
  { intros m. apply stamped_weaken. intros x. rewrite !elem_of_app, !elem_of_cons, elem_of_nil. naive_solver. }
  assert (Hstep : ∀ s2, ingested start [d] s s2 → ingest_lines start ls s2 = (s', err) →
    stamped start (batch s ++ d :: usable ls) (seen (table s)) (seen (table s')) ∧ (err = None → ingested start (d :: usable ls) s s')).
  { intros s2 H2 Hrun. apply IH in Hrun as [Hs Hi]. split.
    - eapply stamped_weaken; [|eapply stamped_trans; [apply H2|exact Hs]].
      intros x. pose proof (i_batch _ _ _ _ H2 x) as Hx. revert Hx.
      rewrite !elem_of_app, !elem_of_cons, elem_of_nil. tauto.
    - intros ->. apply (ingested_trans start [d] (usable ls) s s2 s' H2). by apply Hi. }
  destruct (Nat.leb _ _).
  - destruct (nrdUpsertBatch (table s) (sent s) (batch s ++ [d]) start) as [t ok] eqn:Eu.
    destruct ok.
    + assert (H2 : ingested start [d] s (Ingest t (S (sent s)) [] (S (n_fetched s)) (n_upserted s + length (batch s ++ [d])))).
      { apply (ingested_trans start [d] [] s s1); [exact Hb|]. by apply (ingested_upsert start s1 t (sent s)). }
      cbv zeta. destruct (cancelled c _); [intros [= <- <-]; split; [apply Hpre, H2|done]|]. by apply Hstep.
    + intros [= <- <-]. split; [|done]. apply Hpre. by apply nrdUpsertBatch_spec in Eu as [? _].
  - cbv zeta. destruct (cancelled c _); [intros [= <- <-]; split; [apply Hpre, Hb|done]|]. by apply Hstep.
Qed.

(** ** What a run does to the table *)

Definition feed_of (body : string) (read_err : option string) : list string := usable (fst (feed_lines body read_err)).

(** A run that ends before its prune only stamps domains of the feed; one that
    reaches it has stamped them all. *)
Lemma nrdRunInner_spec t status body read_err start t' res err :
  nrdRunInner t (Ret (status, body, read_err)) start = (t', res, err) →
  let D := feed_of body read_err in
  if finished_scan res then
    ∃ m, stamped start D (seen t) (seen m) ∧ held start D (Ingest m 0 [] 0 0) ∧
      (t' = m ∨ t' = prune m start) ∧ (err = None → t' = prune m start) ∧
      fetched res = length D ∧ upserted res = length D
  else stamped start D (seen t) (seen t') ∧ err ≠ None.
Proof.
  unfold nrdRunInner, feed_of. destruct (negb _).
  { intros [= <- <- <-]. split; [|done]. apply (stamped_weaken start []); [by intros ? ?%elem_of_nil|apply stamped_refl]. }
  destruct (feed_lines body read_err) as [ls scan_err]. cbn [fst].
  destruct (ingest_lines start ls _) as [s e] eqn:Es. apply ingest_lines_spec in Es as [H1 H2]. simpl in H1.
  destruct e as [e|]; [by intros [= <- <- <-]|]. destruct scan_err as [e|]; [by intros [= <- <- <-]|].
  specialize (H2 eq_refl). destruct H2 as [_ I2 I3 I4 I5]. cbn [batch n_fetched n_upserted sent table app length Nat.add] in *.
  destruct (nrdUpsertBatch (table s) (sent s) (batch s) start) as [m ok] eqn:Eu.
  case_bool_decide as Hb.
  - destruct ok; cbn [negb].
    + apply nrdUpsertBatch_spec in Eu as [U1 U2].
      destruct (nrdPruneStale m (S (sent s)) start) as [t2 n] eqn:Ep.
      assert (Hm : ∃ m, stamped start (usable ls) (seen t) (seen m) ∧ held start (usable ls) (Ingest m 0 [] 0 0) ∧
        (t2 = m ∨ t2 = prune m start) ∧ (n ≠ None → t2 = prune m start)).
      { exists m. split; [|split; [|by eapply nrdPruneStale_spec]].
        - eapply stamped_weaken; [|eapply stamped_trans; [exact H1|exact U1]]. intros x [?|?]%elem_of_app; [done|by apply I3].
        - intros d Hd. right. destruct (I2 d Hd) as [H|H]; [by apply U2|by eapply stamped_stays]. }
      destruct Hm as (m' & M1 & M2 & M3 & M4).
      destruct n; intros [= <- <- <-]; simpl; exists m'; repeat split; auto; try lia; intros; apply M4; done.
    + intros [= <- <- <-]. simpl. split; [|done].
      apply nrdUpsertBatch_spec in Eu as [U1 _].
      eapply stamped_weaken; [|eapply stamped_trans; [exact H1|exact U1]]. intros x [?|?]%elem_of_app; [done|by apply I3].
  - cbn [negb]. destruct (nrdPruneStale (table s) (sent s) start) as [t2 n] eqn:Ep.
    assert (Hnil : batch s = []) by (destruct (batch s); [done|simpl in Hb; lia]). rewrite Hnil in *. simpl in *.
    assert (Hm : held start (usable ls) (Ingest (table s) 0 [] 0 0) ∧ (t2 = table s ∨ t2 = prune (table s) start) ∧
      (n ≠ None → t2 = prune (table s) start)).
    { split; [|by eapply nrdPruneStale_spec].
      intros d Hd. destruct (I2 d Hd) as [H|H]; [by rewrite Hnil in H; apply elem_of_nil in H|by right]. }
    destruct Hm as (M2 & M3 & M4).
    destruct n; intros [= <- <- <-]; simpl; exists (table s); repeat split; auto; try lia; intros; apply M4; done.
Qed.

(** C29. A run that reports success leaves the cloud table exactly as the feed
    says: every domain of the feed is there, first and last seen at this run
    (also one known before, whose first sighting is overwritten), and of the
    others only those stamped at or after its start; fetched and upserted are
    both the number of usable lines of the feed. *)
Theorem nrd_ingest_exact t status body read_err start t' res :
  nrdRunInner t (Ret (status, body, read_err)) start = (t', res, None) →
  let D := feed_of body read_err in
  fetched res = length D ∧ upserted res = length D ∧
  ∀ d, seen t' !! d =
    if bool_decide (d ∈ D) then Some (start, start)
    else match seen t !! d with Some (f, l) => if bool_decide (start ≤ l)%Z then Some (f, l) else None | None => None end.
Proof.
  intros H. apply nrdRunInner_spec in H. cbv zeta in *. set (D := feed_of body read_err) in *.
  destruct (finished_scan res); [|by destruct H].
  destruct H as (m & Hs & Hh & _ & Ht & -> & ->). rewrite (Ht eq_refl). split; [done|]. split; [done|].
  intros d. rewrite prune_law, map_lookup_filter. case_bool_decide as Hd.
  - destruct (Hh d Hd) as [H|H]; [by apply elem_of_nil in H|]. simpl in H. rewrite H. simpl. by rewrite option_guard_True by (simpl; lia).
  - destruct (Hs d) as [->|[? _]]; [|done]. destruct (seen t !! d) as [[f l]|]; [|done]. simpl.
    case_bool_decide as Hl; [by rewrite option_guard_True|by rewrite option_guard_False].
Qed.

(** Whatever fails during a run, it drops a domain from the cloud table only
    when every domain of the feed is in the table and the domain is not one of
    them. *)
Theorem nrd_drops_only_stale t status body read_err start t' res err d :
  nrdRunInner t (Ret (status, body, read_err)) start = (t', res, err) →
  is_Some (seen t !! d) → seen t' !! d = None →
  let D := feed_of body read_err in
  (d ∉ D) ∧ ∀ d', d' ∈ D → seen t' !! d' = Some (start, start).
Proof.
  intros H Hd Hn. apply nrdRunInner_spec in H. cbv zeta in *. set (D := feed_of body read_err) in *.
  destruct (finished_scan res).
  - destruct H as (m & Hs & Hh & Hor & _). assert (Hm : ∀ x, x ∈ D → seen t' !! x = Some (start, start)).
    { intros x Hx. destruct (Hh x Hx) as [H|H]; [by apply elem_of_nil in H|]. simpl in H. destruct Hor as [-> | ->]; [done|].
      rewrite prune_law, map_lookup_filter, H. simpl. by rewrite option_guard_True by (simpl; lia). }
    split; [|exact Hm]. intros Hin. by rewrite Hm in Hn.
  - destruct H as [Hs _]. destruct (Hs d) as [E|[_ E]]; rewrite Hn in E; [rewrite <- E in Hd; by destruct Hd|done].
Qed.
End Ingest.

(** ** The mirror on the node *)

Record mirror := Mirror { nrd_blocklist : gset string; nrd_config : gmap string string }.

Section Sync.
Context `{U : UnicodeTables}.
Variable sha256_hex : string → string.

(** [page k from] is the result of the [k]-th request, for the range that
    starts at [from]: the status and the decoded rows. *)
Fixpoint fetchAllNRDDomains (page : nat → nat → go (Z * go (list string))) (fuel k offset : nat) (out : list string) :
    go (list string) :=
  match fuel with
  | O => Loop
  | S fuel =>
      match page k offset with
      | Ret (status, body) =>
          if Z.eqb status 416 then Ret out else
          if negb (Z.eqb status 200 || Z.eqb status 206) then Err "page HTTP" else
          match body with
          | Ret rows =>
              let out := out ++ rows in
              if bool_decide (length rows = 0%nat) then Ret out
              else fetchAllNRDDomains page fuel (S k) (offset + length rows) out
          | _ => Err "decode page"
          end
      | _ => Err "fetch page"
      end
  end.

Definition nrd_hash (domains : list string) : string :=
  sha256_hex (String.concat "" (map (λ d, d +:+ String "010" "") domains)).

(** The insertions of the transaction. *)
Fixpoint insert_domains (ok : nat → bool) (n : nat) (t : gset string) (domains : list string) : option (nat * gset string) :=
  match domains with
  | [] => Some (n, t)
  | d :: domains => if ok n then insert_domains ok (S n) ({[d]} ∪ t) domains else None
  end.

(** [syncNRDBlocklist], given what [fetchAllNRDDomains] returned; [ok n]: the
    [n]-th statement succeeds; [read_ok]: so does the query for the last hash. *)
Definition syncNRDBlocklist (ok : nat → bool) (read_ok : bool) (db : mirror) (got : go (list string)) : mirror * go bool :=
  match got with
  | Ret domains =>
      let domains := sort_strings domains in
      let newHash := nrd_hash domains in
      let lastHash := if read_ok then default "" (nrd_config db !! nrdHashKey) else "" in
      if String.eqb lastHash newHash then (db, Ret false) else
      if negb (ok 0) then (db, Err "begin") else
      if negb (ok 1) then (db, Err "clear nrd_blocklist") else
      if negb (ok 2) then (db, Err "prepare") else
      match insert_domains ok 3 ∅ domains with
      | None => (db, Err "insert")
      | Some (n, t) =>
          if negb (ok n) then (db, Err "hash write") else
          if negb (ok (S n)) then (db, Err "commit") else
          (Mirror t (<[nrdHashKey := newHash]> (nrd_config db)), Ret true)
      end
  | _ => (db, Err "fetch from supabase")
  end.

(** A server that holds the list [all] and answers each range with a non-empty
    piece of it from the offset on, of whatever length it likes. *)
Definition serves (page : nat → nat → go (Z * go (list string))) (all : list string) : Prop := ∀ k o,
  if bool_decide (o < length all)%nat
  then ∃ status n, (status = 200 ∨ status = 206)%Z ∧ (0 < n)%nat ∧ page k o = Ret (status, Ret (take n (drop o all)))
  else (∃ body, page k o = Ret (416%Z, body)) ∨ page k o = Ret (200%Z, Ret []).

Lemma fetch_all_pages page all : serves page all → ∀ fuel k o,
  (o ≤ length all)%nat → (length all - o < fuel)%nat →
  fetchAllNRDDomains page fuel k o (take o all) = Ret all.
Proof.
  intros Hs. induction fuel as [|fuel IH]; intros k o Ho Hf; [lia|]. simpl.
  specialize (Hs k o) as Hp. case_bool_decide as Hlt.
  - destruct Hp as (status & n & Hst & Hn & ->).
    assert ((status =? 416)%Z = false) as -> by (destruct Hst as [-> | ->]; done).
    assert (negb ((status =? 200) || (status =? 206))%Z = false) as -> by (destruct Hst as [-> | ->]; done).
    rewrite take_take_drop, length_take, length_drop. rewrite bool_decide_false by lia.
    replace (take (o + n) all) with (take (o + n `min` (length all - o)) all); [apply IH; lia|].
    destruct (decide (n ≤ length all - o)%nat) as [H|H]; [by rewrite Nat.min_l|].
    rewrite Nat.min_r by lia. by rewrite !take_ge by lia.
  - rewrite take_ge by lia. destruct Hp as [[body ->] | ->]; [done|]. simpl. by rewrite app_nil_r.
Qed.

Lemma insert_domains_spec (ok : nat → bool) domains : ∀ n t,
  if forallb ok (seq n (length domains))
  then insert_domains ok n t domains = Some (n + length domains, list_to_set domains ∪ t)%nat
  else insert_domains ok n t domains = None.
Proof.
  induction domains as [|d domains IH]; intros n t; simpl; [f_equal; f_equal; [lia|set_solver]|].
  destruct (ok n); simpl; [|done]. specialize (IH (S n) ({[d]} ∪ t)). destruct (forallb _ _); [|done].
  rewrite IH. f_equal. f_equal; [lia|set_solver].
Qed.

(** A synchronisation that fails, or finds the hash unchanged, changes
    nothing. *)
Lemma sync_atomic ok read_ok db got db' r :
  syncNRDBlocklist ok read_ok db got = (db', r) → r ≠ Ret true → db' = db.
Proof.
  unfold syncNRDBlocklist. destruct got; [|by intros [= <- <-]..]. destruct (String.eqb _ _); [by intros [= <- <-]|].
  do 3 (destruct (negb _); [by intros [= <- <-]|]). destruct (insert_domains _ _ _ _) as [[n t]|]; [|by intros [= <- <-]].
  do 2 (destruct (negb _); [by intros [= <- <-]|]). intros [= <- <-]. done.
Qed.

Lemma sync_outcome (ok : nat → bool) (read_ok : bool) db all :
  (if read_ok then default "" (nrd_config db !! nrdHashKey) else "") ≠ nrd_hash (sort_strings all) →
  if forallb ok (seq 0 (length all + 5))
  then syncNRDBlocklist ok read_ok db (Ret all) =
    (Mirror (list_to_set all) (<[nrdHashKey := nrd_hash (sort_strings all)]> (nrd_config db)), Ret true)
  else ∃ e, syncNRDBlocklist ok read_ok db (Ret all) = (db, Err e).
Proof.
  intros Hh. unfold syncNRDBlocklist. cbv zeta. destruct (String.eqb_spec (if read_ok then default "" (nrd_config db !! nrdHashKey) else "") (nrd_hash (sort_strings all))); [done|].
  assert (Hlen : length (sort_strings all) = length all) by (apply Permutation_length; unfold sort_strings; apply merge_sort_Permutation).
  pose proof (insert_domains_spec ok (sort_strings all) 3 ∅) as Hi. rewrite Hlen in Hi.
  assert (Hseq : forallb ok (seq 0 (length all + 5)) = ok 0 && ok 1 && ok 2 && forallb ok (seq 3 (length all)) && ok (3 + length all) && ok (4 + length all)).
  { replace (length all + 5)%nat with (3 + (length all + 2))%nat by lia. rewrite !seq_app, !forallb_app. simpl.
    by rewrite !andb_true_r, !andb_assoc. }
  rewrite Hseq. destruct (ok 0); [|by eexists]. destruct (ok 1); [|by eexists]. destruct (ok 2); [|by eexists]. cbn [negb andb].
  destruct (forallb ok (seq 3 (length all))); rewrite Hi; [|by eexists]. cbn [andb].
  change (S (3 + length all)) with (4 + length all)%nat.
  destruct (ok (3 + length all)%nat); [|by eexists]. destruct (ok (4 + length all)%nat); [|by eexists]. cbn [negb].
  f_equal. f_equal. rewrite (right_id_L ∅ (∪)). apply leibniz_equiv. intros x. rewrite !elem_of_list_to_set.
  unfold sort_strings. by rewrite merge_sort_Permutation.
Qed.

(** C30. From the cloud table to the DNS answer, whatever statements of the
    database fail. The pages are read to the end in at most one request per row
    and one more, whatever sizes the server gives them. If the hash of the list
    is the stored one, nothing is written. Otherwise, when every statement
    succeeds, the mirror is exactly the cloud's table, and the list reloaded from
    it blocks a name exactly when it or a parent of it is in that table, a bare
    top-level domain included; when one fails (the first on the table does, as
    long as nothing creates the table), the call reports it and the mirror is what
    it was. *)
Theorem nrd_mirror_exact (select : gset string → list string) page all db fuel (ok : nat → bool) (read_ok : bool) :
  (∀ t, select t ≡ₚ elements t) → serves page all → (length all < fuel)%nat →
  fetchAllNRDDomains page fuel 0 0 [] = Ret all ∧
  let '(db', r) := syncNRDBlocklist ok read_ok db (fetchAllNRDDomains page fuel 0 0 []) in
  let known := if read_ok then default "" (nrd_config db !! nrdHashKey) else "" in
  (known = nrd_hash (sort_strings all) → db' = db ∧ r = Ret false) ∧
  (known ≠ nrd_hash (sort_strings all) → forallb ok (seq 0 (length all + 5)) = true →
    r = Ret true ∧ nrd_blocklist db' = list_to_set all ∧
    ∀ current name, IsNRD (fst (nrd_reload current (Ret (map Some (select (nrd_blocklist db')))) None)) name = true ↔
      norm_domain name ≠ "" ∧ ∃ p, parent (norm_domain name) p ∧ p ∈ all) ∧
  (known ≠ nrd_hash (sort_strings all) → forallb ok (seq 0 (length all + 5)) = false → db' = db ∧ ∃ e, r = Err e).
Proof.
  intros Hsel Hs Hf.
  assert (E : fetchAllNRDDomains page fuel 0 0 [] = Ret all) by (change (@nil string) with (take 0 all); rewrite (fetch_all_pages page all Hs fuel 0 0) by lia; done).
  rewrite E. split; [done|]. destruct (syncNRDBlocklist ok read_ok db (Ret all)) as [db' r] eqn:Ed. cbv zeta.
  set (known := if read_ok then default "" (nrd_config db !! nrdHashKey) else ""). split; [|split].
  - intros Hk. unfold syncNRDBlocklist in Ed. cbv zeta in Ed. fold known in Ed. rewrite Hk, String.eqb_refl in Ed. by injection Ed as <- <-.
  - intros Hk Hok. pose proof (sync_outcome ok read_ok db all Hk) as Ho. rewrite Hok, Ed in Ho. injection Ho as -> ->. split; [done|]. split; [done|].
    intros current name. cbn [nrd_blocklist]. rewrite IsNRD_spec. unfold nrd_reload.
    assert (Hm : ∀ l : list string, mapM id (map Some l) = Some l) by (induction l as [|x l IH]; simpl; [done|]; by rewrite IH).
    rewrite Hm. simpl. setoid_rewrite elem_of_list_to_set. setoid_rewrite (Hsel (list_to_set all)).
    by setoid_rewrite elem_of_elements; setoid_rewrite elem_of_list_to_set.
  - intros Hk Hok. pose proof (sync_outcome ok read_ok db all Hk) as Ho. rewrite Hok, Ed in Ho. destruct Ho as [e [= -> ->]]. split; [done|by eexists].
Qed.
End Sync.

(** ** Concrete runs *)

#[local] Existing Instance ascii_tables.

(** A server whose table is the map itself. *)
Definition toy_upsert (t : gmap string (time * time)) (rows : list nrd_row) : gmap string (time * time) :=
  foldr (λ r t, <[r_Domain r := (r_FirstSeenAt r, r_LastSeenAt r)]> t) t rows.
Definition toy_prune (t : gmap string (time * time)) (ts : time) : gmap string (time * time) :=
  filter (λ kv : string * (time * time), (ts ≤ kv.2.2)%Z) t.

Lemma toy_upsert_law t rows d : toy_upsert t rows !! d =
  match List.find (λ r, String.eqb (r_Domain r) d) rows with
  | Some r => Some (r_FirstSeenAt r, r_LastSeenAt r)
  | None => t !! d
  end.
Proof.
  induction rows as [|r rows IH]; simpl; [done|]. destruct (String.eqb_spec (r_Domain r) d) as [->|Hne].
  - by rewrite lookup_insert_eq.
  - by rewrite lookup_insert_ne.
Qed.

Definition toy_cloud : cloud := Cloud (λ _, Answered true (Ret 201%Z)) 1 (λ _, false).

(** The prune does not reach the server. *)
Definition cut_cloud : cloud := Cloud (λ k, if (k =? 2)%nat then Answered false (Err "http") else Answered true (Ret 201%Z)) 1 (λ _, false).

Definition toy_seen : gmap string (time * time) := {["known.example" := (1, 5); "aged.example" := (2, 6)]}%Z.
Definition toy_body : string := "# new" +:+ String "010" ("Fresh.Example" +:+ String "010" ("known.example" +:+ String "010" "")).

Definition toy_run : gmap string (time * time) * nrdRunResult * option string :=
  nrdRunInner toy_upsert toy_prune toy_cloud toy_seen (Ret (200%Z, toy_body, None)) 9.

Lemma toy_run_ok : toy_run = (toy_run.1.1, toy_run.1.2, None).
Proof. assert (toy_run.2 = None) by (vm_compute; reflexivity). by destruct toy_run as [[? ?] ?]; simpl in *; subst. Qed.

Lemma nrd_ingest_exact_witness :
  fetched toy_run.1.2 = 2%nat ∧ toy_run.1.1 !! "fresh.example" = Some (9, 9)%Z ∧
  toy_run.1.1 !! "known.example" = Some (9, 9)%Z ∧ toy_run.1.1 !! "aged.example" = None.
Proof.
  destruct (nrd_ingest_exact toy_upsert toy_prune toy_cloud id toy_upsert_law (λ _ _, eq_refl) (λ _ _, eq_refl) _ _ _ _ _ _ _ toy_run_ok)
    as (Hf & _ & Ht).
  split; [exact Hf|]. split; [|split].
  - pose proof (Ht "fresh.example") as H. unfold id in H. rewrite H. vm_compute. reflexivity.
  - pose proof (Ht "known.example") as H. unfold id in H. rewrite H. vm_compute. reflexivity.
  - pose proof (Ht "aged.example") as H. unfold id in H. rewrite H. vm_compute. reflexivity.
Defined.

Lemma nrd_drops_only_stale_witness :
  toy_run.1.1 !! "aged.example" = None ∧ toy_run.1.1 !! "fresh.example" = Some (9, 9)%Z.
Proof.
  assert (Hd : toy_run.1.1 !! "aged.example" = None) by (vm_compute; reflexivity).
  split; [exact Hd|].
  apply (nrd_drops_only_stale toy_upsert toy_prune toy_cloud id toy_upsert_law (λ _ _, eq_refl) (λ _ _, eq_refl) _ _ _ _ _ _ _ _ "aged.example" toy_run_ok).
  - by eexists.
  - exact Hd.
  - vm_compute. left.
Defined.

(** A prune that never reaches the server: the run reports the error and the
    aged domain stays. *)
Example cut_prune_keeps :
  let '(t', res, err) := nrdRunInner toy_upsert toy_prune cut_cloud toy_seen (Ret (200%Z, toy_body, None)) 9 in
  err = Some "prune" ∧ t' !! "aged.example" = Some (2, 6)%Z.
Proof. by vm_compute. Qed.

(** Pages of two rows. *)
Definition toy_page (all : list string) (k o : nat) : go (Z * go (list string)) :=
  if bool_decide (o < length all)%nat then Ret (206%Z, Ret (take 2 (drop o all))) else Ret (416%Z, Err "not JSON").

Lemma toy_page_serves all : serves (toy_page all) all.
Proof.
  intros k o. unfold toy_page. case_bool_decide; [|left; by eexists].
  exists 206%Z, 2%nat. split; [by right|]. split; [lia|done].
Qed.

(** Two pages become the mirror, whose list then blocks a subdomain. *)
Lemma nrd_mirror_exact_witness :
  let all := ["c.example"; "a.example"; "b.example"] in
  let '(db', r) := syncNRDBlocklist id (λ _, true) true (Mirror ∅ ∅) (fetchAllNRDDomains (toy_page all) 4 0 0 []) in
  r = Ret true ∧ IsNRD (fst (nrd_reload ∅ (Ret (map Some (elements (nrd_blocklist db')))) None)) "login.a.example." = true.
Proof.
  intros all.
  pose proof (nrd_mirror_exact id elements (toy_page all) all (Mirror ∅ ∅) 4 (λ _, true) true (λ t, reflexivity _) (toy_page_serves all) ltac:(simpl; lia)) as [_ H].
  destruct (syncNRDBlocklist _ _ _ _ _) as [db' r]. destruct H as (_ & H & _).
  destruct H as (Hr & _ & Hn); [by vm_compute|reflexivity|]. split; [exact Hr|].
  apply Hn. split; [by vm_compute|]. exists "a.example".
  split; [|right; left]. apply (parent_up _ "a.example"); [by vm_compute|constructor].
Defined.
