(* ===== verification/Presence.v ===== *)
(** [internal/presence]: the devices seen in the ARP table, their names from
    the DHCP leases, and the registry kept in the [device_registry] table. *)
From stdpp Require Import gmap.
From S2P Require Import Prelude Net Policy GoString.

Local Open Scope string_scope.
Local Open Scope list_scope.

(** ** [net.ParseMAC] and [HardwareAddr.String] *)

Definition octet (a b : ascii) : option Z :=
  h ← hex_value a; l ← hex_value b; Some (16 * h + l)%Z.

(** Two digits, then the end of the text or the separator and more. *)
Fixpoint mac_pairs (sep : ascii) (s : string) : option (list Z) :=
  match s with
  | String a (String b r) =>
      v ← octet a b;
      match r with
      | EmptyString => Some [v]
      | String c r => if Ascii.eqb c sep then vs ← mac_pairs sep r; Some (v :: vs) else None
      end
  | _ => None
  end.

(** The same in groups of four digits. *)
Fixpoint mac_quads (s : string) : option (list Z) :=
  match s with
  | String a (String b (String c (String d r))) =>
      v ← octet a b; w ← octet c d;
      match r with
      | EmptyString => Some [v; w]
      | String e r => if Ascii.eqb e "." then vs ← mac_quads r; Some (v :: w :: vs) else None
      end
  | _ => None
  end.

Definition mac_length (n : nat) : bool := (Nat.eqb n 6 || Nat.eqb n 8 || Nat.eqb n 20)%bool.

Definition ParseMAC (s : string) : option (list Z) :=
  hw ← match String.get 2 s with
       | Some ":"%char => mac_pairs ":" s
       | Some "-"%char => mac_pairs "-" s
       | _ => if decide (String.get 4 s = Some "."%char) then mac_quads s else None
       end;
  if mac_length (length hw) then Some hw else None.

Definition hex_char (v : Z) : ascii := ascii_of_N (Z.to_N (if bool_decide (v < 10)%Z then 48 + v else 87 + v)).
Definition show_octet (v : Z) : string := String (hex_char (v / 16)) (String (hex_char (v mod 16)) "").
Definition show_mac (hw : list Z) : string := join ":" (map show_octet hw).

Example ParseMAC_ex : map ParseMAC ["AA:bb:0c:1D:2e:3F"; "aabb.0c1d.2e3f"; "aa-bb-0c-1d-2e-3f"; "aa:bb:0c:1d:2e"; "aa:bb:0c:1d:2e:3"; "02:00:5e:10:00:00:00:01"] =
  [Some [170; 187; 12; 29; 46; 63]; Some [170; 187; 12; 29; 46; 63]; Some [170; 187; 12; 29; 46; 63]; None; None;
   Some [2; 0; 94; 16; 0; 0; 0; 1]]%Z.
Proof. reflexivity. Qed.

Section Normalise.
Context `{U : UnicodeTables}.

Definition NormaliseMAC (raw : string) : string :=
  match ParseMAC raw with None => "" | Some hw => to_lower (show_mac hw) end.
End Normalise.

(** ** Parsing the ARP table and the leases *)

Record arpEntry := ArpEntry { IP : string; MAC : string }.

Definition scan_lines (text : string) : list string * option string := scan_with (Z.to_nat 65536) (split_byte "010" text).

Section Engine.
Context `{U : UnicodeTables}.

Definition arp_row (line : string) : option arpEntry :=
  match fields line with
  | ip :: _ :: _ :: hw :: _ =>
      let mac := NormaliseMAC hw in
      if String.eqb mac "" || String.eqb mac "00:00:00:00:00:00" then None else Some (ArpEntry ip mac)
  | _ => None
  end.

(** [file]: the text of [/proc/net/arp] and the error that ended its reading. *)
Definition readARP (file : go (string * option string)) : go (list arpEntry) :=
  match file with
  | Ret (text, read_err) =>
      let '(ls, e) := scan_lines text in
      match (match e with Some e => Some e | None => read_err end) with
      | Some e => Err ("scan /proc/net/arp: " +:+ e)
      | None => Ret (omap arp_row (tail ls))
      end
  | Err e => Err ("open /proc/net/arp: " +:+ e)
  | Panic => Panic
  | Loop => Loop
  end.

Definition leasePaths : list string :=
  ["/tmp/dhcp.leases"; "/var/lib/misc/dnsmasq.leases"; "/var/lib/dnsmasq/dnsmasq.leases"; "/var/db/dnsmasq.leases"].

Definition lease_row (line : string) : option (string * string) :=
  match fields line with
  | _ :: _ :: ip :: hostname :: _ =>
      if String.eqb hostname "*" || String.eqb hostname "" then None else Some (ip, hostname)
  | _ => None
  end.

(** The first path that opens; a later line for an address replaces an earlier
    one. *)
Definition readLeases (open : string → option string) : gmap string string :=
  match omap open leasePaths with
  | [] => ∅
  | text :: _ => fold_left (λ m kv, <[kv.1 := kv.2]> m) (omap lease_row (fst (scan_lines text))) ∅
  end.

End Engine.

(** ** The registry *)

(** A row of [device_registry]; the times are whole seconds, as RFC 3339 text
    holds them. *)
Record reg_row := RegRow { d_ip : string; d_hostname : string; d_first_seen : Z; d_last_seen : Z; d_enrolled : bool }.

Abbreviation registry := (gmap string reg_row).

Section Registry.
Context `{U : UnicodeTables}.

Definition seconds (t : time) : Z := (t / second)%Z.

(** [INSERT … ON CONFLICT(mac) DO UPDATE] *)
Definition upsert_row (r : registry) (mac ip hostname : string) (enrolled : bool) (now : Z) : registry :=
  <[mac := match r !! mac with
           | None => RegRow ip hostname now now enrolled
           | Some old => RegRow ip (if String.eqb hostname "" then d_hostname old else hostname) (d_first_seen old) now enrolled
           end]> r.

(** [upsert]; [read_ok]: the query that follows succeeds (its error is
    discarded, and both of its results are then [""]). *)
Definition upsert (write_ok read_ok : bool) (r : registry) (mac ip hostname : string) (enrolled : bool) (now : time) :
    registry * go bool :=
  if negb write_ok then (r, Err "upsert device_registry") else
  let r := upsert_row r mac ip hostname enrolled (seconds now) in
  (r, Ret (if read_ok then match r !! mac with Some d => bool_decide (d_first_seen d = d_last_seen d) | None => true end else true)).

(** The payload of a [presence.device_seen] event. *)
Record seen_event := DeviceSeen { s_mac : string; s_ip : string; s_hostname : string }.

Definition hostname_of (hosts : gmap string string) (ip : string) : string := default "" (hosts !! ip).

(** The loop of [scan]; [ok i] tells whether the write and the read for the
    [i]-th entry succeed. *)
Fixpoint scan_entries (ok : nat → bool * bool) (i : nat) (hosts : gmap string string) (enrolled : gset string) (now : time)
    (es : list arpEntry) (r : registry) : registry * list seen_event :=
  match es with
  | [] => (r, [])
  | e :: es =>
      let hostname := hostname_of hosts (IP e) in
      let '(r, isNew) := upsert (ok i).1 (ok i).2 r (MAC e) (IP e) hostname (bool_decide (MAC e ∈ enrolled)) now in
      let '(r, evs) := scan_entries ok (S i) hosts enrolled now es r in
      (r, match isNew with Ret true => DeviceSeen (MAC e) (IP e) hostname :: evs | _ => evs end)
  end.

Definition scan (ok : nat → bool * bool) (arp : go (string * option string)) (open : string → option string)
    (enrolled : gset string) (now : time) (r : registry) : registry * list seen_event :=
  match readARP arp with
  | Ret es => scan_entries ok 0 (readLeases open) enrolled now es r
  | _ => (r, [])
  end.

(** The rows as the two queries read them: by [last_seen], newest first; the
    order of equal ones is the database's. *)
Variable newest_first : registry → list (string * reg_row).

Definition Devices (r : registry) : list (string * reg_row) := newest_first r.

Definition MACForIP (r : registry) (ip : string) : option string :=
  match List.find (λ d, String.eqb (d_ip d.2) ip) (newest_first r) with
  | Some (mac, _) => if String.eqb mac "" then None else Some mac
  | None => None
  end.
End Registry.

(** ** Normal forms of addresses *)

Definition octets (hw : list Z) : Prop := Forall (λ v, (0 ≤ v < 256)%Z) hw.

Lemma octet_range a b v : octet a b = Some v → (0 ≤ v < 256)%Z.
Proof.
  unfold octet. destruct (hex_value a) as [h|] eqn:Ea; [|done]. destruct (hex_value b) as [l|] eqn:Eb; [|done].
  intros [= <-]. apply hex_value_range in Ea, Eb. lia.
Qed.

Lemma nibble_cases v (P : Z → Prop) : (0 ≤ v < 16)%Z → Forall P (map Z.of_nat (seq 0 16)) → P v.
Proof.
  intros Hv H. rewrite Forall_forall in H. apply H. apply list_elem_of_fmap.
  exists (Z.to_nat v). split; [lia|]. apply elem_of_seq. lia.
Qed.

(** A digit that [String] prints is read back and is not affected by
    [ToLower]. *)
Lemma hex_char_value v : (0 ≤ v < 16)%Z →
  hex_value (hex_char v) = Some v ∧ ascii_byte (hex_char v) = true ∧ lower_ascii (hex_char v) = hex_char v.
Proof.
  intros Hv. apply (nibble_cases v (λ v, hex_value (hex_char v) = Some v ∧ ascii_byte (hex_char v) = true ∧
    lower_ascii (hex_char v) = hex_char v) Hv). repeat constructor.
Qed.

Lemma octet_show v : (0 ≤ v < 256)%Z → octet (hex_char (v / 16)) (hex_char (v mod 16)) = Some v.
Proof.
  intros Hv. assert (H1 : (0 ≤ v / 16 < 16)%Z) by (split; [apply Z.div_pos; lia|apply Z.div_lt_upper_bound; lia]).
  assert (H2 : (0 ≤ v mod 16 < 16)%Z) by (apply Z.mod_pos_bound; lia).
  unfold octet. rewrite (proj1 (hex_char_value _ H1)), (proj1 (hex_char_value _ H2)). simpl. f_equal.
  pose proof (Z.div_mod v 16). lia.
Qed.

Lemma show_mac_cons v w hw : show_mac (v :: w :: hw) = show_octet v +:+ String ":" (show_mac (w :: hw)).
Proof. reflexivity. Qed.

Lemma mac_pairs_show hw : octets hw → hw ≠ [] → mac_pairs ":" (show_mac hw) = Some hw.
Proof.
  induction 1 as [|v hw Hv Hhw IH]; [done|]. intros _. destruct hw as [|w hw].
  - unfold show_mac, show_octet. cbn [map join mac_pairs]. by rewrite octet_show.
  - rewrite show_mac_cons. unfold show_octet. cbn [String.append mac_pairs]. rewrite octet_show by done. cbn [mbind option_bind]. rewrite Ascii.eqb_refl.
    by rewrite IH.
Qed.

Lemma mac_pairs_octets sep : ∀ n s hw, (String.length s < n)%nat → mac_pairs sep s = Some hw → octets hw.
Proof.
  induction n as [|n IH]; intros s hw Hn; [lia|]. destruct s as [|a [|b r]]; simpl; [done..|].
  destruct (octet a b) as [v|] eqn:Ev; [|done]. apply octet_range in Ev. simpl. destruct r as [|c r].
  - intros [= <-]. by constructor.
  - destruct (Ascii.eqb c sep); [|done]. destruct (mac_pairs sep r) as [vs|] eqn:E; [|done]. intros [= <-].
    constructor; [done|]. apply (IH r); [simpl in Hn; lia|done].
Qed.

Lemma mac_quads_octets : ∀ n s hw, (String.length s < n)%nat → mac_quads s = Some hw → octets hw.
Proof.
  induction n as [|n IH]; intros s hw Hn; [lia|]. destruct s as [|a [|b [|c [|d r]]]]; simpl; [done..|].
  destruct (octet a b) as [v|] eqn:Ev; [|done]. destruct (octet c d) as [w|] eqn:Ew; [|done].
  apply octet_range in Ev, Ew. simpl. destruct r as [|e r].
  - intros [= <-]. by apply Forall_cons; split; [|apply Forall_cons].

  - destruct (Ascii.eqb e "."); [|done]. destruct (mac_quads r) as [vs|] eqn:E; [|done]. intros [= <-].
    constructor; [done|]. constructor; [done|]. apply (IH r); [simpl in Hn; lia|done].
Qed.

Lemma ParseMAC_octets s hw : ParseMAC s = Some hw → octets hw ∧ mac_length (length hw) = true.
Proof.
  unfold ParseMAC. intros H.
  match type of H with (?m ≫= _) = _ => destruct m as [x|] eqn:E; [|done] end. simpl in H.
  destruct (mac_length (length x)) eqn:El; [|done]. injection H as <-. split; [|done].
  assert (E' : (∃ sep, mac_pairs sep s = Some x) ∨ mac_quads s = Some x).
  { destruct (String.get 2 s) as [[[] [] [] [] [] [] [] []]|]; try (left; eexists; exact E); right;
      destruct (decide (String.get 4 s = Some "."%char)); done. }
  destruct E' as [[sep E']|E']; [eapply mac_pairs_octets|eapply mac_quads_octets]; try exact E'; apply Nat.lt_succ_diag_r.
Qed.

Lemma ParseMAC_show hw : octets hw → mac_length (length hw) = true → ParseMAC (show_mac hw) = Some hw.
Proof.
  intros Ho Hl. unfold ParseMAC. destruct hw as [|v [|w hw]]; [done..|].
  replace (String.get 2 (show_mac (v :: w :: hw))) with (Some ":"%char) by reflexivity.
  rewrite mac_pairs_show by done. cbn [mbind option_bind]. by rewrite Hl.
Qed.

Section Canonical.
Context `{U : UnicodeTables}.

Lemma show_mac_lower hw : octets hw → is_lower (show_mac hw) = true.
Proof.
  assert (Hone : ∀ v t, (0 ≤ v < 256)%Z → is_lower t = true → is_lower (show_octet v +:+ t) = true).
  { intros v t Hv Ht. unfold show_octet. simpl. rewrite Ht.
    destruct (hex_char_value (v / 16)) as (_ & -> & ->); [split; [apply Z.div_pos; lia|apply Z.div_lt_upper_bound; lia]|].
    destruct (hex_char_value (v mod 16)) as (_ & -> & ->); [apply Z.mod_pos_bound; lia|]. by rewrite !Ascii.eqb_refl. }
  induction 1 as [|v hw Hv Hhw IH]; [done|]. destruct hw as [|w hw].
  - rewrite <- (append_nil_r (show_mac [v])). apply (Hone v ""); done.
  - rewrite show_mac_cons. apply Hone; [done|]. exact IH.
Qed.

(** The normal form of a MAC address spells the same address, whichever of
    the accepted notations it was given in, is in lower case, and is its own
    normal form. *)
Theorem NormaliseMAC_roundtrip raw hw : ParseMAC raw = Some hw →
  ParseMAC (NormaliseMAC raw) = Some hw ∧ is_lower (NormaliseMAC raw) = true ∧
  NormaliseMAC (NormaliseMAC raw) = NormaliseMAC raw.
Proof.
  intros H. pose proof (ParseMAC_octets _ _ H) as [Ho Hl].
  assert (E : NormaliseMAC raw = show_mac hw) by (unfold NormaliseMAC; rewrite H; apply is_lower_id; by apply show_mac_lower).
  rewrite E, ParseMAC_show by done. split; [done|]. split; [by apply show_mac_lower|].
  unfold NormaliseMAC. rewrite ParseMAC_show by done. apply is_lower_id. by apply show_mac_lower.
Qed.
End Canonical.

(** ** What a scan does *)

Section Scan.
Context `{U : UnicodeTables}.
Variable hosts : gmap string string.
Variable enrolled : gset string.
Variable now : time.

Definition of_mac (mac : string) (es : list arpEntry) : list arpEntry := List.filter (λ e, String.eqb (MAC e) mac) es.
Definition name_of (e : arpEntry) : string := hostname_of hosts (IP e).
Definition fails_never : nat → bool * bool := λ _, (true, true).

(** The row of a device after a scan that saw it last as [e]. *)
Definition scanned_row (old : option reg_row) (seen : list arpEntry) (e : arpEntry) : reg_row :=
  RegRow (IP e)
    (default (default "" (d_hostname <$> old)) (last (List.filter (λ n, negb (String.eqb n "")) (map name_of seen))))
    (default (seconds now) (d_first_seen <$> old)) (seconds now) (bool_decide (MAC e ∈ enrolled)).

(** First seen in the second of the scan: the test for a new device. *)
Definition fresh_in (r : registry) (mac : string) : bool :=
  match r !! mac with None => true | Some d => bool_decide (d_first_seen d = seconds now) end.

Lemma scan_entries_cons ok i e es r :
  scan_entries ok i hosts enrolled now (e :: es) r =
  let '(r', isNew) := upsert (ok i).1 (ok i).2 r (MAC e) (IP e) (name_of e) (bool_decide (MAC e ∈ enrolled)) now in
  let '(r'', evs) := scan_entries ok (S i) hosts enrolled now es r' in
  (r'', match isNew with Ret true => DeviceSeen (MAC e) (IP e) (name_of e) :: evs | _ => evs end).
Proof. reflexivity. Qed.

Lemma upsert_row_lookup r mac ip h b t k :
  upsert_row r mac ip h b t !! k =
  if decide (mac = k) then
    Some (match r !! k with
          | None => RegRow ip h t t b
          | Some old => RegRow ip (if String.eqb h "" then d_hostname old else h) (d_first_seen old) t b
          end)
  else r !! k.
Proof.
  unfold upsert_row. destruct (decide (mac = k)) as [->|Hne]; [by rewrite lookup_insert_eq|by rewrite lookup_insert_ne].
Qed.

Lemma fresh_upsert r e b k :
  fresh_in (upsert_row r (MAC e) (IP e) (name_of e) b (seconds now)) k = fresh_in r k.
Proof.
  unfold fresh_in. rewrite upsert_row_lookup. destruct (decide _) as [E|]; [|done].
  destruct (r !! k) as [d|]; [done|]. by rewrite bool_decide_true.
Qed.

(** Whatever fails, a device keeps the time of its first sighting, and one that
    was not seen keeps its row. *)
Lemma scan_keeps ok : ∀ es i r mac d, r !! mac = Some d →
  ∃ d', (scan_entries ok i hosts enrolled now es r).1 !! mac = Some d' ∧ d_first_seen d' = d_first_seen d ∧
    (of_mac mac es = [] → d' = d).
Proof.
  induction es as [|e es IH]; intros i r mac d Hd; [simpl; eauto|]. rewrite scan_entries_cons. unfold upsert.
  destruct (ok i).1; cbn [negb].
  - destruct (IH (S i) (upsert_row r (MAC e) (IP e) (name_of e) (bool_decide (MAC e ∈ enrolled)) (seconds now)) mac
      (if decide (MAC e = mac) then RegRow (IP e) (if String.eqb (name_of e) "" then d_hostname d else name_of e) (d_first_seen d) (seconds now)
         (bool_decide (MAC e ∈ enrolled)) else d)) as (d' & H1 & H2 & H3).
    { rewrite upsert_row_lookup, Hd. by destruct (decide _). }
    destruct (scan_entries ok (S i) hosts enrolled now es _) as [r' evs]. exists d'. split; [exact H1|].
    unfold of_mac in *. simpl. destruct (String.eqb_spec (MAC e) mac) as [E|E].
    + rewrite decide_True in * by done. by split.
    + rewrite decide_False in * by done. by split.
  - destruct (IH (S i) r mac d Hd) as (d' & H1 & H2 & H3). destruct (scan_entries ok (S i) hosts enrolled now es r) as [r' evs].
    exists d'. split; [exact H1|]. split; [exact H2|]. unfold of_mac in *. simpl. by destruct (String.eqb (MAC e) mac).
Qed.

Lemma scan_rows : ∀ es i r mac,
  (scan_entries fails_never i hosts enrolled now es r).1 !! mac =
  match last (of_mac mac es) with None => r !! mac | Some e => Some (scanned_row (r !! mac) (of_mac mac es) e) end.
Proof.
  induction es as [|e es IH]; intros i r mac; [done|]. rewrite scan_entries_cons. unfold upsert. cbn [negb fails_never fst snd].
  set (r1 := upsert_row r (MAC e) (IP e) (name_of e) (bool_decide (MAC e ∈ enrolled)) (seconds now)).
  specialize (IH (S i) r1 mac). destruct (scan_entries fails_never (S i) hosts enrolled now es r1) as [r' evs].
  cbn [fst] in *. rewrite IH. unfold r1. rewrite upsert_row_lookup. unfold of_mac. simpl.
  destruct (String.eqb_spec (MAC e) mac) as [E|E]; [rewrite decide_True by done|by rewrite decide_False by done].
  rewrite last_cons. fold (of_mac mac es). unfold scanned_row. cbn [map List.filter].
  destruct (last (of_mac mac es)) as [e'|] eqn:El.
  - f_equal. f_equal; [|by destruct (r !! mac)].
    destruct (String.eqb_spec (name_of e) "") as [En|En]; cbn [negb].
    + f_equal. destruct (r !! mac) as [old|]; simpl; [reflexivity|exact En].
    + rewrite last_cons. destruct (last (List.filter _ (map name_of (of_mac mac es)))) as [n|]; [reflexivity|]. simpl. destruct (r !! mac); reflexivity.
  - apply last_None in El. rewrite El. destruct (r !! mac) as [old|], (String.eqb_spec (name_of e) "") as [En|En]; simpl; rewrite ?En; reflexivity.
Qed.

Lemma scan_events : ∀ es i r,
  (scan_entries fails_never i hosts enrolled now es r).2 =
  map (λ e, DeviceSeen (MAC e) (IP e) (name_of e)) (List.filter (λ e, fresh_in r (MAC e)) es).
Proof.
  induction es as [|e es IH]; intros i r; [done|]. rewrite scan_entries_cons. unfold upsert. cbn [negb fails_never fst snd].
  set (r1 := upsert_row r (MAC e) (IP e) (name_of e) (bool_decide (MAC e ∈ enrolled)) (seconds now)).
  specialize (IH (S i) r1). destruct (scan_entries fails_never (S i) hosts enrolled now es r1) as [r' evs].
  cbn [snd] in *. rewrite IH. unfold r1 at 1. rewrite upsert_row_lookup, decide_True by done.
  assert (Hf : List.filter (λ e, fresh_in r1 (MAC e)) es = List.filter (λ e, fresh_in r (MAC e)) es)
    by (apply List.filter_ext; intros x; apply fresh_upsert).
  rewrite Hf. cbn [List.filter].
  assert (E : fresh_in r (MAC e) = match r !! MAC e with Some d => bool_decide (d_first_seen d = seconds now) | None => true end) by reflexivity.
  rewrite E. destruct (r !! MAC e) as [d|]; cbn [d_first_seen d_last_seen].
  - destruct (bool_decide (d_first_seen d = seconds now)); reflexivity.
  - rewrite bool_decide_true by done. reflexivity.
Qed.
End Scan.

Section Properties.
Context `{U : UnicodeTables}.

(** C31. A scan of a readable ARP table: whatever database calls fail, no device
    is lost, none changes its first sighting and one that was not seen keeps its
    row; when none fails, each device seen has the address of its last entry,
    the last name the leases give one of its addresses (or the one it had), this
    instant as last sighting and the enrolment of the set, and the events are
    those of the entries whose device was first seen in this very second. *)
Theorem scan_exact arp open enrolled now r es : readARP arp = Ret es →
  (∀ ok mac d, r !! mac = Some d →
    ∃ d', (scan ok arp open enrolled now r).1 !! mac = Some d' ∧ d_first_seen d' = d_first_seen d ∧ (of_mac mac es = [] → d' = d)) ∧
  (∀ mac, (scan fails_never arp open enrolled now r).1 !! mac =
    match last (of_mac mac es) with
    | None => r !! mac
    | Some e => Some (scanned_row (readLeases open) enrolled now (r !! mac) (of_mac mac es) e)
    end) ∧
  (scan fails_never arp open enrolled now r).2 =
    map (λ e, DeviceSeen (MAC e) (IP e) (hostname_of (readLeases open) (IP e))) (List.filter (λ e, fresh_in now r (MAC e)) es).
Proof.
  intros H. unfold scan. rewrite H. split; [|split].
  - intros ok mac d Hd. by apply scan_keeps.
  - intros mac. apply scan_rows.
  - apply scan_events.
Qed.

(** A device never seen before that has two addresses in the ARP table is
    announced as new once for each of them. *)
Theorem new_device_announced_per_address arp open enrolled now r l1 l2 l3 e1 e2 :
  readARP arp = Ret (l1 ++ e1 :: l2 ++ e2 :: l3) → MAC e2 = MAC e1 → r !! MAC e1 = None →
  (2 ≤ length (List.filter (λ ev, String.eqb (s_mac ev) (MAC e1)) (scan fails_never arp open enrolled now r).2))%nat.
Proof.
  intros H E Hn. unfold scan. rewrite H, scan_events.
  assert (Hf : ∀ e, MAC e = MAC e1 → fresh_in now r (MAC e) = true) by (intros e ->; unfold fresh_in; by rewrite Hn).
  rewrite !List.filter_app, map_app, List.filter_app. cbn [List.filter]. rewrite (Hf e1 eq_refl). cbn [map List.filter].
  rewrite !List.filter_app. cbn [List.filter]. rewrite (Hf e2 E), map_app. cbn [map].
  rewrite List.filter_app. cbn [List.filter s_mac]. rewrite E, String.eqb_refl, !length_app. simpl. rewrite length_app. simpl. lia.
Qed.

(** A device is enrolled by a bundle only when the bundle spells its address
    in normal form: a registry without enrolled devices stays so when no child's
    address is its own normal form, whatever the ARP table holds. *)
Theorem unnormalised_mac_never_enrolled {Json} (p : Runtime Json) b ok arp open now r :
  active p = Some b → (∀ c, c ∈ Children b → NormaliseMAC (DeviceMAC c) ≠ DeviceMAC c) →
  (∀ mac d, r !! mac = Some d → d_enrolled d = false) →
  ∀ mac d, (scan ok arp open (EnrolledMACs p) now r).1 !! mac = Some d → d_enrolled d = false.
Proof.
  intros Hb Hc. unfold scan. destruct (readARP arp) as [es| | |] eqn:E; [|by intros H; exact H..].
  assert (He : ∀ e, e ∈ es → bool_decide (MAC e ∈ EnrolledMACs p) = false).
  { intros e He. apply bool_decide_eq_false. unfold EnrolledMACs. rewrite Hb, elem_of_list_to_set, list_elem_of_In, filter_In.
    intros [[c [Hm Hin]]%in_map_iff _]. rewrite <- list_elem_of_In in Hin. apply (Hc c Hin). rewrite Hm.
    unfold readARP in E. destruct arp as [[text re]| | |]; [|done..]. destruct (scan_lines text) as [ls e'].
    destruct (match e' with Some e => Some e | None => re end); [done|]. injection E as <-.
    apply list_elem_of_omap in He as (l & _ & Hl). unfold arp_row in Hl.
    destruct (fields l) as [|ip [|x [|y [|hw rest]]]]; try done. destruct (_ || _) eqn:Eb; [done|]. injection Hl as <-. simpl.
    destruct (ParseMAC hw) as [v|] eqn:Ev.
    - by destruct (NormaliseMAC_roundtrip hw v Ev) as (_ & _ & ->).
    - unfold NormaliseMAC in Eb. by rewrite Ev in Eb. }
  clear E. generalize 0%nat. revert r He. induction es as [|e es IH]; intros r He i Hr mac d; [apply Hr|].
  rewrite scan_entries_cons. unfold upsert. destruct (ok i).1; cbn [negb].
  - set (r1 := upsert_row r _ _ _ _ _). specialize (IH r1 (λ x H, He x (list_elem_of_further _ _ _ H)) (S i)).
    destruct (scan_entries ok (S i) _ _ now es r1) as [r' evs]. cbn [fst] in *. apply IH.
    intros k dk. unfold r1. rewrite upsert_row_lookup. destruct (decide _) as [<-|]; [|apply Hr].
    intros [= <-]. destruct (r !! MAC e); simpl; apply He; left.
  - specialize (IH r (λ x H, He x (list_elem_of_further _ _ _ H)) (S i) Hr mac d).
    destruct (scan_entries ok (S i) _ _ now es r) as [r' evs]. exact IH.
Qed.
End Properties.

(** ** Concrete runs *)

#[local] Existing Instance ascii_tables.

Lemma NormaliseMAC_roundtrip_witness :
  ParseMAC "AABB.CCDD.EEFF" = Some [170; 187; 204; 221; 238; 255]%Z ∧ ParseMAC (NormaliseMAC "AABB.CCDD.EEFF") = Some [170; 187; 204; 221; 238; 255]%Z.
Proof. split; [reflexivity|]. apply (NormaliseMAC_roundtrip "AABB.CCDD.EEFF"). reflexivity. Defined.

Definition arp_header : string := "IP address HW type Flags HW address Mask Device" +:+ String "010" "".
Definition arp_line (ip hw : string) : string := ip +:+ " 0x1 0x2 " +:+ hw +:+ " * br-lan" +:+ String "010" "".
Definition toy_arp : string :=
  arp_header +:+ arp_line "10.0.0.5" "AA:BB:CC:DD:EE:FF" +:+ arp_line "10.0.0.9" "00:00:00:00:00:00" +:+ arp_line "10.0.0.6" "aa:bb:cc:dd:ee:ff".
Definition toy_leases (path : string) : option string :=
  if String.eqb path "/var/lib/misc/dnsmasq.leases" then Some "1700000000 aa:bb:cc:dd:ee:ff 10.0.0.5 tablet 01:aa" else None.

Definition toy_mac : string := "aa:bb:cc:dd:ee:ff".
Definition toy_entries : list arpEntry := [ArpEntry "10.0.0.5" toy_mac; ArpEntry "10.0.0.6" toy_mac].

Lemma toy_arp_read : readARP (Ret (toy_arp, None)) = Ret toy_entries.
Proof. vm_compute. reflexivity. Qed.

Lemma scan_exact_witness :
  (scan fails_never (Ret (toy_arp, None)) toy_leases {[toy_mac]} (90 * second)%Z ∅).1 !! toy_mac =
    Some (RegRow "10.0.0.6" "tablet" 90 90 true).
Proof.
  destruct (scan_exact (Ret (toy_arp, None)) toy_leases {[toy_mac]} (90 * second)%Z ∅ toy_entries toy_arp_read) as (_ & H & _).
  rewrite H. vm_compute. reflexivity.
Defined.

Lemma new_device_announced_per_address_witness :
  (2 ≤ length (List.filter (λ ev, String.eqb (s_mac ev) toy_mac)
    (scan fails_never (Ret (toy_arp, None)) toy_leases ∅ (90 * second)%Z ∅).2))%nat.
Proof.
  apply (new_device_announced_per_address (Ret (toy_arp, None)) toy_leases ∅ (90 * second)%Z ∅ [] [] []
    (ArpEntry "10.0.0.5" toy_mac) (ArpEntry "10.0.0.6" toy_mac)).
  - exact toy_arp_read.
  - reflexivity.
  - reflexivity.
Defined.

Definition upper_bundle : Bundle :=
  MkBundle "v1" 0 hour "sig" [] [Child "c1" "AA:BB:CC:DD:EE:FF" "key" "10.10.0.5/32" "active" false "" [] []].
Definition upper_runtime : Runtime Bundle := MkRuntime None (Some upper_bundle) false 0.

Lemma unnormalised_mac_never_enrolled_witness :
  d_enrolled <$> (scan fails_never (Ret (toy_arp, None)) toy_leases (EnrolledMACs upper_runtime) (90 * second)%Z ∅).1 !! toy_mac = Some false.
Proof.
  destruct (_ !! toy_mac) as [d|] eqn:E; [|vm_compute in E; discriminate]. simpl. f_equal.
  apply (unnormalised_mac_never_enrolled upper_runtime upper_bundle fails_never (Ret (toy_arp, None)) toy_leases (90 * second)%Z ∅ eq_refl) in E.
  - exact E.
  - intros c Hc%list_elem_of_singleton. subst c. vm_compute. discriminate.
  - intros mac d' H. discriminate H.
Defined.
