(* ===== verification/LocalClock.v ===== *)
(** [internal/localclock]: recomputation of the children's state at the instant
    a scheduled change falls due, with a debounce per child. *)
From stdpp Require Import gmap.
From S2P Require Import Prelude GoString.

Local Open Scope string_scope.
Local Open Scope list_scope.

Record Config := MkConfig {
  SupabaseURL : string;
  AnonKey : string;
  TickInterval : duration;
  LookBack : duration;
  PerChildDebounce : duration;
}.

(** [lastHit]: when a child was last recomputed; [stopped]: the channel [stop]
    is closed; [running]: the loop was started and has not seen it yet. *)
Record Service := MkService { cfg : Config; lastHit : gmap string time; stopped : bool; running : bool }.

Definition or_default (d dflt : duration) : duration := if bool_decide (d ≤ 0)%Z then dflt else d.

Definition New (c : Config) : Service :=
  MkService (MkConfig (SupabaseURL c) (AnonKey c) (or_default (TickInterval c) second) (or_default (LookBack c) (2 * minute))
    (or_default (PerChildDebounce c) (30 * second))) ∅ false false.

(** [strings.TrimRight(s, "/")] *)
Fixpoint trim_slashes (s : string) : string :=
  match s with
  | EmptyString => ""
  | String a r => let r := trim_slashes r in if String.eqb r "" && Ascii.eqb a "/" then "" else String a r
  end.

Definition Start (s : Service) : go Service :=
  let c := cfg s in
  if String.eqb (SupabaseURL c) "" || String.eqb (AnonKey c) "" then Err "localclock: SupabaseURL and AnonKey required" else
  Ret (MkService (MkConfig (trim_slashes (SupabaseURL c)) (AnonKey c) (TickInterval c) (LookBack c) (PerChildDebounce c))
    (lastHit s) (stopped s) true).

(** [Stop] closes [stop] unless it is closed, and the loop returns. *)
Definition Stop (s : Service) : Service := MkService (cfg s) (lastHit s) true false.

(** ** A tick *)

Record dueRow := DueRow { ChildID : string; NextChange : time }.

(** The bounds of the query of [fetchDue], in the whole seconds that RFC 3339
    text holds. *)
Definition due_bounds (c : Config) (now : time) : Z * Z := ((now - LookBack c) / second, now / second)%Z.

(** What [fetchDue] makes of the response: status and decoded rows. *)
Definition fetchDue (response : go (Z * go (list dueRow))) : go (list dueRow) :=
  match response with
  | Ret (status, body) => if negb (Z.eqb status 200) then Err "fetch due: status" else body
  | Err e => Err e
  | Panic => Panic
  | Loop => Loop
  end.

(** [forceRecompute]: an answer with a status under 400. *)
Definition forceRecompute (answer : go Z) : bool :=
  match answer with Ret status => bool_decide (status < 400)%Z | _ => false end.

(** A request sent to the procedure, and whether it succeeded. *)
Record call := Call { c_child : string; c_at : time; c_ok : bool }.

Definition last_hit (s : Service) (child : string) : time := default 0%Z (lastHit s !! child).

(** The loop of [tick] over the due rows; [rpc i] answers its [i]-th request. *)
Fixpoint recompute (s : Service) (now : time) (rpc : nat → go Z) (i : nat) (due : list dueRow) : Service * list call :=
  match due with
  | [] => (s, [])
  | d :: due =>
      if bool_decide (time_sub now (last_hit s (ChildID d)) < PerChildDebounce (cfg s))%Z then recompute s now rpc i due
      else if forceRecompute (rpc i) then
        let s := MkService (cfg s) (<[ChildID d := now]> (lastHit s)) (stopped s) (running s) in
        let '(s, cs) := recompute s now rpc (S i) due in (s, Call (ChildID d) now true :: cs)
      else
        let '(s, cs) := recompute s now rpc (S i) due in (s, Call (ChildID d) now false :: cs)
  end.

Definition tick (s : Service) (response : go (Z * go (list dueRow))) (now : time) (rpc : nat → go Z) : Service * list call :=
  match fetchDue response with Ret due => recompute s now rpc 0 due | _ => (s, []) end.

(** The ticks of [run], until the loop is stopped. *)
Record tick_input := Tick { t_response : go (Z * go (list dueRow)); t_now : time; t_rpc : nat → go Z }.

Fixpoint run (s : Service) (ticks : list tick_input) : Service * list call :=
  match ticks with
  | [] => (s, [])
  | t :: ticks =>
      let '(s, cs) := tick s (t_response t) (t_now t) (t_rpc t) in
      let '(s, cs') := run s ticks in (s, cs ++ cs')
  end.

(** ** The debounce *)

Lemma recompute_cfg now rpc due : ∀ s i, cfg (recompute s now rpc i due).1 = cfg s.
Proof.
  induction due as [|d due IH]; intros s i; simpl; [done|]. case_bool_decide; [apply IH|].
  destruct (forceRecompute _).
  - specialize (IH (MkService (cfg s) (<[ChildID d := now]> (lastHit s)) (stopped s) (running s)) (S i)).
    by destruct (recompute _ now rpc (S i) due).
  - specialize (IH s (S i)). by destruct (recompute _ now rpc (S i) due).
Qed.

(** The successful requests for one child in the log of a run. *)
Definition hits (child : string) (cs : list call) : list time :=
  map c_at (List.filter (λ c, String.eqb (c_child c) child && c_ok c) cs).

(** Each element is at least [d] after the one before it, and after [t]. *)
Fixpoint spaced (d : duration) (t : option time) (ts : list time) : Prop :=
  match ts with
  | [] => True
  | u :: ts => match t with Some t => (d ≤ time_sub u t)%Z | None => True end ∧ spaced d (Some u) ts
  end.

Lemma spaced_app d : ∀ ts us t, spaced d t ts → spaced d (match last ts with Some u => Some u | None => t end) us →
  spaced d t (ts ++ us).
Proof.
  induction ts as [|u ts IH]; intros us t; simpl; [done|]. intros [H1 H2] H3. split; [done|]. apply IH; [done|].
  destruct ts as [|v ts]; simpl in *; [done|]. destruct (last (v :: ts)) eqn:E; [done|]. by apply last_None in E.
Qed.

Lemma recompute_spaced now rpc child due : ∀ s i s' cs, recompute s now rpc i due = (s', cs) →
  (0 < PerChildDebounce (cfg s))%Z →
  spaced (PerChildDebounce (cfg s)) (lastHit s !! child) (hits child cs) ∧
  lastHit s' !! child = match last (hits child cs) with Some u => Some u | None => lastHit s !! child end.
Proof.
  induction due as [|d due IH]; intros s i s' cs; simpl; [by intros [= <- <-]|].
  case_bool_decide as Hd; [by apply IH|]. destruct (forceRecompute (rpc i)).
  - destruct (recompute _ now rpc (S i) due) as [s1 cs1] eqn:E. intros [= <- <-] Hpos.
    destruct (IH _ _ _ _ E Hpos) as [H1 H2]. simpl in H1, H2. unfold hits. simpl.
    destruct (String.eqb_spec (ChildID d) child) as [<-|Hne]; simpl.
    + rewrite lookup_insert_eq in H1, H2. split.
      * split; [|exact H1]. unfold last_hit in Hd. destruct (lastHit s !! ChildID d); simpl in *; [lia|done].
      * rewrite H2. fold (hits (ChildID d) cs1). destruct (hits (ChildID d) cs1) as [|u us]; [done|].
        rewrite (last_cons now). destruct (last (u :: us)) eqn:El; [done|]. by apply last_None in El.
    + rewrite lookup_insert_ne in H1, H2 by done. by split.
  - destruct (recompute s now rpc (S i) due) as [s1 cs1] eqn:E. intros [= <- <-] Hpos.
    destruct (IH _ _ _ _ E Hpos) as [H1 H2]. unfold hits. simpl. rewrite andb_false_r. by split.
Qed.

Lemma hits_app child cs cs' : hits child (cs ++ cs') = hits child cs ++ hits child cs'.
Proof. unfold hits. by rewrite List.filter_app, map_app. Qed.

Lemma run_spaced child : ∀ ticks s s' cs, run s ticks = (s', cs) → (0 < PerChildDebounce (cfg s))%Z →
  spaced (PerChildDebounce (cfg s)) (lastHit s !! child) (hits child cs).
Proof.
  induction ticks as [|t ticks IH]; intros s s' cs; simpl; [by intros [= <- <-]|].
  destruct (tick s _ _ _) as [s1 cs1] eqn:Et. destruct (run s1 ticks) as [s2 cs2] eqn:Er. intros [= <- <-] Hpos.
  assert (H : cfg s1 = cfg s ∧ spaced (PerChildDebounce (cfg s)) (lastHit s !! child) (hits child cs1) ∧
    lastHit s1 !! child = match last (hits child cs1) with Some u => Some u | None => lastHit s !! child end).
  { unfold tick in Et. destruct (fetchDue _); [|by injection Et as <- <-..]. split; [|by eapply recompute_spaced].
    rewrite <- (recompute_cfg (t_now t) (t_rpc t) a s 0). by rewrite Et. }
  destruct H as (Hc & H1 & H2). rewrite hits_app. apply spaced_app; [done|]. rewrite <- H2, <- Hc. apply (IH s1 s2); [done|]. by rewrite Hc.
Qed.

(** Of a service as [New] makes it, whatever configuration it was given and
    whatever the cloud answers at each tick, two successive recomputations of
    the same child are at least the debounce apart, and the debounce, the tick
    interval and the look-back are positive. *)
Theorem recompute_debounced c ticks child :
  let s := New c in
  (0 < PerChildDebounce (cfg s))%Z ∧ (0 < TickInterval (cfg s))%Z ∧ (0 < LookBack (cfg s))%Z ∧
  spaced (PerChildDebounce (cfg s)) None (hits child (run s ticks).2).
Proof.
  cbv zeta. assert (Hp : ∀ d dflt, (0 < dflt)%Z → (0 < or_default d dflt)%Z) by (intros d dflt H; unfold or_default; case_bool_decide; lia).
  split; [by apply Hp|]. split; [by apply Hp|]. split; [by apply Hp|].
  destruct (run (New c) ticks) as [s' cs] eqn:E. apply (run_spaced child) in E; [exact E|]. by apply Hp.
Qed.

(** ** Due transitions *)

(** A change that the query of a tick at [now] selects. *)
Definition in_window (c : Config) (now : time) (d : dueRow) : Prop :=
  ((due_bounds c now).1 * second ≤ NextChange d ≤ (due_bounds c now).2 * second)%Z.

(** A server that answers with the rows of its schedule that the query selects;
    the limit of 50 rows is not reached. *)
Definition answers (c : Config) (now : time) (sched : list dueRow) (response : go (Z * go (list dueRow))) : Prop :=
  ∃ rows, response = Ret (200%Z, Ret rows) ∧ ∀ d, d ∈ sched → in_window c now d → d ∈ rows.

Lemma recompute_calls now rpc d : ∀ due s i s' cs, recompute s now rpc i due = (s', cs) → d ∈ due →
  (PerChildDebounce (cfg s) ≤ time_sub now (last_hit s (ChildID d)))%Z →
  ∃ ok, Call (ChildID d) now ok ∈ cs.
Proof.
  induction due as [|x due IH]; intros s i s' cs H Hin Hd; [by apply elem_of_nil in Hin|]. simpl in H.
  case_bool_decide as Hx.
  - apply elem_of_cons in Hin as [<-|Hin]; [lia|]. by apply (IH _ _ _ _ H).
  - assert (Hnext : ∀ s1, cfg s1 = cfg s → last_hit s1 (ChildID d) = last_hit s (ChildID d) →
      ∀ s2 cs2, recompute s1 now rpc (S i) due = (s2, cs2) → d ∈ due → ∃ ok, Call (ChildID d) now ok ∈ cs2).
    { intros s1 Hc Hl s2 cs2 E Hin'. apply (IH _ _ _ _ E Hin'). by rewrite Hc, Hl. }
    destruct (decide (ChildID x = ChildID d)) as [Eq|Ne].
    { destruct (forceRecompute (rpc i)).
      - destruct (recompute _ now rpc (S i) due) as [s2 cs2]. injection H as <- <-. exists true. rewrite Eq. left.
      - destruct (recompute s now rpc (S i) due) as [s2 cs2]. injection H as <- <-. exists false. rewrite Eq. left. }
    apply elem_of_cons in Hin as [->|Hin]; [done|]. destruct (forceRecompute (rpc i)).
    + destruct (recompute _ now rpc (S i) due) as [s2 cs2] eqn:E. injection H as <- <-.
      destruct (Hnext (MkService (cfg s) (<[ChildID x := now]> (lastHit s)) (stopped s) (running s)) eq_refl) with s2 cs2 as [ok Hok];
        [unfold last_hit; simpl; by rewrite lookup_insert_ne|exact E|exact Hin|]. exists ok. by right.
    + destruct (recompute s now rpc (S i) due) as [s2 cs2] eqn:E. injection H as <- <-.
      destruct (Hnext s eq_refl eq_refl _ _ E Hin) as [ok Hok]. exists ok. by right.
Qed.

(** A change due in the window of a tick is acted on in that tick, whatever
    happened to the requests of earlier ticks: a request for its child is sent,
    unless one succeeded within the debounce. *)
Theorem due_change_requested s sched response q now rpc d :
  answers (cfg s) q sched response → d ∈ sched → in_window (cfg s) q d →
  (PerChildDebounce (cfg s) ≤ time_sub now (last_hit s (ChildID d)))%Z →
  ∃ ok, Call (ChildID d) now ok ∈ (tick s response now rpc).2.
Proof.
  intros (rows & -> & Hr) Hin Hw Hd. unfold tick. simpl. destruct (recompute s now rpc 0 rows) as [s' cs] eqn:E.
  apply (recompute_calls _ _ _ _ _ _ _ _ E); auto.
Qed.

Lemma recompute_quiet now rpc child : ∀ due s i,
  (time_sub now (last_hit s child) < PerChildDebounce (cfg s))%Z → (0 < PerChildDebounce (cfg s))%Z →
  ∀ ok, Call child now ok ∉ (recompute s now rpc i due).2.
Proof.
  induction due as [|x due IH]; intros s i Hd Hp ok; simpl; [apply not_elem_of_nil|].
  case_bool_decide as Hx; [by apply IH|].
  assert (Hne : ChildID x ≠ child) by (intros E; rewrite E in Hx; done).
  destruct (forceRecompute (rpc i)).
  - specialize (IH (MkService (cfg s) (<[ChildID x := now]> (lastHit s)) (stopped s) (running s)) (S i)).
    destruct (recompute _ now rpc (S i) due) as [s2 cs2]. simpl. intros [H|H]%elem_of_cons; [destruct Hne; by injection H|].
    revert H. apply IH; [|done]. unfold last_hit. simpl. by rewrite lookup_insert_ne.
  - specialize (IH s (S i) Hd Hp). destruct (recompute s now rpc (S i) due) as [s2 cs2]. simpl.
    intros [H|H]%elem_of_cons; [destruct Hne; by injection H|]. by revert H; apply IH.
Qed.

(** A child recomputed less than the debounce ago is left alone in a tick
    even when a further change of its schedule is due: the debounce does not
    look at whether [next_state_change_at] has advanced. *)
Theorem next_change_waits s response now rpc child h :
  lastHit s !! child = Some h → (time_sub now h < PerChildDebounce (cfg s))%Z → (0 < PerChildDebounce (cfg s))%Z →
  ∀ ok, Call child now ok ∉ (tick s response now rpc).2.
Proof.
  intros Hh Hd Hp ok. unfold tick. destruct (fetchDue response); try apply not_elem_of_nil.
  apply recompute_quiet; [|done]. unfold last_hit. by rewrite Hh.
Qed.

(** ** Concrete runs *)

Definition toy_clock : Service := New (MkConfig "https://cloud.example//" "anon" 0 0 0).

(** The first tick at 100 s recomputes the child; a change due at 110 s waits. *)
Definition hit_clock : Service := (tick toy_clock (Ret (200%Z, Ret [DueRow "kid" (100 * second)%Z])) (100 * second)%Z (λ _, Ret 204%Z)).1.

Lemma due_change_requested_witness :
  ∃ ok, Call "kid" (100 * second + 5)%Z ok ∈
    (tick toy_clock (Ret (200%Z, Ret [DueRow "kid" (100 * second)%Z])) (100 * second + 5)%Z (λ _, Err "timeout")).2.
Proof.
  apply (due_change_requested toy_clock [DueRow "kid" (100 * second)%Z] (Ret (200%Z, Ret [DueRow "kid" (100 * second)%Z])) (100 * second + 3)%Z
    (100 * second + 5)%Z (λ _, Err "timeout") (DueRow "kid" (100 * second)%Z)).
  - eexists. split; [done|]. auto.
  - left.
  - split; vm_compute; discriminate.
  - vm_compute. discriminate.
Defined.

Lemma next_change_waits_witness :
  lastHit hit_clock !! "kid" = Some (100 * second)%Z ∧
  ∀ ok, Call "kid" (110 * second)%Z ok ∉
    (tick hit_clock (Ret (200%Z, Ret [DueRow "kid" (110 * second)%Z])) (110 * second)%Z (λ _, Ret 204%Z)).2.
Proof.
  split; [vm_compute; reflexivity|].
  apply (next_change_waits hit_clock (Ret (200%Z, Ret [DueRow "kid" (110 * second)%Z])) (110 * second)%Z (λ _, Ret 204%Z) "kid" (100 * second)%Z).
  - vm_compute. reflexivity.
  - vm_compute. reflexivity.
  - vm_compute. reflexivity.
Defined.

Example start_trims : match Start toy_clock with Ret s => SupabaseURL (cfg s) | _ => "" end = "https://cloud.example".
Proof. reflexivity. Qed.
