(* ===== verification/Settings.v ===== *)
(** [internal/app/config.go]: the configuration read from the environment and
    its validation. *)
From stdpp Require Import gmap.
From S2P Require Import Prelude Net GoString.

Local Open Scope string_scope.
Local Open Scope list_scope.

(** ** [net.SplitHostPort], [IP.IsLoopback] and [filepath.Abs] *)

(** The text before and after the last [c]. *)
Definition split_last (c : ascii) (s : string) : option (string * string) :=
  match split_byte c s with
  | [] | [_] => None
  | parts => Some (join (String c "") (removelast parts), List.last parts "")
  end.

Definition SplitHostPort (s : string) : go (string * string) :=
  match split_last ":" s with
  | None => Err "missing port in address"
  | Some (pre, port) =>
      match s with
      | String "[" rest =>
          match before_byte "]" rest, after_byte "]" rest with
          | Some host, Some tl =>
              if negb (String.eqb tl (":" +:+ port)) then Err "missing port or too many colons" else
              if contains_byte "[" rest then Err "unexpected '[' in address" else
              if contains_byte "]" tl then Err "unexpected ']' in address" else Ret (host, port)
          | _, _ => Err "missing ']' in address"
          end
      | _ =>
          if contains_byte ":" pre then Err "too many colons in address" else
          if contains_byte "[" s then Err "unexpected '[' in address" else
          if contains_byte "]" s then Err "unexpected ']' in address" else Ret (pre, port)
      end
  end%char.

Example SplitHostPort_ex :
  map SplitHostPort ["127.0.0.1:8099"; ":8443"; "[::1]:53"] = [Ret ("127.0.0.1", "8099"); Ret ("", "8443"); Ret ("::1", "53")] ∧
  Forall (λ s, ∃ e, SplitHostPort s = Err e) ["localhost"; "::1:53"; "[::1]"; "[::1]x:1"; "a[b:1"; "[a]b]:1"].
Proof. split; [reflexivity|]. repeat (constructor; [eexists; vm_compute; reflexivity|]). constructor. Qed.

Definition v6_loopback : ip := repeat 0%Z 15 ++ [1%Z].

Definition IsLoopback (a : ip) : bool :=
  match as_v4 a with
  | Some (b :: _) => Z.eqb b 127
  | Some [] => false
  | None => bool_decide (a = v6_loopback)
  end.

(** [filepath.Clean] of a rooted path, as its components: [.] and empty ones are
    dropped and [..] removes the one before it. *)
Definition push_component (acc : list string) (x : string) : list string :=
  if String.eqb x "" || String.eqb x "." then acc
  else if String.eqb x ".." then removelast acc
  else acc ++ [x].

Definition components (p : string) : list string := fold_left push_component (split_byte "/" p) [].

Definition rooted (cs : list string) : string := match cs with [] => "/" | _ => String.concat "" (map (λ x, "/" +:+ x) cs) end.

(** [filepath.Abs]; [cwd] is the result of [os.Getwd]. *)
Definition abs_components (cwd : go string) (p : string) : go (list string) :=
  match p with
  | String "/" _ => Ret (components p)
  | _ => d ← cwd; mret (components (d +:+ "/" +:+ p))
  end%char.

Definition Abs (cwd : go string) (p : string) : go string := cs ← abs_components cwd p; mret (rooted cs).

Example Abs_ex : map (Abs (Ret "/srv/app")) ["./data"; "../x//y/."; "/a/../../b"; "/"] =
  [Ret "/srv/app/data"; Ret "/srv/x/y"; Ret "/b"; Ret "/"].
Proof. reflexivity. Qed.

(** ** The configuration *)

Record Config := MkConfig {
  NodeName : string; Environment : string; DataDir : string; DBPath : string; LogLevel : string;
  HTTPListenAddr : string; DNSListenAddr : string; SyncBaseURL : string; NodeToken : string; AnonKey : string;
  ServiceRoleKey : string; NotifyURL : string;
  ShutdownTimeout : duration; HeartbeatEvery : duration; CommandPollEvery : duration;
  NodeType : string; PublicEndpoint : string; IsLANLocal : bool; UPnPEnabled : bool;
  WGPrivateKeyFile : string; NATIface : string;
  RelayListenAddr : string; RelayBrokerURL : string; RelayNodeToken : string; RelayFamilyID : string; RelayWGAddr : string;
  RelayFallbackEndpoint : string;
}.

Section Load.
Context `{U : UnicodeTables} `{V : IPv6Text}.

(** [os.Getenv] and [os.Getwd] *)
Variable environ : string → string.
Variable cwd : go string.

Definition getenv (key fallback : string) : string :=
  let v := trim_space (environ key) in if String.eqb v "" then fallback else v.

Definition durationFromEnv (key : string) (fallback : Z) : duration :=
  let v := environ key in
  if String.eqb v "" then wrap_int64 (fallback * second) else
  let '(n, ok) := parse_int v in
  if negb ok || bool_decide (n ≤ 0)%Z then wrap_int64 (fallback * second) else wrap_int64 (n * second).

Definition parseBool (v : string) : bool :=
  existsb (String.eqb (to_lower (trim_space v))) ["true"; "1"; "yes"].

Definition validateAddr (addr : string) : option string :=
  if String.eqb addr "" then Some "empty address" else
  match SplitHostPort addr with Ret _ => None | Err e => Some e | _ => Some "" end.

(** [net.SplitHostPort] gives empty strings with an error. *)
Definition host_of (addr : string) : string := match SplitHostPort addr with Ret (h, _) => h | _ => "" end.

Definition validate (c : Config) : option string :=
  if String.eqb (DataDir c) "" then Some "SS_ROUTER_DATA_DIR cannot be empty" else
  if String.eqb (DBPath c) "" then Some "SS_ROUTER_DB_PATH cannot be empty" else
  match Abs cwd (DataDir c) with
  | Ret dataDirAbs =>
      match Abs cwd (DBPath c) with
      | Ret dbPathAbs =>
          if negb (has_prefix dbPathAbs dataDirAbs) then Some "SS_ROUTER_DB_PATH must be inside SS_ROUTER_DATA_DIR" else
          match validateAddr (HTTPListenAddr c) with Some e => Some ("invalid SS_ROUTER_HTTP_ADDR: " +:+ e) | None =>
          match validateAddr (DNSListenAddr c) with Some e => Some ("invalid SS_ROUTER_DNS_ADDR: " +:+ e) | None =>
          if String.eqb (Environment c) "prod" &&
             negb (match parse_ip (host_of (HTTPListenAddr c)) with Some a => IsLoopback a | None => false end)
          then Some "SS_ROUTER_HTTP_ADDR must bind to loopback in prod" else
          if negb (String.eqb (PublicEndpoint c) "") &&
             match SplitHostPort (PublicEndpoint c) with Ret _ => false | _ => bool_decide (parse_ip (PublicEndpoint c) = None) end
          then Some "invalid SS_ROUTER_PUBLIC_ENDPOINT" else
          if String.eqb (NodeType c) "vps_relay" && String.eqb (RelayListenAddr c) ""
          then Some "SS_ROUTER_RELAY_ADDR is required for vps_relay" else
          if bool_decide (CommandPollEvery c < second)%Z then Some "SS_ROUTER_COMMAND_POLL_SEC must be >= 1" else
          if bool_decide (HeartbeatEvery c < 5 * second)%Z then Some "SS_ROUTER_HEARTBEAT_SEC must be >= 5" else
          None
          end end
      | _ => Some "invalid SS_ROUTER_DB_PATH"
      end
  | _ => Some "invalid SS_ROUTER_DATA_DIR"
  end.

Definition read_config (nodeType : string) : Config := {|
  NodeName := getenv "SS_ROUTER_NODE_NAME" "safeswitch-router";
  Environment := getenv "SS_ROUTER_ENV" "dev";
  DataDir := getenv "SS_ROUTER_DATA_DIR" "./data";
  DBPath := getenv "SS_ROUTER_DB_PATH" "./data/router.db";
  LogLevel := to_lower (getenv "SS_ROUTER_LOG_LEVEL" "info");
  HTTPListenAddr := getenv "SS_ROUTER_HTTP_ADDR" "127.0.0.1:8099";
  DNSListenAddr := getenv "SS_ROUTER_DNS_ADDR" "127.0.0.1:5353";
  SyncBaseURL := getenv "SS_ROUTER_SYNC_BASE_URL" "";
  NodeToken := getenv "SS_ROUTER_NODE_TOKEN" "";
  AnonKey := getenv "SS_ROUTER_ANON_KEY" "";
  ServiceRoleKey := getenv "SS_ROUTER_SERVICE_ROLE_KEY" "";
  NotifyURL := getenv "SS_ROUTER_NOTIFY_URL" "";
  ShutdownTimeout := durationFromEnv "SS_ROUTER_SHUTDOWN_TIMEOUT_SEC" 10;
  HeartbeatEvery := durationFromEnv "SS_ROUTER_HEARTBEAT_SEC" 30;
  CommandPollEvery := durationFromEnv "SS_ROUTER_COMMAND_POLL_SEC" 5;
  NodeType := nodeType;
  PublicEndpoint := getenv "SS_ROUTER_PUBLIC_ENDPOINT" "";
  IsLANLocal := String.eqb nodeType "lan_node";
  UPnPEnabled := parseBool (getenv "SS_ROUTER_UPNP" "true");
  WGPrivateKeyFile := getenv "SS_ROUTER_WG_PRIVATE_KEY_FILE" "/etc/safeswitch/wireguard/privatekey";
  NATIface := getenv "SS_ROUTER_NAT_IFACE" "eth0";
  RelayListenAddr := getenv "SS_ROUTER_RELAY_ADDR" ":8443";
  RelayBrokerURL := getenv "SS_ROUTER_RELAY_BROKER_URL" "";
  RelayNodeToken := getenv "SS_ROUTER_RELAY_TOKEN" "";
  RelayFamilyID := getenv "SS_ROUTER_RELAY_FAMILY_ID" "";
  RelayWGAddr := getenv "SS_ROUTER_RELAY_WG_ADDR" "127.0.0.1:51820";
  RelayFallbackEndpoint := getenv "SS_ROUTER_RELAY_FALLBACK_ENDPOINT" "";
|}.

Definition LoadConfigFromEnv : go Config :=
  let nodeType := to_lower (getenv "SS_ROUTER_NODE_TYPE" "home_node") in
  if negb (existsb (String.eqb nodeType) ["home_node"; "lan_node"; "vps_relay"]) then Err "invalid SS_ROUTER_NODE_TYPE" else
  let cfg := read_config nodeType in
  match validate cfg with Some e => Err e | None => Ret cfg end.
End Load.

(** ** Rooted paths and their components *)

Definition plain (x : string) : Prop := x ≠ "" ∧ contains_byte "/" x = false.

Lemma split_byte_plain c s : Forall (λ x, contains_byte c x = false) (split_byte c s).
Proof.
  induction s as [|a s IH]; simpl; [by repeat constructor|]. destruct (Ascii.eqb a c) eqn:E; [by constructor|].
  destruct (split_byte c s) as [|h t] eqn:Es; [by repeat constructor; simpl; rewrite E|].
  inversion IH; subst. constructor; [|done]. simpl. by rewrite E.
Qed.

Lemma components_plain p : Forall plain (components p).
Proof.
  unfold components. assert (H : Forall plain []) by constructor. revert H. generalize (@nil string).
  pose proof (split_byte_plain "/" p) as Hp. induction Hp as [|x xs Hx _ IH]; intros acc Hacc; [done|]. simpl. apply IH.
  unfold push_component. destruct (String.eqb_spec x "") as [->|Hne]; [done|]. destruct (String.eqb x "."); [done|].
  destruct (String.eqb x ".."); [|apply Forall_app; split; [done|apply Forall_singleton; by split]].
  destruct acc as [|y acc _] using rev_ind; [done|]. rewrite removelast_last. by apply Forall_app in Hacc as [? _].
Qed.

Lemma abs_components_plain cwd p cs : abs_components cwd p = Ret cs → Forall plain cs.
Proof.
  unfold abs_components. destruct p as [|a p].
  - destruct cwd; simpl; try done. intros [= <-]. apply components_plain.
  - destruct a as [[] [] [] [] [] [] [] []]; try (destruct cwd; simpl; try done); intros [= <-]; apply components_plain.
Qed.

Definition paths (cs : list string) : string := String.concat "" (map (λ x, "/" +:+ x) cs).

Lemma paths_cons x cs : paths (x :: cs) = String "/" (x +:+ paths cs).
Proof. unfold paths. destruct cs; simpl; [by rewrite append_nil_r|done]. Qed.

Lemma rooted_paths cs : cs ≠ [] → rooted cs = paths cs.
Proof. by destruct cs. Qed.

Definition at_slash (r : string) : Prop := r = "" ∨ ∃ r', r = String "/" r'.

Lemma paths_at_slash cs : at_slash (paths cs).
Proof. destruct cs as [|x cs]; [by left|]. right. rewrite paths_cons. by eexists. Qed.

Lemma prefix_cons a b s t : has_prefix (String b t) (String a s) = true → b = a ∧ has_prefix t s = true.
Proof. unfold has_prefix. simpl. by destruct (ascii_dec a b). Qed.

(** One component against another. *)
Lemma prefix_component : ∀ x y r s,
  contains_byte "/" x = false → contains_byte "/" y = false → at_slash r → at_slash s →
  has_prefix (y +:+ s) (x +:+ r) = true →
  (r = "" ∧ ∃ suf, y = x +:+ suf) ∨ (y = x ∧ has_prefix s r = true).
Proof.
  induction x as [|a x IH]; intros y r s Hx Hy Hr Hs H.
  - destruct Hr as [-> | [r' ->]]; [left; eauto|]. right. destruct y as [|b y]; [done|].
    apply prefix_cons in H as [-> _]. done.
  - simpl in Hx. apply orb_false_iff in Hx as [Ha Hx]. destruct y as [|b y].
    + destruct Hs as [-> | [s' ->]]; [done|]. apply prefix_cons in H as [<- _]. done.
    + apply prefix_cons in H as [-> H]. simpl in Hy. apply orb_false_iff in Hy as [_ Hy].
      destruct (IH y r s Hx Hy Hr Hs H) as [[-> [suf ->]]|[-> Hp]]; [left; eauto|by right].
Qed.

(** The directory is a parent of the path, or the path goes through a sibling
    whose name extends the directory's. *)
Definition under (d p : list string) : Prop := ∃ ext, p = d ++ ext.
Definition beside (d p : list string) : Prop :=
  ∃ init x suf rest, d = init ++ [x] ∧ p = init ++ (x +:+ suf) :: rest ∧ suf ≠ "".

Lemma prefix_paths : ∀ d p, Forall plain d → Forall plain p → has_prefix (paths p) (paths d) = true → under d p ∨ beside d p.
Proof.
  induction d as [|x d IH]; intros p Hd Hp H; [left; by exists p|].
  destruct p as [|y p]; [by rewrite paths_cons in H|]. rewrite !paths_cons in H.
  apply Forall_cons in Hd as [[Hx Hx'] Hd]. apply Forall_cons in Hp as [[Hy Hy'] Hp].
  assert (H' : has_prefix (y +:+ paths p) (x +:+ paths d) = true) by exact H.
  apply prefix_component in H' as [[Hr [suf ->]]|[-> Hp']]; try done; try apply paths_at_slash.
  - destruct d as [|z d]; [|by rewrite paths_cons in Hr]. destruct (decide (suf = "")) as [->|Hs].
    + left. exists p. by rewrite append_nil_r.
    + right. exists [], x, suf, p. done.
  - destruct (IH p Hd Hp Hp') as [[ext ->]|(init & z & suf & rest & -> & -> & Hs)].
    + left. by exists ext.
    + right. exists (x :: init), z, suf, rest. done.
Qed.

Lemma prefix_rooted d p : Forall plain d → Forall plain p → has_prefix (rooted p) (rooted d) = true → under d p ∨ beside d p.
Proof.
  intros Hd Hp H. destruct d as [|x d]; [left; by exists p|]. destruct p as [|y p].
  - change (rooted (x :: d)) with (paths (x :: d)) in H. rewrite paths_cons in H. apply Forall_cons in Hd as [[Hx _] _].
    by destruct x.
  - by apply prefix_paths.
Qed.

Lemma has_prefix_app s t : has_prefix (s +:+ t) s = true.
Proof. unfold has_prefix. induction s as [|a s IH]; simpl; [by destruct t|]. by destruct (ascii_dec a a). Qed.

Lemma paths_app d p : paths (d ++ p) = paths d +:+ paths p.
Proof. induction d as [|x d IH]; simpl; [done|]. rewrite !paths_cons, IH. simpl. by rewrite sappend_assoc. Qed.

Lemma rooted_beside init x suf rest : has_prefix (rooted (init ++ (x +:+ suf) :: rest)) (rooted (init ++ [x])) = true.
Proof.
  rewrite !rooted_paths by (by destruct init). rewrite !paths_app, !paths_cons.
  replace (paths init +:+ String "/" ((x +:+ suf) +:+ paths rest))
    with ((paths init +:+ String "/" (x +:+ paths [])) +:+ (suf +:+ paths rest)); [apply has_prefix_app|].
  change (paths []) with "". rewrite append_nil_r, sappend_assoc. simpl. by rewrite !sappend_assoc.
Qed.

(** ** What an accepted configuration satisfies *)

Section Accepted.
Context `{U : UnicodeTables} `{V : IPv6Text}.
Variable cwd : go string.

Lemma validate_db c : validate cwd c = None →
  ∃ d p, abs_components cwd (DataDir c) = Ret d ∧ abs_components cwd (DBPath c) = Ret p ∧
    has_prefix (rooted p) (rooted d) = true.
Proof.
  unfold validate, Abs. destruct (String.eqb (DataDir c) ""); [done|]. destruct (String.eqb (DBPath c) ""); [done|].
  destruct (abs_components cwd (DataDir c)) as [d| | |]; simpl; [|done..].
  destruct (abs_components cwd (DBPath c)) as [p| | |]; simpl; [|done..].
  destruct (has_prefix (rooted p) (rooted d)) eqn:E; [|done]. eauto.
Qed.

(** The checks that follow that of the database path. *)
Lemma validate_rest c : validate cwd c = None →
  validateAddr (HTTPListenAddr c) = None ∧ validateAddr (DNSListenAddr c) = None ∧
  (Environment c = "prod" → ∃ a, parse_ip (host_of (HTTPListenAddr c)) = Some a ∧ IsLoopback a = true) ∧
  (second ≤ CommandPollEvery c)%Z ∧ (5 * second ≤ HeartbeatEvery c)%Z.
Proof.
  unfold validate. destruct (String.eqb (DataDir c) ""); [done|]. destruct (String.eqb (DBPath c) ""); [done|].
  destruct (Abs cwd (DataDir c)); [|done..]. destruct (Abs cwd (DBPath c)); [|done..]. destruct (negb _); [done|].
  destruct (validateAddr (HTTPListenAddr c)); [done|]. destruct (validateAddr (DNSListenAddr c)); [done|].
  destruct (String.eqb_spec (Environment c) "prod") as [Hp|Hp]; cbn [andb].
  - destruct (parse_ip (host_of (HTTPListenAddr c))) as [ad|] eqn:Ea; [|done]. destruct (IsLoopback ad) eqn:El; [|done]. cbn [negb].
    destruct (negb _ && _); [done|]. destruct (_ && _); [done|]. do 2 (case_bool_decide; [done|]).
    intros _. split; [done|]. split; [done|]. split; [eauto|]. lia.
  - destruct (negb _ && _); [done|]. destruct (_ && _); [done|]. do 2 (case_bool_decide; [done|]).
    intros _. split; [done|]. split; [done|]. split; [done|]. lia.
Qed.

(** A configuration that is accepted names a known node type, polls at most
    once a second and beats at most once in five, listens for HTTP on a
    loopback address in production, and keeps its database under the data
    directory, or beside it, in one whose name extends the directory's. *)
Theorem accepted_config environ c :
  LoadConfigFromEnv environ cwd = Ret c →
  (NodeType c ∈ ["home_node"; "lan_node"; "vps_relay"]) ∧ (IsLANLocal c = true ↔ NodeType c = "lan_node") ∧
  (second ≤ CommandPollEvery c)%Z ∧ (5 * second ≤ HeartbeatEvery c)%Z ∧
  (Environment c = "prod" → ∃ a, parse_ip (host_of (HTTPListenAddr c)) = Some a ∧ IsLoopback a = true) ∧
  ∃ d p, abs_components cwd (DataDir c) = Ret d ∧ abs_components cwd (DBPath c) = Ret p ∧ (under d p ∨ beside d p).
Proof.
  unfold LoadConfigFromEnv. set (nt := to_lower _). cbv zeta. destruct (existsb (String.eqb nt) _) eqn:Ent; [|done]. cbn [negb].
  destruct (validate cwd (read_config environ nt)) eqn:Ev; [done|]. intros [= <-].
  pose proof (validate_rest _ Ev) as (_ & _ & Hprod & Hpoll & Hbeat).
  destruct (validate_db _ Ev) as (d & p & Hd & Hp & Hpre).
  split; [|split; [|split; [exact Hpoll|split; [exact Hbeat|split; [exact Hprod|]]]]].
  - apply existsb_exists in Ent as (x & Hx & E). apply String.eqb_eq in E. rewrite <- list_elem_of_In in Hx. by rewrite <- E in Hx.
  - apply String.eqb_eq.
  - exists d, p. split; [exact Hd|]. split; [exact Hp|].
    apply prefix_rooted; [by eapply abs_components_plain|by eapply abs_components_plain|done].
Qed.

(** The environment with another value for one variable. *)
Definition override (environ : string → string) (key v : string) : string → string :=
  λ k, if String.eqb k key then v else environ k.

Lemma validate_other_db c c' : validate cwd c = None →
  DataDir c' = DataDir c → HTTPListenAddr c' = HTTPListenAddr c → DNSListenAddr c' = DNSListenAddr c →
  Environment c' = Environment c → PublicEndpoint c' = PublicEndpoint c → NodeType c' = NodeType c →
  RelayListenAddr c' = RelayListenAddr c → CommandPollEvery c' = CommandPollEvery c → HeartbeatEvery c' = HeartbeatEvery c →
  ∀ d p, DBPath c' ≠ "" → abs_components cwd (DataDir c) = Ret d → abs_components cwd (DBPath c') = Ret p →
  has_prefix (rooted p) (rooted d) = true → validate cwd c' = None.
Proof.
  intros H E1 E2 E3 E4 E5 E6 E7 E8 E9 d p Hne Hd Hp Hpre. revert H. unfold validate.
  rewrite E1, E2, E3, E4, E5, E6, E7, E8, E9.
  destruct (String.eqb (DataDir c) ""); [done|]. destruct (String.eqb (DBPath c) ""); [done|].
  destruct (String.eqb_spec (DBPath c') ""); [done|]. unfold Abs. rewrite Hd, Hp. simpl. rewrite Hpre.
  destruct (abs_components cwd (DBPath c)) as [q| | |]; simpl; [|done..]. by destruct (has_prefix (rooted q) (rooted d)).
Qed.

(** The check that the database lies in the data directory compares text: a
    configuration stays accepted when the database is moved to a sibling
    directory whose name only starts with the data directory's. *)
Theorem sibling_database_accepted environ c p init x suf rest :
  LoadConfigFromEnv environ cwd = Ret c →
  abs_components cwd (DataDir c) = Ret (init ++ [x]) → trim_space p = p → p ≠ "" →
  abs_components cwd p = Ret (init ++ (x +:+ suf) :: rest) →
  ∃ c', LoadConfigFromEnv (override environ "SS_ROUTER_DB_PATH" p) cwd = Ret c' ∧ DBPath c' = p ∧ DataDir c' = DataDir c.
Proof.
  unfold LoadConfigFromEnv. change (getenv (override environ "SS_ROUTER_DB_PATH" p) "SS_ROUTER_NODE_TYPE" "home_node")
    with (getenv environ "SS_ROUTER_NODE_TYPE" "home_node").
  set (nt := to_lower _). cbv zeta. destruct (negb _); [done|].
  destruct (validate cwd (read_config environ nt)) eqn:Ev; [done|]. intros [= <-] Hd Ht Hne Hp.
  assert (Edb : DBPath (read_config (override environ "SS_ROUTER_DB_PATH" p) nt) = p).
  { simpl. unfold getenv, override. simpl. rewrite Ht. by destruct (String.eqb_spec p ""). }
  rewrite (validate_other_db (read_config environ nt) (read_config (override environ "SS_ROUTER_DB_PATH" p) nt) Ev
    eq_refl eq_refl eq_refl eq_refl eq_refl eq_refl eq_refl eq_refl eq_refl (init ++ [x]) (init ++ (x +:+ suf) :: rest)).
  - eexists. split; [done|]. split; [exact Edb|]. reflexivity.
  - by rewrite Edb.
  - exact Hd.
  - by rewrite Edb.
  - apply rooted_beside.
Qed.

(** A duration is the number of seconds in the variable when that is a
    positive number of at most 9223372036, the fallback when it is not a
    positive number; a larger number is accepted and wraps around, so that
    9223372037 seconds is a negative duration. *)
Theorem durationFromEnv_bounds environ key fallback :
  (0 < fallback ≤ 9223372036)%Z →
  (∀ n, parse_int (environ key) = (n, true) → (0 < n ≤ 9223372036)%Z → durationFromEnv environ key fallback = (n * second)%Z) ∧
  ((parse_int (environ key)).2 = false ∨ ((parse_int (environ key)).1 ≤ 0)%Z → durationFromEnv environ key fallback = (fallback * second)%Z) ∧
  (environ key = "9223372037" → (durationFromEnv environ key fallback < 0)%Z).
Proof.
  intros Hf. assert (Hw : ∀ n, (0 < n ≤ 9223372036)%Z → wrap_int64 (n * second) = (n * second)%Z)
    by (intros n Hn; apply wrap_int64_id; unfold second; lia).
  unfold durationFromEnv. split; [|split].
  - intros n Hp Hn. destruct (String.eqb_spec (environ key) "") as [E|_]; [by rewrite E in Hp|].
    rewrite Hp. simpl. rewrite bool_decide_false by lia. by apply Hw.
  - destruct (String.eqb (environ key) ""); [intros _; by apply Hw|]. destruct (parse_int (environ key)) as [n ok]. simpl.
    intros [-> | Hn]; [simpl; by apply Hw|]. destruct ok; simpl; [|by apply Hw]. rewrite bool_decide_true by lia. by apply Hw.
  - intros ->. vm_compute. reflexivity.
Qed.
End Accepted.

(** ** Concrete runs *)

#[local] Existing Instance ascii_tables.
#[local] Existing Instance no_v6.

Definition toy_environ (key : string) : string :=
  if String.eqb key "SS_ROUTER_ENV" then "prod" else
  if String.eqb key "SS_ROUTER_DATA_DIR" then "/data" else
  if String.eqb key "SS_ROUTER_DB_PATH" then "/data/router.db" else
  if String.eqb key "SS_ROUTER_HEARTBEAT_SEC" then "12" else "".

Definition toy_config : Config := read_config toy_environ "home_node".

Lemma toy_config_loads : LoadConfigFromEnv toy_environ (Ret "/srv") = Ret toy_config.
Proof. vm_compute. reflexivity. Qed.

Lemma accepted_config_witness :
  LoadConfigFromEnv toy_environ (Ret "/srv") = Ret toy_config ∧ HeartbeatEvery toy_config = (12 * second)%Z ∧
  ∃ a, parse_ip (host_of (HTTPListenAddr toy_config)) = Some a ∧ IsLoopback a = true.
Proof.
  split; [exact toy_config_loads|]. split; [vm_compute; reflexivity|].
  apply (accepted_config (Ret "/srv") toy_environ toy_config toy_config_loads). vm_compute. reflexivity.
Defined.

Lemma sibling_database_accepted_witness :
  ∃ c', LoadConfigFromEnv (override toy_environ "SS_ROUTER_DB_PATH" "/data-old/router.db") (Ret "/srv") = Ret c' ∧
    DBPath c' = "/data-old/router.db" ∧ DataDir c' = "/data".
Proof.
  apply (sibling_database_accepted (Ret "/srv") toy_environ toy_config "/data-old/router.db" [] "data" "-old" ["router.db"] toy_config_loads).
  - vm_compute. reflexivity.
  - vm_compute. reflexivity.
  - discriminate.
  - vm_compute. reflexivity.
Defined.

Lemma durationFromEnv_bounds_witness : durationFromEnv toy_environ "SS_ROUTER_HEARTBEAT_SEC" 30 = (12 * second)%Z.
Proof. apply (durationFromEnv_bounds toy_environ "SS_ROUTER_HEARTBEAT_SEC" 30 ltac:(lia)); [vm_compute; reflexivity|lia]. Defined.
