(* ===== verification/DnsServer.v ===== *)
(** [internal/dns/server.go]: start, the two accept loops and stop of the DNS
    server, around the handlers of [Resolver]. *)
From stdpp Require Import gmap.
From S2P Require Import Prelude Wire Blocklist Policy Resolver Settings GoString.

Local Open Scope list_scope.

(** ** Start *)

Inductive socket := UDPConn | TCPListener.

#[global] Instance socket_eq_dec : EqDecision socket.
Proof. solve_decision. Defined.

Definition default_addr (addr : string) : string := if String.eqb addr "" then "127.0.0.1:5353" else addr.

(** What [Start] leaves: the sockets open, the loops started (counted by the
    wait group), whether the server's context is cancelled, the block list, and
    the error. A block list that cannot be loaded stays as it is. *)
Record server := Server { blocks : Blocklist; sockets : list socket; running : nat; ctx_cancelled : bool }.

Definition Start (load : Blocklist → Blocklist * option string) (listen_udp listen_tcp : option string) (s : server) :
    server * option string :=
  let b := fst (load (blocks s)) in
  match listen_udp with
  | Some e => (Server b (sockets s) (running s) true, Some e)
  | None =>
      match listen_tcp with
      | Some e => (Server b (sockets s) (running s) true, Some e)
      | None => (Server b (UDPConn :: TCPListener :: sockets s) (running s + 2) false, None)
      end
  end.

(** [Reload]: the error of loading is returned. *)
Definition Reload (load : Blocklist → Blocklist * option string) (s : server) : server * option string :=
  let '(b, e) := load (blocks s) in (Server b (sockets s) (running s) (ctx_cancelled s), e).

(** ** One exchange with an upstream server *)

(** What [Dial], [Write] and [Read] give; the socket is connected, so the
    datagram comes from the server's address. *)
Record exchange := Exchange { dial : option string; written : option string; datagram : go bytes }.

Definition forwardOnce (net : string → bytes → exchange) (upstream : string) (query : bytes) : go bytes :=
  let x := net upstream query in
  match dial x, written x with
  | None, None => d ← datagram x; Ret (take 4096 d)
  | Some e, _ | None, Some e => Err e
  end.

(** ** The loops *)

Section Loops.
Context `{U : UnicodeTables} {P : Type} `{PR : PolicyReader P}.
Variable exchange_once : string → bytes → go bytes.

(** A reply, and to whom. *)
Abbreviation reply := (string * bytes)%type.

(** The goroutine of one datagram: the reply it has to write. *)
Definition answer_datagram (r : Resolver P) (d : bytes * string) : list reply :=
  match snd (handle_udp exchange_once r d.1 (host_of d.2)) with
  | Ret (Some resp) => [(d.2, resp)]
  | _ => []
  end.

(** A connection: what the client sends on it and from where; how long after its
    acceptance the query has been read, and how long the exchange with each
    upstream server takes for it. *)
Record tcp_conn := TcpConn { stream : bytes; from : string; read_after : duration; took : string → duration }.

Definition connDeadline : duration := (5 * second)%Z.

Definition resolve_time (c : tcp_conn) (evs : list event) : duration := foldr (λ u t, took c u + t)%Z 0%Z (contacts evs).

(** [handleTCP] with the deadline of the connection, which is set once, before
    the query is read: a reply that is ready later cannot be written. *)
Definition answer_connection (r : Resolver P) (c : tcp_conn) : list reply :=
  match handleTCP exchange_once r (stream c) (host_of (from c)) with
  | (evs, Ret (Some out)) => if decide (read_after c + resolve_time c evs < connDeadline)%Z then [(from c, out)] else []
  | _ => []
  end.

(** [serveUDP] and [serveTCP]: whether the loop still runs, what it has read, the
    goroutines that have not answered yet, the replies written and those that
    could not be written. *)
Record transport (A : Type) := Transport {
  loop_runs : bool;
  arrived : list A;
  in_flight : list A;
  written_replies : list reply;
  lost_replies : list reply;
}.
#[global] Arguments Transport {_} _ _ _ _ _.
#[global] Arguments loop_runs {_} _.
#[global] Arguments arrived {_} _.
#[global] Arguments in_flight {_} _.
#[global] Arguments written_replies {_} _.
#[global] Arguments lost_replies {_} _.

Definition started {A} : transport A := Transport true [] [] [] [].

(** The loop reads and starts a goroutine, or returns at the first error, the
    expired deadline of a stopped server included, which closes its socket; the
    goroutines answer in any order. [shared]: they write to that socket, and a
    reply to a closed socket is lost. *)
Inductive serve_step {A} (answer : A → list reply) (shared : bool) : transport A → transport A → Prop :=
| sv_read d ds fl w l : serve_step answer shared (Transport true ds fl w l) (Transport true (ds ++ [d]) (fl ++ [d]) w l)
| sv_error ds fl w l : serve_step answer shared (Transport true ds fl w l) (Transport false ds fl w l)
| sv_reply run ds f1 d f2 w l : serve_step answer shared (Transport run ds (f1 ++ d :: f2) w l)
    (if shared && negb run then Transport run ds (f1 ++ f2) w (l ++ answer d)
     else Transport run ds (f1 ++ f2) (w ++ answer d) l).

Definition serveUDP (r : Resolver P) : transport (bytes * string) → transport (bytes * string) → Prop :=
  serve_step (answer_datagram r) true.
Definition serveTCP (r : Resolver P) : transport tcp_conn → transport tcp_conn → Prop :=
  serve_step (answer_connection r) false.

(** *** The loops in general *)

Section Serve.
Context {A : Type} (answer : A → list reply) (shared : bool).
Implicit Types s : transport A.

Definition answers (ds : list A) : list reply := concat (map answer ds).

Definition serve_inv s : Prop :=
  answers (arrived s) ≡ₚ written_replies s ++ lost_replies s ++ answers (in_flight s) ∧
  ((loop_runs s = true ∨ shared = false) → lost_replies s = []).

Lemma answers_app l k : answers (l ++ k) = answers l ++ answers k.
Proof. unfold answers. by rewrite map_app, concat_app. Qed.

Lemma serve_step_inv s s' : serve_inv s → serve_step answer shared s s' → serve_inv s'.
Proof.
  intros [H1 H2] Hs. destruct Hs as [d ds fl w l|ds fl w l|run ds f1 d f2 w l]; unfold serve_inv in *; simpl in *.
  - split; [|done]. rewrite !answers_app, H1. by rewrite !app_assoc.
  - split; [done|]. intros [?|?]; [done|]. auto.
  - rewrite answers_app in H1. change (answers (d :: f2)) with (answer d ++ answers f2) in H1.
    destruct shared, run; simpl; rewrite answers_app; (split; [rewrite H1; solve_Permutation|intuition done]).
Qed.

Lemma serve_all s : loop_runs s = true ∨ shared = false → ∃ s', star (serve_step answer shared) s s' ∧
  in_flight s' = [] ∧ written_replies s' = written_replies s ++ answers (in_flight s) ∧ arrived s' = arrived s ∧ loop_runs s' = loop_runs s.
Proof.
  destruct s as [run ds fl w l]. simpl. revert w. induction fl as [|d fl IH]; intros w Hr.
  - eexists. split; [apply star_refl|]. by rewrite app_nil_r.
  - destruct (IH (w ++ answer d) Hr) as (s' & Hs & H1 & H2 & H3 & H4). exists s'. split.
    + eapply star_step; [apply (sv_reply answer shared run ds [] d fl)|]. destruct Hr as [->| ->]; [rewrite andb_false_r|]; exact Hs.
    + split; [done|]. split; [by rewrite H2, <- app_assoc|]. by split.
Qed.

Lemma serve_ended s s' : loop_runs s = false → star (serve_step answer shared) s s' →
  loop_runs s' = false ∧ arrived s' = arrived s ∧ (shared = true → written_replies s' = written_replies s).
Proof.
  intros Hr. apply (star_invariant _ (λ s', loop_runs s' = false ∧ arrived s' = arrived s ∧ (shared = true → written_replies s' = written_replies s))); [|done].
  clear. intros t t' (H1 & H2 & H3) Hs. destruct Hs; simpl in *; subst; try done. by destruct shared.
Qed.

Lemma serve_reachable s : star (serve_step answer shared) started s → serve_inv s.
Proof. apply star_invariant; [apply serve_step_inv|]. by split. Qed.
End Serve.

(** A query of at most 4096 bytes gets the same answer over both transports, but
    for the length in front, unless the deadline of the connection passes first. *)
Lemma transports_agree r query rest addr t tk : (length query ≤ 4096)%nat →
  let framed := enc16 (Z.of_nat (length query)) ++ query ++ rest in
  answer_connection r (TcpConn framed addr t tk) =
  if decide (t + resolve_time (TcpConn framed addr t tk) (fst (Resolve exchange_once r query (host_of addr))) < connDeadline)%Z
  then map (λ p : reply, (p.1, enc16 (w16 (Z.of_nat (length p.2))) ++ p.2)) (answer_datagram r (query, addr)) else [].
Proof.
  intros Hq framed. unfold answer_connection, answer_datagram, handle_udp, handleTCP. cbn [fst snd stream from read_after]. rewrite (take_ge query 4096) by exact Hq.
  rewrite decide_False by (simpl; lia). unfold framed at 1 2. rewrite be16_head by lia.
  rewrite decide_False by (unfold framed; rewrite !length_app; simpl; lia).
  unfold framed at 1. change (drop 2 (enc16 _ ++ query ++ rest)) with (query ++ rest). rewrite Nat2Z.id, take_app_length.
  destruct (Resolve exchange_once r query (host_of addr)) as [evs o]. cbn [fst snd].
  destruct o as [[resp|]| | |]; simpl; [done|..]; by destruct (decide _).
Qed.

(** C9. The server over its two transports, whatever order its goroutines end in.
    While the loop of a transport runs no reply is lost: the replies written are,
    up to their order, the resolver's answers to what was read, but for the
    goroutines still at work, and these can all answer, each to its sender. The
    loop returns at the first failed read and reads nothing more; then the
    connections already accepted are still answered, but no datagram is: its
    socket is closed, and every reply not yet written is lost. A query gets the
    same answer over a connection as in a datagram if it is ready within the five
    seconds of the connection, and none otherwise. A start that fails leaves no
    socket open and no loop running, one that succeeds both. *)
Theorem server_answers r load listen_udp listen_tcp sv :
  (∀ s, star (serveUDP r) started s →
    answers (answer_datagram r) (arrived s) ≡ₚ written_replies s ++ lost_replies s ++ answers (answer_datagram r) (in_flight s) ∧
    (loop_runs s = true → lost_replies s = [] ∧ ∃ s', star (serveUDP r) s s' ∧ in_flight s' = [] ∧ arrived s' = arrived s ∧
      written_replies s' ≡ₚ answers (answer_datagram r) (arrived s)) ∧
    (loop_runs s = false → ∀ s', star (serveUDP r) s s' → arrived s' = arrived s ∧ written_replies s' = written_replies s)) ∧
  (∀ s, star (serveTCP r) started s →
    answers (answer_connection r) (arrived s) ≡ₚ written_replies s ++ answers (answer_connection r) (in_flight s) ∧
    (∃ s', star (serveTCP r) s s' ∧ in_flight s' = [] ∧ arrived s' = arrived s ∧ written_replies s' ≡ₚ answers (answer_connection r) (arrived s)) ∧
    (loop_runs s = false → ∀ s', star (serveTCP r) s s' → arrived s' = arrived s)) ∧
  (∀ query rest addr t tk, (length query ≤ 4096)%nat →
    let c := TcpConn (enc16 (Z.of_nat (length query)) ++ query ++ rest) addr t tk in
    answer_connection r c =
    if decide (t + resolve_time c (fst (Resolve exchange_once r query (host_of addr))) < connDeadline)%Z
    then map (λ p : reply, (p.1, enc16 (w16 (Z.of_nat (length p.2))) ++ p.2)) (answer_datagram r (query, addr)) else []) ∧
  match Start load listen_udp listen_tcp sv with
  | (sv', None) => sockets sv' = UDPConn :: TCPListener :: sockets sv ∧ running sv' = (running sv + 2)%nat
  | (sv', Some _) => sockets sv' = sockets sv ∧ running sv' = running sv
  end.
Proof.
  assert (Hall : ∀ A (answer : A → list reply) shared s, serve_inv answer shared s → loop_runs s = true ∨ shared = false →
    ∃ s', star (serve_step answer shared) s s' ∧ in_flight s' = [] ∧ arrived s' = arrived s ∧ written_replies s' ≡ₚ answers answer (arrived s)).
  { intros A answer shared s [H1 H2] Hr. destruct (serve_all answer shared s Hr) as (s' & Hs & E1 & E2 & E3 & _).
    exists s'. split; [done|]. split; [done|]. split; [done|]. by rewrite E2, H1, H2. }
  split; [|split; [|split; [by intros; apply transports_agree|unfold Start; by destruct listen_udp, listen_tcp]]]; intros s Hs.
  - pose proof (serve_reachable _ _ _ Hs) as [H1 H2]. split; [done|]. split.
    + intros Hr. split; [auto|]. apply Hall; [by split|by left].
    + intros Hr s' Hs'. destruct (serve_ended _ _ _ _ Hr Hs') as (_ & E1 & E2). auto.
  - pose proof (serve_reachable _ _ _ Hs) as [H1 H2]. split; [by rewrite H1, H2 by (by right)|]. split.
    + apply Hall; [by split|by right].
    + intros Hr s' Hs'. apply (serve_ended _ _ _ _ Hr Hs').
Qed.
End Loops.

(** The reply is not matched with the query: the first datagram, cut at 4096
    bytes, goes to the client, whatever its id, its question or its form. *)
Theorem any_datagram_relayed `{UnicodeTables} {P} `{PolicyReader P} net (r : Resolver P) query m q qs u us d src :
  (length query ≤ 4096)%nat → parseQuery query = Ret m → m_questions m = q :: qs →
  paused r (host_of src) = false → IsBlocked (blocklist r) (q_name q) = false → categories r (host_of src) = [] →
  upstreams r = u :: us → net u query = Exchange None None (Ret d) →
  answer_datagram (forwardOnce net) r (query, src) = [(src, take 4096 d)].
Proof.
  intros Hl Hm Hq Hp Hb Hc Hu Hn. unfold answer_datagram, handle_udp, Resolve. cbn [fst snd]. rewrite (take_ge query 4096) by exact Hl.
  rewrite Hm, Hq, Hp, Hb, Hc. unfold forward. rewrite Hu. unfold forward_loop at 1, forwardOnce. by rewrite Hn.
Qed.

(** ** Concrete instances *)

#[local] Existing Instance ascii_tables.

(** A datagram, a failed read, and the reply of the first comes too late. *)
Definition one_read : transport (bytes * string) :=
  Transport true [(sample_query, "10.10.0.5:4000"%string)] [(sample_query, "10.10.0.5:4000"%string)] [] [].

Lemma server_answers_witness :
  (∃ s', star (serveUDP flaky open_resolver) one_read s' ∧ in_flight s' = [] ∧
    written_replies s' ≡ₚ [("10.10.0.5:4000"%string, x2a :: sample_query)]) ∧
  ∀ s', star (serveUDP flaky open_resolver) (Transport false (arrived one_read) (in_flight one_read) [] []) s' → written_replies s' = [].
Proof.
  destruct (server_answers flaky open_resolver (λ b, (b, None)) None None (Server NewBlocklist [] 0 false)) as (H & _).
  assert (H1 : star (serveUDP flaky open_resolver) started one_read) by (eapply star_step; [apply sv_read|apply star_refl]).
  split.
  - destruct (H one_read H1) as (_ & Hr & _). destruct (Hr eq_refl) as (_ & s' & Hs & Hf & _ & Hw). exists s'. split; [exact Hs|]. split; [exact Hf|].
    rewrite Hw. apply reflexive_eq. vm_compute. reflexivity.
  - intros s' Hs. apply (proj2 (proj2 (H (Transport false (arrived one_read) (in_flight one_read) [] []) ltac:(eapply star_trans; [exact H1|]; eapply star_step; [apply sv_error|apply star_refl])))); [reflexivity|exact Hs].
Defined.

(** Both servers of [NewResolver] keep silent for the three seconds of their
    exchanges: the datagram is answered with a SERVFAIL, the connection not at
    all. *)
Theorem silent_upstreams_unanswered `{UnicodeTables} {P} `{PolicyReader P} exchange_once bl p query rest addr m q qs t tk :
  let r := NewResolver bl p in let c := TcpConn (enc16 (Z.of_nat (length query)) ++ query ++ rest) addr t tk in
  (12 ≤ length query ≤ 4096)%nat → parseQuery query = Ret m → m_questions m = q :: qs → refused r q (host_of addr) = false →
  (∀ u, u ∈ upstreams r → fails exchange_once query u ∧ tk u = (3 * second)%Z) → (0 ≤ t)%Z →
  answer_connection exchange_once r c = [] ∧ ∃ resp, buildServFail query = Ret (Some resp) ∧ answer_datagram exchange_once r (query, addr) = [(addr, resp)].
Proof.
  intros r c Hl Hm Hq Hr Hu Ht. destruct (buildServFail_Some query) as [sf Hsf]; [lia|].
  assert (HR : Resolve exchange_once r query (host_of addr) = ([Contact "1.1.1.1:53"; Contact "8.8.8.8:53"]%string, Ret (Some sf))).
  { rewrite (open_resolution _ _ _ _ _ _ _ Hm Hq Hr). unfold forward, r. simpl.
    destruct (Hu "1.1.1.1:53"%string) as [[e1 ->] _]; [by left|]. destruct (Hu "8.8.8.8:53"%string) as [[e2 ->] _]; [by right; left|]. by rewrite Hsf. }
  split.
  - unfold c. rewrite transports_agree by lia. rewrite HR. rewrite decide_False; [done|]. unfold resolve_time. simpl.
    destruct (Hu "1.1.1.1:53"%string) as [_ ->]; [by left|]. destruct (Hu "8.8.8.8:53"%string) as [_ ->]; [by right; left|].
    unfold connDeadline, second. lia.
  - exists sf. split; [done|]. unfold answer_datagram, handle_udp. cbn [fst snd]. rewrite (take_ge query 4096) by lia. by rewrite HR.
Qed.

Lemma silent_upstreams_unanswered_witness :
  answer_connection (λ _ _, Err "i/o timeout") (NewResolver NewBlocklist (None (A := Policy.Runtime string)))
    (TcpConn (enc16 (Z.of_nat (length sample_query)) ++ sample_query ++ []) "10.10.0.5:4000" 0 (λ _, 3 * second)%Z) = [].
Proof.
  apply (silent_upstreams_unanswered (λ _ _, Err "i/o timeout"%string) NewBlocklist (None (A := Policy.Runtime string)) sample_query [] "10.10.0.5:4000"
    (Msg 258 256 1 [Question "x.bad" 1 1] sample_query) (Question "x.bad" 1 1) [] 0 (λ _, 3 * second)%Z);
    [simpl; lia|by vm_compute|done|by vm_compute| |lia].
  intros u _. split; [by eexists|done].
Defined.

(** One byte that is no DNS message is passed on as the answer. *)
Lemma any_datagram_relayed_witness :
  answer_datagram (forwardOnce (λ _ _, Exchange None None (Ret [x2a]))) open_resolver (sample_query, "10.10.0.5:4000"%string) =
  [("10.10.0.5:4000"%string, [x2a])].
Proof.
  apply (any_datagram_relayed _ _ _ (Msg 258 256 1 [Question "x.bad" 1 1] sample_query) (Question "x.bad" 1 1) [] "1.1.1.1:53" ["8.8.8.8:53"%string] [x2a]);
    [simpl; lia|by vm_compute|done..].
Defined.
