(* ===== verification/Ddns.v ===== *)
(** [internal/app/ddns_updater.go]: detection of the public address by three
    sources and its publication in the [nodes] table. *)
From stdpp Require Import gmap.
From S2P Require Import Prelude GoString.

Local Open Scope string_scope.
Local Open Scope list_scope.

(** What a source gives: no response, or a status and the part of the body read
    (at most 64 bytes), or an error while reading. The status is not looked
    at. *)
Inductive ip_response :=
| NoAnswer
| ReadError (status : Z)
| Body (status : Z) (body : string).

Section Ddns.
Context `{U : UnicodeTables}.

(** [json.Unmarshal] into a [map[string]string]. *)
Variable unmarshal : string → option (gmap string string).

Definition fetchIP (jsonKey : string) (r : ip_response) : go string :=
  match r with
  | NoAnswer => Err "get"
  | ReadError _ => Err "read"
  | Body _ body =>
      if String.eqb jsonKey "" then Ret (trim_space body) else
      match unmarshal body with None => Err "unmarshal" | Some m => Ret (default "" (m !! jsonKey)) end
  end.

(** The keys of [ipSources]; an empty one stands for plain text. *)
Definition ipSources : list string := [""; "ip"; ""].

Definition vote (results : gmap string nat) (r : go string) : gmap string nat :=
  match r with
  | Ret ip =>
      let ip := trim_space ip in
      if String.eqb ip "" then results else <[ip := S (default 0%nat (results !! ip))]> results
  | _ => results
  end.

Definition tally (answers : list ip_response) : gmap string nat :=
  fold_left vote (zip_with fetchIP ipSources answers) ∅.

(** The order in which [range] visits a map; it changes from call to call. *)
Variable range : gmap string nat → list (string * nat).

Definition detectPublicIP (answers : list ip_response) : go string :=
  let results := tally answers in
  match List.find (λ kv : string * nat, (2 <=? kv.2)%nat) (range results) with
  | Some (ip, _) => Ret ip
  | None =>
      match range results with
      | (ip, _) :: _ => Ret ip
      | [] => Err "all IP detection sources failed or disagreed"
      end
  end.

(** ** The loop of [StartDDNSUpdater]

    [published] lists, newest first, the address and endpoint host of the
    updates that succeeded. *)
Record ddns := Ddns { lastKnownIP : string; published : list (string * string) }.

Definition ddns_cycle (duckDNSHost : string) (s : ddns) (detected : go string) (update_ok : bool) : ddns :=
  match detected with
  | Ret currentIP =>
      if String.eqb currentIP (lastKnownIP s) then s else
      let endpoint := if String.eqb duckDNSHost "" then currentIP else duckDNSHost in
      if update_ok then Ddns currentIP ((currentIP, endpoint) :: published s) else s
  | _ => s
  end.

Fixpoint ddns_run (duckDNSHost : string) (s : ddns) (cycles : list (go string * bool)) : ddns :=
  match cycles with
  | [] => s
  | (d, ok) :: cycles => ddns_run duckDNSHost (ddns_cycle duckDNSHost s d ok) cycles
  end.

(** ** The vote *)

(** What the sources answered, once trimmed. *)
Definition named (answers : list ip_response) : list string :=
  List.filter (λ ip, negb (String.eqb ip ""))
    (omap (λ r, match r with Ret ip => Some (trim_space ip) | _ => None end) (zip_with fetchIP ipSources answers)).

Definition count (ip : string) (l : list string) : nat := length (List.filter (String.eqb ip) l).

Lemma fold_vote rs : ∀ m ip, ip ≠ "" →
  default 0%nat (fold_left vote rs m !! ip) =
  (default 0%nat (m !! ip) + count ip (List.filter (λ ip, negb (String.eqb ip ""))
    (omap (λ r, match r with Ret ip => Some (trim_space ip) | _ => None end) rs)))%nat.
Proof.
  induction rs as [|r rs IH]; intros m ip Hip; simpl; [unfold count; simpl; lia|]. rewrite IH by done. unfold vote.
  destruct r as [x|e| |]; simpl; [|reflexivity..]. destruct (String.eqb_spec (trim_space x) "") as [E|E]; [reflexivity|].
  simpl. unfold count. simpl. destruct (String.eqb_spec ip (trim_space x)) as [->|Hne].
  - rewrite lookup_insert_eq. change (list_omap (go string) string) with (@omap list _ (go string) string). destruct (m !! trim_space x); simpl; [by rewrite Nat.add_succ_r|reflexivity].
  - by rewrite lookup_insert_ne.
Qed.

Lemma vote_domain rs : ∀ m, (∀ ip n, m !! ip = Some n → ip ≠ "" ∧ (0 < n)%nat) →
  ∀ ip n, fold_left vote rs m !! ip = Some n → ip ≠ "" ∧ (0 < n)%nat.
Proof.
  induction rs as [|r rs IH]; intros m Hm; simpl; [exact Hm|]. apply IH. unfold vote. destruct r as [x|e| |]; [|exact Hm..].
  cbv zeta. destruct (String.eqb_spec (trim_space x) "") as [E|E]; [exact Hm|].
  intros ip n [[<- <-]|[_ H]]%lookup_insert_Some; [split; [done|lia]|by apply Hm].
Qed.

Lemma tally_spec answers ip n : tally answers !! ip = Some n ↔ ip ≠ "" ∧ (0 < n)%nat ∧ count ip (named answers) = n.
Proof.
  assert (H0 : ∀ ip n, (∅ : gmap string nat) !! ip = Some n → ip ≠ "" ∧ (0 < n)%nat) by (intros ? ? H; by rewrite lookup_empty in H).
  pose proof (fold_vote (zip_with fetchIP ipSources answers) ∅ ip) as Hc.
  pose proof (vote_domain (zip_with fetchIP ipSources answers) ∅ H0 ip) as Hd. fold (tally answers) in *. fold (named answers) in Hc.
  split.
  - intros H. destruct (Hd n H) as [H1 H2]. split; [done|]. split; [done|]. rewrite H, lookup_empty in Hc. symmetry. by apply Hc.
  - intros (H1 & H2 & H3). specialize (Hc H1). rewrite lookup_empty in Hc. simpl in Hc. rewrite H3 in Hc.
    destruct (tally answers !! ip); simpl in Hc; [by subst|lia].
Qed.

Lemma count_two ip jp l : (length l ≤ 3)%nat → (2 ≤ count ip l)%nat → (2 ≤ count jp l)%nat → ip = jp.
Proof.
  intros Hl Hi Hj. destruct (decide (ip = jp)) as [|Hne]; [done|]. exfalso.
  assert (H : (count ip l + count jp l ≤ length l)%nat); [|lia]. clear Hl Hi Hj.
  unfold count. induction l as [|x l IH]; simpl; [lia|].
  destruct (String.eqb_spec ip x), (String.eqb_spec jp x); simpl; try lia. by subst.
Qed.

Lemma named_length answers : (length (named answers) ≤ 3)%nat.
Proof.
  unfold named. etrans; [apply List.filter_length_le|].
  unfold ipSources. destruct answers as [|a [|b [|c ?]]]; simpl; repeat (destruct (fetchIP _ _); simpl); lia.
Qed.

Hypothesis range_all : ∀ m, range m ≡ₚ map_to_list m.

Lemma range_in m ip n : (ip, n) ∈ range m ↔ m !! ip = Some n.
Proof. rewrite (range_all m). by rewrite elem_of_map_to_list. Qed.

(** Two sources that agree decide, in whatever order the map is visited: the
    address is theirs, whatever the third says. An address is always one that
    some source gave, and there is an error only when none gave any. *)
Theorem detect_consensus answers :
  (∀ ip, ip ≠ "" → (2 ≤ count ip (named answers))%nat → detectPublicIP answers = Ret ip) ∧
  match detectPublicIP answers with
  | Ret ip => ip ≠ "" ∧ (ip ∈ named answers)
  | Err _ => named answers = []
  | _ => False
  end.
Proof.
  assert (Hin : ∀ ip n, (ip, n) ∈ range (tally answers) → ip ≠ "" ∧ (ip ∈ named answers)).
  { intros ip n H%range_in%tally_spec. destruct H as (H1 & H2 & H3). split; [done|]. unfold count in H3.
    destruct (List.filter (String.eqb ip) (named answers)) as [|x l] eqn:E; [simpl in H3; lia|].
    assert (Hx : In x (List.filter (String.eqb ip) (named answers))) by (rewrite E; by left).
    apply filter_In in Hx as [Hx Heq]. apply String.eqb_eq in Heq as ->. by apply list_elem_of_In. }
  unfold detectPublicIP. split.
  - intros ip Hne Hc. assert (Hip : (ip, count ip (named answers)) ∈ range (tally answers))
      by (apply range_in, tally_spec; split; [done|split; [lia|done]]).
    destruct (List.find _ _) as [[jp n]|] eqn:Ef.
    + apply find_some in Ef as [Hj Hn]. apply list_elem_of_In, range_in, tally_spec in Hj as (_ & _ & Hj). cbn [snd] in Hn.
      apply Nat.leb_le in Hn. rewrite (count_two jp ip (named answers)); [done|apply named_length|lia|done].
    + apply list_elem_of_In in Hip. eapply find_none in Ef; [|exact Hip]. cbn [snd] in Ef. apply Nat.leb_gt in Ef. lia.
  - destruct (List.find _ _) as [[jp n]|] eqn:Ef.
    + apply find_some in Ef as [Hj _]. apply list_elem_of_In in Hj. by eapply Hin.
    + destruct (range (tally answers)) as [|[ip n] l] eqn:El; [|apply (Hin ip n); left].
      destruct (named answers) as [|ip l] eqn:En; [done|]. exfalso.
      assert (Hne : ip ≠ "").
      { assert (Hi : In ip (named answers)) by (rewrite En; by left). unfold named in Hi. apply filter_In in Hi as [_ Hi].
        by destruct (String.eqb_spec ip ""). }
      assert (H : (ip, count ip (named answers)) ∈ range (tally answers)).
      { apply range_in, tally_spec. split; [done|]. split; [|done]. rewrite En. unfold count. simpl. rewrite String.eqb_refl. simpl. lia. }
      rewrite El in H. by apply elem_of_nil in H.
Qed.

(** When the sources that answer, two or three, all name different
    addresses, the first one visited is published all the same; the description promises that the update
    is skipped until two sources agree. *)
Theorem detect_without_consensus duckDNSHost s answers ip l :
  range (tally answers) = (ip, 1%nat) :: l → l ≠ [] → (∀ jp, (count jp (named answers) ≤ 1)%nat) → lastKnownIP s ≠ ip →
  lastKnownIP (ddns_cycle duckDNSHost s (detectPublicIP answers) true) = ip.
Proof.
  intros Hr _ Hc Hne. unfold detectPublicIP. rewrite Hr.
  destruct (List.find _ _) as [[jp n]|] eqn:Ef.
  - rewrite <- Hr in Ef. apply find_some in Ef as [Hj Hn]. apply list_elem_of_In, range_in, tally_spec in Hj as (_ & _ & Hj). cbn [snd] in Hn.
    apply Nat.leb_le in Hn. specialize (Hc jp). lia.
  - simpl. destruct (String.eqb_spec ip (lastKnownIP s)); [congruence|done].
Qed.

Lemma ddns_run_published host : ∀ cycles s,
  (lastKnownIP s = "" ∨ ∃ e l, published s = (lastKnownIP s, e) :: l) →
  let s' := ddns_run host s cycles in lastKnownIP s' = "" ∨ ∃ e l, published s' = (lastKnownIP s', e) :: l.
Proof.
  induction cycles as [|[d ok] cycles IH]; intros s H; [exact H|]. simpl. apply IH. unfold ddns_cycle.
  destruct d as [ip| | |]; [|exact H..]. destruct (String.eqb _ _); [exact H|]. destruct ok; [|exact H]. right. simpl. eauto.
Qed.
End Ddns.

(** ** Concrete runs *)

#[local] Existing Instance ascii_tables.

Definition no_json (_ : string) : option (gmap string string) := None.
Definition toy_json (body : string) : option (gmap string string) := Some {["ip" := body]}.

Lemma detect_consensus_witness :
  detectPublicIP toy_json map_to_list [Body 200 ("203.0.113.7" +:+ String "010" ""); Body 200 "198.51.100.1"; Body 502 " 203.0.113.7"] = Ret "203.0.113.7".
Proof.
  apply (detect_consensus toy_json map_to_list (λ m, reflexivity _)).
  - discriminate.
  - vm_compute. lia.
Defined.

Definition disagreeing : list ip_response := [Body 200 "192.0.2.1"; NoAnswer; Body 200 "192.0.2.9"].

Lemma detect_without_consensus_witness :
  lastKnownIP (ddns_cycle "" (Ddns "203.0.113.7" []) (detectPublicIP toy_json map_to_list disagreeing) true) ∈ ["192.0.2.1"; "192.0.2.9"].
Proof.
  destruct (map_to_list (tally toy_json disagreeing)) as [|[ip n] l] eqn:E; [vm_compute in E; discriminate|].
  assert (H : n = 1%nat ∧ l ≠ [] ∧ (ip ∈ ["192.0.2.1"; "192.0.2.9"]) ∧ "203.0.113.7" ≠ ip).
  { vm_compute in E. injection E as <- <- <-. split; [done|]. split; [done|]. split; [|done]. by repeat constructor. }
  destruct H as (Hn & Hl & Hip & Hne). rewrite Hn in E.
  rewrite (detect_without_consensus toy_json map_to_list (λ m, reflexivity _) "" (Ddns "203.0.113.7" []) disagreeing ip l E Hl); [exact Hip| |exact Hne].
  intros jp. unfold count. replace (named toy_json disagreeing) with ["192.0.2.1"; "192.0.2.9"] by (vm_compute; reflexivity).
  simpl. destruct (String.eqb_spec jp "192.0.2.1") as [->|]; simpl; [lia|]. destruct (String.eqb jp "192.0.2.9"); simpl; lia.
Defined.
