(* ===== verification/Background.v ===== *)
(** Loops that run beside the services: the presence engine
    ([internal/presence/engine.go]: [Start], its goroutine and [Stop]), the timer of
    the ingest of newly registered domains ([runNRDIngest] of
    [internal/controlsync/nrdsync.go]), and the request with which
    [internal/app/ddns_updater.go] publishes the address of the node. *)
From stdpp Require Import gmap.
From S2P Require Import Prelude GoString Net Requests Presence Ddns.

Local Open Scope string_scope.
Local Open Scope list_scope.

(** ** The presence engine *)

Section Engine.
Context `{U : UnicodeTables}.

(** What one scan finds: which database calls succeed, the ARP table, the lease
    files, the enrolled devices and the time. *)
Record round := Round {
  r_ok : nat → bool * bool;
  r_arp : go (string * option string);
  r_leases : string → option string;
  r_enrolled : gset string;
  r_now : time;
}.

Definition one_scan (r : round) (reg : registry) : registry * list seen_event :=
  Presence.scan (r_ok r) (r_arp r) (r_leases r) (r_enrolled r) (r_now r) reg.

(** The scans of a list of rounds, one after another. *)
Fixpoint scans (rs : list round) (reg : registry) : registry * list seen_event :=
  match rs with
  | [] => (reg, [])
  | r :: rs => let '(reg, es) := one_scan r reg in let '(reg, es') := scans rs reg in (reg, es ++ es')
  end.

(** The goroutine: in a scan, in the [select], or ended; [Stop] cancels and
    waits for it. *)
Inductive engine_at := InScan | InSelect | GoroutineDone.
Inductive engine_stop := Idle | Stopping | EngineStopped.

Record engine := Engine {
  place : engine_at;
  ctx_done : bool;
  device_registry : registry;
  emitted : list seen_event;
  stop : engine_stop;
}.

Definition Start (reg : registry) : engine := Engine InScan false reg [] Idle.

(** The [select] takes either case when both are ready. *)
Inductive engine_step : engine → engine → Prop :=
| es_scan r d reg es st : engine_step (Engine InScan d reg es st) (Engine InSelect d (one_scan r reg).1 (es ++ (one_scan r reg).2) st)
| es_tick d reg es st : engine_step (Engine InSelect d reg es st) (Engine InScan d reg es st)
| es_done reg es st : engine_step (Engine InSelect true reg es st) (Engine GoroutineDone true reg es st)
| es_context p reg es st : engine_step (Engine p false reg es st) (Engine p true reg es st)
| es_stop p d reg es : engine_step (Engine p d reg es Idle) (Engine p true reg es Stopping)
| es_stopped d reg es : engine_step (Engine GoroutineDone d reg es Stopping) (Engine GoroutineDone d reg es EngineStopped).

Lemma one_scan_keeps r reg mac d : reg !! mac = Some d →
  ∃ d', (one_scan r reg).1 !! mac = Some d' ∧ d_first_seen d' = d_first_seen d.
Proof.
  unfold one_scan, scan. destruct (readARP (r_arp r)) as [es| | |]; simpl; [|by eauto..]. intros Hd.
  destruct (scan_keeps (readLeases (r_leases r)) (r_enrolled r) (r_now r) (r_ok r) es 0 reg mac d Hd) as (d' & H1 & H2 & _). eauto.
Qed.

Lemma scans_app rs r reg : scans (rs ++ [r]) reg =
  ((one_scan r (scans rs reg).1).1, (scans rs reg).2 ++ (one_scan r (scans rs reg).1).2).
Proof.
  revert reg. induction rs as [|x rs IH]; intros reg; simpl; [destruct (one_scan r reg); simpl; by rewrite app_nil_r|].
  destruct (one_scan x reg) as [reg' es]. rewrite IH. destruct (scans rs reg') as [reg'' es']. simpl. by rewrite app_assoc.
Qed.

Lemma scans_keep rs : ∀ reg mac d, reg !! mac = Some d →
  ∃ d', (scans rs reg).1 !! mac = Some d' ∧ d_first_seen d' = d_first_seen d.
Proof.
  induction rs as [|r rs IH]; intros reg mac d Hd; simpl; [eauto|].
  destruct (one_scan_keeps r reg mac d Hd) as (d' & H1 & H2). destruct (one_scan r reg) as [reg' es]; simpl in H1.
  destruct (IH reg' mac d' H1) as (d'' & H3 & H4). destruct (scans rs reg') as [reg'' es']. exists d''. split; [exact H3|congruence].
Qed.

Definition engine_inv (reg : registry) (e : engine) : Prop :=
  (∃ rs, (device_registry e, emitted e) = scans rs reg) ∧
  (stop e ≠ Idle → ctx_done e = true) ∧ (stop e = EngineStopped → place e = GoroutineDone) ∧
  (place e = GoroutineDone → ctx_done e = true).

Lemma engine_step_inv reg e e' : engine_inv reg e → engine_step e e' → engine_inv reg e'.
Proof.
  intros ((rs & Hr) & H1 & H2 & H3) Hst. destruct Hst; simpl in *; unfold engine_inv; simpl; split_and!; intros; subst;
    try (by exists rs); try done; try (by specialize (H2 eq_refl)); auto.
  - match goal with |- ∃ _, _ = _ => eexists (rs ++ [_]) end. rewrite scans_app, <- Hr. reflexivity.
Qed.

(** The presence engine: at any moment the registry and the events are those of
    the scans made so far, one after another; no device of the database it was
    started on is lost and none changes its first sighting. A [Stop] that waits
    can always go on to its end, and after it nothing changes any more. *)
Theorem presence_runs reg e : star engine_step (Start reg) e →
  (∃ rs, (device_registry e, emitted e) = scans rs reg) ∧
  (∀ mac d, reg !! mac = Some d → ∃ d', device_registry e !! mac = Some d' ∧ d_first_seen d' = d_first_seen d) ∧
  (stop e = Stopping → ∃ e', star engine_step e e' ∧ stop e' = EngineStopped) ∧
  (stop e = EngineStopped → ∀ e', star engine_step e e' → e' = e).
Proof.
  intros Hs. assert (Hi : engine_inv reg e).
  { revert Hs. apply star_invariant; [apply engine_step_inv|]. split; [by exists []|done]. }
  destruct Hi as ((rs & Hr) & H1 & H2 & H3). split; [by exists rs|]. split.
  { intros mac d Hd. destruct (scans_keep rs reg mac d Hd) as (d' & Hd'). rewrite <- Hr in Hd'. eauto. }
  destruct e as [p d reg' es st]; simpl in *. split.
  - intros ->. assert (Hend : ∀ reg es, star engine_step (Engine InSelect true reg es Stopping) (Engine GoroutineDone true reg es EngineStopped)).
    { intros. eapply star_step; [apply es_done|]. eapply star_step; [apply es_stopped|apply star_refl]. }
    rewrite H1 by done. destruct p.
    + eexists. split; [eapply star_step; [apply (es_scan (Round (λ _, (true, true)) (Err "") (λ _, None) ∅ 0))|apply Hend]|done].
    + eexists. split; [apply Hend|done].
    + eexists. split; [eapply star_step; [apply es_stopped|apply star_refl]|done].
  - intros -> e' He. rewrite (H2 eq_refl) in *. rewrite (H3 eq_refl) in *.
    revert He. apply (star_invariant engine_step (λ e', e' = Engine GoroutineDone true reg' es EngineStopped)); [|done].
    intros ? ? -> Hst. inversion Hst.
Qed.
End Engine.

(** ** The timer of the ingest *)

Definition NRDIngestInterval : duration := (23 * hour)%Z.

(** [runNRDIngest]: the times at which the ingest runs begin, counted from the
    start of the goroutine, for a list of runs given by how long each takes and
    what it returns. *)
Fixpoint ingest_loop (fires : time) (runs : list (duration * go unit)) : list time :=
  match runs with
  | [] => []
  | (took, result) :: runs =>
      fires :: ingest_loop (fires + took + match result with Err _ => 1 * hour | _ => NRDIngestInterval end)%Z runs
  end.

Definition runNRDIngest (nodeType : string) (runs : list (duration * go unit)) : list time :=
  if String.eqb nodeType "vps_relay" then [] else ingest_loop (30 * second)%Z runs.

Lemma ingest_loop_lookup runs : ∀ fires i t, ingest_loop fires runs !! i = Some t → (fires = t ∧ i = O) ∨
  ∃ k t' took result, i = S k ∧ ingest_loop fires runs !! k = Some t' ∧ runs !! k = Some (took, result) ∧
    t = (t' + took + match result with Err _ => 1 * hour | _ => NRDIngestInterval end)%Z.
Proof.
  induction runs as [|[took result] runs IH]; intros fires i t; [done|]. destruct i as [|i]; [intros [= <-]; by left|].
  cbn [ingest_loop lookup list_lookup]. intros Ht. right. destruct (IH _ i t Ht) as [[<- ->]|(k & t' & tk & r & -> & H1 & H2 & H3)].
  - by exists 0%nat, fires, took, result.
  - by exists (S k), t', tk, r.
Qed.

Lemma ingest_loop_length runs fires : length (ingest_loop fires runs) = length runs.
Proof. revert fires. induction runs as [|[? ?] runs IH]; intros fires; simpl; [done|]. by rewrite IH. Qed.

(** Every node but the relay ingests: for the first time after half a minute, then
    a day, less an hour, after the end of a run that succeeded, and an hour after
    the end of one that failed, however often it fails. *)
Theorem ingest_timer nodeType runs : Forall (λ r : duration * go unit, 0 ≤ r.1)%Z runs →
  (nodeType = "vps_relay" → runNRDIngest nodeType runs = []) ∧
  (nodeType ≠ "vps_relay" → length (runNRDIngest nodeType runs) = length runs) ∧
  (∀ t, runNRDIngest nodeType runs !! 0%nat = Some t → t = 30 * second)%Z ∧
  (∀ i t t', runNRDIngest nodeType runs !! i = Some t → runNRDIngest nodeType runs !! S i = Some t' →
    (t + 1 * hour ≤ t')%Z ∧ (∀ took, runs !! i = Some (took, Ret tt) → t' = t + took + 23 * hour)%Z).
Proof.
  intros Hr. unfold runNRDIngest. destruct (String.eqb_spec nodeType "vps_relay") as [E|E]; [by split_and!|].
  split; [done|]. split; [intros _; apply ingest_loop_length|]. split.
  - intros t Ht. destruct (ingest_loop_lookup _ _ _ _ Ht) as [[<- _]|(? & ? & ? & ? & ? & _)]; done.
  - intros i t t' Ht Ht'. destruct (ingest_loop_lookup _ _ _ _ Ht') as [[_ ?]|(k & u & took & r & [= <-] & Hu & Hk & ->)]; [done|].
    rewrite Ht in Hu. injection Hu as <-. pose proof (Forall_lookup_1 _ _ _ _ Hr Hk) as Hd. simpl in Hd. split.
    + unfold NRDIngestInterval, hour, minute, second. destruct r; lia.
    + intros took' Hk'. rewrite Hk in Hk'. injection Hk' as <- ->. reflexivity.
Qed.

(** ** Publishing the address *)

Definition q : string := String "034" "".

(** The payload, with Go's [%s] and [%d]. *)
Definition update_payload (publicIP endpoint : string) (port : Z) : string :=
  "{" +:+ q +:+ "public_ip" +:+ q +:+ ":" +:+ q +:+ publicIP +:+ q +:+ "," +:+
  q +:+ "wireguard_endpoint" +:+ q +:+ ":" +:+ q +:+ endpoint +:+ q +:+ "," +:+
  q +:+ "wireguard_port" +:+ q +:+ ":" +:+ pretty port +:+ "," +:+
  q +:+ "last_seen_at" +:+ q +:+ ":" +:+ q +:+ "now()" +:+ q +:+ "}".

Definition update_request (supabaseURL supabaseKey nodeID publicIP endpoint : string) (port : Z) : request :=
  Request "PATCH" (supabaseURL +:+ "/rest/v1/nodes?id=eq." +:+ nodeID)
    (hset "Prefer" "return=minimal" (hset "Content-Type" "application/json"
      (hset "Authorization" ("Bearer " +:+ supabaseKey) (hset "apikey" supabaseKey ∅))))
    (Some (update_payload publicIP endpoint port)).

(** [updateNodeEndpoint], by what the request is answered: an error, or a status
    with the body. *)
Definition updateNodeEndpoint (reply : go (Z * string)) : go unit :=
  match reply with
  | Ret (status, body) => if bool_decide (300 ≤ status)%Z then Err ("Supabase PATCH status " +:+ pretty status +:+ ": " +:+ body) else Ret tt
  | Err e => Err e
  | Panic => Panic
  | Loop => Loop
  end.

(** One round of the loop with its request: the address is remembered only when
    the update went through. *)
Definition update_cycle (duckDNSHost supabaseURL supabaseKey nodeID : string) (wgPort : Z) (s : ddns) (detected : go string) (reply : go (Z * string)) :
    ddns * option request :=
  match detected with
  | Ret currentIP =>
      if String.eqb currentIP (lastKnownIP s) then (s, None) else
      let endpoint := if String.eqb duckDNSHost "" then currentIP else duckDNSHost in
      (match updateNodeEndpoint reply with
       | Ret _ => Ddns currentIP ((currentIP, endpoint) :: published s)
       | _ => s
       end, Some (update_request supabaseURL supabaseKey nodeID currentIP endpoint wgPort))
  | _ => (s, None)
  end.

(** It is the round of [Ddns], by whether the update went through. *)
Lemma update_cycle_state host url key nodeID port s detected reply :
  (update_cycle host url key nodeID port s detected reply).1 =
    ddns_cycle host s detected (match updateNodeEndpoint reply with Ret _ => true | _ => false end).
Proof.
  unfold update_cycle, ddns_cycle. destruct detected; try done. destruct (String.eqb _ _); [done|].
  by destruct (updateNodeEndpoint reply).
Qed.

(** A member of a JSON object whose name and text need no escape. *)
Definition member (k v : string) : string := q +:+ k +:+ q +:+ ":" +:+ q +:+ v +:+ q.

Section Update.
Context `{U : UnicodeTables}.
Variable unmarshal : string → option (gmap string string).
Variable range : gmap string nat → list (string * nat).
Hypothesis range_all : ∀ m, range m ≡ₚ map_to_list m.

(** The answer of an address service is neither checked to be an address nor
    escaped: when the first service alone answers, whatever its status, a text that
    closes its string adds a member of the service's choice to the update, which is
    sent with the key that the updater was given (in [wire], the anonymous one). *)
Theorem answer_sets_columns duckDNSHost url key nodeID port s status ip k v reply :
  let body := ip +:+ q +:+ "," +:+ q +:+ k +:+ q +:+ ":" +:+ q +:+ v in
  duckDNSHost ≠ "" → trim_space body = body → body ≠ lastKnownIP s →
  ∃ r, (update_cycle duckDNSHost url key nodeID port s (detectPublicIP unmarshal range [Body status body; NoAnswer; NoAnswer]) reply).2 = Some r ∧
    Requests.body r = Some ("{" +:+ member "public_ip" ip +:+ "," +:+ member k v +:+ "," +:+ member "wireguard_endpoint" duckDNSHost +:+ "," +:+
      q +:+ "wireguard_port" +:+ q +:+ ":" +:+ pretty port +:+ "," +:+ member "last_seen_at" "now()" +:+ "}") ∧
    hget "Authorization" (headers r) = "Bearer " +:+ key.
Proof.
  intros body Hd Ht Hl.
  assert (E : detectPublicIP unmarshal range [Body status body; NoAnswer; NoAnswer] = Ret body).
  { assert (Hne : String.eqb body "" = false) by (unfold body; destruct ip; reflexivity).
    assert (Hm : tally unmarshal [Body status body; NoAnswer; NoAnswer] = {[body := 1%nat]}).
    { unfold tally. simpl. by rewrite !Ht, Hne. }
    unfold detectPublicIP. rewrite Hm. pose proof (range_all {[body := 1%nat]}) as Hp. rewrite map_to_list_singleton in Hp.
    apply Permutation_singleton_r in Hp. by rewrite Hp. }
  rewrite E. unfold update_cycle. destruct (String.eqb_spec body (lastKnownIP s)) as [|_]; [done|].
  destruct (String.eqb_spec duckDNSHost "") as [|_]; [done|]. eexists. split; [reflexivity|]. split.
  - simpl. f_equal. unfold update_payload, member, body. by repeat (rewrite ?sappend_assoc; cbn [String.append]).
  - reflexivity.
Qed.
End Update.

(** ** Concrete runs *)

#[local] Existing Instance ascii_tables.

Definition first_round : round := Round fails_never (Ret (toy_arp, None)) toy_leases {[toy_mac]} (90 * second)%Z.
Definition later_round : round := Round fails_never (Ret (toy_arp, None)) toy_leases ∅ (200 * second)%Z.
Definition known : registry := (one_scan first_round ∅).1.

(** A second scan, after which the engine is stopped. *)
Lemma presence_runs_witness :
  let e := Engine GoroutineDone true (one_scan later_round known).1 (one_scan later_round known).2 EngineStopped in
  known !! toy_mac = Some (RegRow "10.0.0.6" "tablet" 90 90 true) ∧
  (∃ d', device_registry e !! toy_mac = Some d' ∧ d_first_seen d' = 90%Z) ∧ ∀ e', star engine_step e e' → e' = e.
Proof.
  intros e. assert (He : star engine_step (Start known) e).
  { eapply star_step; [apply (es_scan later_round)|]. eapply star_step; [apply es_stop|]. eapply star_step; [apply es_done|].
    eapply star_step; [apply es_stopped|apply star_refl]. }
  split; [vm_compute; reflexivity|].
  destruct (presence_runs known e He) as (_ & Hk & _ & Hd). split.
  - apply (Hk toy_mac (RegRow "10.0.0.6" "tablet" 90 90 true)). vm_compute. reflexivity.
  - by apply Hd.
Defined.

Lemma ingest_timer_witness :
  runNRDIngest "home_node" [(2 * minute, Err "fetch"); (minute, Ret tt); (minute, Ret tt)]%Z =
    [30 * second; 62 * minute + 30 * second; 24 * hour + 3 * minute + 30 * second]%Z ∧
  length (runNRDIngest "home_node" [(2 * minute, Err "fetch"); (minute, Ret tt); (minute, Ret tt)]%Z) = 3%nat.
Proof.
  split; [reflexivity|].
  apply (ingest_timer "home_node" [(2 * minute, Err "fetch"); (minute, Ret tt); (minute, Ret tt)]%Z); [|discriminate].
  repeat constructor; simpl; unfold minute, second; lia.
Defined.

Lemma answer_sets_columns_witness :
  ∃ r, (update_cycle "home.duckdns.org" "https://cloud" "secret" "node-1" 51820 (Ddns "" [])
    (detectPublicIP no_json map_to_list [Body 200 ("192.0.2.1" +:+ q +:+ "," +:+ q +:+ "family_id" +:+ q +:+ ":" +:+ q +:+ "smith"); NoAnswer; NoAnswer])
    (Ret (204%Z, ""))).2 = Some r ∧ hget "Authorization" (headers r) = "Bearer secret".
Proof.
  destruct (answer_sets_columns no_json map_to_list (λ m, reflexivity _) "home.duckdns.org" "https://cloud" "secret" "node-1" 51820 (Ddns "" [])
    200 "192.0.2.1" "family_id" "smith" (Ret (204%Z, ""))) as (r & H1 & _ & H2); [discriminate|reflexivity|discriminate|].
  exists r. split; [exact H1|exact H2].
Defined.
