(* ===== verification/Upnp.v ===== *)
(** [internal/upnp]: discovery of the gateway, the port mapping with its
    renewals, and its release. *)
From S2P Require Import Prelude GoString Net.

Local Open Scope string_scope.
Local Open Scope list_scope.

(** ** [strings.Index] and slices *)

Fixpoint index (s sub : string) : option nat :=
  if has_prefix s sub then Some 0%nat
  else match s with EmptyString => None | String _ r => S <$> index r sub end.

(** [s[i:j]] *)
Definition sslice (s : string) (i j : nat) : go string :=
  if bool_decide (i ≤ j ≤ String.length s)%nat then Ret (stake (j - i) (sdrop i s)) else Panic.

(** [strings.IndexAny(s, chars)] and the text before it. *)
Fixpoint before_any (chars : list ascii) (s : string) : option string :=
  match s with
  | EmptyString => None
  | String a r => if existsb (Ascii.eqb a) chars then Some "" else String a <$> before_any chars r
  end.

Definition cr_lf : list ascii := [ascii_of_N 13; ascii_of_N 10].

(** [s[:strings.LastIndex(s, "/")+1]] *)
Fixpoint upto_last_slash (s : string) : string :=
  match s with
  | EmptyString => ""
  | String a r =>
      let t := upto_last_slash r in
      if String.eqb t "" then (if Ascii.eqb a "/" then "/" else "") else String a t
  end.

Section Upnp.
Context `{U : UnicodeTables}.

(** ** Parsing *)

Definition extractHeader (resp key : string) : go string :=
  let lower := to_lower resp in
  let lowerKey := to_lower key +:+ ":" in
  match index lower lowerKey with
  | None => Ret ""
  | Some idx =>
      rest ← sslice resp (idx + String.length lowerKey) (String.length resp);
      mret (trim_space (match before_any cr_lf rest with Some h => h | None => rest end))
  end.

Definition extractXML (body tag : string) : go string :=
  let open_tag := "<" +:+ tag +:+ ">" in
  let close_tag := "</" +:+ tag +:+ ">" in
  match index body open_tag with
  | None => Ret ""
  | Some idx =>
      let start := (idx + String.length open_tag)%nat in
      rest ← sslice body start (String.length body);
      match index rest close_tag with
      | None => Ret ""
      | Some fin => sslice body start (start + fin)
      end
  end.

(** One round of the loop over the service types of [getControlURL]: the path
    between the first tags after the type's name. *)
Definition control_path (body svcType : string) : go (option string) :=
  match index body svcType with
  | None => Ret None
  | Some idx =>
      sub ← sslice body idx (String.length body);
      match index sub "<controlURL>" with
      | None => Ret None
      | Some ctrlIdx =>
          tl ← sslice sub ctrlIdx (String.length sub);
          match index tl "</controlURL>" with
          | None => Ret None
          | Some fin => p ← sslice sub (ctrlIdx + 12) (ctrlIdx + fin); mret (Some p)
          end
      end
  end.

(** [strings.SplitN(s, "/", 4)] gives at least three parts: the first and the
    third. *)
Definition host_part (locationURL : string) : option (string * string) :=
  match split_byte "/" locationURL with
  | scheme :: _ :: host :: _ => Some (scheme, host)
  | _ => None
  end.

Definition absolute (locationURL path : string) : string :=
  let base := upto_last_slash locationURL in
  if has_prefix path "/" then
    match host_part locationURL with Some (scheme, host) => scheme +:+ "//" +:+ host +:+ path | None => base +:+ path end
  else base +:+ path.

Fixpoint control_url (locationURL body : string) (types : list string) : go string :=
  match types with
  | [] => Err "no WANIPConnection service in IGD description"
  | t :: types =>
      p ← control_path body t;
      match p with Some path => Ret (absolute locationURL path) | None => control_url locationURL body types end
  end.

Definition serviceTypes : list string := ["WANIPConnection"; "WANPPPConnection"].

(** ** The SOAP requests *)

Definition dq : string := String (ascii_of_N 34) "".
Definition nl : string := String (ascii_of_N 10) "".
Definition attr (name value : string) : string := name +:+ "=" +:+ dq +:+ value +:+ dq.

Definition wanip : string := "urn:schemas-upnp-org:service:WANIPConnection:1".
Definition mappingDuration : Z := 3600.

Definition envelope_head : string :=
  "<?xml " +:+ attr "version" "1.0" +:+ "?>" +:+ nl +:+
  "<s:Envelope " +:+ attr "xmlns:s" "http://schemas.xmlsoap.org/soap/envelope/" +:+ nl +:+
  "            " +:+ attr "s:encodingStyle" "http://schemas.xmlsoap.org/soap/encoding/" +:+ ">" +:+ nl +:+
  "  <s:Body>" +:+ nl.
Definition envelope_tail : string := "  </s:Body>" +:+ nl +:+ "</s:Envelope>".

Definition element (tag value : string) : string := "<" +:+ tag +:+ ">" +:+ value +:+ "</" +:+ tag +:+ ">".
Definition indent : string := nl +:+ "      ".
Definition cat (l : list string) : string := foldr String.append "" l.

Definition open_action (action : string) : string :=
  envelope_head +:+ "    <u:" +:+ action +:+ " " +:+ attr "xmlns:u" wanip +:+ ">".
Definition close_action (action : string) : string := nl +:+ "    </u:" +:+ action +:+ ">" +:+ nl +:+ envelope_tail.

(** The bodies of [addMapping], [deleteMapping] and [getExternalIP]. *)
Definition add_body (port : Z) (description internalIP : string) : string := cat
  [open_action "AddPortMapping";
   indent; element "NewRemoteHost" "";
   indent; element "NewExternalPort" (pretty port);
   indent; element "NewProtocol" "UDP";
   indent; element "NewInternalPort" (pretty port);
   indent; element "NewInternalClient" internalIP;
   indent; element "NewEnabled" "1";
   indent; element "NewPortMappingDescription" description;
   indent; element "NewLeaseDuration" (pretty mappingDuration);
   close_action "AddPortMapping"].

Definition delete_body (port : Z) : string := cat
  [open_action "DeletePortMapping";
   indent; element "NewRemoteHost" "";
   indent; element "NewExternalPort" (pretty port);
   indent; element "NewProtocol" "UDP";
   close_action "DeletePortMapping"].

Definition get_body : string := envelope_head +:+
  "    <u:GetExternalIPAddress " +:+ attr "xmlns:u" wanip +:+ "/>" +:+ nl +:+ envelope_tail.

(** ** The network

    What one [tryMap] meets: the search socket and the datagrams that arrive
    before its deadline, whether [http.NewRequest] accepts a URL, what a GET of
    it gives (the first [Read] of the body), the local address, and the answer
    to a SOAP action (URL, action, body): the status and the first [Read]. *)
Record gateway := Gateway {
  socket : go ();
  datagrams : list string;
  valid_url : string → bool;
  describe : string → go string;
  local_ip : go string;
  soap : string → string → string → go (Z * string);
}.

(** [req, _ := http.NewRequestWithContext(...)] leaves [req] nil for a URL that
    does not parse, and [Do] dereferences it. *)
Definition getControlURL (g : gateway) (locationURL : string) : go string :=
  if negb (valid_url g locationURL) then Panic else
  body ← describe g locationURL; control_url locationURL body serviceTypes.

Fixpoint search (g : gateway) (resps : list string) : go string :=
  match resps with
  | [] => Err "no UPnP gateway found (UPnP may be disabled on router)"
  | resp :: resps =>
      loc ← extractHeader resp "LOCATION";
      if String.eqb loc "" then search g resps else
      match getControlURL g loc with
      | Ret ctrlURL => if String.eqb ctrlURL "" then search g resps else Ret ctrlURL
      | Err _ => search g resps
      | Panic => Panic
      | Loop => Loop
      end
  end.

Definition discover (g : gateway) : go string := _ ← socket g; search g (datagrams g).

Definition soapAction (g : gateway) (ctrlURL action body : string) : go () :=
  if negb (valid_url g ctrlURL) then Err "parse url" else
  r ← soap g ctrlURL action body;
  if negb (Z.eqb r.1 200) then Err "SOAP error" else Ret ().

Definition getExternalIP (g : gateway) (ctrlURL : string) : go string :=
  if negb (valid_url g ctrlURL) then Panic else
  r ← soap g ctrlURL (wanip +:+ "#GetExternalIPAddress") get_body;
  ip ← extractXML r.2 "NewExternalIPAddress";
  if String.eqb ip "" then Err "no IP in response" else Ret ip.

(** ** The service *)

Record Service := MkService { port : Z; description : string; gatewayURL : string; externalIP : string; internalIP : string; mapped : bool }.

Definition New (wireguardPort : Z) : Service := MkService wireguardPort "SafeSwitch-WireGuard" "" "" "" false.

Definition addMapping (g : gateway) (s : Service) (ctrlURL internalIP : string) : go () :=
  soapAction g ctrlURL (wanip +:+ "#AddPortMapping") (add_body (port s) (description s) internalIP).

Definition deleteMapping (g : gateway) (s : Service) (ctrlURL : string) : go () :=
  soapAction g ctrlURL (wanip +:+ "#DeletePortMapping") (delete_body (port s)).

Definition tryMap (g : gateway) (s : Service) : Service * go () :=
  match discover g with
  | Ret gwURL =>
      match local_ip g with
      | Ret lanIP =>
          match addMapping g s gwURL lanIP with
          | Ret _ =>
              match getExternalIP g gwURL with
              | Ret extIP => (MkService (port s) (description s) gwURL extIP lanIP true, Ret ())
              | Err _ => (MkService (port s) (description s) gwURL "" lanIP true, Ret ())
              | Panic => (s, Panic)
              | Loop => (s, Loop)
              end
          | Err e => (s, Err ("add mapping: " +:+ e))
          | Panic => (s, Panic)
          | Loop => (s, Loop)
          end
      | Err e => (s, Err ("get LAN IP: " +:+ e))
      | Panic => (s, Panic)
      | Loop => (s, Loop)
      end
  | Err e => (s, Err ("discover gateway: " +:+ e))
  | Panic => (s, Panic)
  | Loop => (s, Loop)
  end.

(** [release]: the state after it, and the result of the deletion sent, if one
    is; its error is only logged. *)
Definition release (g : gateway) (s : Service) : Service * option (go ()) :=
  (MkService (port s) (description s) (gatewayURL s) (externalIP s) (internalIP s) false,
   if negb (mapped s) || String.eqb (gatewayURL s) "" then None else Some (deleteMapping g s (gatewayURL s))).

(** The first attempt of [Start], then one per tick of [renewEvery] when it
    succeeded; the renewals' errors are only logged. *)
Fixpoint renewals (s : Service) (gs : list gateway) : Service * go () :=
  match gs with
  | [] => (s, Ret ())
  | g :: gs =>
      match tryMap g s with
      | (s, Panic) => (s, Panic)
      | (s, Loop) => (s, Loop)
      | (s, _) => renewals s gs
      end
  end.

Definition lifetime (wireguardPort : Z) (first : gateway) (gs : list gateway) : Service * go () :=
  match tryMap first (New wireguardPort) with
  | (s, Ret _) => renewals s gs
  | (s, Err _) => (s, Ret ())
  | (s, r) => (s, r)
  end.
End Upnp.

(** ** No slice is out of range *)

Lemma prefix_split s p : has_prefix s p = true → ∃ r, s = p +:+ r.
Proof.
  unfold has_prefix. revert s. induction p as [|a p IH]; intros s H; [by exists s|]. destruct s as [|b s]; [done|]. simpl in H.
  destruct (ascii_dec a b) as [->|]; [|done]. destruct (IH s H) as [r ->]. by exists r.
Qed.

Lemma sdrop_eta s n : (n ≤ String.length s)%nat → String.length (sdrop n s) = (String.length s - n)%nat.
Proof. intros _. apply length_sdrop. Qed.

Lemma index_bound s sub i : index s sub = Some i →
  (i + String.length sub ≤ String.length s)%nat ∧ ∃ r, sdrop i s = sub +:+ r.
Proof.
  revert i. induction s as [|a s IH]; intros i; cbn [index].
  - destruct (has_prefix "" sub) eqn:E; [|done]. intros [= <-]. apply prefix_split in E as [r Hr].
    destruct sub; [split; [simpl; lia|by exists ""]|discriminate Hr].
  - destruct (has_prefix (String a s) sub) eqn:E.
    + intros [= <-]. apply prefix_split in E as [r Hr]. pose proof (f_equal String.length Hr) as Hl.
      rewrite length_append in Hl. simpl in *. split; [lia|]. exists r. exact Hr.
    + destruct (index s sub) as [j|] eqn:Ej; [|done]. intros [= <-]. destruct (IH j eq_refl) as [H1 H2]. simpl. split; [lia|done].
Qed.

Lemma sslice_ok s i j : (i ≤ j ≤ String.length s)%nat → sslice s i j = Ret (stake (j - i) (sdrop i s)).
Proof. intros H. unfold sslice. by rewrite bool_decide_true. Qed.

Lemma stake_all s n : (String.length s ≤ n)%nat → stake n s = s.
Proof. revert n. induction s as [|a s IH]; intros [|n] H; simpl in *; try lia; [done..|]. f_equal. apply IH. lia. Qed.

Lemma sslice_rest s i : (i ≤ String.length s)%nat → sslice s i (String.length s) = Ret (sdrop i s).
Proof. intros H. rewrite sslice_ok by lia. rewrite stake_all; [done|]. rewrite length_sdrop. lia. Qed.

(** The closing tag does not start inside the opening one. *)
Lemma closing_after_opening tl r fin : tl = "<controlURL>" +:+ r → index tl "</controlURL>" = Some fin → (12 ≤ fin)%nat.
Proof.
  intros -> H. apply index_bound in H as [_ [q Hq]].
  do 12 (destruct fin as [|fin]; [discriminate Hq|]). lia.
Qed.

Lemma control_path_safe body t : safe (control_path body t).
Proof.
  unfold control_path. destruct (index body t) as [idx|] eqn:E1; [|by split]. apply index_bound in E1 as [H1 _].
  rewrite sslice_rest by lia. cbn [mbind go_bind]. set (sub := sdrop idx body).
  destruct (index sub "<controlURL>") as [ctrlIdx|] eqn:E2; [|by split]. apply index_bound in E2 as [H2 [r Hr]].
  rewrite sslice_rest by lia. cbn [mbind go_bind]. destruct (index (sdrop ctrlIdx sub) "</controlURL>") as [fin|] eqn:E3; [|by split].
  pose proof (closing_after_opening _ _ _ Hr E3). apply index_bound in E3 as [H3 _]. rewrite length_sdrop in H3. simpl in *.
  rewrite sslice_ok by lia. by split.
Qed.

Lemma control_url_safe loc body types : safe (control_url loc body types).
Proof.
  induction types as [|t types IH]; simpl; [by split|]. apply safe_bind; [apply control_path_safe|].
  intros [p|] _; [by split|exact IH].
Qed.

Lemma extractXML_safe body tag : safe (extractXML body tag).
Proof.
  unfold extractXML. destruct (index body _) as [idx|] eqn:E1; [|by split]. apply index_bound in E1 as [H1 _].
  rewrite sslice_rest by lia. cbn [mbind go_bind]. destruct (index (sdrop _ body) _) as [fin|] eqn:E2; [|by split].
  apply index_bound in E2 as [H2 _]. rewrite length_sdrop in H2. rewrite sslice_ok by lia. by split.
Qed.

Section Properties.
Context `{U : UnicodeTables}.

Lemma length_map_lower s : String.length (map_lower s) = String.length s.
Proof. induction s as [|a s IH]; simpl; [done|]. by rewrite IH. Qed.

Lemma extractHeader_safe resp key : all_ascii resp = true → safe (extractHeader resp key).
Proof.
  intros Ha. unfold extractHeader, to_lower at 1. rewrite Ha. destruct (index _ _) as [idx|] eqn:E; [|by split].
  apply index_bound in E as [H _]. rewrite length_map_lower in H. rewrite sslice_rest by lia. by split.
Qed.

(** What is outside the program behaves: sockets and the HTTP client return. *)
Definition sane (g : gateway) : Prop :=
  safe (socket g) ∧ (∀ u, safe (describe g u)) ∧ safe (local_ip g) ∧ (∀ u a b, safe (soap g u a b)).

(** Every datagram is ASCII text and the location it gives, if any, is a URL. *)
Definition well_formed (g : gateway) : Prop := ∀ resp, resp ∈ datagrams g →
  all_ascii resp = true ∧ ∀ loc, extractHeader resp "LOCATION" = Ret loc → loc ≠ "" → valid_url g loc = true.

Lemma search_safe g resps : sane g →
  (∀ resp, resp ∈ resps → all_ascii resp = true ∧ ∀ loc, extractHeader resp "LOCATION" = Ret loc → loc ≠ "" → valid_url g loc = true) →
  safe (search g resps).
Proof.
  intros (_ & Hd & _ & _). induction resps as [|resp resps IH]; intros Hw; simpl; [by split|].
  destruct (Hw resp) as [Ha Hv]; [left|]. apply safe_bind; [by apply extractHeader_safe|]. intros loc Hloc.
  assert (IH' : safe (search g resps)) by (apply IH; intros r Hr; apply Hw; by right).
  destruct (String.eqb_spec loc "") as [->|Hne]; [done|]. unfold getControlURL. rewrite (Hv loc Hloc Hne). cbn [negb].
  assert (Hs : safe (body ← describe g loc; control_url loc body serviceTypes))
    by (apply safe_bind; [apply Hd|intros body _; apply control_url_safe]).
  destruct (body ← describe g loc; control_url loc body serviceTypes) as [u|e| |];
    [destruct (String.eqb u ""); [done|by split]|done|by destruct Hs..].
Qed.

Lemma tryMap_safe g s : sane g → well_formed g → safe (tryMap g s).2.
Proof.
  intros Hs Hw. unfold tryMap. assert (Hd : safe (discover g)).
  { apply safe_bind; [apply Hs|]. intros _ _. by apply search_safe. }
  destruct (discover g) as [gw|e| |]; [|by split|by destruct Hd..]. destruct Hs as (_ & _ & Hl & Hso).
  destruct (local_ip g) as [lan|e| |]; [|by split|by destruct Hl..].
  assert (Ha : safe (addMapping g s gw lan) ∧ (addMapping g s gw lan = Ret () → valid_url g gw = true)).
  { unfold addMapping, soapAction. destruct (valid_url g gw); cbn [negb]; [split; [|done]|by repeat split].
    apply safe_bind; [apply Hso|intros [st b] _; simpl; destruct (negb _); by split]. }
  destruct Ha as [Ha Hv]. destruct (addMapping g s gw lan) as [[]|e| |]; [|by split|by destruct Ha..].
  assert (He : safe (getExternalIP g gw)).
  { unfold getExternalIP. rewrite Hv by done. cbn [negb]. apply safe_bind; [apply Hso|]. intros [st b] _. simpl.
    apply safe_bind; [apply extractXML_safe|]. intros ip _. destruct (String.eqb ip ""); by split. }
  destruct (getExternalIP g gw) as [u'|e| |]; [by split|by split|by destruct He..].
Qed.

(** An attempt that fails leaves the service as it was. *)
Lemma tryMap_error g s s' e : tryMap g s = (s', Err e) → s' = s.
Proof.
  unfold tryMap. destruct (discover g); [|by intros [= <- _]..]. destruct (local_ip g); [|by intros [= <- _]..].
  destruct (addMapping _ _ _ _); [|by intros [= <- _]..]. by destruct (getExternalIP _ _); intros [= <- _].
Qed.

Lemma tryMap_mapped g s s' u : tryMap g s = (s', Ret u) → mapped s' = true.
Proof.
  unfold tryMap. destruct (discover g); [|done..]. destruct (local_ip g); [|done..].
  destruct (addMapping _ _ _ _); [|done..]. by destruct (getExternalIP _ _); intros [= <- _].
Qed.

Lemma renewals_mapped : ∀ gs s s' r, renewals s gs = (s', r) → mapped s = true → mapped s' = true.
Proof.
  induction gs as [|g gs IH]; intros s s' r; simpl; [by intros [= <- _]|]. destruct (tryMap g s) as [s1 r1] eqn:E.
  assert (H1 : mapped s = true → mapped s1 = true).
  { destruct r1 as [u|e| |]; [by apply tryMap_mapped in E|by apply tryMap_error in E as ->|..];
    revert E; unfold tryMap; destruct (discover g); try (by intros [= <-]); destruct (local_ip g); try (by intros [= <-]);
    destruct (addMapping _ _ _ _); try (by intros [= <-]); destruct (getExternalIP _ _); by intros [= <-]. }
  destruct r1; [intros H Hm; by apply (IH s1 s' r H), H1|intros H Hm; by apply (IH s1 s' r H), H1|by intros [= <- _] Hm; apply H1..].
Qed.

(** As long as every answer to the search is ASCII text with a well-formed
    location, the service runs without a panic through any number of renewals,
    whatever the gateway's XML and SOAP answers are; it is mapped exactly when
    the first attempt succeeded, and releasing it sends one deletion then and
    none a second time. *)
Theorem upnp_lifetime wgPort first gs last :
  sane first → well_formed first → Forall (λ g, sane g ∧ well_formed g) gs →
  let '(s, r) := lifetime wgPort first gs in
  r = Ret () ∧ (mapped s = true ↔ ∃ u, (tryMap first (New wgPort)).2 = Ret u) ∧
  mapped (release last s).1 = false ∧ (release last (release last s).1).2 = None ∧
  (mapped s = false → (release last s).2 = None).
Proof.
  intros Hs Hw Hg. unfold lifetime. pose proof (tryMap_safe first (New wgPort) Hs Hw) as H1.
  assert (Hren : ∀ s, ∃ s', renewals s gs = (s', Ret ())).
  { induction Hg as [|g gs [Hsg Hwg] _ IH]; intros s; simpl; [eauto|]. pose proof (tryMap_safe g s Hsg Hwg) as H.
    destruct (tryMap g s) as [s1 [u|e| |]]; [apply IH|apply IH|by destruct H..]. }
  destruct (tryMap first (New wgPort)) as [s1 [u|e| |]] eqn:E; [| |by destruct H1..].
  - destruct (Hren s1) as [s' Es]. rewrite Es. pose proof (renewals_mapped _ _ _ _ Es (tryMap_mapped _ _ _ _ E)) as Hm.
    split; [done|]. rewrite Hm. simpl. split; [by split; [exists u|]|]. done.
  - apply tryMap_error in E as ->. simpl. split; [done|]. split; [split; [done|by intros [u ?]]|done].
Qed.

(** One answer to the search whose LOCATION is not a URL stops the process:
    the request built from it is nil and is used all the same. *)
Theorem bad_location_panics wgPort first gs resp rest loc :
  socket first = Ret () → datagrams first = resp :: rest →
  extractHeader resp "LOCATION" = Ret loc → loc ≠ "" → valid_url first loc = false →
  (lifetime wgPort first gs).2 = Panic.
Proof.
  intros Hs Hd Hl Hne Hv. unfold lifetime, tryMap, discover. rewrite Hs, Hd. simpl. rewrite Hl. simpl.
  destruct (String.eqb_spec loc ""); [done|]. unfold getControlURL. by rewrite Hv.
Qed.

(** A service whose renewals all fail keeps reporting its mapping as active,
    although the lease it asked for is an hour long. *)
Theorem failed_renewals_still_mapped wgPort first gs s u :
  tryMap first (New wgPort) = (s, Ret u) → Forall (λ g, ∀ s, ∃ e, (tryMap g s).2 = Err e) gs →
  lifetime wgPort first gs = (s, Ret ()) ∧ mapped s = true.
Proof.
  intros E H. unfold lifetime. rewrite E. split; [|by apply tryMap_mapped in E].
  clear E. induction H as [|g gs Hg _ IH]; simpl; [done|]. destruct (Hg s) as [e He].
  destruct (tryMap g s) as [s1 r] eqn:E. simpl in He. subst r. apply tryMap_error in E as ->. exact IH.
Qed.
(** The position of the header is found in the lower-case copy of the answer
    and used in the answer itself: when lowering makes the text before the
    header longer, the slice is out of range and the process stops. *)
Theorem lowered_header_panics wgPort first gs resp rest idx :
  socket first = Ret () → datagrams first = resp :: rest →
  index (to_lower resp) "location:" = Some idx → (String.length resp < idx + 9)%nat →
  (lifetime wgPort first gs).2 = Panic.
Proof.
  intros Hs Hd Hi Hl. unfold lifetime, tryMap, discover. rewrite Hs, Hd. simpl. unfold extractHeader.
  change (to_lower "LOCATION" +:+ ":") with "location:". rewrite Hi. unfold sslice.
  change (String.length "location:") with 9%nat. rewrite bool_decide_false by lia. done.
Qed.
End Properties.

(** ** The arguments of the requests *)

(** No occurrence of [sub] starts in [a], whatever follows it. *)
Definition skips (sub a : string) : Prop := ∀ t, index (a +:+ t) sub = Nat.add (String.length a) <$> index t sub.

Lemma skips_app sub a b : skips sub a → skips sub b → skips sub (a +:+ b).
Proof.
  intros Ha Hb t. rewrite sappend_assoc, Ha, Hb. destruct (index t sub) as [n|]; simpl; [|done].
  f_equal. rewrite length_append. lia.
Qed.
(** Neither text starts with the other. *)
Fixpoint differ (s t : string) : bool :=
  match s, t with
  | String a s, String b t => negb (Ascii.eqb a b) || differ s t
  | _, _ => false
  end.

(** At no position does [sub] start, nor could it start and go on behind [a]. *)
Fixpoint nowhere (sub a : string) : bool :=
  match a with EmptyString => true | String _ r => differ a sub && nowhere sub r end.

Lemma differ_prefix s t u : differ s t = true → has_prefix (s +:+ u) t = false.
Proof.
  unfold has_prefix. revert t. induction s as [|a s IH]; intros [|b t]; simpl; try done.
  destruct (Ascii.eqb_spec a b) as [->|Hne]; simpl.
  - intros Hd. destruct (ascii_dec b b); [by apply IH|done].
  - intros _. destruct (ascii_dec b a); [congruence|done].
Qed.

Lemma skips_text sub a : nowhere sub a = true → skips sub a.
Proof.
  induction a as [|b a IH]; intros H t; [simpl; by destruct (index t sub)|].
  cbn [nowhere] in H. apply andb_true_iff in H as [Hd Ha]. apply (differ_prefix _ _ t) in Hd.
  change (String b a +:+ t) with (String b (a +:+ t)) in *. cbn [index]. rewrite Hd, (IH Ha). by destruct (index t sub).
Qed.

Lemma skips_value c sub a : contains_byte c a = false → skips (String c sub) a.
Proof.
  induction a as [|b a IH]; intros H t; [simpl; by destruct (index t _)|]. simpl in H. apply orb_false_iff in H as [Hb Ha].
  change (String b a +:+ t) with (String b (a +:+ t)). cbn [index].
  assert (Hp : has_prefix (String b (a +:+ t)) (String c sub) = false).
  { unfold has_prefix. simpl. destruct (ascii_dec c b) as [->|]; [|done]. by rewrite Ascii.eqb_refl in Hb. }
  rewrite Hp, (IH Ha). by destruct (index t _).
Qed.

Lemma index_here s t : index (s +:+ t) s = Some 0%nat.
Proof. pose proof (prefix_append s t) as H. destruct (s +:+ t) eqn:E; cbn [index]; by rewrite H. Qed.

(** [extractXML] finds the value of the first element of a tag. *)
Lemma extractXML_cat tag v l1 l2 : Forall (skips ("<" +:+ tag +:+ ">")) l1 → contains_byte "<" v = false →
  extractXML (cat (l1 ++ element tag v :: l2)) tag = Ret v.
Proof.
  intros Hf Hv. unfold extractXML. set (op := "<" +:+ tag +:+ ">") in *. set (cl := "</" +:+ tag +:+ ">").
  assert (Hc : ∀ l l', cat (l ++ l') = cat l +:+ cat l').
  { induction l as [|x l IH]; intros l'; simpl; [done|]. by rewrite IH, sappend_assoc. }
  assert (Ha : skips op (cat l1)).
  { clear - Hf. induction Hf as [|x l Hx _ IH]; [intros t; simpl; by destruct (index t op)|]. by apply (skips_app _ x (cat l)). }
  set (a := cat l1) in *. set (r := cat l2).
  assert (E : cat (l1 ++ element tag v :: l2) = a +:+ op +:+ (v +:+ (cl +:+ r))).
  { rewrite Hc. change (cat (element tag v :: l2)) with (element tag v +:+ r). unfold op, cl, element. by rewrite !sappend_assoc. }
  rewrite E, (Ha (op +:+ _)), index_here. cbn [fmap option_fmap option_map]. rewrite Nat.add_0_r.
  assert (Hd : ∀ (p q : string), sdrop (String.length p) (p +:+ q) = q) by (induction p; simpl; auto).
  assert (Ht : ∀ (p q : string), stake (String.length p) (p +:+ q) = p) by (intros p; induction p as [|x p IH]; intros q; simpl; [by destruct q|by rewrite IH]).
  rewrite sslice_rest by (rewrite !length_append; lia). cbn [mbind go_bind].
  rewrite <- length_append, <- (sappend_assoc a op), Hd.
  assert (Hs : skips cl v) by exact (skips_value "<" ("/" +:+ tag +:+ ">") v Hv).
  rewrite (Hs (cl +:+ r)), index_here. cbn [fmap option_fmap option_map]. rewrite Nat.add_0_r.
  rewrite sslice_ok by (rewrite !length_append; lia). rewrite Hd. replace (_ + _ - _)%nat with (String.length v) by lia. by rewrite Ht.
Qed.

Lemma skips_element c sub tag v : nowhere (String c sub) ("<" +:+ tag +:+ ">") = true → contains_byte c v = false →
  nowhere (String c sub) ("</" +:+ tag +:+ ">") = true → skips (String c sub) (element tag v).
Proof.
  intros H1 H2 H3. unfold element.
  assert (E : "<" +:+ tag +:+ ">" +:+ v +:+ "</" +:+ tag +:+ ">" = ("<" +:+ tag +:+ ">") +:+ (v +:+ ("</" +:+ tag +:+ ">")))
    by (by rewrite !sappend_assoc).
  rewrite E. apply skips_app; [by apply skips_text|]. apply skips_app; [by apply skips_value|by apply skips_text].
Qed.

(** The value of the element behind the pieces [l1] of a body. *)
Ltac skip_piece := first
  [ apply skips_element; [vm_compute; reflexivity|assumption || (vm_compute; reflexivity)|vm_compute; reflexivity]
  | apply skips_text; vm_compute; reflexivity ].
Ltac read_at l1 :=
  apply (extractXML_cat _ _ l1); [repeat (constructor; [skip_piece|]); constructor|assumption || (vm_compute; reflexivity)].

(** The request that adds the mapping asks for this port, from outside and at
    this machine, over UDP, enabled, for an hour; and the request that deletes
    one names the same port and protocol, so it is this mapping that a stop of
    the service takes down, whatever the port and the address. *)
Theorem mapping_requests wgPort description ip :
  contains_byte "<" description = false → contains_byte "<" ip = false →
  let body := add_body wgPort description ip in
  extractXML body "NewExternalPort" = Ret (pretty wgPort) ∧ extractXML body "NewInternalPort" = Ret (pretty wgPort) ∧
  extractXML body "NewInternalClient" = Ret ip ∧ extractXML body "NewProtocol" = Ret "UDP" ∧
  extractXML body "NewEnabled" = Ret "1" ∧ extractXML body "NewLeaseDuration" = Ret "3600" ∧
  extractXML (delete_body wgPort) "NewExternalPort" = Ret (pretty wgPort) ∧
  extractXML (delete_body wgPort) "NewProtocol" = Ret "UDP".
Proof.
  intros Hd Hi. cbv zeta. pose proof (pretty_no_byte "<" wgPort eq_refl) as Hp.
  set (o := open_action "AddPortMapping"). set (o' := open_action "DeletePortMapping"). set (h := element "NewRemoteHost" "").
  set (e := element "NewExternalPort" (pretty wgPort)). set (p := element "NewProtocol" "UDP").
  set (i := element "NewInternalPort" (pretty wgPort)). set (c := element "NewInternalClient" ip).
  set (n := element "NewEnabled" "1"). set (d := element "NewPortMappingDescription" description).
  split; [read_at [o; indent; h; indent]|].
  split; [read_at [o; indent; h; indent; e; indent; p; indent]|].
  split; [read_at [o; indent; h; indent; e; indent; p; indent; i; indent]|].
  split; [read_at [o; indent; h; indent; e; indent]|].
  split; [read_at [o; indent; h; indent; e; indent; p; indent; i; indent; c; indent]|].
  split; [read_at [o; indent; h; indent; e; indent; p; indent; i; indent; c; indent; n; indent; d; indent]|].
  split; [read_at [o'; indent; h; indent]|read_at [o'; indent; h; indent; e; indent]].
Qed.

(** ** Concrete runs *)

(** [strings.ToLower] of a text whose bytes from 0x80 on form no valid UTF-8:
    each of them becomes the three bytes of U+FFFD. *)
Fixpoint lower_invalid (s : string) : string :=
  match s with
  | EmptyString => ""
  | String a r =>
      if ascii_byte a then String (lower_ascii a) (lower_invalid r)
      else utf8 [239; 191; 189]%N +:+ lower_invalid r
  end.
Definition invalid_tables : UnicodeTables := {| unicode_lower := lower_invalid |}.

Definition crlf : string := String "013" (String "010" "").

Definition reply : string := "HTTP/1.1 200 OK" +:+ crlf +:+ "Location: http://192.168.1.1:5000/root/desc.xml" +:+ crlf.
Definition igd : string :=
  "<serviceType>urn:schemas-upnp-org:service:WANIPConnection:1</serviceType><controlURL>ctl/IPConn</controlURL>".

Definition toy_gateway (resp : string) (status : Z) : gateway := {|
  socket := Ret ();
  datagrams := [resp];
  valid_url u := has_prefix u "http://";
  describe _ := Ret igd;
  local_ip := Ret "192.168.1.50";
  soap _ _ _ := Ret (status, "<NewExternalIPAddress>203.0.113.7</NewExternalIPAddress>");
|}.

Lemma toy_gateway_ok status : sane (toy_gateway reply status) ∧
  let _ := ascii_tables in well_formed (toy_gateway reply status).
Proof.
  split; [by repeat split|]. intros U. unfold well_formed. intros resp Hr. apply list_elem_of_singleton in Hr as ->.
  split; [vm_compute; reflexivity|]. intros loc Hl _. vm_compute in Hl. injection Hl as <-. vm_compute. reflexivity.
Qed.

Lemma upnp_lifetime_witness :
  let _ := ascii_tables in
  (lifetime 51820 (toy_gateway reply 200) [toy_gateway reply 500]).2 = Ret () ∧
  mapped (lifetime 51820 (toy_gateway reply 200) [toy_gateway reply 500]).1 = true.
Proof.
  intros U. pose proof (toy_gateway_ok 200) as [S1 W1]. pose proof (toy_gateway_ok 500) as [S2 W2].
  pose proof (upnp_lifetime 51820 (toy_gateway reply 200) [toy_gateway reply 500] (toy_gateway reply 200) S1 W1 (proj2 (Forall_singleton _ _) (conj S2 W2))) as H.
  destruct (lifetime 51820 (toy_gateway reply 200) [toy_gateway reply 500]) as [s r]. destruct H as (Hr & Hm & _).
  split; [exact Hr|]. apply Hm. exists (). vm_compute. reflexivity.
Defined.

Example toy_mapped : let _ := ascii_tables in
  (tryMap (toy_gateway reply 200) (New 51820)).1 = MkService 51820 "SafeSwitch-WireGuard" "http://192.168.1.1:5000/root/ctl/IPConn" "203.0.113.7" "192.168.1.50" true.
Proof. vm_compute. reflexivity. Qed.

Lemma bad_location_panics_witness : let _ := ascii_tables in
  (lifetime 51820 (toy_gateway ("LOCATION: :" +:+ crlf) 200) []).2 = Panic.
Proof.
  intros U. apply (bad_location_panics 51820 (toy_gateway ("LOCATION: :" +:+ crlf) 200) [] ("LOCATION: :" +:+ crlf) [] ":").
  - reflexivity.
  - reflexivity.
  - vm_compute. reflexivity.
  - discriminate.
  - vm_compute. reflexivity.
Defined.

Lemma failed_renewals_still_mapped_witness : let _ := ascii_tables in
  mapped (lifetime 51820 (toy_gateway reply 200) [toy_gateway reply 500; toy_gateway "" 500]).1 = true.
Proof.
  intros U. destruct (tryMap (toy_gateway reply 200) (New 51820)) as [s r] eqn:E.
  assert (Hr : r = Ret ()) by (vm_compute in E; by injection E as _ <-). rewrite Hr in E.
  destruct (failed_renewals_still_mapped 51820 (toy_gateway reply 200) [toy_gateway reply 500; toy_gateway "" 500] s () E) as [-> H]; [|exact H].
  apply Forall_cons; split; [|apply Forall_singleton]; intros s'; eexists; vm_compute; reflexivity.
Defined.

Definition garbled : string := string_of_list_ascii (repeat (ascii_of_N 255) 20) +:+ "LOCATION: x".

Lemma lowered_header_panics_witness : let _ := invalid_tables in
  (lifetime 51820 (toy_gateway garbled 200) []).2 = Panic.
Proof.
  intros U. apply (lowered_header_panics 51820 (toy_gateway garbled 200) [] garbled [] 60).
  - reflexivity.
  - reflexivity.
  - vm_compute. reflexivity.
  - vm_compute. lia.
Defined.

Lemma mapping_requests_witness :
  extractXML (add_body 51820 "SafeSwitch-WireGuard" "192.168.1.50") "NewInternalClient" = Ret "192.168.1.50".
Proof.
  apply (mapping_requests 51820 "SafeSwitch-WireGuard" "192.168.1.50"); vm_compute; reflexivity.
Defined.
