(* ===== verification/Wiring.v ===== *)
(** [internal/supervisor] and [internal/app/wiring.go]: which services a node
    runs, in which order they start and stop, and the TCP addresses they bind. *)
From stdpp Require Import gmap.
From S2P Require Import Prelude Settings GoString.

Local Open Scope string_scope.
Local Open Scope list_scope.

(** ** The supervisor *)

Section Supervisor.
Context {S : Type}.

(** [Start]: the services are started in the order of their registration until
    one fails; [start] tells how each ends. The services started are kept. *)
Fixpoint Start (start : S → go ()) (services : list S) : list S * go () :=
  match services with
  | [] => ([], Ret ())
  | svc :: services =>
      match start svc with
      | Ret _ => let '(started, r) := Start start services in (svc :: started, r)
      | Err e => ([], Err ("start: " +:+ e))
      | Panic => ([], Panic)
      | Loop => ([], Loop)
      end
  end.

(** [Stop]: every registered service is asked to stop, in its own goroutine; the
    errors are collected in the order [sched] in which they end. *)
Definition Stop (stop : S → go ()) (sched : list S → list S) (services : list S) : list S * list string :=
  (rev services, omap (λ svc, match stop svc with Err e => Some e | _ => None end) (sched (rev services))).

(** Services start in the order of their registration up to the first that
    fails: those before it have started and stay so, none after it is started,
    and the start succeeds exactly when all of them did. *)
Theorem Start_prefix start services started r : Start start services = (started, r) →
  ∃ rest, services = started ++ rest ∧ Forall (λ svc, start svc = Ret ()) started ∧
    match r with
    | Ret _ => rest = []
    | _ => ∃ svc rest', rest = svc :: rest' ∧ start svc ≠ Ret ()
    end.
Proof.
  revert started r. induction services as [|svc services IH]; intros started r; simpl.
  { intros [= <- <-]. by exists []. }
  destruct (start svc) as [[]|e| |] eqn:E.
  - destruct (Start start services) as [st r'] eqn:Es. intros [= <- <-].
    destruct (IH _ _ eq_refl) as (rest & -> & Hf & Hr). exists rest. split; [done|]. split; [by constructor|done].
  - intros [= <- <-]. exists (svc :: services). split; [done|]. split; [done|]. exists svc, services. by rewrite E.
  - intros [= <- <-]. exists (svc :: services). split; [done|]. split; [done|]. exists svc, services. by rewrite E.
  - intros [= <- <-]. exists (svc :: services). split; [done|]. split; [done|]. exists svc, services. by rewrite E.
Qed.
End Supervisor.

(** ** The services of a node *)

Inductive service :=
| Identity | Journal | PolicyRuntime | Health | Presence | DNSServer
| UPnP (port : Z) | TunnelManager | FirewallEnforcer | ControlSync
| RelayBroker (addr : string) | Terminator (addr iface : string) | UDPBridge (addr family : string)
| RelayClient (url name family token wgAddr : string) | LocalAPI (addr : string).

#[global] Instance service_eq_dec : EqDecision service.
Proof. solve_decision. Defined.

Definition firstNonEmpty (a b : string) : string := if String.eqb a "" then b else a.

Definition isRelay (c : Config) : bool := String.eqb (NodeType c) "vps_relay".
Definition isHome (c : Config) : bool := String.eqb (NodeType c) "home_node" || String.eqb (NodeType c) "lan_node".

(** The calls of [sup.Register], in order. *)
Definition registered (c : Config) : list service :=
  [Identity; Journal; PolicyRuntime; Health; Presence; DNSServer] ++
  (if negb (isRelay c) then (if UPnPEnabled c && isHome c then [UPnP 51820] else []) ++ [TunnelManager; FirewallEnforcer] else []) ++
  [ControlSync] ++
  (if String.eqb (NodeType c) "vps_relay" then
     [RelayBroker (RelayListenAddr c)] ++
     (if String.eqb (RelayFallbackEndpoint c) "" then [] else [Terminator (RelayFallbackEndpoint c) (NATIface c)]) ++
     [UDPBridge ":51820" (RelayFamilyID c)]
   else if isHome c then
     (if negb (String.eqb (RelayBrokerURL c) "") && negb (String.eqb (RelayFamilyID c) "")
      then [RelayClient (RelayBrokerURL c) (NodeName c) (RelayFamilyID c) (firstNonEmpty (RelayNodeToken c) (NodeToken c)) (RelayWGAddr c)]
      else [])
   else []) ++
  [LocalAPI (HTTPListenAddr c)].

(** The endpoint updater: the node id and the host it publishes. [env_id] is
    [SS_NODE_ID], [own_id] the id of the identity service. *)
Definition ddns_of (c : Config) (env_id own_id : string) : option (string * string) :=
  if isHome c then
    let nodeID := firstNonEmpty env_id own_id in
    if String.eqb nodeID "" then None else Some (nodeID, PublicEndpoint c)
  else None.

(** Who holds a TCP address. *)
Inductive holder := SNIProxy | Held (svc : service).

(** ** Building the node

    [bind bound addr] tells whether a TCP listener can be opened while those of
    [bound] are; the other calls of [wire] that can fail are given by their
    results. *)
Record machine := Machine {
  mkdir : go ();
  open_db : go ();
  migrations : go ();
  init_identity : go ();
  sinkhole : go ();
  bind : gset string → string → bool;
}.

Definition sniproxyAddr : string := ":8443".

(** [wire]: the services registered and the TCP addresses bound by then, that of
    the TLS proxy, which every node type starts. *)
Definition wire (m : machine) (c : Config) : go (list service * gmap string holder) :=
  _ ← mkdir m; _ ← open_db m; _ ← migrations m; _ ← init_identity m;
  if negb (bind m ∅ sniproxyAddr) then Err "sniproxy start" else
  _ ← (if isRelay c then Ret () else sinkhole m);
  mret (registered c, {[sniproxyAddr := SNIProxy]}).

(** [BrokerService.Start] listens in a goroutine and returns no error: when the
    address cannot be bound, the failure is only printed. [bound] afterwards. *)
Definition start_broker (m : machine) (bound : gmap string holder) (addr : string) : gmap string holder * go () :=
  (if bind m (dom bound) addr then <[addr := Held (RelayBroker addr)]> bound else bound, Ret ()).

(** The API binds its address before it returns. *)
Definition start_api (m : machine) (bound : gmap string holder) (addr : string) : gmap string holder * go () :=
  if bind m (dom bound) addr then (<[addr := Held (LocalAPI addr)]> bound, Ret ()) else (bound, Err "api bind failed").

(** [Supervisor.Start] with the addresses that the services bind; [other] is
    the result of starting a service that binds none. *)
Fixpoint start_all (m : machine) (other : service → go ()) (bound : gmap string holder) (services : list service) :
    gmap string holder * go () :=
  match services with
  | [] => (bound, Ret ())
  | svc :: services =>
      let '(bound, r) :=
        match svc with
        | RelayBroker addr => start_broker m bound addr
        | LocalAPI addr => start_api m bound addr
        | _ => (bound, other svc)
        end in
      match r with
      | Ret _ => start_all m other bound services
      | r => (bound, r)
      end
  end.

(** [main]: build, then start. *)
Definition boot (m : machine) (other : service → go ()) (c : Config) : go (gmap string holder * go ()) :=
  w ← wire m c; mret (start_all m other w.2 w.1).

(** A listener cannot be opened twice on the same address. *)
Definition exclusive (m : machine) : Prop := ∀ bound addr, addr ∈ bound → bind m bound addr = false.

(** ** Properties *)

(** Membership in a list written out. *)
Ltac in_list := rewrite ?elem_of_app, ?elem_of_cons, ?elem_of_nil.
Ltac absent := intros; in_list; naive_solver.

Lemma relay_not_home c : isRelay c = true → isHome c = false.
Proof. unfold isRelay, isHome. intros ->%String.eqb_eq. done. Qed.

Lemma elem_if {A} (x : A) (b : bool) l : x ∈ (if b then l else []) ↔ b = true ∧ (x ∈ l).
Proof. destruct b; [naive_solver|]. split; [intros []%elem_of_nil|by intros [? _]]. Qed.

(** The shape of the list, by role. *)
Lemma registered_relay c : isRelay c = true →
  registered c = [Identity; Journal; PolicyRuntime; Health; Presence; DNSServer; ControlSync; RelayBroker (RelayListenAddr c)] ++
    (if String.eqb (RelayFallbackEndpoint c) "" then [] else [Terminator (RelayFallbackEndpoint c) (NATIface c)]) ++
    [UDPBridge ":51820" (RelayFamilyID c); LocalAPI (HTTPListenAddr c)].
Proof.
  intros H. unfold registered. rewrite H. unfold isRelay in H. rewrite H. simpl. by destruct (String.eqb (RelayFallbackEndpoint c) "").
Qed.

Lemma registered_home c : isHome c = true →
  registered c = [Identity; Journal; PolicyRuntime; Health; Presence; DNSServer] ++
    (if UPnPEnabled c then [UPnP 51820] else []) ++ [TunnelManager; FirewallEnforcer; ControlSync] ++
    (if negb (String.eqb (RelayBrokerURL c) "") && negb (String.eqb (RelayFamilyID c) "")
     then [RelayClient (RelayBrokerURL c) (NodeName c) (RelayFamilyID c) (firstNonEmpty (RelayNodeToken c) (NodeToken c)) (RelayWGAddr c)]
     else []) ++ [LocalAPI (HTTPListenAddr c)].
Proof.
  intros H. destruct (isRelay c) eqn:Er; [by rewrite (relay_not_home _ Er) in H|]. unfold registered. rewrite Er, H, andb_true_r.
  unfold isRelay in Er. rewrite Er. simpl. by destruct (UPnPEnabled c), (negb _ && _).
Qed.

(** What a node runs follows from its role: a relay never drives WireGuard,
    the firewall or UPnP, and runs the terminator exactly when a fallback
    endpoint is set; a home or LAN node never relays, and starts the policy
    before the DNS server, both before the tunnel and the firewall, and these
    before the synchronisation with the cloud and the local API. *)
Theorem services_by_role c : (NodeType c ∈ ["home_node"; "lan_node"; "vps_relay"]) →
  (isRelay c = true →
    (TunnelManager ∉ registered c) ∧ (FirewallEnforcer ∉ registered c) ∧ (∀ p, UPnP p ∉ registered c) ∧
    sublist [PolicyRuntime; DNSServer; ControlSync; RelayBroker (RelayListenAddr c); UDPBridge ":51820" (RelayFamilyID c);
             LocalAPI (HTTPListenAddr c)] (registered c) ∧
    ((∃ a i, Terminator a i ∈ registered c) ↔ RelayFallbackEndpoint c ≠ "")) ∧
  (isRelay c = false →
    (∀ a, RelayBroker a ∉ registered c) ∧ (∀ a i, Terminator a i ∉ registered c) ∧ (∀ a f, UDPBridge a f ∉ registered c) ∧
    sublist [PolicyRuntime; DNSServer; TunnelManager; FirewallEnforcer; ControlSync; LocalAPI (HTTPListenAddr c)] (registered c) ∧
    ((∃ u n f t w, RelayClient u n f t w ∈ registered c) ↔ RelayBrokerURL c ≠ "" ∧ RelayFamilyID c ≠ "")).
Proof.
  intros Ht. split; intros H.
  - rewrite registered_relay by done.
    destruct (String.eqb_spec (RelayFallbackEndpoint c) "") as [E|E]; simpl;
      (split; [absent|]); (split; [absent|]); (split; [absent|]); (split; [by repeat constructor|]); split.
    + intros (a & i & Hin). exfalso. revert Hin. in_list. naive_solver.
    + done.
    + done.
    + intros _. do 2 eexists. do 8 right. left.
  - assert (Hh : isHome c = true).
    { unfold isRelay, isHome in *. apply String.eqb_neq in H. revert Ht. in_list. intros [-> |[-> |[E|[]]]]; done. }
    rewrite registered_home by done. set (client := negb _ && _).
    assert (Hc : client = true ↔ RelayBrokerURL c ≠ "" ∧ RelayFamilyID c ≠ "").
    { unfold client. rewrite andb_true_iff, !negb_true_iff, !String.eqb_neq. done. }
    destruct client; destruct (UPnPEnabled c); simpl;
      (split; [absent|]); (split; [absent|]); (split; [absent|]); (split; [by repeat constructor|]); split.
    1, 3: intros _; by apply Hc.
    1, 2: intros _; do 5 eexists; in_list; eauto 20.
    1, 3: intros (u & n & f & t & w & Hin); exfalso; revert Hin; in_list; naive_solver.
    all: intros Hne; by apply Hc in Hne.
Qed.

Lemma start_all_held m other : exclusive m → ∀ services bound bound' r,
  start_all m other bound services = (bound', r) →
  ∀ addr h, bound !! addr = Some h → bound' !! addr = Some h.
Proof.
  intros Hx. induction services as [|svc services IH]; intros bound bound' r; simpl; [by intros [= <- _]|].
  assert (Hins : ∀ a v addr h, bound !! addr = Some h → (if bind m (dom bound) a then <[a := v]> bound else bound) !! addr = Some h).
  { intros a v addr h Hb. destruct (bind m (dom bound) a) eqn:Eb; [|done]. destruct (decide (a = addr)) as [->|Hne].
    - rewrite (Hx (dom bound) addr) in Eb; [done|]. by apply elem_of_dom_2 in Hb.
    - by rewrite lookup_insert_ne. }
  destruct svc; try (destruct (other _); [apply IH|by intros [= <- _]..]).
  - intros H a h Hb. apply (IH _ _ _ H). by apply Hins.
  - unfold start_api. specialize (Hins addr (Held (LocalAPI addr))). destruct (bind m (dom bound) addr); [|by intros [= <- _]].
    intros H a h Hb. apply (IH _ _ _ H). by apply Hins.
Qed.

Lemma start_all_brokers m other : exclusive m → ∀ services bound bound' r,
  start_all m other bound services = (bound', r) → (∀ a, RelayBroker a ∈ services → a ∈ dom bound) →
  (∀ addr a, bound !! addr ≠ Some (Held (RelayBroker a))) → ∀ addr a, bound' !! addr ≠ Some (Held (RelayBroker a)).
Proof.
  intros Hx. induction services as [|svc services IH]; intros bound bound' r; simpl; [by intros [= <- _]|].
  intros H Hd Hn. assert (Hd' : ∀ a, RelayBroker a ∈ services → a ∈ dom bound) by (intros a Ha; apply Hd; by right).
  destruct svc; try (destruct (other _); [by apply (IH _ _ _ H)|by injection H as <- _..]).
  - apply (IH _ _ _ H); rewrite (Hx (dom bound) addr); try done; apply Hd; left.
  - unfold start_api in H. destruct (bind m (dom bound) addr); [|by injection H as <- _]. apply (IH _ _ _ H).
    + intros a Ha. rewrite dom_insert. apply elem_of_union. right. by apply Hd'.
    + intros x a. destruct (decide (addr = x)) as [->|]; [by rewrite lookup_insert_eq|by rewrite lookup_insert_ne].
Qed.

Section Boot.
Context `{U : UnicodeTables} `{V : Net.IPv6Text}.

(** A relay started with the default relay address serves no relay: the TLS
    proxy of every node has bound that address before, the broker's listener
    fails in the background, and the start of the node reports success. *)
Theorem default_relay_not_served environ cwd c m other bound :
  LoadConfigFromEnv environ cwd = Ret c → trim_space (environ "SS_ROUTER_RELAY_ADDR") = "" → isRelay c = true →
  exclusive m → boot m other c = Ret (bound, Ret ()) →
  bound !! RelayListenAddr c = Some SNIProxy ∧ ∀ addr a, bound !! addr ≠ Some (Held (RelayBroker a)).
Proof.
  intros Hc He Hr Hx Hb.
  assert (Ha : RelayListenAddr c = sniproxyAddr).
  { revert Hc. unfold LoadConfigFromEnv. cbv zeta. destruct (negb _); [done|]. destruct (validate _ _); [done|]. intros [= <-].
    simpl. unfold getenv. rewrite He. done. }
  unfold boot, wire in Hb. destruct (mkdir m); [|done..]. destruct (open_db m); [|done..]. destruct (migrations m); [|done..].
  destruct (init_identity m); [|done..]. cbn [mbind go_bind] in Hb. destruct (bind m ∅ sniproxyAddr); [|done].
  cbn [negb] in Hb. rewrite Hr in Hb. cbn [mbind go_bind mret go_ret fst snd] in Hb. apply (inj Ret) in Hb.
  split.
  - rewrite Ha. apply (start_all_held m other Hx _ _ _ _ Hb). apply lookup_singleton_eq.
  - apply (start_all_brokers m other Hx _ _ _ _ Hb).
    + intros addr. rewrite registered_relay by done.
      assert (Hin : RelayBroker addr ∈ registered c → addr = RelayListenAddr c).
      { rewrite registered_relay by done. destruct (String.eqb _ ""); simpl; in_list; naive_solver. }
      rewrite <- registered_relay by done. intros ->%Hin. rewrite Ha, dom_singleton_L. by apply elem_of_singleton.
    + intros x y. destruct (decide (sniproxyAddr = x)) as [<-|]; [by rewrite lookup_singleton_eq|by rewrite lookup_singleton_ne].
Qed.
End Boot.

(** ** What the services are given of each other

    [Join dir name] is [filepath.Join]; [load] is [mitm.LoadCA]. *)
Section Links.
Context {CA : Type} (Join : string → string → string) (load : string → string → go CA).
Variable environ : string → string.
Context `{U : UnicodeTables}.

(** The proxy of decrypted connections listens on the port of every interface. *)
Record mitm_proxy := MitmProxy { proxy_ca : CA; proxy_port : Z }.

Definition mitm_of (c : Config) : option CA * option mitm_proxy :=
  if negb (isRelay c) then
    let caDir := getenv environ "SS_ROUTER_CA_DIR" (Join (DataDir c) "ca") in
    match load (Join caDir "ca.crt") (Join caDir "ca.key") with
    | Ret ca => (Some ca, Some (MitmProxy ca 8080))
    | _ => (None, None)
    end
  else (None, None).

(** The fields that [wire] sets in the broker, its service, the bridge and the
    relay client; [None] where the object is not made. *)
Record relay_links := RelayLinks {
  notifier_set : bool;
  broker_token : option string;
  broker_fallback : string;
  bridge_resolver : option service;
  client_token : option string;
}.

Definition relay_of (c : Config) : relay_links :=
  if String.eqb (NodeType c) "vps_relay" then
    let token := firstNonEmpty (RelayNodeToken c) (NodeToken c) in
    let term := if negb (String.eqb (RelayFallbackEndpoint c) "") then Some (Terminator (RelayFallbackEndpoint c) (NATIface c)) else None in
    RelayLinks true (Some token) (match term with Some _ => RelayFallbackEndpoint c | None => "" end) term None
  else if String.eqb (NodeType c) "home_node" || String.eqb (NodeType c) "lan_node" then
    RelayLinks false None "" None
      (if negb (String.eqb (RelayBrokerURL c) "") && negb (String.eqb (RelayFamilyID c) "")
       then Some (firstNonEmpty (RelayNodeToken c) (NodeToken c)) else None)
  else RelayLinks false None "" None None.

(** The parts of the fallback fit together: the terminator that the bridge asks
    for endpoints is a registered service, it binds the endpoint that the broker
    is told, and the broker has one exactly when there is a terminator; only a
    relay reports transitions to the cloud. The relay and the client of a home
    node take their token from the same two settings, so equal settings give equal
    tokens. The API serves a CA exactly when the interception proxy runs, with the
    same one, and a relay does neither. *)
Theorem links_consistent c home : isHome home = true →
  (∀ t, bridge_resolver (relay_of c) = Some t → (t ∈ registered c) ∧ t = Terminator (broker_fallback (relay_of c)) (NATIface c)) ∧
  (broker_fallback (relay_of c) ≠ "" ↔ is_Some (bridge_resolver (relay_of c))) ∧
  (notifier_set (relay_of c) = true ↔ isRelay c = true) ∧
  (∀ t t', broker_token (relay_of c) = Some t → client_token (relay_of home) = Some t' →
     RelayNodeToken c = RelayNodeToken home → NodeToken c = NodeToken home → t = t') ∧
  (∀ ca, (mitm_of c).1 = Some ca ↔ (mitm_of c).2 = Some (MitmProxy ca 8080)) ∧
  (isRelay c = true → mitm_of c = (None, None)).
Proof.
  intros Hh. unfold relay_of, mitm_of. change (String.eqb (NodeType c) "vps_relay") with (isRelay c).
  refine (conj _ (conj _ (conj _ (conj _ (conj _ _))))).
  - intros t. destruct (isRelay c) eqn:Er; [|by destruct (_ || _)]. simpl. destruct (String.eqb_spec (RelayFallbackEndpoint c) "") as [E|E]; [done|].
    simpl. intros [= <-]. split; [|done]. rewrite registered_relay by done. apply String.eqb_neq in E. rewrite E. in_list. auto 20.
  - destruct (isRelay c) eqn:Er; [|by destruct (_ || _); (split; [done|intros []])]. simpl.
    destruct (String.eqb_spec (RelayFallbackEndpoint c) "") as [E|E]; simpl; split; try done; by intros [].
  - destruct (isRelay c); [done|]. by destruct (_ || _).
  - intros t t'. destruct (isRelay c); [|by destruct (_ || _)]. simpl. intros [= <-].
    assert (Hr : isRelay home = false) by (destruct (isRelay home) eqn:Er; [by rewrite relay_not_home in Hh|done]).
    change (String.eqb (NodeType home) "vps_relay") with (isRelay home). rewrite Hr.
    fold (isHome home). rewrite Hh. destruct (_ && _); simpl; [|done]. by intros [= <-] -> ->.
  - intros ca. destruct (isRelay c); simpl; [done|]. destruct (load _ _); simpl; [|done..]. split; congruence.
  - by intros ->.
Qed.
End Links.

(** ** Concrete runs *)

#[local] Existing Instance ascii_tables.
#[local] Existing Instance Net.no_v6.

Definition relay_environ (key : string) : string :=
  if String.eqb key "SS_ROUTER_NODE_TYPE" then "vps_relay" else toy_environ key.
Definition relay_config : Config := read_config relay_environ "vps_relay".
Definition toy_host : machine := Machine (Ret ()) (Ret ()) (Ret ()) (Ret ()) (Ret ()) (λ bound a, bool_decide (a ∉ bound)).

Definition toy_booted : gmap string holder :=
  match boot toy_host (λ _, Ret ()) relay_config with Ret (bound, _) => bound | _ => ∅ end.

Lemma toy_boot_ok : boot toy_host (λ _, Ret ()) relay_config = Ret (toy_booted, Ret ()).
Proof. vm_compute. reflexivity. Qed.

Lemma default_relay_not_served_witness :
  boot toy_host (λ _, Ret ()) relay_config = Ret (toy_booted, Ret ()) ∧ toy_booted !! ":8443" = Some SNIProxy.
Proof.
  split; [exact toy_boot_ok|].
  apply (default_relay_not_served relay_environ (Ret "/srv") relay_config toy_host (λ _, Ret ()) toy_booted).
  - vm_compute. reflexivity.
  - vm_compute. reflexivity.
  - reflexivity.
  - intros b a Ha. simpl. apply bool_decide_eq_false_2. intros H. exact (H Ha).
  - exact toy_boot_ok.
Defined.

Lemma services_by_role_witness : TunnelManager ∉ registered relay_config.
Proof. apply (services_by_role relay_config); [do 2 right; left|reflexivity]. Defined.

Lemma Start_prefix_witness :
  Start (λ svc, if decide (svc = ControlSync) then Err "no database" else Ret ()) (registered toy_config) =
    ([Identity; Journal; PolicyRuntime; Health; Presence; DNSServer; UPnP 51820; TunnelManager; FirewallEnforcer],
     Err "start: no database") ∧
  ∃ rest, registered toy_config = [Identity; Journal; PolicyRuntime; Health; Presence; DNSServer; UPnP 51820; TunnelManager; FirewallEnforcer] ++ rest.
Proof.
  assert (E : Start (λ svc, if decide (svc = ControlSync) then Err "no database" else Ret ()) (registered toy_config) =
    ([Identity; Journal; PolicyRuntime; Health; Presence; DNSServer; UPnP 51820; TunnelManager; FirewallEnforcer],
     Err "start: no database")) by (vm_compute; reflexivity).
  split; [exact E|]. destruct (Start_prefix _ _ _ _ E) as (rest & H & _). by exists rest.
Defined.

Lemma links_consistent_witness :
  is_Some (bridge_resolver (relay_of relay_config)) ∨ broker_fallback (relay_of relay_config) = "".
Proof.
  assert (Hh : isHome toy_config = true) by reflexivity.
  destruct (links_consistent (λ a b, a +:+ "/" +:+ b) (λ _ _, Ret ()) toy_environ relay_config toy_config Hh) as (_ & H & _).
  destruct (string_dec (broker_fallback (relay_of relay_config)) "") as [E|E]; [by right|left; by apply H].
Defined.
