(* ===== verification/Startup.v ===== *)
(** What a start opens: the database ([internal/store/db.go]), the key files
    ([internal/identity], [mitm/ca.go], [internal/sinkhole/sinkhole_tls.go]) and
    the listeners of the sinkhole ([internal/sinkhole], [internal/app/wiring.go]). *)
From stdpp Require Import gmap.
From S2P Require Import Prelude Net Lifecycle Settings Wiring Os GoString.

Local Open Scope string_scope.
Local Open Scope list_scope.

(** ** The database *)

Definition pragmas : list string :=
  ["PRAGMA journal_mode=WAL;"; "PRAGMA foreign_keys=ON;"; "PRAGMA wal_autocheckpoint=1000;";
   "PRAGMA journal_size_limit=67108864;"; "PRAGMA synchronous=NORMAL;"].

(** The statements executed, and the outcome. [run p] is the error of a pragma. *)
Fixpoint set_pragmas (run : string → option string) (ps : list string) : list string * go () :=
  match ps with
  | [] => ([], Ret ())
  | p :: ps =>
      match run p with
      | Some e => ([p], Err ("set pragma: " +:+ e))
      | None => let '(l, r) := set_pragmas run ps in (p :: l, r)
      end
  end.

Definition Open (sql_open : option string) (run : string → option string) : list string * go () :=
  match sql_open with Some e => ([], Err ("sql open: " +:+ e)) | None => set_pragmas run pragmas end.

(** The maintenance loop, which ends with the program: one checkpoint a tick,
    whether it succeeds or not. *)
Definition runWALMaintenance (ws : list (wake unit)) : list string * bool :=
  ticks (λ _, ["PRAGMA wal_checkpoint(TRUNCATE);"]) ws.

(** ** Key files *)

Inductive key_kind := RSA | ECDSA | Ed25519.

Section Keys.
(** Keys and certificates; what [crypto/tls], [crypto/x509] and [encoding/pem] do
    with their texts. *)
Context {Cert K : Type}.
Variable X509KeyPair : string → string → go (list string * (key_kind * K)).
Variable ParseCertificate : string → go Cert.
Variable PEMDecode : string → option string.
Variable ParsePKCS8PrivateKey : string → go (key_kind * K).

(** [mitm.LoadCA] on two files; [Certificate[0]] of an empty list panics. *)
Definition LoadCA (certFile keyFile : option string) : go (Cert * K) :=
  match certFile, keyFile with
  | None, _ => Err "read CA cert"
  | Some _, None => Err "read CA key"
  | Some certPEM, Some keyPEM =>
      go_try (X509KeyPair certPEM keyPEM)
        (λ pair, match fst pair with
                 | [] => Panic
                 | der :: _ =>
                     go_try (ParseCertificate der)
                       (λ cert, match snd pair with (RSA, k) => Ret (cert, k) | _ => Err "CA key must be RSA" end)
                       (λ e, Err ("parse CA cert: " +:+ e))
                 end)
        (λ e, Err ("parse CA key pair: " +:+ e))
  end.

(** [parseCA] of the sinkhole. *)
Definition parseCA (certPEM keyPEM : string) : go (Cert * (key_kind * K)) :=
  pair ← X509KeyPair certPEM keyPEM;
  match fst pair with
  | [] => Err "no cert in CA PEM"
  | der :: _ =>
      cert ← ParseCertificate der;
      match snd pair with (Ed25519, _) => Err "CA key must be RSA or ECDSA" | key => Ret (cert, key) end
  end.

(** [loadKeypair] of the identity. *)
Definition loadKeypair (file : option string) : go K :=
  match file with
  | None => Err "read private key"
  | Some text =>
      match PEMDecode text with
      | None => Err "invalid PEM"
      | Some der =>
          go_try (ParsePKCS8PrivateKey der)
            (λ key, match key with (Ed25519, k) => Ret k | _ => Err "private key is not ed25519" end)
            (λ e, Err ("parse private key: " +:+ e))
      end
  end.

(** What the proxy takes for its authority the sinkhole would take too, with
    the same certificate and key; the sinkhole also takes an ECDSA key. *)
Theorem authorities_agree certPEM keyPEM cert k :
  LoadCA (Some certPEM) (Some keyPEM) = Ret (cert, k) ↔ parseCA certPEM keyPEM = Ret (cert, (RSA, k)).
Proof.
  unfold LoadCA, parseCA. destruct (X509KeyPair certPEM keyPEM) as [[[|der l] [kind key]]|e| |]; simpl; try done.
  destruct (ParseCertificate der) as [c|e| |]; simpl; try done. destruct kind; simpl; naive_solver.
Qed.

(** The text the identity writes is read back: the law that [Enrollment] asks
    of its codec. *)
Lemma identity_codec (PEMEncode : string → string) (MarshalPKCS8PrivateKey : key_kind * K → string) k :
  (∀ b, PEMDecode (PEMEncode b) = Some b) → (∀ key, ParsePKCS8PrivateKey (MarshalPKCS8PrivateKey key) = Ret key) →
  loadKeypair (Some (PEMEncode (MarshalPKCS8PrivateKey (Ed25519, k)))) = Ret k.
Proof. intros Hp Hk. unfold loadKeypair. by rewrite Hp, Hk. Qed.
End Keys.

(** ** The listeners of the sinkhole *)

Definition SinkholeAddr : string := "10.10.0.254".
Definition sinkhole_host (port : string) : string := SinkholeAddr +:+ ":" +:+ port.

Section Sinkhole.
Context {W : Type} `{Machine W}.
(** [net.Listen] on an address *)
Variable can_listen : W → string → bool.

Definition EnsureSinkholeAddr : io W () :=
  out ← command ["ip"; "addr"; "add"; SinkholeAddr +:+ "/32"; "dev"; "wg0"];
  if ok out then mret () else
  if contains (combined out) "File exists" then mret () else fail "ip addr add".

Definition StartSinkhole : io W () := λ w,
  (w, if can_listen w (sinkhole_host "80") then Ret () else Err "sinkhole: listen").

(** [StartSinkholeTLS]: [parse] is [parseCA] on the two files. *)
Definition StartSinkholeTLS {A} (parse : string → string → go A) (certPath keyPath : string) : io W () := λ w,
  (w, match read_file w certPath with
      | None => Err "sinkhole-tls: read ca cert"
      | Some cert =>
          match read_file w keyPath with
          | None => Err "sinkhole-tls: read ca key"
          | Some key => go_try (parse cert key)
              (λ _, if can_listen w (sinkhole_host "443") then Ret () else Err "sinkhole-tls: listen")
              (λ e, Err ("sinkhole-tls: parse CA: " +:+ e))
          end
      end).

(** The step of [wire]: the error of the address is only printed. *)
Definition wire_sinkhole : io W () := _ ← ignore EnsureSinkholeAddr; StartSinkhole.

(** What ip(8) and the kernel do: an address is added to an interface that
    exists, once; one can listen on an address that some interface has, on a port
    that is free. *)
Record ip_tool (links addrs : W → gset string) (busy : W → string → bool) : Prop := {
  ip_missing w a d : (d ∉ links w) → ∃ w' r, exec w ["ip"; "addr"; "add"; a; "dev"; d] = (w', r) ∧
    ok r = false ∧ contains (combined r) "File exists" = false ∧ addrs w' = addrs w;
  ip_added w a d : d ∈ links w → (a ∉ addrs w) → ∃ w' r, exec w ["ip"; "addr"; "add"; a; "dev"; d] = (w', r) ∧
    ok r = true ∧ addrs w' = {[a]} ∪ addrs w;
  ip_again w a d : d ∈ links w → a ∈ addrs w → ∃ w' r, exec w ["ip"; "addr"; "add"; a; "dev"; d] = (w', r) ∧
    ok r = false ∧ contains (combined r) "File exists" = true ∧ addrs w' = addrs w;
  ip_busy w args x : busy (fst (exec w ("ip" :: args))) x = busy w x;
  ip_listen w port : can_listen w (sinkhole_host port) = bool_decide ((SinkholeAddr +:+ "/32") ∈ addrs w) && negb (busy w (sinkhole_host port)) }.

Context (links addrs : W → gset string) (busy : W → string → bool).
Hypothesis Hip : ip_tool links addrs busy.

Abbreviation sinkhole32 := (SinkholeAddr +:+ "/32").

(** Adding the address succeeds exactly when the interface exists, however
    often it is done. *)
Lemma ensure_address w :
  (snd (EnsureSinkholeAddr w) = Ret () ↔ "wg0" ∈ links w) ∧
  addrs (fst (EnsureSinkholeAddr w)) = (if bool_decide ("wg0" ∈ links w) then {[sinkhole32]} ∪ addrs w else addrs w) ∧
  (∀ x, busy (fst (EnsureSinkholeAddr w)) x = busy w x).
Proof.
  set (argv := ["ip"; "addr"; "add"; SinkholeAddr +:+ "/32"; "dev"; "wg0"]).
  assert (E : EnsureSinkholeAddr w = let '(w', r) := exec w argv in
    (w', if ok r || contains (combined r) "File exists" then Ret () else Err "ip addr add")).
  { unfold EnsureSinkholeAddr, mbind, io_bind, command. fold argv. destruct (exec w argv) as [w' r]. by destruct (ok r), (contains _ _). }
  assert (Hb : ∀ x, busy (fst (exec w argv)) x = busy w x) by apply (ip_busy _ _ _ Hip).
  rewrite E. destruct (decide ("wg0" ∈ links w)) as [Hl|Hl].
  - rewrite bool_decide_true by done. destruct (decide (sinkhole32 ∈ addrs w)) as [Ha|Ha].
    + destruct (ip_again _ _ _ Hip w sinkhole32 "wg0" Hl Ha) as (w' & r & Hx & Ho & Hc & Hw'). fold argv in Hx. rewrite Hx in *. rewrite Ho, Hc. simpl.
      split; [done|]. split; [|done]. rewrite Hw'. set_solver.
    + destruct (ip_added _ _ _ Hip w sinkhole32 "wg0" Hl Ha) as (w' & r & Hx & Ho & Hw'). fold argv in Hx. rewrite Hx in *. rewrite Ho. by simpl.
  - rewrite bool_decide_false by done.
    destruct (ip_missing _ _ _ Hip w sinkhole32 "wg0" Hl) as (w' & r & Hx & Ho & Hc & Hw'). fold argv in Hx. rewrite Hx in *. rewrite Ho, Hc. by simpl.
Qed.

(** C28. A home or LAN node can be built exactly on a machine that has the
    interface wg0 already (or the sinkhole's address by other means) and a free
    port: without it the address is not assigned, the failure is only printed,
    the listener fails, and the program ends before the tunnel manager, which
    would create the interface, is started. *)
Theorem home_needs_wg0 m c w : isRelay c = false →
  mkdir m = Ret () → open_db m = Ret () → migrations m = Ret () → init_identity m = Ret () → bind m ∅ sniproxyAddr = true →
  sinkhole m = snd (wire_sinkhole w) →
  ((∃ x, wire m c = Ret x) ↔ ("wg0" ∈ links w ∨ sinkhole32 ∈ addrs w) ∧ busy w (sinkhole_host "80") = false) ∧
  (∀ e, wire m c = Err e → e = "sinkhole: listen").
Proof.
  intros Hc Hm Hd Hmi Hi Hb Hs. destruct (ensure_address w) as (_ & H2 & H3).
  assert (Hw : snd (wire_sinkhole w) = if bool_decide ("wg0" ∈ links w ∨ sinkhole32 ∈ addrs w) && negb (busy w (sinkhole_host "80"))
    then Ret () else Err "sinkhole: listen").
  { unfold wire_sinkhole, mbind, io_bind. rewrite ignore_run by (unfold EnsureSinkholeAddr; io_safe).
    unfold StartSinkhole. cbn [snd]. rewrite (ip_listen _ _ _ Hip), H2, H3.
    erewrite bool_decide_ext; [done|]. case_bool_decide as Hl; set_solver. }
  unfold wire. rewrite Hm, Hd, Hmi, Hi, Hb, Hc, Hs, Hw.
  destruct (busy w (sinkhole_host "80")); rewrite ?andb_false_r, ?andb_true_r; [|case_bool_decide]; simpl; split;
    (split || intros e); try naive_solver.
Qed.
End Sinkhole.

(** ** A concrete machine *)

(** The interfaces and the addresses; every port is free. *)
Definition toy_net : Type := gset string * gset string.
Definition outcome_of (b : bool) (s : string) : result := {| ok := b; stdout := ""; combined := s |}.

Definition toy_ip : Machine toy_net := {|
  exec w argv := match argv with
                 | [_; _; _; a; _; d] =>
                     if decide (d ∈ w.1) then
                       (if decide (a ∈ w.2) then (w, outcome_of false "RTNETLINK answers: File exists")
                        else ((w.1, {[a]} ∪ w.2), outcome_of true ""))
                     else (w, outcome_of false "Cannot find device")
                 | _ => (w, outcome_of true "")
                 end;
  exec_in w _ _ := (w, outcome_of true "");
  read_file _ _ := None;
  mkdir_all w _ := (w, true);
  write_file w _ _ := (w, true);
  chmod w _ _ := (w, true);
  rename w _ _ := (w, true);
  remove_file w _ := w;
  create_temp w _ := (w, None);
  getenv _ _ := "";
|}.

Definition toy_listen (w : toy_net) (_ : string) : bool := bool_decide ((SinkholeAddr +:+ "/32") ∈ w.2).

Lemma toy_ip_tool : let _ := toy_ip in ip_tool toy_listen (λ w : toy_net, w.1) (λ w, w.2) (λ _ _, false).
Proof.
  intros M. split; try done.
  - intros w a d Hd. simpl. rewrite decide_False by done. by eexists _, _.
  - intros w a d Hd Ha. simpl. rewrite decide_True, decide_False by done. by eexists _, _.
  - intros w a d Hd Ha. simpl. rewrite !decide_True by done. by eexists _, _.
  - intros w port. unfold toy_listen. by rewrite andb_true_r.
Qed.

Definition host_on (w : toy_net) : machine :=
  Wiring.Machine (Ret ()) (Ret ()) (Ret ()) (Ret ()) (snd (wire_sinkhole (H := toy_ip) toy_listen w)) (λ bound a, bool_decide (a ∉ bound)).

(** A machine with a network card, before and after wg0 is made. *)
Lemma home_needs_wg0_witness :
  (¬ ∃ x, wire (host_on ({["eth0"]}, ∅)) toy_config = Ret x) ∧ ∃ x, wire (host_on ({["eth0"; "wg0"]}, ∅)) toy_config = Ret x.
Proof.
  assert (Hc : isRelay toy_config = false) by (vm_compute; reflexivity).
  split.
  - intros Hx. apply (home_needs_wg0 toy_listen _ _ _ toy_ip_tool (host_on ({["eth0"]}, ∅)) toy_config ({["eth0"]}, ∅) Hc) in Hx as [Hx _];
      [|reflexivity..]. set_solver.
  - apply (home_needs_wg0 toy_listen _ _ _ toy_ip_tool (host_on ({["eth0"; "wg0"]}, ∅)) toy_config ({["eth0"; "wg0"]}, ∅) Hc); [reflexivity..|].
    split; [left; set_solver|reflexivity].
Defined.
