(* ===== verification/Enrollment.v ===== *)
(** [internal/identity] and [internal/enrollment]: the node's id and keypair on
    disk, and the claim of the node into a family. *)
From stdpp Require Import gmap.
From S2P Require Import Prelude GoString.

Local Open Scope string_scope.
Local Open Scope list_scope.

(** ** Identity *)

Section Identity.
(** [uuid.Parse], [uuid.NewString], and the keypair: its generation, its PEM text
    and the reading of that text. *)
Context {Key : Type}.
Variable uuid_ok : string → bool.
Variable encode_key : Key → string.
Variable parse_key : string → go Key.

Record Identity := MkIdentity { NodeID : string; NodeName : string; PrivateKey : Key }.

(** The two files of the data directory. *)
Record disk := Disk { id_file : option string; key_file : option string }.

(** What one start meets: whether the files can be read ([os.ReadFile] also fails
    on an existing file), written, and the values generated if they are needed. *)
Record start_input := StartInput {
  id_readable : bool;
  id_writable : bool;
  new_id : string;
  key_visible : bool;   (** [os.Stat] succeeds on an existing key file *)
  key_readable : bool;
  key_writable : bool;
  new_key : go Key;
}.

Definition loadOrCreateNodeID (i : start_input) (d : disk) : disk * go string :=
  match (if id_readable i then id_file d else None) with
  | Some id => if uuid_ok id then (d, Ret id) else (d, Err "node_id file contains invalid UUID")
  | None =>
      if id_writable i then (Disk (Some (new_id i)) (key_file d), Ret (new_id i)) else (d, Err "write node_id")
  end.

Definition loadOrCreateKeypair (i : start_input) (d : disk) : disk * go Key :=
  match (if key_visible i then key_file d else None) with
  | Some text => if key_readable i then (d, parse_key text) else (d, Err "read private key")
  | None =>
      match new_key i with
      | Ret k =>
          if key_writable i then (Disk (id_file d) (Some (encode_key k)), Ret k) else (d, Err "write private key")
      | Err e => (d, Err e)
      | Panic => (d, Panic)
      | Loop => (d, Loop)
      end
  end.

(** [NewService] with [loadOrCreate]. *)
Definition NewService (nodeName : string) (i : start_input) (d : disk) : disk * go Identity :=
  match loadOrCreateNodeID i d with
  | (d, Ret id) =>
      match loadOrCreateKeypair i d with
      | (d, Ret k) => (d, Ret (MkIdentity id nodeName k))
      | (d, Err e) => (d, Err e)
      | (d, Panic) => (d, Panic)
      | (d, Loop) => (d, Loop)
      end
  | (d, Err e) => (d, Err e)
  | (d, Panic) => (d, Panic)
  | (d, Loop) => (d, Loop)
  end.

(** Later starts, the key file being removed before some of them. *)
Fixpoint restarts (nodeName : string) (l : list (bool * start_input)) (d : disk) : disk :=
  match l with
  | [] => d
  | (rotate, i) :: l =>
      let d := if rotate : bool then Disk (id_file d) None else d in
      restarts nodeName l (fst (NewService nodeName i d))
  end.

Lemma id_file_kept name i d id : id_readable i = true → uuid_ok id = true → id_file d = Some id →
  id_file (fst (NewService name i d)) = Some id.
Proof.
  intros Hr Hu Hd. unfold NewService, loadOrCreateNodeID. rewrite Hr, Hd, Hu.
  unfold loadOrCreateKeypair. destruct (if key_visible i then key_file d else None).
  - destruct (key_readable i); simpl; [|done]. by destruct (parse_key _).
  - destruct (new_key i); simpl; try done. by destruct (key_writable i).
Qed.

Lemma id_file_restarts name id : uuid_ok id = true → ∀ l d,
  Forall (λ x : bool * start_input, id_readable x.2 = true) l → id_file d = Some id → id_file (restarts name l d) = Some id.
Proof.
  intros Hu. induction l as [|[rot i] l IH]; intros d Hl Hd; [done|]. simpl. apply Forall_cons in Hl as [Hi Hl].
  apply IH; [done|]. apply id_file_kept; [done|done|]. by destruct rot.
Qed.

(** The node's id is the one of its first successful start: through any
    number of restarts, successful or not, and rotations of the keypair, a start
    that succeeds reports that id; and the keypair it reports is the one on
    disk. *)
Theorem node_id_stable name first d ident l last ident' :
  (∀ k, parse_key (encode_key k) = Ret k) → uuid_ok (new_id first) = true →
  snd (NewService name first d) = Ret ident →
  Forall (λ x : bool * start_input, id_readable x.2 = true) l → id_readable last = true →
  let d' := restarts name l (fst (NewService name first d)) in
  snd (NewService name last d') = Ret ident' →
  NodeID ident' = NodeID ident ∧
  ∃ text, key_file (fst (NewService name last d')) = Some text ∧ parse_key text = Ret (PrivateKey ident').
Proof.
  intros Hk Hu H1 Hl Hlast. cbv zeta.
  assert (Hid : uuid_ok (NodeID ident) = true ∧ id_file (fst (NewService name first d)) = Some (NodeID ident)).
  { revert H1. unfold NewService, loadOrCreateNodeID. destruct (if id_readable first then id_file d else None) as [id|] eqn:E.
    - destruct (uuid_ok id) eqn:Eu; [|done]. destruct (loadOrCreateKeypair first d) as [d1 [k|e| |]] eqn:Ek; try done.
      intros [= <-]. split; [done|]. simpl. assert (Hd : id_file d = Some id) by (destruct (id_readable first); [done|discriminate]).
      revert Ek. unfold loadOrCreateKeypair. destruct (if key_visible first then key_file d else None).
      + by destruct (key_readable first); intros [= <- _].
      + destruct (new_key first); try done. by destruct (key_writable first); intros [= <- _].
    - destruct (id_writable first); [|done].
      destruct (loadOrCreateKeypair first (Disk (Some (new_id first)) (key_file d))) as [d1 [k|e| |]] eqn:Ek; try done.
      intros [= <-]. split; [done|]. simpl. revert Ek. unfold loadOrCreateKeypair. simpl.
      destruct (if key_visible first then key_file d else None).
      + by destruct (key_readable first); intros [= <- _].
      + destruct (new_key first); try done. by destruct (key_writable first); intros [= <- _]. }
  destruct Hid as [Hv Hf]. pose proof (id_file_restarts name _ Hv l _ Hl Hf) as Hf'.
  set (d' := restarts name l _) in *. unfold NewService, loadOrCreateNodeID. rewrite Hlast, Hf', Hv.
  destruct (loadOrCreateKeypair last d') as [d2 [k|e| |]] eqn:Ek; try done. simpl. intros [= <-]. split; [done|]. simpl.
  revert Ek. unfold loadOrCreateKeypair. destruct (key_visible last); [destruct (key_file d') as [text|] eqn:Et|].
  - destruct (key_readable last); [|done]. intros [= <- Hp]. by exists text.
  - destruct (new_key last); try done. destruct (key_writable last); [|done]. intros [= <- <-]. simpl. eauto.
  - destruct (new_key last); try done. destruct (key_writable last); [|done]. intros [= <- <-]. simpl. eauto.
Qed.

(** A start that cannot read an existing id file takes a new id and writes it
    over the old one, as if the node had none. *)
Theorem unreadable_id_replaced name i d id :
  id_file d = Some id → id_readable i = false → id_writable i = true →
  snd (loadOrCreateNodeID i d) = Ret (new_id i) ∧ id_file (fst (NewService name i d)) = Some (new_id i).
Proof.
  intros Hd Hr Hw. unfold NewService, loadOrCreateNodeID. rewrite Hr, Hw. split; [done|].
  unfold loadOrCreateKeypair. cbn [key_file]. destruct (if key_visible i then key_file d else None).
  - destruct (key_readable i); simpl; [|done]. by destruct (parse_key _).
  - destruct (new_key i); simpl; try done. by destruct (key_writable i).
Qed.
End Identity.

(** ** Enrollment *)

Abbreviation config := (gmap string string).

Record State := MkState { Enrolled : bool; s_FamilyID : string; s_NodeID : string; EnrolledAt : option string }.

Record EnrollRequest := MkRequest { ClaimToken : string; r_FamilyID : string }.

(** The decoded response. *)
Record enroll_result := EnrollResult { er_FamilyID : string; er_NodeToken : string; er_Error : string }.

(** A non-empty value of a key; [ok]: the query succeeds. *)
Definition value_of (ok : bool) (c : config) (key : string) : option string :=
  if ok then match c !! key with Some v => if String.eqb v "" then None else Some v | None => None end else None.

Definition CurrentState (ok1 ok2 : bool) (nodeID : string) (c : config) : State :=
  match value_of ok1 c "family_id" with
  | Some f => MkState true f nodeID (value_of ok2 c "enrolled_at")
  | None => MkState false "" nodeID (value_of ok2 c "enrolled_at")
  end.

(** The loop over the map of values, in the order [range] visits it; [ok n]: the
    [n]-th write succeeds. *)
Fixpoint persist (ok : nat → bool) (n : nat) (c : config) (kvs : list (string * string)) : config * option string :=
  match kvs with
  | [] => (c, None)
  | (k, v) :: kvs => if ok n then persist ok (S n) (<[k := v]> c) kvs else (c, Some ("persist " +:+ k))
  end.

Definition enrolled_values (r : enroll_result) (now : string) : gmap string string :=
  {["family_id" := er_FamilyID r; "node_token" := er_NodeToken r; "enrolled_at" := now]}.

(** [post]: the status and the decoded body of the response; [now] is RFC 3339
    text. *)
Definition Enroll (range : gmap string string → list (string * string)) (ok : nat → bool) (nodeID : string) (req : EnrollRequest)
    (post : go (Z * go enroll_result)) (now : string) (c : config) : config * go State :=
  if String.eqb (ClaimToken req) "" then (c, Err "claim_token is required") else
  match post with
  | Ret (status, Ret r) =>
      if bool_decide (400 ≤ status)%Z then (c, Err ("enroll failed: " +:+ er_Error r)) else
      match persist ok 0 c (range (enrolled_values r now)) with
      | (c, Some e) => (c, Err e)
      | (c, None) => (c, Ret (MkState true (er_FamilyID r) nodeID (Some now)))
      end
  | Ret _ => (c, Err "decode enroll response")
  | _ => (c, Err "enroll request")
  end.

Lemma persist_all kvs : ∀ n c, persist (λ _, true) n c kvs = (fold_left (λ c kv, <[kv.1 := kv.2]> c) kvs c, None).
Proof. induction kvs as [|[k v] kvs IH]; intros n c; simpl; [done|]. apply IH. Qed.

Lemma fold_insert_lookup kvs : ∀ (c : config) k, NoDup kvs.*1 →
  fold_left (λ c kv, <[kv.1 := kv.2]> c) kvs c !! k = match (list_to_map kvs : config) !! k with Some v => Some v | None => c !! k end.
Proof.
  induction kvs as [|[k' v] kvs IH]; intros c k Hnd; simpl; [by rewrite lookup_empty|].
  apply NoDup_cons in Hnd as [Hni Hnd]. rewrite IH by done. destruct (decide (k' = k)) as [->|Hne].
  - rewrite lookup_insert_eq, lookup_insert_eq. by rewrite (not_elem_of_list_to_map_1 _ _ Hni).
  - by rewrite !lookup_insert_ne.
Qed.

(** An enrollment that succeeds records the family, the token and the time,
    whatever the order of the writes, and nothing else; the state read back is
    the one returned, unless the cloud answered without a family. *)
Theorem enroll_recorded range ok nodeID req post now c c' st :
  (∀ m, range m ≡ₚ map_to_list m) → now ≠ "" →
  Enroll range (λ _, true) nodeID req post now c = (c', Ret st) →
  ∃ status r, post = Ret (status, Ret r) ∧ (status < 400)%Z ∧
    (∀ k, c' !! k = match enrolled_values r now !! k with Some v => Some v | None => c !! k end) ∧
    (er_FamilyID r ≠ "" → CurrentState true ok nodeID c' = MkState true (er_FamilyID r) nodeID (if ok then Some now else None)) ∧
    (er_FamilyID r = "" → Enrolled st = true ∧ Enrolled (CurrentState true ok nodeID c') = false).
Proof.
  intros Hr Hnow. unfold Enroll. destruct (String.eqb _ ""); [done|]. destruct post as [[status [r|e| |]]|e| |]; try done.
  case_bool_decide as Hst; [done|]. rewrite persist_all. intros [= <- <-]. exists status, r.
  split; [done|]. split; [lia|].
  assert (Hk : ∀ k, fold_left (λ c kv, <[kv.1 := kv.2]> c) (range (enrolled_values r now)) c !! k =
    match enrolled_values r now !! k with Some v => Some v | None => c !! k end).
  { intros k. rewrite fold_insert_lookup.
    - assert (list_to_map (range (enrolled_values r now)) = enrolled_values r now) as ->; [|done].
      rewrite <- (list_to_map_to_list (enrolled_values r now)) at 2. apply list_to_map_proper; [|by apply Hr].
      rewrite (Hr (enrolled_values r now)). apply NoDup_fst_map_to_list.
    - rewrite (Hr (enrolled_values r now)). apply NoDup_fst_map_to_list. }
  split; [exact Hk|]. unfold CurrentState, value_of. rewrite !Hk. unfold enrolled_values.
  rewrite lookup_insert_eq. rewrite (lookup_insert_ne _ "family_id" "enrolled_at"), (lookup_insert_ne _ "node_token" "enrolled_at"), lookup_singleton_eq by done.
  split.
  - intros Hf. destruct (String.eqb_spec (er_FamilyID r) ""); [done|]. destruct (String.eqb_spec now ""); [done|]. done.
  - intros ->. done.
Qed.

(** A write that fails after that of the family leaves the node half
    enrolled: the enrollment reports an error, and the state read back says that
    the node is enrolled. *)
Theorem failed_enroll_enrolled range nodeID req status r now c l1 l2 ok2 :
  ClaimToken req ≠ "" → (status < 400)%Z → er_FamilyID r ≠ "" →
  range (enrolled_values r now) = l1 ++ ("family_id", er_FamilyID r) :: l2 → l2 ≠ [] → ("family_id" ∉ l1.*1) →
  let '(c', res) := Enroll range (λ n, bool_decide (n ≤ length l1)%nat) nodeID req (Ret (status, Ret r)) now c in
  (∃ e, res = Err e) ∧ Enrolled (CurrentState true ok2 nodeID c') = true.
Proof.
  intros Ht Hs Hf Hr Hl2 Hni. unfold Enroll. destruct (String.eqb_spec (ClaimToken req) ""); [done|].
  rewrite bool_decide_false by lia. rewrite Hr. clear Hr Hni.
  assert (Hp : ∀ l n c, (n + length l = length l1)%nat →
    persist (λ n, bool_decide (n ≤ length l1)%nat) n c (l ++ ("family_id", er_FamilyID r) :: l2) =
    (<["family_id" := er_FamilyID r]> (fold_left (λ c kv, <[kv.1 := kv.2]> c) l c), Some ("persist " +:+ (default ("", "") (head l2)).1))).
  { induction l as [|[k v] l IH]; intros n0 c0 Hn; simpl in *.
    - rewrite bool_decide_true by lia. destruct l2 as [|[k v] l2]; [done|]. simpl. by rewrite bool_decide_false by lia.
    - rewrite bool_decide_true by lia. apply IH. lia. }
  rewrite (Hp l1 0%nat c eq_refl). split; [eauto|]. unfold CurrentState, value_of. rewrite lookup_insert_eq.
  destruct (String.eqb_spec (er_FamilyID r) ""); done.
Qed.

(** ** Claim tokens *)

Definition words : list string :=
  ["anchor"; "beacon"; "cedar"; "delta"; "ember"; "falcon"; "grove";
   "harbor"; "island"; "jasper"; "kestrel"; "linden"; "marble"; "nova";
   "orchid"; "pine"; "quartz"; "river"; "stone"; "thorn"; "ultra";
   "valley"; "willow"; "xenon"; "yield"; "zephyr"; "bridge"; "cliff";
   "drift"; "eagle"; "flint"; "glacier"; "haven"; "inlet"; "juniper"].

(** [draw] is [rand.Int] below the given bound. *)
Definition GenerateClaimToken (draw : nat → go Z) : go string :=
  let word i := n ← draw i; match words !! Z.to_nat n with Some w => Ret w | None => Panic end in
  a ← word 0%nat; b ← word 1%nat; c ← word 2%nat; mret (a +:+ "-" +:+ b +:+ "-" +:+ c).

Lemma words_plain : Forall (λ w, contains_byte "-" w = false) words.
Proof. by repeat constructor. Qed.

Lemma words_NoDup : NoDup words.
Proof. apply (bool_decide_unpack _). vm_compute. exact I. Qed.

(** Draws below 35. *)
Definition fair (draw : nat → go Z) : Prop := ∀ i, ∃ n, draw i = Ret n ∧ (0 ≤ n < 35)%Z.

Lemma fair_word draw i : fair draw → ∃ n w, draw i = Ret (Z.of_nat n) ∧ words !! n = Some w ∧ contains_byte "-" w = false.
Proof.
  intros H. destruct (H i) as (z & Hd & Hz). assert (Hlt : (Z.to_nat z < length words)%nat) by (simpl; lia).
  destruct (lookup_lt_is_Some_2 words (Z.to_nat z) Hlt) as [w Hw]. exists (Z.to_nat z), w.
  split; [rewrite Hd; f_equal; lia|]. split; [done|]. by apply (Forall_lookup_1 _ _ _ _ words_plain Hw).
Qed.

(** The token of three draws: its pieces are the words drawn. *)
Lemma token_words draw : fair draw → ∃ n0 n1 n2 w0 w1 w2,
  draw 0%nat = Ret (Z.of_nat n0) ∧ draw 1%nat = Ret (Z.of_nat n1) ∧ draw 2%nat = Ret (Z.of_nat n2) ∧
  words !! n0 = Some w0 ∧ words !! n1 = Some w1 ∧ words !! n2 = Some w2 ∧
  GenerateClaimToken draw = Ret (join "-" [w0; w1; w2]) ∧ split_byte "-" (join "-" [w0; w1; w2]) = [w0; w1; w2].
Proof.
  intros H. destruct (fair_word draw 0 H) as (n0 & w0 & D0 & W0 & P0). destruct (fair_word draw 1 H) as (n1 & w1 & D1 & W1 & P1).
  destruct (fair_word draw 2 H) as (n2 & w2 & D2 & W2 & P2). exists n0, n1, n2, w0, w1, w2.
  do 6 (split; [done|]). split.
  - unfold GenerateClaimToken. rewrite D0, D1, D2. cbn [mbind go_bind mret go_ret]. rewrite !Nat2Z.id, W0, W1, W2. reflexivity.
  - apply (split_join "-"); [done|]. by repeat constructor.
Qed.

(** With draws below 35 a claim token is always produced, and different draws
    give different tokens: there are 42875 of them. *)
Theorem claim_token_injective draw draw' : fair draw → fair draw' →
  ∃ t, GenerateClaimToken draw = Ret t ∧
    (GenerateClaimToken draw' = Ret t → ∀ i, (i < 3)%nat → draw' i = draw i).
Proof.
  intros H H'. destruct (token_words draw H) as (n0 & n1 & n2 & w0 & w1 & w2 & D0 & D1 & D2 & W0 & W1 & W2 & G & S).
  destruct (token_words draw' H') as (m0 & m1 & m2 & v0 & v1 & v2 & E0 & E1 & E2 & V0 & V1 & V2 & G' & S').
  eexists. split; [exact G|]. rewrite G'. intros Eq%(inj Ret). rewrite Eq, S in S'. injection S' as -> -> ->.
  intros [|[|[|i]]] Hi; [rewrite D0, E0|rewrite D1, E1|rewrite D2, E2|lia]; do 2 f_equal.
  - exact (NoDup_lookup _ _ _ _ words_NoDup V0 W0).
  - exact (NoDup_lookup _ _ _ _ words_NoDup V1 W1).
  - exact (NoDup_lookup _ _ _ _ words_NoDup V2 W2).
Qed.

(** ** Concrete runs *)

Definition bit_encode (b : bool) : string := if b then "one" else "other".
Definition bit_parse (s : string) : go bool := Ret (String.eqb s "one").
Definition bit_start (id : string) (key readable : bool) : start_input (Key := bool) :=
  StartInput readable true id true true true (Ret key).

Lemma node_id_stable_witness :
  let d' := restarts (λ _, true) bit_encode bit_parse "node" [(true, bit_start "id-2" false true)]
    (fst (NewService (λ _, true) bit_encode bit_parse "node" (bit_start "id-1" true true) (Disk None None))) in
  NodeID (Key := bool) (MkIdentity "id-1" "node" false) = "id-1" ∧
  ∃ text, key_file (fst (NewService (λ _, true) bit_encode bit_parse "node" (bit_start "id-3" true true) d')) = Some text ∧
    bit_parse text = Ret false.
Proof.
  apply (node_id_stable (λ _, true) bit_encode bit_parse "node" (bit_start "id-1" true true) (Disk None None)
    (MkIdentity "id-1" "node" true) [(true, bit_start "id-2" false true)] (bit_start "id-3" true true) (MkIdentity "id-1" "node" false)).
  - by intros [].
  - reflexivity.
  - reflexivity.
  - by apply Forall_singleton.
  - reflexivity.
  - reflexivity.
Defined.

Lemma unreadable_id_replaced_witness :
  id_file (fst (NewService (λ _, true) bit_encode bit_parse "node" (bit_start "id-2" true false) (Disk (Some "id-1") None))) = Some "id-2".
Proof. apply (unreadable_id_replaced (λ _, true) bit_encode bit_parse "node" (bit_start "id-2" true false) (Disk (Some "id-1") None) "id-1"); reflexivity. Defined.

Definition claim : EnrollRequest := MkRequest "cedar-nova-pine" "".
Definition claimed : enroll_result := EnrollResult "fam-1" "token" "".

Definition toy_enrolled : config * go State :=
  Enroll map_to_list (λ _, true) "id-1" claim (Ret (200%Z, Ret claimed)) "2026-05-01T00:00:00Z" ∅.

Lemma toy_enrolled_ok : toy_enrolled = (toy_enrolled.1, Ret (MkState true "fam-1" "id-1" (Some "2026-05-01T00:00:00Z"))).
Proof. vm_compute. reflexivity. Qed.

Lemma enroll_recorded_witness :
  CurrentState true true "id-1" toy_enrolled.1 = MkState true "fam-1" "id-1" (Some "2026-05-01T00:00:00Z").
Proof.
  destruct (enroll_recorded map_to_list true "id-1" claim (Ret (200%Z, Ret claimed)) "2026-05-01T00:00:00Z" ∅ _ _ (λ m, reflexivity _) ltac:(discriminate) toy_enrolled_ok)
    as (status & r' & Hp & _ & _ & H & _).
  injection Hp as _ Hr. rewrite <- Hr in H. apply H. discriminate.
Defined.

Definition family_first (m : gmap string string) : list (string * string) :=
  [("family_id", "fam-1"); ("node_token", "token"); ("enrolled_at", "2026-05-01T00:00:00Z")].

Lemma failed_enroll_enrolled_witness :
  let '(c', res) := Enroll family_first (λ n, bool_decide (n ≤ 0)%nat) "id-1" claim (Ret (200%Z, Ret claimed)) "2026-05-01T00:00:00Z" ∅ in
  (∃ e, res = Err e) ∧ Enrolled (CurrentState true true "id-1" c') = true.
Proof.
  apply (failed_enroll_enrolled family_first "id-1" claim 200 claimed "2026-05-01T00:00:00Z" ∅ []
    [("node_token", "token"); ("enrolled_at", "2026-05-01T00:00:00Z")] true).
  - discriminate.
  - lia.
  - discriminate.
  - reflexivity.
  - discriminate.
  - apply not_elem_of_nil.
Defined.

Lemma claim_token_injective_witness :
  ∃ t, GenerateClaimToken (λ i, Ret (Z.of_nat i)) = Ret t ∧
    (GenerateClaimToken (λ _, Ret 7%Z) = Ret t → ∀ i, (i < 3)%nat → Ret 7%Z = Ret (Z.of_nat i)).
Proof.
  destruct (claim_token_injective (λ i, Ret (Z.of_nat (i `mod` 35))) (λ _, Ret 7%Z)) as (t & Ht & Hi).
  - intros i. eexists. split; [done|]. pose proof (Nat.mod_upper_bound i 35). lia.
  - intros i. exists 7%Z. split; [done|lia].
  - exists t. split; [exact Ht|]. intros H i Hlt. rewrite (Hi H i Hlt). by rewrite Nat.mod_small by lia.
Defined.
