(* ===== verification/Api.v ===== *)
(** [internal/api]: the local HTTP interface of a node. *)
From stdpp Require Import gmap.
From S2P Require Import Prelude Net Os Settings Policy Presence Commands GoString.

Local Open Scope string_scope.
Local Open Scope list_scope.

(** What the decoder finds after the first value of a body. *)
Inductive extra := EndOfBody | Malformed | NullValue | OtherValue.

(** A request; the body of a POST is given by what the JSON decoder makes of it
    (an object with only [type] and [payload], within the size limit). *)
Record request := Request {
  RemoteAddr : string;
  Method : string;
  Path : string;
  body : go (string * payload);
  trailing : extra;
}.

Inductive content :=
| ErrorJSON (e : string)
| HealthJSON
| NodeJSON (id name publicKey : string)
| BundleJSON (b : Bundle)
| DevicesJSON (devices : list (string * reg_row)) (count : nat)
| TunnelJSON (snapshot : payload)
| CertPEM (cert : string)
| CAInfoJSON (subject notAfter : string)
| QueuedJSON (id type : string)
| PlainNotFound.

Record response := Response { code : Z; payload_of : content }.

Definition method_not_allowed : response := Response 405 (ErrorJSON "method not allowed").

(** The services behind the interface; [None] where one is not configured. *)
Record backend := Backend {
  logger_set : bool;
  identity : option (string * string * string);
  policyRuntime : option (go Bundle);
  presenceEngine : option (go (list (string * reg_row)));
  enqueuer_set : bool;
  tunnelHealth : option payload;
  caProvider : option (string * string * string);
}.

Definition Health (b : backend) : option string :=
  if negb (logger_set b) then Some "logger not configured" else
  match identity b, policyRuntime b, presenceEngine b with
  | None, _, _ => Some "identity service not configured"
  | _, None, _ => Some "policy runtime not configured"
  | _, _, None => Some "presence engine not configured"
  | _, _, _ =>
      if negb (enqueuer_set b) then Some "command enqueuer not configured" else
      match tunnelHealth b with None => Some "tunnel health not configured" | Some _ => None end
  end.

Section Api.
Context `{V : IPv6Text} {W : Type}.
Variable b : backend.

Definition only_get (r : request) (k : response) : response :=
  if String.eqb (Method r) "GET" then k else method_not_allowed.

Definition handleHealthz (r : request) : response :=
  only_get r (match Health b with Some e => Response 503 (ErrorJSON e) | None => Response 200 HealthJSON end).

(** A nil service is dereferenced. *)
Definition handleNode (r : request) : go response :=
  if negb (String.eqb (Method r) "GET") then Ret method_not_allowed else
  match identity b with Some (id, name, key) => Ret (Response 200 (NodeJSON id name key)) | None => Panic end.

Definition handlePolicy (r : request) : go response :=
  if negb (String.eqb (Method r) "GET") then Ret method_not_allowed else
  match policyRuntime b with
  | Some (Ret bundle) => Ret (Response 200 (BundleJSON bundle))
  | Some _ => Ret (Response 404 (ErrorJSON "no active bundle"))
  | None => Panic
  end.

Definition handleDevices (r : request) : go response :=
  if negb (String.eqb (Method r) "GET") then Ret method_not_allowed else
  match presenceEngine b with
  | Some (Ret devices) => Ret (Response 200 (DevicesJSON devices (length devices)))
  | Some _ => Ret (Response 500 (ErrorJSON "query failed"))
  | None => Panic
  end.

Definition handleTunnel (r : request) : go response :=
  if negb (String.eqb (Method r) "GET") then Ret method_not_allowed else
  match tunnelHealth b with Some snap => Ret (Response 200 (TunnelJSON snap)) | None => Panic end.

Definition handleCACert (r : request) (ca : string * string * string) : response :=
  only_get r (Response 200 (CertPEM ca.1.1)).

Definition handleCAInfo (r : request) (ca : string * string * string) : response :=
  only_get r (Response 200 (CAInfoJSON ca.1.2 ca.2)).

(** [uuid] is the id drawn for the command. *)
Definition handleCommands (uuid : string) (r : request) : io (node W) response :=
  let bad e := mret (Response 400 (ErrorJSON e)) in
  if negb (String.eqb (Method r) "POST") then mret (Response 405 (ErrorJSON "POST required")) else
  match body r with
  | Ret (type, p) =>
      match trailing r with
      | Malformed => bad "invalid JSON"
      | OtherValue => bad "invalid JSON"
      | EndOfBody | NullValue =>
          if String.eqb type "" then bad "type is required" else
          if negb (isValidCommandType type) then bad "invalid command type" else
          res ← attempt (Enqueue {| ID := uuid; Type_ := type; Payload := p |});
          match res with
          | inl _ => mret (Response 202 (QueuedJSON uuid type))
          | inr _ => mret (Response 500 (ErrorJSON "enqueue failed"))
          end
      end
  | _ => bad "invalid JSON"
  end.

Definition lift (m : go response) : io (node W) response := λ n, (n, m).

(** The handlers by path; the two of the CA are registered when there is one. *)
Definition mux (uuid : string) (r : request) : io (node W) response :=
  let at_path p := String.eqb (Path r) p in
  if at_path "/healthz" then mret (handleHealthz r) else
  if at_path "/v1/node" then lift (handleNode r) else
  if at_path "/v1/policy" then lift (handlePolicy r) else
  if at_path "/v1/devices" then lift (handleDevices r) else
  if at_path "/v1/commands" then handleCommands uuid r else
  if at_path "/v1/tunnel" then lift (handleTunnel r) else
  match caProvider b with
  | Some ca =>
      if at_path "/ca/cert" then mret (handleCACert r ca) else
      if at_path "/ca/info" then mret (handleCAInfo r ca) else mret (Response 404 PlainNotFound)
  | None => mret (Response 404 PlainNotFound)
  end.

(** The peer of a connection that the middleware lets through. *)
Definition local_peer (r : request) : bool :=
  match SplitHostPort (RemoteAddr r) with
  | Ret (host, _) => match parse_ip host with Some a => IsLoopback a | None => false end
  | _ => false
  end.

Definition serve (uuid : string) (r : request) : io (node W) response :=
  if local_peer r then mux uuid r else mret (Response 403 (ErrorJSON "forbidden")).

(** A service that [Start] accepted. *)
Definition started : Prop := Health b = None.

(** A command that the interface queues. *)
Definition queues (r : request) (type : string) (p : payload) : Prop :=
  local_peer r = true ∧ Path r = "/v1/commands" ∧ Method r = "POST" ∧ body r = Ret (type, p) ∧
  (trailing r = EndOfBody ∨ trailing r = NullValue) ∧ isValidCommandType type = true.

Definition queued_entry (type : string) (p : payload) : entry :=
  {| command_type := type; status := StatusPending; payload_json := p; result_json := []; error_text := "" |}.

Lemma handleCommands_effect uuid r n type p :
  Method r = "POST" → body r = Ret (type, p) → trailing r = EndOfBody ∨ trailing r = NullValue → isValidCommandType type = true →
  faults n = [] → ledger n !! uuid = None →
  handleCommands uuid r n =
    (set_ledger (<[uuid := queued_entry type p]> (ledger n)) (Commands.order n ++ [uuid]) n, Ret (Response 202 (QueuedJSON uuid type))).
Proof.
  intros Hm Hb Ht Hv Hf Hn. unfold handleCommands. rewrite Hm, Hb. change (String.eqb "POST" "POST") with true.
  assert (Hne : String.eqb type "" = false) by (apply String.eqb_neq; intros ->; discriminate).
  destruct Ht as [-> | ->]; rewrite Hne, Hv; cbn [negb]; cbv [mbind io_bind attempt Enqueue db_fails update mret io_ret];
    rewrite Hf; cbn [ID]; by rewrite Hn.
Qed.

(** Nothing but a queued command changes the node. *)
Lemma serve_quiet uuid r n : (¬ ∃ type p, queues r type p) → fst (serve uuid r n) = n.
Proof.
  intros Hq. unfold serve. destruct (local_peer r) eqn:El; [|done]. unfold mux.
  destruct (String.eqb (Path r) "/healthz"); [done|]. destruct (String.eqb (Path r) "/v1/node"); [done|].
  destruct (String.eqb (Path r) "/v1/policy"); [done|]. destruct (String.eqb (Path r) "/v1/devices"); [done|].
  destruct (String.eqb_spec (Path r) "/v1/commands") as [Ep|].
  - unfold handleCommands. destruct (String.eqb_spec (Method r) "POST") as [Em|]; [|done]. cbn [negb].
    destruct (body r) as [[type p]| | |] eqn:Eb; try done. destruct (trailing r) eqn:Et; try done;
      (destruct (String.eqb type ""); [done|]; destruct (isValidCommandType type) eqn:Ev; [|done]);
      exfalso; apply Hq; exists type, p; repeat split; auto.
  - destruct (String.eqb (Path r) "/v1/tunnel"); [done|]. destruct (caProvider b); [|done].
    destruct (String.eqb (Path r) "/ca/cert"); [done|]. by destruct (String.eqb (Path r) "/ca/info").
Qed.

(** C32. The local interface answers only the machine itself: a request of any
    other peer gets 403 and changes nothing. Of the local ones only a
    well-formed POST of a known command type changes the node, by one pending
    row under the new id, and is answered 202 with that id; and no request
    makes a started service panic. *)
Theorem api_serves_local_only uuid r n :
  (local_peer r = false → serve uuid r n = (n, Ret (Response 403 (ErrorJSON "forbidden")))) ∧
  ((¬ ∃ type p, queues r type p) → fst (serve uuid r n) = n) ∧
  (∀ type p, queues r type p → faults n = [] → ledger n !! uuid = None →
    serve uuid r n = (set_ledger (<[uuid := queued_entry type p]> (ledger n)) (Commands.order n ++ [uuid]) n,
                      Ret (Response 202 (QueuedJSON uuid type)))) ∧
  (started → ∃ resp, snd (serve uuid r n) = Ret resp).
Proof.
  split; [|split; [apply serve_quiet|split]].
  - intros H. unfold serve. by rewrite H.
  - intros type p (Hl & Hp & Hm & Hb & Ht & Hv) Hf Hn. unfold serve. rewrite Hl. unfold mux. rewrite Hp. cbn.
    by apply handleCommands_effect.
  - intros Hst. unfold started, Health in Hst. destruct (logger_set b); [|done]. cbn [negb] in Hst.
    destruct (identity b) as [[[id name] key]|] eqn:Ei; [|done]. destruct (policyRuntime b) as [pr|] eqn:Epr; [|done].
    destruct (presenceEngine b) as [pe|] eqn:Epe; [|done]. destruct (enqueuer_set b); [|done]. cbn [negb] in Hst.
    destruct (tunnelHealth b) as [th|] eqn:Eth; [|done].
    unfold serve. destruct (local_peer r); [|simpl; eauto]. unfold mux, lift, handleNode, handlePolicy, handleDevices, handleTunnel.
    rewrite Ei, Epr, Epe, Eth.
    destruct (String.eqb (Path r) "/healthz"); [simpl; eauto|].
    destruct (String.eqb (Path r) "/v1/node"); [destruct (negb _); simpl; eauto|].
    destruct (String.eqb (Path r) "/v1/policy"); [destruct (negb _); [|destruct pr]; simpl; eauto|].
    destruct (String.eqb (Path r) "/v1/devices"); [destruct (negb _); [|destruct pe]; simpl; eauto|].
    destruct (String.eqb (Path r) "/v1/commands").
    { unfold handleCommands. destruct (negb _); [simpl; eauto|]. destruct (body r) as [[type p]| | |]; try (simpl; eauto; fail).
      destruct (trailing r); try (simpl; eauto; fail); (destruct (String.eqb type ""); [simpl; eauto|];
        destruct (negb _); [simpl; eauto|]; cbv [mbind io_bind attempt Enqueue db_fails update mret io_ret];
        destruct (faults n) as [|[] fs]; cbn; eauto). }
    destruct (String.eqb (Path r) "/v1/tunnel"); [destruct (negb _); simpl; eauto|].
    destruct (caProvider b); [|simpl; eauto]. destruct (String.eqb (Path r) "/ca/cert"); [simpl; eauto|].
    destruct (String.eqb (Path r) "/ca/info"); simpl; eauto.
Qed.
End Api.

(** ** Concrete requests *)

#[local] Existing Instance no_v6.

Definition toy_backend : backend :=
  Backend true (Some ("id", "node", "key")) (Some (Err "no active bundle")) (Some (Ret [])) true (Some []) None.

Definition post_lock (peer : string) : request := Request peer "POST" "/v1/commands" (Ret ("LOCK", [])) EndOfBody.

Lemma api_serves_local_only_witness :
  serve toy_backend "c9" (post_lock "192.168.1.7:50000") empty_node = (empty_node, Ret (Response 403 (ErrorJSON "forbidden"))) ∧
  snd (serve toy_backend "c9" (post_lock "127.0.0.1:50000") empty_node) = Ret (Response 202 (QueuedJSON "c9" "LOCK")).
Proof.
  split.
  - apply (api_serves_local_only toy_backend "c9" (post_lock "192.168.1.7:50000") empty_node). vm_compute. reflexivity.
  - destruct (api_serves_local_only toy_backend "c9" (post_lock "127.0.0.1:50000") empty_node) as (_ & _ & H & _).
    rewrite (H "LOCK" []); [reflexivity|repeat split; try (vm_compute; reflexivity); by left|reflexivity|reflexivity].
Defined.
