(* ===== verification/Listeners.v ===== *)
(** The services that hold a listening socket: [internal/sniproxy] (its accept
    loop), [internal/api] and [internal/relay/service.go] (an HTTP server, its
    goroutine and its stop), and the block page server of
    [internal/dns/blockpage.go], with the page it answers. *)
From stdpp Require Import gmap.
From S2P Require Import Prelude GoString Settings.

Local Open Scope string_scope.
Local Open Scope list_scope.

(** ** The accept loop of the TLS proxy *)

Section Accept.
Context {Conn : Type}.

(** What [Accept] gives: a connection, or an error, with what the test of the
    context that follows it sees. *)
Inductive accepted := Accepted (c : Conn) | AcceptError (ctx_done : bool).

(** [Server.Start]: the connections handled, and whether the loop has returned;
    [listen] is the error of [net.Listen]. *)
Fixpoint accept_loop (evs : list accepted) : list Conn * bool :=
  match evs with
  | [] => ([], false)
  | Accepted c :: evs => let '(l, returned) := accept_loop evs in (c :: l, returned)
  | AcceptError true :: _ => ([], true)
  | AcceptError false :: evs => accept_loop evs
  end.

Definition Start (addr : string) (listen : option string) (evs : list accepted) : go (list Conn * bool) :=
  match listen with
  | Some e => Err ("sniproxy listen " +:+ addr +:+ ": " +:+ e)
  | None => Ret (accept_loop evs)
  end.

Definition survives (evs : list accepted) : Prop := Forall (λ e, e ≠ AcceptError true) evs.

(** No error of [Accept] stops the proxy while its context lives: every
    connection that arrives is handled; after the context has ended the first
    error ends the loop, as closing the listener brings about. *)
Theorem proxy_survives_errors evs c rest :
  survives evs →
  accept_loop (evs ++ Accepted c :: rest) = (omap (λ e, match e with Accepted c => Some c | _ => None end) evs ++ c :: (accept_loop rest).1, (accept_loop rest).2) ∧
  accept_loop (evs ++ AcceptError true :: rest) = (omap (λ e, match e with Accepted c => Some c | _ => None end) evs, true).
Proof.
  induction 1 as [|e evs He Hs [IH1 IH2]]; simpl; [by destruct (accept_loop rest)|].
  destruct e as [d|[]]; [|by destruct He|done].
  change (omap _ (Accepted d :: evs)) with (d :: omap (λ e, match e with Accepted c => Some c | _ => None end) evs).
  rewrite IH1, IH2. done.
Qed.
End Accept.
Arguments accepted : clear implicits.

Lemma proxy_survives_errors_witness :
  let evs := [AcceptError false; AcceptError false] in
  survives evs ∧ accept_loop (evs ++ AcceptError true :: [Accepted 1%nat]) = (([] : list nat), true).
Proof. intros evs. assert (H : survives evs) by (repeat constructor; discriminate). split; [exact H|]. apply (proxy_survives_errors evs 1%nat [Accepted 1%nat] H). Defined.

(** ** A service around an HTTP server

    The goroutine that [Start] creates, before, in and after [Serve]; whether
    [Shutdown] has been called, and how [Stop] stands. [Serve] on a server that is
    shut down returns at once, and closes its listener. *)
Inductive worker := Spawned | InServe | Ended.
Inductive stop_state := NotCalled | ShuttingDown | Waiting | Returned (err : option string).

Record http_service := HTTPService {
  work : worker;
  listening : bool;
  shut : bool;
  stopping : stop_state;
}.

(** [Service.Start] of the API: the socket is bound before it returns; [health] is
    the error of its own check. *)
Definition start_api_server (addr : string) (health : option string) (bind : option string) : go http_service :=
  match health with
  | Some e => Err e
  | None => match bind with
            | Some e => Err ("api bind failed on " +:+ addr +:+ ": " +:+ e)
            | None => Ret (HTTPService Spawned true false NotCalled)
            end
  end.

(** [Stop]: [Shutdown] closes the listeners being served and waits for the
    connections, or for the end of its context; then the goroutine is waited
    for. *)
Inductive http_step : http_service → http_service → Prop :=
| hs_serves l st : http_step (HTTPService Spawned l false st) (HTTPService InServe l false st)
| hs_too_late l st : http_step (HTTPService Spawned l true st) (HTTPService Ended false true st)
| hs_serve_returns l b st : http_step (HTTPService InServe l b st) (HTTPService Ended false b st)
| hs_stop w l b : http_step (HTTPService w l b NotCalled) (HTTPService w (match w with InServe => false | _ => l end) true ShuttingDown)
| hs_shutdown_error w l b e : http_step (HTTPService w l b ShuttingDown) (HTTPService w l b (Returned (Some e)))
| hs_shutdown_done w l b : http_step (HTTPService w l b ShuttingDown) (HTTPService w l b Waiting)
| hs_waited l b : http_step (HTTPService Ended l b Waiting) (HTTPService Ended l b (Returned None)).

Definition http_inv (s : http_service) : Prop :=
  (work s = Ended → listening s = false) ∧
  (stopping s ≠ NotCalled → shut s = true) ∧
  (shut s = true → work s = InServe → listening s = false) ∧
  (stopping s = Returned None → work s = Ended).

Lemma http_step_inv s s' : http_inv s → http_step s s' → http_inv s'.
Proof.
  intros Hi Hst. destruct Hst; destruct Hi as (H1 & H2 & H3 & H4); unfold http_inv; simpl in *; split_and!; intros;
    repeat case_match; subst; try done; intuition congruence.
Qed.

(** A step brings the service nearer to its end. *)
Definition http_measure (s : http_service) : nat :=
  match work s with Spawned => 2 | InServe => 1 | Ended => 0 end +
  match stopping s with NotCalled => 3 | ShuttingDown => 2 | Waiting => 1 | Returned _ => 0 end.

Lemma http_step_measure s s' : http_step s s' → (http_measure s' < http_measure s)%nat.
Proof. intros Hst. destruct Hst; unfold http_measure; simpl; lia. Qed.

Lemma http_terminates s : Acc (λ t s, http_step s t) s.
Proof. exact (measure_terminates http_step http_measure http_step_measure s). Qed.

(** Once [Stop] is called it returns in every run, since each run is finite and
    can only end with [Stop] returned; when it reports success the goroutine has
    ended and the port is closed. *)
Theorem api_stop_complete addr health bind s0 s : start_api_server addr health bind = Ret s0 → star http_step s0 s →
  Acc (λ t s, http_step s t) s ∧
  (stopping s ≠ NotCalled → (∀ e, stopping s ≠ Returned e) → ∃ s', http_step s s') ∧
  (stopping s = Returned None → work s = Ended ∧ listening s = false).
Proof.
  unfold start_api_server. destruct health; [done|]. destruct bind; [done|]. intros [= <-] Hs.
  assert (Hi : http_inv s) by (revert Hs; apply star_invariant; [apply http_step_inv|by repeat split]).
  split; [apply http_terminates|]. destruct s as [w l b st], Hi as (H1 & H2 & H3 & H4); simpl in *. split.
  - intros Hn Hr. rewrite H2 by done. destruct st as [| | |e]; [done| | |by destruct (Hr e)].
    + eexists. apply hs_shutdown_done.
    + destruct w; eexists; [apply hs_too_late|apply hs_serve_returns|apply hs_waited].
  - intros He. specialize (H4 He). auto.
Qed.

Lemma api_stop_complete_witness :
  let s := HTTPService Ended false true (Returned None) in
  start_api_server ":80" None None = Ret (HTTPService Spawned true false NotCalled) ∧ work s = Ended ∧ listening s = false.
Proof.
  intros s. split; [reflexivity|].
  apply (api_stop_complete ":80" None None (HTTPService Spawned true false NotCalled) s); [reflexivity| |reflexivity].
  eapply star_step; [apply hs_serves|]. eapply star_step; [apply hs_stop|].
  eapply star_step; [apply hs_shutdown_done|]. eapply star_step; [apply hs_serve_returns|].
  eapply star_step; [apply hs_waited|]. apply star_refl.
Defined.

(** ** The block page server of the DNS package

    Two goroutines: one waits for the end of the context and shuts the server
    down, the other serves. *)
Inductive watcher := Watching | ShutCalled | WatchEnded.

Record page_server := PageServer {
  watch : watcher;
  serve : worker;
  open : bool;
  closed : bool;
  cancelled : bool;
  stop_called : bool;
  stopped : bool;
}.

Definition blockpage_Start (bind : option string) : go page_server :=
  match bind with
  | Some e => Err ("blockpage: listen: " +:+ e)
  | None => Ret (PageServer Watching Spawned true false false false false)
  end.

Inductive page_step : page_server → page_server → Prop :=
| ps_context_done w v o c sc sd : page_step (PageServer w v o c false sc sd) (PageServer w v o c true sc sd)
| ps_stop w v o c x : page_step (PageServer w v o c x false false) (PageServer w v o c true true false)
| ps_shutdown v o c sc sd : page_step (PageServer Watching v o c true sc sd)
    (PageServer ShutCalled v (match v with InServe => false | _ => o end) true true sc sd)
| ps_shut v o c x sc sd : page_step (PageServer ShutCalled v o c x sc sd) (PageServer WatchEnded v o c x sc sd)
| ps_serves w o x sc sd : page_step (PageServer w Spawned o false x sc sd) (PageServer w InServe o false x sc sd)
| ps_too_late w o x sc sd : page_step (PageServer w Spawned o true x sc sd) (PageServer w Ended false true x sc sd)
| ps_serve_returns w o c x sc sd : page_step (PageServer w InServe o c x sc sd) (PageServer w Ended false c x sc sd)
| ps_stopped o c x : page_step (PageServer WatchEnded Ended o c x true false) (PageServer WatchEnded Ended o c x true true).

Definition page_inv (s : page_server) : Prop :=
  (serve s = Ended → open s = false) ∧
  (watch s ≠ Watching → closed s = true) ∧
  (stop_called s = true → cancelled s = true) ∧
  (stopped s = true → stop_called s = true ∧ watch s = WatchEnded ∧ serve s = Ended).

Lemma page_step_inv s s' : page_inv s → page_step s s' → page_inv s'.
Proof.
  intros Hi Hst. destruct Hst; destruct Hi as (H1 & H2 & H3 & H4); unfold page_inv; simpl in *; split_and!; intros;
    repeat case_match; subst; try done; intuition congruence.
Qed.

Definition page_measure (s : page_server) : nat :=
  match watch s with Watching => 2 | ShutCalled => 1 | WatchEnded => 0 end +
  match serve s with Spawned => 2 | InServe => 1 | Ended => 0 end +
  (if cancelled s then 0 else 1) + (if stop_called s then 0 else 1) + (if stopped s then 0 else 1).

Lemma page_step_measure s s' : page_step s s' → (page_measure s' < page_measure s)%nat.
Proof.
  intros Hst. destruct Hst; unfold page_measure; simpl; try destruct x; lia.
Qed.

Lemma page_terminates s : Acc (λ t s, page_step s t) s.
Proof. exact (measure_terminates page_step page_measure page_step_measure s). Qed.

(** The block page server stops: a pending [Stop] returns in every run, and then
    no goroutine of it is left and its port is closed. *)
Theorem blockpage_stops bind s0 s : blockpage_Start bind = Ret s0 → star page_step s0 s →
  Acc (λ t s, page_step s t) s ∧
  (stop_called s = true → stopped s = false → ∃ s', page_step s s') ∧
  (stopped s = true → watch s = WatchEnded ∧ serve s = Ended ∧ open s = false).
Proof.
  unfold blockpage_Start. destruct bind; [done|]. intros [= <-] Hs.
  assert (Hi : page_inv s) by (revert Hs; apply star_invariant; [apply page_step_inv|by repeat split]).
  split; [apply page_terminates|]. destruct s as [w v o c x sc sd], Hi as (H1 & H2 & H3 & H4); simpl in *. split.
  - intros -> ->. rewrite H3 by done. destruct w.
    + eexists. apply ps_shutdown.
    + eexists. apply ps_shut.
    + rewrite H2 by done. destruct v; eexists; [apply ps_too_late|apply ps_serve_returns|apply ps_stopped].
  - intros Hd. destruct (H4 Hd) as (_ & Hw & Hv). auto.
Qed.

Lemma blockpage_stops_witness :
  let s := PageServer Watching Spawned true false true true false in ∃ s', page_step s s'.
Proof.
  intros s. apply (blockpage_stops None (PageServer Watching Spawned true false false false false) s); [reflexivity| |reflexivity..].
  eapply star_step; [apply ps_stop|]. apply star_refl.
Defined.

(** ** The relay service

    The sessions of nodes and devices are connections taken over from the HTTP
    server; [Shutdown], as its documentation says, neither closes nor awaits
    them. *)
Record relay_service := RelayService {
  r_watch : watcher;
  r_serve : worker;
  r_open : bool;
  r_shut : bool;
  r_cancelled : bool;
  requests : nat;
  sessions : gset nat;
  opened : nat;
  r_stop : stop_state;
}.

(** [BrokerService.Start]: two goroutines are created, nothing can fail. *)
Definition broker_Start : go relay_service := Ret (RelayService Watching Spawned false false false 0 ∅ 0 NotCalled).

Inductive relay_step : relay_service → relay_service → Prop :=
| rl_listen_error w x q ss n st : relay_step (RelayService w Spawned false false x q ss n st) (RelayService w Ended false false x q ss n st)
| rl_serves w x q ss n st : relay_step (RelayService w Spawned false false x q ss n st) (RelayService w InServe true false x q ss n st)
| rl_too_late w o x q ss n st : relay_step (RelayService w Spawned o true x q ss n st) (RelayService w Ended false true x q ss n st)
| rl_serve_returns w o c x q ss n st : relay_step (RelayService w InServe o c x q ss n st) (RelayService w Ended false c x q ss n st)
| rl_request w v c x q ss n st : relay_step (RelayService w v true c x q ss n st) (RelayService w v true c x (S q) ss n st)
| rl_answered w v o c x q ss n st : relay_step (RelayService w v o c x (S q) ss n st) (RelayService w v o c x q ss n st)
| rl_upgraded w v o c x q ss n st : relay_step (RelayService w v o c x (S q) ss n st) (RelayService w v o c x q ({[n]} ∪ ss) (S n) st)
| rl_session_ends w v o c x q ss n st i : relay_step (RelayService w v o c x q ss n st) (RelayService w v o c x q (ss ∖ {[i]}) n st)
| rl_context_done w v o c q ss n st : relay_step (RelayService w v o c false q ss n st) (RelayService w v o c true q ss n st)
| rl_shutdown v o c q ss n st : relay_step (RelayService Watching v o c true q ss n st) (RelayService ShutCalled v false true true q ss n st)
| rl_shut v o c x q ss n st : relay_step (RelayService ShutCalled v o c x q ss n st) (RelayService WatchEnded v o c x q ss n st)
| rl_stop w v o c x q ss n : relay_step (RelayService w v o c x q ss n NotCalled) (RelayService w v false true x q ss n ShuttingDown)
| rl_stop_error w v o c x q ss n e : relay_step (RelayService w v o c x q ss n ShuttingDown) (RelayService w v o c x q ss n (Returned (Some e)))
| rl_stopped w v o c x ss n : relay_step (RelayService w v o c x 0 ss n ShuttingDown) (RelayService w v o c x 0 ss n (Returned None)).

Definition relay_inv (s : relay_service) : Prop :=
  (r_shut s = true → r_open s = false) ∧
  (r_stop s ≠ NotCalled → r_shut s = true) ∧
  (r_stop s = Returned None → requests s = O).

Lemma relay_step_inv s s' : relay_inv s → relay_step s s' → relay_inv s'.
Proof.
  intros Hi Hst. destruct Hst; destruct Hi as (H1 & H2 & H3); unfold relay_inv; simpl in *; split_and!; intros;
    subst; try done; intuition congruence.
Qed.

(** No session begins once [Stop] has succeeded. *)
Lemma relay_settled s s' : relay_inv s → r_stop s = Returned None → relay_step s s' →
  r_stop s' = Returned None ∧ sessions s' ⊆ sessions s.
Proof.
  intros (H1 & H2 & H3) Hs Hst. destruct Hst; simpl in *; subst; try done; try (split; [done|set_solver]);
    by specialize (H3 eq_refl).
Qed.

Lemma finish_requests w v o c x q ss n st :
  star relay_step (RelayService w v o c x q ss n st) (RelayService w v o c x 0 ss n st).
Proof. induction q as [|q IH]; [apply star_refl|]. eapply star_step; [apply rl_answered|exact IH]. Qed.

(** The relay service is started before it listens: an address in use is an end
    of its goroutine, no error. Its [Stop] closes the port, waits for the plain
    requests and lets no session begin afterwards; the sessions that stand are
    not ended, each of them can outlive the service. *)
Theorem relay_stop_keeps_sessions s0 s : broker_Start = Ret s0 → star relay_step s0 s →
  (∃ s', star relay_step s0 s' ∧ r_serve s' = Ended ∧ r_open s' = false ∧ r_stop s' = NotCalled) ∧
  (r_stop s = Returned None → r_open s = false ∧ requests s = O ∧ ∀ s', star relay_step s s' → sessions s' ⊆ sessions s) ∧
  (r_stop s = NotCalled → ∃ s', star relay_step s s' ∧ r_stop s' = Returned None ∧ sessions s' = sessions s).
Proof.
  intros [= <-] Hs.
  assert (Hi : relay_inv s) by (revert Hs; apply star_invariant; [apply relay_step_inv|by repeat split]).
  split; [eexists; split; [eapply star_step; [apply rl_listen_error|apply star_refl]|done]|]. split.
  - intros Hr. destruct Hi as (H1 & H2 & H3). rewrite Hr in H2. specialize (H2 ltac:(done)). split; [auto|]. split; [auto|]. intros s' Hs'.
    assert (Hk : relay_inv s' ∧ r_stop s' = Returned None ∧ sessions s' ⊆ sessions s); [|apply Hk].
    revert Hs'. apply (star_invariant relay_step (λ s', relay_inv s' ∧ r_stop s' = Returned None ∧ sessions s' ⊆ sessions s));
      [|split_and!; try done; by rewrite Hr].
    clear. intros t t' (Ht & Hr & Hsub) Hst. destruct (relay_settled t t' Ht Hr Hst) as [Hr' Hsub'].
    split; [by eapply relay_step_inv|]. split; [done|by etrans].
  - intros Hr. destruct s as [w v o c x q ss n st]. simpl in Hr. subst st.
    eexists. split; [eapply star_step; [apply rl_stop|]; eapply star_trans; [apply finish_requests|]; eapply star_step; [apply rl_stopped|apply star_refl]|done].
Qed.

Lemma relay_stop_keeps_sessions_witness :
  let s := RelayService Watching InServe true false false 0 {[0%nat]} 1 NotCalled in
  ∃ s', star relay_step s s' ∧ r_stop s' = Returned None ∧ sessions s' = {[0%nat]}.
Proof.
  intros s. apply (relay_stop_keeps_sessions (RelayService Watching Spawned false false false 0 ∅ 0 NotCalled) s); [reflexivity| |reflexivity].
  eapply star_step; [apply rl_serves|]. eapply star_step; [apply rl_request|]. eapply star_step; [apply rl_upgraded|].
  rewrite (right_id_L ∅ (∪)). apply star_refl.
Defined.
