(* ===== verification/Sinkhole.v ===== *)
(** [internal/sinkhole]: the block page and the certificates of its TLS
    listener, kept in a least-recently-used cache. *)
From stdpp Require Import gmap.
From S2P Require Import Prelude Net Settings GoString.

Local Open Scope string_scope.
Local Open Scope list_scope.

(** ** The block page *)

Inductive BlockReason := ReasonSchedule | ReasonParent | ReasonSafety | ReasonBedtime | ReasonDefault | OtherReason (s : string).

Definition reason_of (s : string) : BlockReason :=
  if String.eqb s "schedule" then ReasonSchedule
  else if String.eqb s "parent" then ReasonParent
  else if String.eqb s "safety" then ReasonSafety
  else if String.eqb s "bedtime" then ReasonBedtime
  else if String.eqb s "blocked" then ReasonDefault
  else OtherReason s.

(** The title, the body and the emoji. *)
Definition resolveContent (r : BlockReason) : string * string * string :=
  match r with
  | ReasonSchedule => ("Screen time is paused",
      "This site is blocked during your current schedule. Check the SafeSwitch app to see when your next free period starts.",
      utf8 [240;159;147;133]%N)
  | ReasonBedtime => ("It's bedtime",
      "Internet is off for the night. Sleep well " +:+ utf8 [226;128;148]%N +:+ " your screen time will be back in the morning.",
      utf8 [240;159;140;153]%N)
  | ReasonParent => ("Paused by a parent",
      "A parent has paused your internet access. You can send a check-in from the SafeSwitch app.",
      utf8 [226;143;184]%N)
  | ReasonSafety => ("This site is blocked",
      "SafeSwitch has blocked this site because it may be unsafe. If you think this is a mistake, let a parent know.",
      utf8 [240;159;155;161;239;184;143]%N)
  | _ => ("This site is blocked", "SafeSwitch has blocked access to this site.", utf8 [240;159;148;146]%N)
  end.

(** The characters of a domain that are kept; a rune outside ASCII has only bytes
    from 0x80 on, which are all dropped. *)
Definition domain_char (a : ascii) : bool :=
  let n := N_of_ascii a in
  ((97 <=? n) && (n <=? 122) || (65 <=? n) && (n <=? 90) || (48 <=? n) && (n <=? 57) || (n =? 46) || (n =? 45))%N.

Fixpoint keep_domain (s : string) : string :=
  match s with
  | EmptyString => ""
  | String a r => if domain_char a then String a (keep_domain r) else keep_domain r
  end.

Definition sanitise (s : string) : string :=
  let out := keep_domain s in if bool_decide (253 < String.length out)%nat then stake 253 out else out.

(** What the page shows; the rest of its text is fixed. *)
Record page := Page { p_emoji : string; p_title : string; p_domain : string; p_body : string; p_status : Z }.

(** [handleBlock]: [host] is the Host header, [url_host] that of the URL, [reason]
    the query parameter. *)
Definition handleBlock (host url_host reason : string) : page :=
  let domain := if String.eqb host "" then url_host else host in
  let domain := match SplitHostPort domain with Ret (h, _) => h | _ => domain end in
  let domain := sanitise domain in
  let r := if String.eqb reason "" then ReasonDefault else reason_of reason in
  let '(title, body, emoji) := resolveContent r in
  Page emoji title domain body 403.

Fixpoint all_chars (P : ascii → bool) (s : string) : bool :=
  match s with EmptyString => true | String a r => P a && all_chars P r end.

Lemma keep_domain_chars s : all_chars domain_char (keep_domain s) = true.
Proof. induction s as [|a s IH]; simpl; [done|]. destruct (domain_char a) eqn:E; [simpl; by rewrite E|done]. Qed.

Lemma all_chars_stake P n s : all_chars P s = true → all_chars P (stake n s) = true.
Proof. revert n. induction s as [|a s IH]; intros [|n]; simpl; try done. intros [H1 H2]%andb_true_iff. rewrite H1. by apply IH. Qed.

Lemma keep_domain_id s : all_chars domain_char s = true → keep_domain s = s.
Proof. induction s as [|a s IH]; simpl; [done|]. intros [-> H]%andb_true_iff. by rewrite IH. Qed.

(** Nothing of a request reaches the block page but a domain of at most 253
    letters, digits, dots and dashes; the texts are the fixed ones, and a host
    that is such a domain is shown as it is. *)
Theorem block_page_safe host url_host reason :
  let p := handleBlock host url_host reason in
  all_chars domain_char (p_domain p) = true ∧ (String.length (p_domain p) ≤ 253)%nat ∧
  (∃ r, (p_title p, p_body p, p_emoji p) = resolveContent r) ∧
  (host ≠ "" → all_chars domain_char host = true → (String.length host ≤ 253)%nat → p_domain p = host).
Proof.
  unfold handleBlock. cbv zeta. set (d := match SplitHostPort _ with Ret (h, _) => h | _ => _ end).
  destruct (resolveContent _) as [[t bd] em] eqn:E. simpl.
  assert (Hs : all_chars domain_char (sanitise d) = true ∧ (String.length (sanitise d) ≤ 253)%nat).
  { unfold sanitise. case_bool_decide as Hl.
    - split; [apply all_chars_stake, keep_domain_chars|]. rewrite length_stake. lia.
    - split; [apply keep_domain_chars|lia]. }
  destruct Hs as [H1 H2]. split; [done|]. split; [done|]. split; [by eexists|].
  intros Hne Hc Hl. assert (Hd : d = host).
  { unfold d. destruct (String.eqb_spec host ""); [done|].
    assert (Hcol : ∀ s, all_chars domain_char s = true → split_last ":" s = None).
    { intros s Hs. unfold split_last. rewrite split_byte_none; [done|].
      clear -Hs. induction s as [|a s IH]; simpl in *; [done|]. apply andb_true_iff in Hs as [Ha Hs]. rewrite (IH Hs), orb_false_r.
      apply Ascii.eqb_neq. intros ->. discriminate Ha. }
    unfold SplitHostPort. by rewrite (Hcol host Hc). }
  rewrite Hd. unfold sanitise. rewrite keep_domain_id by done. by rewrite bool_decide_false by lia.
Qed.

(** ** The leaf cache

    [container/list] elements are cells of a heap, named by number; [items] points
    into it, and [ll] is the list from front to back. *)
Section Cache.
Context {V : Type}.

Record leafCache := LeafCache {
  limit : nat;
  ll : list nat;
  cells : gmap nat (string * V);
  items : gmap string nat;
  next_cell : nat;
}.

Definition newLeafCache (max : nat) : leafCache := LeafCache max [] ∅ ∅ 0.

Definition drop_cell (el : nat) (l : list nat) : list nat := List.filter (λ x, negb (Nat.eqb x el)) l.
Definition move_to_front (el : nat) (l : list nat) : list nat := el :: drop_cell el l.

Definition cache_get (c : leafCache) (host : string) : leafCache * option V :=
  match items c !! host with
  | None => (c, None)
  | Some el => (LeafCache (limit c) (move_to_front el (ll c)) (cells c) (items c) (next_cell c), snd <$> cells c !! el)
  end.

Definition cache_put (c : leafCache) (host : string) (v : V) : leafCache :=
  match items c !! host with
  | Some el => LeafCache (limit c) (move_to_front el (ll c)) (<[el := (host, v)]> (cells c)) (items c) (next_cell c)
  | None =>
      let el := next_cell c in
      let l := el :: ll c in
      let cs := <[el := (host, v)]> (cells c) in
      let its := <[host := el]> (items c) in
      if bool_decide (limit c < length l)%nat then
        match last l with
        | Some tl =>
            LeafCache (limit c) (removelast l) cs (match cs !! tl with Some (h, _) => delete h its | None => its end) (S el)
        | None => LeafCache (limit c) l cs its (S el)
        end
      else LeafCache (limit c) l cs its (S el)
  end.

(** The entries from the most to the least recently used. *)
Definition contents (c : leafCache) : list (string * V) := omap (λ el, cells c !! el) (ll c).

(** The specification: a list of entries with distinct hosts. *)
Definition lru_get (l : list (string * V)) (host : string) : list (string * V) * option V :=
  match List.find (λ kv, String.eqb kv.1 host) l with
  | None => (l, None)
  | Some kv => (kv :: List.filter (λ kv, negb (String.eqb kv.1 host)) l, Some kv.2)
  end.

Definition lru_put (max : nat) (l : list (string * V)) (host : string) (v : V) : list (string * V) :=
  take max ((host, v) :: List.filter (λ kv, negb (String.eqb kv.1 host)) l).

Record cache_inv (c : leafCache) : Prop := {
  ci_nodup : NoDup (ll c);
  ci_cell : ∀ el, el ∈ ll c → ∃ h v, cells c !! el = Some (h, v) ∧ items c !! h = Some el;
  ci_item : ∀ h el, items c !! h = Some el → (el ∈ ll c) ∧ ∃ v, cells c !! el = Some (h, v);
  ci_next : ∀ el, el ∈ ll c → (el < next_cell c)%nat;
  ci_limit : (length (ll c) ≤ limit c)%nat;
}.

Lemma newLeafCache_inv max : cache_inv (newLeafCache max).
Proof. split; simpl; [constructor|by intros ? ?%elem_of_nil|by intros ? ? ?%lookup_empty_Some|by intros ? ?%elem_of_nil|lia]. Qed.

Lemma drop_cell_in x el l : x ∈ drop_cell el l ↔ (x ∈ l) ∧ x ≠ el.
Proof. unfold drop_cell. rewrite !list_elem_of_In, filter_In, negb_true_iff, Nat.eqb_neq. done. Qed.

Lemma drop_cell_nodup el l : NoDup l → NoDup (drop_cell el l).
Proof. unfold drop_cell. rewrite !NoDup_ListNoDup. apply List.NoDup_filter. Qed.

Lemma move_in x el l : el ∈ l → (x ∈ move_to_front el l ↔ x ∈ l).
Proof.
  intros H. unfold move_to_front. rewrite elem_of_cons, drop_cell_in. destruct (decide (x = el)) as [->|]; naive_solver.
Qed.

Lemma move_nodup el l : NoDup l → NoDup (move_to_front el l).
Proof. intros H. unfold move_to_front. apply NoDup_cons. split; [by rewrite drop_cell_in; intros [_ ?]|by apply drop_cell_nodup]. Qed.

Lemma drop_cell_length el l : NoDup l → el ∈ l → S (length (drop_cell el l)) = length l.
Proof.
  induction 1 as [|x l Hx Hl IH]; [by intros ?%elem_of_nil|]. unfold drop_cell in *. simpl.
  intros [->|Hin]%elem_of_cons.
  - rewrite Nat.eqb_refl. simpl. f_equal. clear -Hx. induction l as [|y l IH]; simpl; [done|].
    apply not_elem_of_cons in Hx as [Hne Hx]. rewrite (proj2 (Nat.eqb_neq y x)) by done. simpl. f_equal. by apply IH.
  - destruct (Nat.eqb_spec x el) as [->|]; [done|]. simpl. f_equal. by apply IH.
Qed.

(** Two listed cells with the same host are one. *)
Lemma same_host c el el' h v v' : cache_inv c → el ∈ ll c → el' ∈ ll c →
  cells c !! el = Some (h, v) → cells c !! el' = Some (h, v') → el = el'.
Proof.
  intros I H1 H2 E1 E2. destruct (ci_cell c I el H1) as (h1 & v1 & C1 & K1). destruct (ci_cell c I el' H2) as (h2 & v2 & C2 & K2).
  rewrite E1 in C1. rewrite E2 in C2. injection C1 as -> ->. injection C2 as -> ->. rewrite K1 in K2. by injection K2.
Qed.

(** Dropping a cell is dropping its host. *)
Lemma contents_drop c host el v : cache_inv c → el ∈ ll c → cells c !! el = Some (host, v) →
  omap (λ x, cells c !! x) (drop_cell el (ll c)) = List.filter (λ kv, negb (String.eqb kv.1 host)) (contents c).
Proof.
  intros I He Hc. unfold contents.
  assert (H : ∀ l, (∀ x, x ∈ l → x ∈ ll c) →
    omap (λ x, cells c !! x) (drop_cell el l) = List.filter (λ kv : string * V, negb (String.eqb kv.1 host)) (omap (λ x, cells c !! x) l)).
  { induction l as [|x l IH]; intros Hl; [done|]. unfold drop_cell in *. cbn [List.filter omap list_omap].
    assert (IH' := IH (λ y Hy, Hl y (list_elem_of_further _ _ _ Hy))).
    destruct (ci_cell c I x (Hl x (list_elem_of_here _ _))) as (h & w & Cx & _). rewrite Cx. cbn [List.filter fst].
    destruct (Nat.eqb_spec x el) as [->|Hne]; cbn [negb].
    - rewrite Hc in Cx. injection Cx as -> _. rewrite String.eqb_refl. exact IH'.
    - destruct (String.eqb_spec h host) as [->|]; cbn [negb].
      + destruct Hne. apply (same_host c x el host w v I); [apply Hl; left|exact He|exact Cx|exact Hc].
      + cbn [omap list_omap]. rewrite Cx. f_equal. exact IH'. }
  by apply H.
Qed.

Lemma find_contents c host : cache_inv c →
  List.find (λ kv : string * V, String.eqb kv.1 host) (contents c) =
  match items c !! host with Some el => cells c !! el | None => None end.
Proof.
  intros I. destruct (List.find _ (contents c)) as [[h v]|] eqn:E.
  - apply find_some in E as [Hin Hh]. apply String.eqb_eq in Hh. simpl in Hh. subst h.
    apply list_elem_of_In, list_elem_of_omap in Hin as (el & Hel & Hc).
    destruct (ci_cell c I el Hel) as (h & w & C & K). rewrite Hc in C. injection C as <- <-. by rewrite K, Hc.
  - destruct (items c !! host) as [el|] eqn:K; [|done]. destruct (ci_item c I host el K) as [Hel [v Hc]].
    exfalso. eapply find_none in E; [|apply list_elem_of_In, list_elem_of_omap; by exists el]. simpl in E. by rewrite String.eqb_refl in E.
Qed.

Lemma move_inv c el cs' : cache_inv c → el ∈ ll c →
  (∀ x h v, cells c !! x = Some (h, v) → ∃ v', cs' !! x = Some (h, v')) →
  cache_inv (LeafCache (limit c) (move_to_front el (ll c)) cs' (items c) (next_cell c)).
Proof.
  intros I Hel Hcs. split; simpl.
  - apply move_nodup, (ci_nodup c I).
  - intros x Hx%(move_in x el (ll c) Hel). destruct (ci_cell c I x Hx) as (h & v & C & K). destruct (Hcs x h v C) as [v' ?]. eauto.
  - intros h x K. destruct (ci_item c I h x K) as [Hx [v C]]. split; [by apply move_in|]. by apply (Hcs x h v C).
  - intros x Hx%(move_in x el (ll c) Hel). by apply (ci_next c I).
  - rewrite (drop_cell_length el (ll c) (ci_nodup c I) Hel). apply (ci_limit c I).
Qed.

Lemma get_refines c host : cache_inv c →
  cache_inv (cache_get c host).1 ∧ (contents (cache_get c host).1, (cache_get c host).2) = lru_get (contents c) host.
Proof.
  intros I. unfold cache_get, lru_get. rewrite (find_contents c host I). destruct (items c !! host) as [el|] eqn:K; [|done].
  destruct (ci_item c I host el K) as [Hel [v C]]. rewrite C. simpl. split.
  - apply (move_inv c el (cells c) I Hel). eauto.
  - rewrite <- (contents_drop c host el v I Hel C). unfold contents, move_to_front. cbn [omap list_omap ll cells]. by rewrite C.
Qed.

Lemma contents_length c : cache_inv c → length (contents c) = length (ll c).
Proof.
  intros I. unfold contents. assert (H : ∀ l, (∀ x, x ∈ l → x ∈ ll c) → length (omap (λ x, cells c !! x) l) = length l).
  { induction l as [|x l IH]; intros Hl; [done|]. cbn [omap list_omap].
    destruct (ci_cell c I x (Hl x (list_elem_of_here _ _))) as (h & w & Cx & _). rewrite Cx. simpl. f_equal. apply IH.
    intros y Hy. apply Hl. by right. }
  by apply H.
Qed.

Lemma omap_insert_fresh el (x : string * V) (cs : gmap nat (string * V)) (l : list nat) : el ∉ l →
  omap (λ y, <[el := x]> cs !! y) l = omap (λ y, cs !! y) l.
Proof.
  induction l as [|y l IH]; [done|]. intros [Hne Hl]%not_elem_of_cons. cbn [omap list_omap].
  rewrite lookup_insert_ne by done. destruct (cs !! y); [f_equal|]; by apply IH.
Qed.

Lemma omap_length_le (f : nat → option (string * V)) (l : list nat) : (length (omap f l) ≤ length l)%nat.
Proof. induction l as [|x l IH]; simpl; [lia|]. change (list_omap _ _ f l) with (omap f l). destruct (f x); simpl; lia. Qed.

Lemma put_old_refines c host v el : cache_inv c → items c !! host = Some el →
  cache_inv (cache_put c host v) ∧ contents (cache_put c host v) = lru_put (limit c) (contents c) host v.
Proof.
  intros I K. destruct (ci_item c I host el K) as [Hel [w C]]. unfold cache_put. rewrite K. split.
  - apply (move_inv c el _ I Hel). intros x h u Cx. destruct (decide (el = x)) as [->|].
    + rewrite lookup_insert_eq. rewrite C in Cx. injection Cx as <- _. eauto.
    + rewrite lookup_insert_ne by done. eauto.
  - assert (Hn : el ∉ drop_cell el (ll c)) by (rewrite drop_cell_in; by intros [_ ?]).
    assert (Hc : contents (LeafCache (limit c) (move_to_front el (ll c)) (<[el := (host, v)]> (cells c)) (items c) (next_cell c))
      = (host, v) :: omap (λ x, <[el := (host, v)]> (cells c) !! x) (drop_cell el (ll c))).
    { unfold contents, move_to_front. cbn [ll cells]. change (omap ?f (el :: ?l)) with (match f el with Some y => y :: omap f l | None => omap f l end).
      cbv beta. by rewrite lookup_insert_eq. }
    rewrite Hc, (omap_insert_fresh el (host, v) (cells c) _ Hn), (contents_drop c host el w I Hel C).
    unfold lru_put. rewrite take_ge; [done|]. simpl. rewrite <- (contents_drop c host el w I Hel C).
    etrans; [apply le_n_S, omap_length_le|]. rewrite (drop_cell_length el (ll c) (ci_nodup c I) Hel). apply (ci_limit c I).
Qed.

Lemma push_inv c host v : cache_inv c → items c !! host = None →
  let el := next_cell c in
  let c1 := LeafCache (S (limit c)) (el :: ll c) (<[el := (host, v)]> (cells c)) (<[host := el]> (items c)) (S el) in
  cache_inv c1 ∧ contents c1 = (host, v) :: contents c.
Proof.
  intros I K el c1. assert (Hn : el ∉ ll c) by (intros Hin; pose proof (ci_next c I el Hin); unfold el in *; lia). split.
  - split; simpl.
    + apply NoDup_cons. split; [done|apply (ci_nodup c I)].
    + intros x [->|Hx]%elem_of_cons; [exists host, v; by rewrite !lookup_insert_eq|].
      destruct (ci_cell c I x Hx) as (h & w & C & Kh). exists h, w.
      rewrite !lookup_insert_ne; [done| |]; [intros ->; congruence|by intros ->].
    + intros h x. rewrite lookup_insert_Some. intros [[-> <-]|[Hne Hx]].
      * split; [left|]. exists v. by rewrite lookup_insert_eq.
      * destruct (ci_item c I h x Hx) as [Hin [w C]]. split; [by right|]. exists w. rewrite lookup_insert_ne; [done|by intros ->].
    + intros x [->|Hx]%elem_of_cons; [lia|]. pose proof (ci_next c I x Hx). unfold el. lia.
    + pose proof (ci_limit c I). lia.
  - unfold contents, c1. cbn [ll cells].
    change (omap ?f (el :: ?l)) with (match f el with Some y => y :: omap f l | None => omap f l end). cbv beta.
    rewrite lookup_insert_eq. f_equal. by apply omap_insert_fresh.
Qed.

Lemma evict_inv c init tl h w max : cache_inv c → ll c = init ++ [tl] → cells c !! tl = Some (h, w) → (length init ≤ max)%nat →
  let c' := LeafCache max init (cells c) (delete h (items c)) (next_cell c) in
  cache_inv c' ∧ contents c = contents c' ++ [(h, w)].
Proof.
  intros I El C Hlen c'. assert (Hnd := ci_nodup c I). rewrite El in Hnd. apply NoDup_app in Hnd as (Hi & Hd & _).
  assert (Hup : ∀ x, x ∈ init → x ∈ ll c) by (intros x Hx; rewrite El; apply elem_of_app; by left).
  assert (Htl : tl ∈ ll c) by (rewrite El; apply elem_of_app; right; left).
  split.
  - split; simpl; [exact Hi| | |by intros x Hx; apply (ci_next c I), Hup|exact Hlen].
    + intros x Hx. destruct (ci_cell c I x (Hup x Hx)) as (h' & w' & Cx & Kx). exists h', w'. split; [done|].
      rewrite lookup_delete_ne; [done|]. intros <-. destruct (Hd x Hx).
      rewrite (same_host c x tl h w' w I (Hup x Hx) Htl Cx C). left.
    + intros h' x [Hne Kx]%lookup_delete_Some. destruct (ci_item c I h' x Kx) as [Hin [w' Cx]]. split; [|eauto].
      rewrite El in Hin. apply elem_of_app in Hin as [?|Hx]; [done|]. apply list_elem_of_singleton in Hx as ->.
      destruct Hne. rewrite C in Cx. by injection Cx.
  - unfold contents, c'. cbn [ll cells]. rewrite El, omap_app. f_equal. cbn [omap list_omap]. by rewrite C.
Qed.

Lemma put_new_refines c host v : cache_inv c → items c !! host = None →
  cache_inv (cache_put c host v) ∧ contents (cache_put c host v) = lru_put (limit c) (contents c) host v.
Proof.
  intros I K. destruct (push_inv c host v I K) as [I1 C1]. cbv zeta in I1, C1. unfold cache_put. rewrite K. cbv zeta.
  assert (Hf : List.filter (λ kv : string * V, negb (String.eqb kv.1 host)) (contents c) = contents c).
  { assert (Hn := find_contents c host I). rewrite K in Hn. 
    revert Hn. generalize (contents c). induction l as [|kv l IH]; [done|]. simpl.
    destruct (String.eqb kv.1 host); [done|]. simpl. intros Hn. f_equal. by apply IH. }
  unfold lru_put. rewrite Hf. pose proof (ci_limit c I) as Hl. case_bool_decide as Hb.
  - destruct (exists_last (l := next_cell c :: ll c)) as (init & tl & El); [done|]. rewrite El, last_snoc, removelast_last.
    destruct (ci_cell _ I1 tl) as (h & w & Ct & _). { cbn [ll]. rewrite El. apply elem_of_app. right. left. }
    cbn [cells] in Ct. rewrite Ct.
    assert (Hlen : length init = limit c).
    { apply (f_equal length) in El. rewrite length_app in El. simpl in El, Hb. lia. }
    destruct (evict_inv _ init tl h w (limit c) I1 El Ct) as [I2 C2]; [lia|]. cbn [cells items next_cell] in I2, C2. split; [exact I2|].
    rewrite <- C1, C2, take_app_le; [rewrite take_ge; [done|]|]; rewrite (contents_length _ I2); cbn [ll]; lia.
  - simpl in Hb. assert (Hle : (S (length (ll c)) ≤ limit c)%nat) by lia. split.
    + destruct I1 as [A1 A2 A3 A4 A5]. split; simpl; [exact A1|exact A2|exact A3|exact A4|exact Hle].
    + rewrite <- C1, take_ge; [done|]. rewrite (contents_length _ I1). exact Hle.
Qed.

Lemma put_refines c host v : cache_inv c →
  cache_inv (cache_put c host v) ∧ contents (cache_put c host v) = lru_put (limit c) (contents c) host v.
Proof. intros I. destruct (items c !! host) as [el|] eqn:K; [by apply (put_old_refines c host v el)|by apply put_new_refines]. Qed.

(** *** Sequences of calls *)

Inductive cache_op := OpGet (host : string) | OpPut (host : string) (v : V).

Definition cache_step (c : leafCache) (op : cache_op) : leafCache * option V :=
  match op with OpGet h => cache_get c h | OpPut h v => (cache_put c h v, None) end.

Definition lru_step (max : nat) (l : list (string * V)) (op : cache_op) : list (string * V) * option V :=
  match op with OpGet h => lru_get l h | OpPut h v => (lru_put max l h v, None) end.

Fixpoint cache_run (c : leafCache) (ops : list cache_op) : leafCache * list (option V) :=
  match ops with
  | [] => (c, [])
  | op :: r => let '(c, x) := cache_step c op in let '(c, xs) := cache_run c r in (c, x :: xs)
  end.

Fixpoint lru_run (max : nat) (l : list (string * V)) (ops : list cache_op) : list (string * V) * list (option V) :=
  match ops with
  | [] => (l, [])
  | op :: r => let '(l, x) := lru_step max l op in let '(l, xs) := lru_run max l r in (l, x :: xs)
  end.

Lemma step_limit c op : limit (cache_step c op).1 = limit c.
Proof.
  destruct op as [h|h v]; simpl; unfold cache_get, cache_put; destruct (items c !! h); [done..|].
  cbv zeta. case_bool_decide; [|done]. by destruct (last _).
Qed.

Lemma step_refines c op : cache_inv c →
  cache_inv (cache_step c op).1 ∧
  (contents (cache_step c op).1, (cache_step c op).2) = lru_step (limit c) (contents c) op.
Proof.
  intros I. destruct op as [h|h v]; simpl; [by apply get_refines|].
  destruct (put_refines c h v I) as [? ->]. done.
Qed.

Lemma run_refines ops : ∀ c, cache_inv c →
  cache_inv (cache_run c ops).1 ∧ limit (cache_run c ops).1 = limit c ∧
  (contents (cache_run c ops).1, (cache_run c ops).2) = lru_run (limit c) (contents c) ops.
Proof.
  induction ops as [|op ops IH]; intros c I; [done|]. destruct (step_refines c op I) as [I' E]. pose proof (step_limit c op) as L.
  cbn [cache_run lru_run]. rewrite <- E. destruct (cache_step c op) as [c' x]. simpl in *.
  destruct (IH c' I') as (I2 & L2 & E2). rewrite L in E2, L2. rewrite <- E2. by destruct (cache_run c' ops) as [c2 xs].
Qed.

Lemma contents_hosts c : cache_inv c → NoDup (contents c).*1.
Proof.
  intros I. unfold contents. assert (H : ∀ l, (∀ x, x ∈ l → x ∈ ll c) → NoDup l → NoDup (omap (λ x, cells c !! x) l).*1).
  { induction l as [|x l IH]; intros Hl Hn; [constructor|]. apply NoDup_cons in Hn as [Hx Hn].
    destruct (ci_cell c I x (Hl x (list_elem_of_here _ _))) as (h & w & Cx & _). cbn [omap list_omap]. rewrite Cx. simpl.
    apply NoDup_cons. split; [|apply IH; [intros y Hy; apply Hl; by right|done]].
    intros ([h' w'] & Eh & (y & Hy & Cy)%list_elem_of_omap)%list_elem_of_fmap. simpl in Eh. subst h'.
    destruct Hx. rewrite (same_host c x y h w w' I); [done|by apply Hl; left|by apply Hl; right|done|done]. }
  apply H; [done|apply (ci_nodup c I)].
Qed.
End Cache.
Arguments leafCache : clear implicits.
Arguments cache_op : clear implicits.

(** Under any sequence of calls the pointer structure of [leafCache], a map
    into a doubly linked list, behaves as a list of entries in order of use: every
    get answers as that list does, every put moves its host to the front and evicts
    the least recently used entry when the limit is passed; no host is held twice
    and never more than [max] are held. *)
Theorem leaf_cache_refines (V : Type) (max : nat) (ops : list (cache_op V)) :
  let r := cache_run (newLeafCache max) ops in
  (contents r.1, r.2) = lru_run max [] ops ∧
  (length (contents r.1) ≤ max)%nat ∧ NoDup (contents r.1).*1 ∧
  dom (items r.1) = list_to_set (contents r.1).*1.
Proof.
  intros r. destruct (run_refines ops (newLeafCache max) (newLeafCache_inv max)) as (I & L & E). fold r in I, L, E. simpl in L.
  split; [exact E|]. split; [rewrite (contents_length _ I), <- L; apply (ci_limit _ I)|]. split; [by apply contents_hosts|].
  apply set_eq. intros h. rewrite elem_of_dom, elem_of_list_to_set, list_elem_of_fmap. split.
  - intros [el K]. destruct (ci_item _ I h el K) as [Hel [v C]]. exists (h, v). split; [done|]. apply list_elem_of_omap. eauto.
  - intros ([h' v] & -> & (el & Hel & C)%list_elem_of_omap). destruct (ci_cell _ I el Hel) as (h2 & w & C2 & K).
    rewrite C in C2. injection C2 as <- <-. simpl. by eexists.
Qed.

(** *** The certificates *)

Definition leafCacheMax : nat := 1024.
Definition leafValidity : Z := 24 * hour.

(** The template [mintLeaf] has signed; [san_ip] and [san_dns] are its alternative
    names. *)
Record leaf := Leaf { common_name : string; not_before : Z; not_after : Z; san_ip : list string; san_dns : list string }.

Section Minter.
(** [net.ParseIP] accepts the text. *)
Context (is_ip : string → bool).

(** [mintLeaf]: [signs] is whether the key, the serial number and the signature
    could be made at this call. *)
Definition mintLeaf (now : Z) (signs : bool) (host : string) : option leaf :=
  if signs then
    Some (if is_ip host then Leaf host (now - hour) (now + leafValidity) [host] []
          else Leaf host (now - hour) (now + leafValidity) [] [host])
  else None.

Definition getCertificate (c : leafCache leaf) (now : Z) (signs : bool) (server_name : string) : leafCache leaf * option leaf :=
  let host := if String.eqb server_name "" then "safeswitch-block.local" else server_name in
  match cache_get c host with
  | (c, Some cert) => (c, Some cert)
  | (c, None) =>
      match mintLeaf now signs host with
      | None => (c, None)
      | Some cert => (cache_put c host cert, Some cert)
      end
  end.

(** A name the cache has none for gets a certificate for it, valid from an hour
    before to a day after. *)
Lemma getCertificate_fresh c now name :
  let host := if String.eqb name "" then "safeswitch-block.local" else name in
  items c !! host = None →
  ∃ l, (getCertificate c now true name).2 = Some l ∧ common_name l = host ∧
    (not_before l < now < not_after l)%Z ∧ (getCertificate c now true name).1 = cache_put c host l.
Proof.
  intros host Hn. unfold getCertificate. fold host. unfold cache_get. rewrite Hn. unfold mintLeaf.
  eexists. split; [done|]. unfold hour, leafValidity. destruct (is_ip host); simpl; (split; [done|]; split; [|done]); unfold hour, minute, second; lia.
Qed.

Lemma get_after_put (c : leafCache leaf) host l : cache_inv c → (0 < limit c)%nat → (cache_get (cache_put c host l) host).2 = Some l.
Proof.
  intros I Hl. destruct (put_refines c host l I) as [I' E]. destruct (get_refines (cache_put c host l) host I') as [_ G].
  apply (f_equal snd) in G. simpl in G. rewrite G. unfold lru_get. rewrite E. unfold lru_put.
  destruct (limit c); [lia|]. simpl. by rewrite String.eqb_refl.
Qed.

(** A certificate is never renewed while its host stays in the cache: asked
    again after the day it is valid for, the listener answers with the expired one. *)
Theorem expired_leaf_served (c : leafCache leaf) t t' signs name :
  cache_inv c → (0 < limit c)%nat →
  items c !! (if String.eqb name "" then "safeswitch-block.local" else name) = None →
  (t + leafValidity < t')%Z →
  let '(c1, l1) := getCertificate c t true name in
  let '(c2, l2) := getCertificate c1 t' signs name in
  l2 = l1 ∧ ∃ l, l2 = Some l ∧ (not_after l < t')%Z.
Proof.
  intros I Hl Hn Ht. destruct (getCertificate_fresh c t name Hn) as (l & E1 & _ & _ & E2).
  assert (Ha : not_after l = (t + leafValidity)%Z).
  { revert E1. unfold getCertificate, cache_get. rewrite Hn. unfold mintLeaf. destruct (is_ip _); by intros [= <-]. }
  rewrite (surjective_pairing (getCertificate c t true name)), E1, E2. set (host := if String.eqb name "" then _ else _) in *.
  unfold getCertificate. fold host. assert (G := get_after_put c host l I Hl).
  destruct (cache_get (cache_put c host l) host) as [c2 o]. simpl in G. subst o. split; [done|]. exists l. split; [done|lia].
Qed.
End Minter.

Lemma expired_leaf_served_witness :
  let c := newLeafCache leafCacheMax in
  let '(c1, l1) := getCertificate (λ _, false) c 0 true "example.com" in
  let '(c2, l2) := getCertificate (λ _, false) c1 (25 * hour) true "example.com" in
  l2 = l1 ∧ ∃ l, l2 = Some l ∧ (not_after l < 25 * hour)%Z.
Proof.
  exact (expired_leaf_served (λ _, false) (newLeafCache leafCacheMax) 0 (25 * hour) true "example.com"
    (newLeafCache_inv leafCacheMax) ltac:(unfold newLeafCache, leafCacheMax; simpl; lia) eq_refl ltac:(unfold leafValidity, hour, minute, second; lia)).
Defined.
