(* ===== verification/NodeHealth.v ===== *)
(** [internal/health/service.go]: CPU, memory and disk usage read from the
    kernel, the snapshots recorded from them, and what the heartbeat reads back
    ([latestHealth] and [isDNSAlive] of [internal/controlsync/heartbeat.go]).

    Counters are 64-bit unsigned and wrap; a percentage is the exact rational
    that the floating-point division rounds. *)
From stdpp Require Import gmap.
From Stdlib Require Import QArith.
From S2P Require Import Prelude Net Policy Failsafe Heartbeat GoString.

Local Open Scope string_scope.
Local Open Scope list_scope.
Local Open Scope Z_scope.

(** ** Reading the kernel's counters *)

(** The value of [strconv.ParseUint(s, 10, 64)], whose error is discarded: the
    largest number when out of range, zero when malformed. *)
Definition parse_uint (s : string) : Z :=
  if String.eqb s "" then 0 else match digits 0 s with Some n => Z.min n (2 ^ 64 - 1) | None => 0 end.

(** A file: why it does not open, or its lines as a [bufio.Scanner] gives them
    up to an error of reading, which is not looked at. *)
Abbreviation proc_file := (go string).

Definition proc_lines (text : string) : list string := fst (scan_with (Z.to_nat 65536) (split_byte "010" text)).

Definition sum64 (vals : list Z) : Z := fold_left (λ total v, w64 (total + v)) vals 0.

(** The idle and total jiffies of the line that starts with [cpu]. *)
Definition cpu_fields (line : string) : go (Z * Z) :=
  let fs := fields line in
  if bool_decide (length fs < 5)%nat then Err "unexpected /proc/stat format" else
  let vals := map parse_uint (take 10 (tail fs)) in
  Ret (default 0 (vals !! 3%nat), sum64 vals).

Definition readCPUSample (f : proc_file) : go (Z * Z) :=
  match f with
  | Ret text =>
      match List.find (λ l, has_prefix l "cpu ") (proc_lines text) with
      | Some line => cpu_fields line
      | None => Err "cpu line not found in /proc/stat"
      end
  | _ => Err "open /proc/stat"
  end.

Example readCPUSample_ex :
  readCPUSample (Ret ("cpu  10 0 5 85 0 0 0 0 0 0" +:+ String "010" "cpu0 1 2 3 4")) = Ret (85, 100).
Proof. vm_compute. reflexivity. Qed.

(** [prevCPUIdle] and [prevCPUTotal] *)
Record baseline := Baseline { prevCPUIdle : Z; prevCPUTotal : Z }.

Definition ratio (used total : Z) : percent := ((used # Z.to_pos total) * 100)%Q.

Definition cpuPercent (s : baseline) (f : proc_file) : baseline * percent :=
  match readCPUSample f with
  | Ret (idle, total) =>
      let deltaIdle := w64 (idle - prevCPUIdle s) in
      let deltaTotal := w64 (total - prevCPUTotal s) in
      (Baseline idle total,
       if Z.eqb deltaTotal 0 then 0%Q else ratio (w64 (deltaTotal - deltaIdle)) deltaTotal)
  | _ => (s, 0%Q)
  end.

Definition meminfo (text : string) : gmap string Z :=
  fold_left (λ vals line,
    match fields line with
    | key :: v :: _ => <[trim_suffix key ":" := parse_uint v]> vals
    | _ => vals
    end) (proc_lines text) ∅.

Definition memPercent (f : proc_file) : percent :=
  match f with
  | Ret text =>
      let vals := meminfo text in
      let total := default 0 (vals !! "MemTotal") in
      let available := default 0 (vals !! "MemAvailable") in
      if Z.eqb total 0 then 0%Q else ratio (w64 (total - available)) total
  | _ => 0%Q
  end.

(** [syscall.Statfs_t] *)
Record statfs := Statfs { Blocks : Z; Bfree : Z; Bsize : Z }.

Definition diskPercent (st : option statfs) : percent :=
  match st with
  | Some st =>
      let total := w64 (Blocks st * w64 (Bsize st)) in
      let free := w64 (Bfree st * w64 (Bsize st)) in
      if Z.eqb total 0 then 0%Q else ratio (w64 (total - free)) total
  | None => 0%Q
  end.

(** ** Snapshots *)

(** A row of [health_snapshots]; [dns_ok] has the column's default, since the
    insertion does not name it. *)
Record snapshot := Snapshot { sn_stats : stats; sn_dns_ok : Z; sn_summary : string }.

Definition summary_of (s : stats) : string :=
  if above (cpu s) 80 || above (mem s) 85 || above (disk s) 90 then "degraded" else "healthy".

(** What one call of [record] reads, and whether its insertion succeeds. *)
Record reading := Reading { proc_stat : proc_file; proc_meminfo : proc_file; root_fs : option statfs; insert_ok : bool }.

Record monitor := Monitor { base : baseline; health_snapshots : list snapshot }.

Definition record (m : monitor) (r : reading) : monitor :=
  let '(b, c) := cpuPercent (base m) (proc_stat r) in
  let s := Stats c (memPercent (proc_meminfo r)) (diskPercent (root_fs r)) in
  Monitor b (if insert_ok r then health_snapshots m ++ [Snapshot s 1 (summary_of s)] else health_snapshots m).

(** [Start]: the baseline is primed, then snapshots are recorded. *)
Definition prime (f : proc_file) : baseline :=
  match readCPUSample f with Ret (idle, total) => Baseline idle total | _ => Baseline 0 0 end.

Definition monitoring (table : list snapshot) (first : proc_file) (rs : list reading) : monitor :=
  fold_left record rs (Monitor (prime first) table).

(** What the heartbeat reads of the table. *)
Definition latestHealth (table : list snapshot) : stats :=
  match last table with Some s => sn_stats s | None => Stats 0 0 0 end.

Definition latest_dns_ok (table : list snapshot) : option Z := sn_dns_ok <$> last table.

(** ** Percentages of a well-behaved kernel *)

Definition in_range (x : percent) : Prop := (0 <= x)%Q ∧ (x <= 100)%Q.

Lemma ratio_in_range used total : 0 < total → 0 ≤ used ≤ total → in_range (ratio used total).
Proof.
  intros Ht Hu. unfold in_range, ratio, Qle, Qmult. simpl. split; [lia|]. rewrite Z.mul_1_r, Pos.mul_1_r, Z2Pos.id; lia.
Qed.

Lemma zero_in_range : in_range 0%Q.
Proof. split; unfold Qle; simpl; lia. Qed.

Definition total (v : list Z) : Z := foldr Z.add 0 v.
Definition idle (v : list Z) : Z := default 0 (v !! 3%nat).

(** The sum of the fields as the code forms it, when each field is its counter
    modulo 2^64. *)
Lemma sum64_total v : ∀ acc, fold_left (λ t x, w64 (t + x)) (map w64 v) (w64 acc) = w64 (acc + total v).
Proof.
  induction v as [|x v IH]; intros acc; simpl; [unfold total; simpl; by rewrite Z.add_0_r|].
  assert (E : w64 (w64 acc + w64 x) = w64 (acc + x)) by (unfold w64; symmetry; apply Z.add_mod; lia).
  rewrite E, IH. unfold total. simpl. by rewrite Z.add_assoc.
Qed.

(** The CPU line of the file holds the counters [v], at least four, as 64-bit
    numbers: those that have passed 2^64 have wrapped around. *)
Definition counts (f : proc_file) (v : list Z) : Prop :=
  readCPUSample f = Ret (w64 (idle v), w64 (total v)) ∧ Forall (λ x, 0 ≤ x) v ∧ (4 ≤ length v)%nat.

Lemma idle_le_total v : Forall (λ x, 0 ≤ x) v → 0 ≤ idle v ≤ total v.
Proof.
  intros H. assert (Hp : ∀ l, Forall (λ x, 0 ≤ x) l → 0 ≤ total l) by (induction 1; unfold total in *; simpl; lia).
  destruct v as [|a [|b [|c [|d v]]]]; unfold idle; simpl;
    try (specialize (Hp _ H); unfold total in *; simpl in *; lia).
  repeat (apply Forall_cons in H as [? H]). specialize (Hp v H). unfold total in *. simpl. lia.
Qed.

Lemma grows v v' : Forall2 Z.le v v' → (4 ≤ length v)%nat → idle v ≤ idle v' ∧ idle v' - idle v ≤ total v' - total v.
Proof.
  intros H Hl. assert (Hp : ∀ l l', Forall2 Z.le l l' → total l ≤ total l').
  { induction 1; unfold total in *; simpl; lia. }
  do 4 (destruct H as [|? ? ? ? ? H]; simpl in Hl; [lia|]). specialize (Hp _ _ H). unfold idle, total in *. simpl. lia.
Qed.

(** The counters [v'] come after [v], less than 2^64 jiffies later. *)
Definition later (v v' : list Z) : Prop := Forall2 Z.le v v' ∧ total v' - total v < 2 ^ 64.

(** A difference of wrapped counters is that of the counters. *)
Lemma w64_diff x y : 0 ≤ y - x < 2 ^ 64 → w64 (w64 y - w64 x) = y - x.
Proof. intros H. unfold w64. rewrite <- Zminus_mod. by apply Z.mod_small. Qed.

Lemma cpuPercent_growing f v v' : counts f v' → later v v' → (4 ≤ length v)%nat →
  cpuPercent (Baseline (w64 (idle v)) (w64 (total v))) f =
  (Baseline (w64 (idle v')) (w64 (total v')),
   if Z.eqb (total v' - total v) 0 then 0%Q
   else ratio ((total v' - total v) - (idle v' - idle v)) (total v' - total v)).
Proof.
  intros Hc [Hg Hd] Hl. unfold cpuPercent. rewrite (proj1 Hc). cbn [prevCPUIdle prevCPUTotal].
  destruct (grows v v' Hg Hl) as [H1 H2].
  rewrite (w64_diff (idle v)), (w64_diff (total v)) by lia.
  assert (W : w64 (total v' - total v - (idle v' - idle v)) = total v' - total v - (idle v' - idle v)) by (unfold w64; apply Z.mod_small; lia).
  by rewrite W.
Qed.

(** Not more memory is available than there is; the blocks of the file system
    are not more than 2^64 bytes. *)
Definition sane_mem (f : proc_file) : Prop := ∀ text, f = Ret text →
  default 0 (meminfo text !! "MemAvailable") ≤ default 0 (meminfo text !! "MemTotal").

Definition sane_disk (st : option statfs) : Prop := ∀ s, st = Some s →
  0 ≤ Bfree s ≤ Blocks s ∧ 0 < Bsize s ∧ Blocks s * Bsize s < 2 ^ 64.

Lemma digits_nonneg s : ∀ n m, 0 ≤ n → digits n s = Some m → 0 ≤ m.
Proof.
  induction s as [|a s IH]; intros n m Hn; simpl; [by intros [= <-]|].
  destruct (digit a) as [d|] eqn:E; [|done]. apply IH. unfold digit in E. destruct (_ && _) eqn:Hd; [|done]. apply andb_true_iff in Hd as [Hd _]. injection E as <-. lia.
Qed.

Lemma parse_uint_range s : 0 ≤ parse_uint s < 2 ^ 64.
Proof.
  unfold parse_uint. destruct (String.eqb s ""); [lia|]. destruct (digits 0 s) as [n|] eqn:E; [|lia].
  apply digits_nonneg in E; lia.
Qed.

Lemma meminfo_range text k : 0 ≤ default 0 (meminfo text !! k) < 2 ^ 64.
Proof.
  assert (H : ∀ ls (m : gmap string Z), map_Forall (λ _ x, 0 ≤ x < 2 ^ 64) m → map_Forall (λ _ x, 0 ≤ x < 2 ^ 64)
    (fold_left (λ vals line, match fields line with key :: v :: _ => <[trim_suffix key ":" := parse_uint v]> vals | _ => vals end) ls m)).
  { induction ls as [|l ls IH]; intros m Hm; simpl; [done|]. apply IH. destruct (fields l) as [|key [|v ?]]; [done..|].
    apply map_Forall_insert_2; [apply parse_uint_range|done]. }
  specialize (H (proc_lines text) ∅ (map_Forall_empty _)). fold (meminfo text) in H.
  destruct (meminfo text !! k) as [x|] eqn:E; simpl; [by apply (H k)|lia].
Qed.

Lemma memPercent_range f : sane_mem f → in_range (memPercent f).
Proof.
  intros H. destruct f as [text|e| |]; try apply zero_in_range. specialize (H text eq_refl). unfold memPercent. cbv zeta.
  pose proof (meminfo_range text "MemAvailable"). pose proof (meminfo_range text "MemTotal").
  destruct (Z.eqb_spec (default 0 (meminfo text !! "MemTotal")) 0) as [|Hne]; [apply zero_in_range|].
  apply ratio_in_range; [lia|]. unfold w64. rewrite Z.mod_small by lia. lia.
Qed.

Lemma diskPercent_range st : sane_disk st → in_range (diskPercent st).
Proof.
  intros H. destruct st as [s|]; [|apply zero_in_range]. destruct (H s eq_refl) as (H1 & H2 & H3). unfold diskPercent. cbv zeta.
  assert (W : ∀ x, 0 ≤ x < 2 ^ 64 → w64 x = x) by (intros x Hx; unfold w64; apply Z.mod_small; lia).
  assert (0 < Blocks s ∨ Blocks s = 0) as [Hb|Hb] by lia; [|rewrite Hb; apply zero_in_range].
  assert (Bfree s * Bsize s ≤ Blocks s * Bsize s) by nia. assert (0 ≤ Bfree s * Bsize s) by nia. assert (Bsize s < 2 ^ 64) by nia.
  rewrite (W (Bsize s)), (W (Blocks s * Bsize s)), (W (Bfree s * Bsize s)) by lia.
  destruct (Z.eqb_spec (Blocks s * Bsize s) 0); [apply zero_in_range|]. apply ratio_in_range; [nia|]. rewrite W by nia. nia.
Qed.

(** Readings whose CPU counters only grow, from [v] on; a file that cannot be
    read, or has no such line, is passed over. *)
Fixpoint steady (v : list Z) (rs : list reading) : Prop :=
  match rs with
  | [] => True
  | r :: rs =>
      sane_mem (proc_meminfo r) ∧ sane_disk (root_fs r) ∧
      (((∃ e, readCPUSample (proc_stat r) = Err e) ∧ steady v rs) ∨
       ∃ v', counts (proc_stat r) v' ∧ later v v' ∧ steady v' rs)
  end.

Definition stats_in_range (s : stats) : Prop := in_range (cpu s) ∧ in_range (mem s) ∧ in_range (disk s).

Definition plausible (sn : snapshot) : Prop :=
  stats_in_range (sn_stats sn) ∧ sn_dns_ok sn = 1 ∧ sn_summary sn = summary_of (sn_stats sn).

Lemma record_plausible v m r rs : base m = Baseline (w64 (idle v)) (w64 (total v)) → (4 ≤ length v)%nat →
  Forall plausible (health_snapshots m) → steady v (r :: rs) →
  ∃ v', base (record m r) = Baseline (w64 (idle v')) (w64 (total v')) ∧ (4 ≤ length v')%nat ∧
    Forall plausible (health_snapshots (record m r)) ∧ steady v' rs.
Proof.
  intros Hb Hl Hp (Hm & Hd & Hs). unfold record. rewrite Hb.
  assert (K : ∀ c, in_range c → Forall plausible
    (if insert_ok r then health_snapshots m ++ [Snapshot (Stats c (memPercent (proc_meminfo r)) (diskPercent (root_fs r))) 1
       (summary_of (Stats c (memPercent (proc_meminfo r)) (diskPercent (root_fs r))))] else health_snapshots m)).
  { intros c Hc. destruct (insert_ok r); [|done]. apply Forall_app. split; [done|]. apply Forall_singleton.
    split; [|done]. split; [done|]. split; [by apply memPercent_range|by apply diskPercent_range]. }
  destruct Hs as [[[e He] Hs]|(v' & Hc & Hg & Hs)].
  - exists v. unfold cpuPercent. rewrite He. simpl. split; [done|]. split; [done|]. split; [apply K, zero_in_range|done].
  - exists v'. rewrite (cpuPercent_growing _ v v' Hc Hg Hl). simpl.
    destruct (grows v v' (proj1 Hg) Hl).
    split; [done|]. split; [apply Hc|]. split; [|done]. apply K.
    destruct (Z.eqb_spec (total v' - total v) 0); [apply zero_in_range|]. apply ratio_in_range; lia.
Qed.

Lemma monitoring_plausible rs : ∀ v m, base m = Baseline (w64 (idle v)) (w64 (total v)) → (4 ≤ length v)%nat →
  Forall plausible (health_snapshots m) → steady v rs → Forall plausible (health_snapshots (fold_left record rs m)).
Proof.
  induction rs as [|r rs IH]; intros v m Hb Hl Hp Hs; [done|]. simpl.
  destruct (record_plausible v m r rs Hb Hl Hp Hs) as (v' & ? & ? & ? & ?). by apply (IH v').
Qed.

(** The counters at the start: what the file holds, or zeros when it cannot be
    read. *)
Definition primed (first : proc_file) (v : list Z) : Prop :=
  counts first v ∨ ((∃ e, readCPUSample first = Err e) ∧ ∃ n, (4 ≤ n)%nat ∧ v = repeat 0 n).

Lemma prime_base first v : primed first v → prime first = Baseline (w64 (idle v)) (w64 (total v)) ∧ (4 ≤ length v)%nat.
Proof.
  unfold prime. intros [(-> & _ & Hl)|[[e ->] (n & Hn & ->)]]; [done|]. rewrite repeat_length. split; [|done].
  assert (Ht : ∀ n, total (repeat 0 n) = 0) by (clear; induction n; unfold total in *; simpl; lia).
  rewrite Ht. do 4 (destruct n as [|n]; [lia|]). reflexivity.
Qed.

(** C35. On a kernel whose CPU counters only grow, where not more memory is
    available than there is and the file system is smaller than 2^64 bytes, every
    snapshot ever recorded holds three percentages between 0 and 100, whatever
    files cannot be read, the first one included, and whatever insertions fail.
    The counters may wrap around at 2^64, as long as fewer than 2^64 jiffies pass
    from one reading to the next. So do the figures a heartbeat reads back, whose
    score is then at least 45 while the node is outside fail-safe. *)
Theorem snapshots_in_range first v rs reachable :
  primed first v → steady v rs →
  let t := health_snapshots (monitoring [] first rs) in
  (∀ sn, sn ∈ t → plausible sn) ∧ stats_in_range (latestHealth t) ∧
  (45 ≤ healthScore (latestHealth t) reachable false ≤ 100).
Proof.
  intros Hc Hs t. destruct (prime_base first v Hc) as [Hb Hl]. assert (Hp : Forall plausible t).
  { unfold t, monitoring. by apply (monitoring_plausible rs v). }
  assert (Hr : stats_in_range (latestHealth t)).
  { unfold latestHealth. destruct (last t) as [sn|] eqn:E; [|split; [apply zero_in_range|split; apply zero_in_range]].
    rewrite Forall_forall in Hp. apply Hp. by apply last_Some_elem_of. }
  split; [by rewrite Forall_forall in Hp|]. split; [done|]. clear.
  unfold healthScore. repeat match goal with |- context [above ?x ?n] => destruct (above x n) end; destruct reachable; vm_compute; split; congruence.
Qed.

(** Nothing ever looks at the DNS service or the tunnel: the column [dns_ok] is
    not written by any snapshot and a peer count is never negative, so every
    election heartbeat of a node, in whatever state its services are, reports
    both as working. *)
Theorem dns_and_tunnel_always_ok table first rs n b version reachable e :
  Forall (λ sn, sn_dns_ok sn = 1) table →
  b_dns_ok b = latest_dns_ok (health_snapshots (monitoring table first rs)) → 0 ≤ b_peers b →
  sendElectionHeartbeat n b version reachable = Some e →
  el_DNSServiceOK e = true ∧ el_WireGuardOK e = true.
Proof.
  intros Ht Hd Hp. assert (H : Forall (λ sn, sn_dns_ok sn = 1) (health_snapshots (monitoring table first rs))).
  { unfold monitoring. generalize (prime first) as bl. intros bl. revert Ht.
    assert (K : ∀ rs m, Forall (λ sn, sn_dns_ok sn = 1) (health_snapshots m) → Forall (λ sn, sn_dns_ok sn = 1) (health_snapshots (fold_left record rs m))).
    { clear. induction rs as [|r rs IH]; intros m Hm; [done|]. simpl. apply IH. unfold record. destruct (cpuPercent _ _). simpl.
      destruct (insert_ok r); [|done]. apply Forall_app. split; [done|]. by apply Forall_singleton. }
    intros Ht. by apply K. }
  unfold sendElectionHeartbeat. cbv zeta. destruct (String.eqb _ _); [done|]. intros [= <-]. simpl. rewrite bool_decide_true by done. split; [|done].
  rewrite Hd. unfold latest_dns_ok, isDNSAlive. destruct (last _) as [sn|] eqn:E; [|done]. simpl. apply bool_decide_true.
  rewrite Forall_forall in H. apply H. by apply last_Some_elem_of.
Qed.

(** A counter that goes back is not expected: the kernel documents that the I/O
    wait of the CPU line can decrease, and when the idle time then grows by more
    than the sum of the fields, the difference wraps around, the snapshot is
    recorded as degraded and the node loses twenty points although it is idle. *)
Theorem iowait_drop_spikes m r i t reachable fsActive :
  readCPUSample (proc_stat r) = Ret (i, t) → insert_ok r = true →
  0 ≤ prevCPUIdle (base m) ≤ i → i < 2 ^ 63 → 0 ≤ prevCPUTotal (base m) < t → t < 2 ^ 63 →
  t - prevCPUTotal (base m) < i - prevCPUIdle (base m) →
  ∃ sn, last (health_snapshots (record m r)) = Some sn ∧ sn_summary sn = "degraded" ∧
    healthScore (sn_stats sn) reachable fsActive ≤ 80.
Proof.
  intros Hs Hi H1 H2 H3 H4 H5. unfold record. unfold cpuPercent at 1. rewrite Hs. cbv zeta. rewrite Hi. simpl health_snapshots. rewrite last_snoc.
  eexists. split; [done|].
  assert (W : ∀ x, 0 ≤ x < 2 ^ 64 → w64 x = x) by (intros x Hx; unfold w64; apply Z.mod_small; lia).
  rewrite (W (t - prevCPUTotal (base m))), (W (i - prevCPUIdle (base m))) by lia.
  destruct (Z.eqb_spec (t - prevCPUTotal (base m)) 0); [lia|].
  set (d := t - prevCPUTotal (base m)) in *. set (e := i - prevCPUIdle (base m)) in *.
  assert (Hw : w64 (d - e) = d - e + 2 ^ 64).
  { unfold w64. symmetry. apply (Z.mod_unique_pos _ _ (-1)); lia. }
  assert (Hab : ∀ k, 0 ≤ k ≤ 85 → above (ratio (w64 (d - e)) d) k = true).
  { intros k Hk. unfold above, ratio. apply negb_true_iff. apply not_true_iff_false. rewrite Qle_bool_iff. unfold Qle, Qmult. simpl.
    rewrite Hw, Z.mul_1_r, Pos.mul_1_r, Z2Pos.id by lia. nia. }
  split.
  - cbn [sn_summary sn_stats cpu]. unfold summary_of. cbn [cpu]. by rewrite Hab by lia.
  - cbn [sn_stats]. unfold healthScore. cbn [cpu]. rewrite (Hab 85) by lia.
    repeat match goal with |- context [above ?x ?n] => destruct (above x n) end; destruct reachable, fsActive; vm_compute; congruence.
Qed.

(** Guest time is counted twice: the kernel includes it in the user time, and
    the sum over all the fields adds it once more, so that with guests running
    and some idle time the figure recorded is above the true share. *)
Theorem guest_counted_twice f v v' :
  counts f v' → later v v' → length v = 10%nat →
  let diff k := default 0 (v' !! k) - default 0 (v !! k) in
  let guest := diff 8%nat + diff 9%nat in
  let elapsed := total v' - total v - guest in
  0 < guest → 0 < diff 3%nat →
  ((elapsed - diff 3%nat # Z.to_pos elapsed) * 100 < (cpuPercent (Baseline (w64 (idle v)) (w64 (total v))) f).2)%Q.
Proof.
  intros Hc Hgr Hl. cbv zeta. intros Hgu Hi. rewrite (cpuPercent_growing f v v' Hc Hgr) by lia. cbn [snd]. destruct Hgr as [Hg _].
  assert (Hl' : length v' = 10%nat) by (rewrite <- Hl; symmetry; by eapply Forall2_length).
  destruct v as [|a0 [|a1 [|a2 [|a3 [|a4 [|a5 [|a6 [|a7 [|a8 [|a9 [|]]]]]]]]]]]; try discriminate Hl.
  destruct v' as [|b0 [|b1 [|b2 [|b3 [|b4 [|b5 [|b6 [|b7 [|b8 [|b9 [|]]]]]]]]]]]; try discriminate Hl'.
  repeat match type of Hg with Forall2 _ (_ :: _) _ => apply Forall2_cons in Hg as [? Hg] end.
  unfold idle, total in *. simpl in *.
  match goal with |- context [Z.eqb ?x 0] => destruct (Z.eqb_spec x 0) as [Hz|Hz]; [lia|]; set (T := x) in * end.
  unfold ratio. set (g := b8 - a8 + (b9 - a9)) in *. set (I := b3 - a3) in *.
  assert (HE : ∃ E, T - g = E ∧ 0 < E ∧ I ≤ E ∧ T = E + g) by (exists (T - g); unfold T, g, I; lia).
  destruct HE as (E & -> & HE1 & HE2 & HT). clearbody T g I. clear -HE1 HE2 HT Hgu Hi. subst T.
  unfold Qlt, Qmult. simpl. rewrite !Pos.mul_1_r, !Z2Pos.id by lia. nia.
Qed.

(** ** Concrete readings *)

Definition toy_stat (v : list Z) : proc_file := Ret ("cpu  " +:+ join " " (map pretty v)).
Definition toy_meminfo : proc_file := Ret ("MemTotal: 1000 kB" +:+ String "010" "MemAvailable: 250 kB").
Definition toy_root : option statfs := Some (Statfs 100 40 4096).
Definition toy_reading (v : list Z) : reading := Reading (toy_stat v) toy_meminfo toy_root true.
Definition boot_counters : list Z := [10; 0; 5; 80; 5; 0; 0; 0; 0; 0].
Definition busy_counters : list Z := [90; 0; 15; 90; 5; 0; 0; 0; 0; 0].

Lemma toy_counts v : readCPUSample (toy_stat v) = Ret (w64 (idle v), w64 (total v)) → Forall (λ x, 0 ≤ x) v → (4 ≤ length v)%nat →
  counts (toy_stat v) v.
Proof. done. Qed.

(** A counter that has wrapped around: the jiffies spent in user mode were 2^64 - 20. *)
Definition old_counters : list Z := [2 ^ 64 - 20; 0; 5; 80; 5; 0; 0; 0; 0; 0].
Definition wrapped_counters : list Z := [2 ^ 64 + 60; 0; 15; 90; 5; 0; 0; 0; 0; 0].
Definition wrapped (v : list Z) : proc_file := toy_stat (map w64 v).

(** The first file cannot be read; the counters wrap between two readings. *)
Lemma snapshots_in_range_witness :
  (let t := health_snapshots (monitoring [] (wrapped old_counters) [Reading (wrapped wrapped_counters) toy_meminfo toy_root true]) in
   (∀ sn, sn ∈ t → plausible sn) ∧ (45 ≤ healthScore (latestHealth t) true false ≤ 100)) ∧
  (let t := health_snapshots (monitoring [] (Err "EACCES") [toy_reading busy_counters]) in ∀ sn, sn ∈ t → plausible sn).
Proof.
  assert (Hm : sane_mem toy_meminfo) by (intros text [= <-]; vm_compute; discriminate).
  assert (Hd : sane_disk toy_root) by (intros st [= <-]; vm_compute; split; [split; discriminate|split; reflexivity]).
  split.
  - destruct (snapshots_in_range (wrapped old_counters) old_counters [Reading (wrapped wrapped_counters) toy_meminfo toy_root true] true) as (H1 & _ & H2).
    + left. split; [vm_compute; reflexivity|]. split; [unfold old_counters; repeat constructor; lia|simpl; lia].
    + split; [exact Hm|]. split; [exact Hd|]. right. exists wrapped_counters. split; [|split; [|done]].
      * split; [vm_compute; reflexivity|]. split; [unfold wrapped_counters; repeat constructor; lia|simpl; lia].
      * split; [unfold old_counters, wrapped_counters; repeat constructor; lia|vm_compute; reflexivity].
    + split; [exact H1|exact H2].
  - apply (snapshots_in_range (Err "EACCES") (repeat 0 10) [toy_reading busy_counters] true).
    + right. split; [by eexists|]. exists 10%nat. split; [lia|done].
    + split; [exact Hm|]. split; [exact Hd|]. right. exists busy_counters. split; [|split; [|done]].
      * apply toy_counts; [vm_compute; reflexivity|unfold busy_counters; repeat constructor; lia|simpl; lia].
      * split; [unfold busy_counters; repeat constructor; lia|vm_compute; reflexivity].
Defined.

Definition guest_counters : list Z := [60; 0; 5; 130; 5; 0; 0; 0; 50; 0].

Definition regressed : reading := toy_reading [10; 0; 5; 180; 0; 0; 0; 0; 0; 0].

Lemma iowait_drop_spikes_witness :
  let m := Monitor (prime (toy_stat boot_counters)) [] in
  ∃ sn, last (health_snapshots (record m regressed)) = Some sn ∧ sn_summary sn = "degraded" ∧
    healthScore (sn_stats sn) true false ≤ 80.
Proof.
  refine (iowait_drop_spikes (Monitor (prime (toy_stat boot_counters)) []) regressed 180 195 true false _ eq_refl _ _ _ _ _);
    [vm_compute; reflexivity|vm_compute; split; discriminate|lia|vm_compute; split; [discriminate|reflexivity]|lia|vm_compute; reflexivity].
Defined.

Lemma guest_counted_twice_witness :
  ((100 - 50 # Z.to_pos 100) * 100 < (cpuPercent (Baseline 80 100) (toy_stat guest_counters)).2)%Q.
Proof.
  refine (guest_counted_twice (toy_stat guest_counters) boot_counters guest_counters _ _ eq_refl _ _).
  - apply toy_counts; [vm_compute; reflexivity|unfold guest_counters; repeat constructor; lia|simpl; lia].
  - split; [unfold boot_counters, guest_counters; repeat constructor; lia|vm_compute; reflexivity].
  - simpl. lia.
  - simpl. lia.
Defined.

Lemma dns_and_tunnel_always_ok_witness :
  let t := health_snapshots (monitoring [] (toy_stat boot_counters) [toy_reading busy_counters]) in
  ∃ e, sendElectionHeartbeat fresh_node (Beat (latestHealth t) (latest_dns_ok t) 0 0 (Err "down") 0 true true true true) "none" false = Some e ∧
    el_DNSServiceOK e = true ∧ el_WireGuardOK e = true.
Proof.
  intros t. eexists. split; [reflexivity|].
  refine (dns_and_tunnel_always_ok [] (toy_stat boot_counters) [toy_reading busy_counters] fresh_node
    (Beat (latestHealth t) (latest_dns_ok t) 0 0 (Err "down") 0 true true true true) "none" false _ _ eq_refl _ eq_refl); [constructor|simpl; lia].
Defined.
