(* ===== verification/Mitm.v ===== *)
(** [mitm/]: the intercepting HTTPS proxy, its bypass list, and the certificates
    it signs.

    TLS, HTTP parsing and the network are the answers a connection meets; the
    order in which Go visits a map is a parameter. *)
From stdpp Require Import gmap.
From S2P Require Import Prelude Net Settings Wire Blocklist Policy Resolver GoString.

Local Open Scope string_scope.
Local Open Scope list_scope.

(** ** The bypass list *)

Definition bypassHosts : list string := [
  "apple.com"; "icloud.com"; "mzstatic.com"; "cdn-apple.com"; "apple-dns.net";
  "google.com"; "googleapis.com"; "gstatic.com"; "googleusercontent.com"; "gvt1.com"; "gvt2.com";
  "play.google.com"; "android.clients.google.com"; "dl.google.com"; "android.googleapis.com";
  "whatsapp.com"; "whatsapp.net"; "instagram.com"; "cdninstagram.com";
  "commbank.com.au"; "nab.com.au"; "westpac.com.au"; "anz.com.au"; "ing.com.au"; "bendigo.com.au"; "macquarie.com.au";
  "ubank.com.au"; "86400.com.au";
  "telstra.com"; "optus.com.au"; "vodafone.com.au";
  "microsoft.com"; "microsoftonline.com"; "live.com"; "azure.com"; "windowsupdate.com";
  "safeswitch.io"; "supabase.co"; "supabase.com"].

(** A signed leaf: common name, alternative names and validity. *)
Record leaf := Leaf { common_name : string; DNSNames : list string; NotBefore : time; NotAfter : time }.

(** [cache] of [CA], by host name. *)
Abbreviation certs := (gmap string leaf).

Section Proxy.
Context `{U : UnicodeTables}.

(** Up to the last colon, if there is one. *)
Definition bypass_name (hostname : string) : string :=
  let h := to_lower (trim_space hostname) in
  match split_last ":" h with Some (before, _) => before | None => h end.

Definition ShouldBypass (hostname : string) : bool :=
  existsb (λ suffix, String.eqb (bypass_name hostname) suffix || has_suffix (bypass_name hostname) ("." +:+ suffix)) bypassHosts.

Definition hostOnly (hostPort : string) : string :=
  if contains_byte ":" hostPort then
    match SplitHostPort hostPort with Ret (host, _) => host | _ => hostPort end
  else hostPort.

(** ** The certificate cache *)

(** The key a [range] over the map meets first. *)
Variable first_key : certs → option string.

Definition new_leaf (now : time) (hostname : string) : leaf :=
  Leaf hostname [hostname] (now - minute)%Z (now + 24 * hour)%Z.

(** [signs]: no step of generating the key, signing and encoding fails. *)
Definition CertFor (cache : certs) (now : time) (signs : bool) (hostname : string) : certs * go leaf :=
  match cache !! hostname with
  | Some cert => (cache, Ret cert)
  | None =>
      if negb signs then (cache, Err "sign cert") else
      let cache :=
        if bool_decide (512 ≤ size cache)%nat then match first_key cache with Some k => delete k cache | None => cache end
        else cache in
      (<[hostname := new_leaf now hostname]> cache, Ret (new_leaf now hostname))
  end.

(** ** A CONNECT request *)

(** [w.(http.Hijacker)] and [Hijack] *)
Inductive takeover := Hijacked | NotSupported | HijackFailed.

(** What the connection meets: [client_ok] is the client's side of the
    handshake with the certificate it is shown. *)
Record conn := Conn {
  RemoteAddr : string;
  Host : string;
  at_time : time;
  hijack : takeover;
  signs : bool;
  client_ok : leaf → bool;
  first_request : go ();
  dial : string → bool;
  write_ok : bool;
}.

Inductive outcome :=
| Tunnelled (dest : string)          (** bytes are copied both ways unseen *)
| Forwarded (dest : string)          (** the decrypted request is sent on *)
| BlockPage (hostname : string)
| BadGateway
| ServerError
| Closed.

Definition rawTunnel (c : conn) (host : string) : outcome :=
  if negb (dial c host) then BadGateway else
  match hijack c with Hijacked => Tunnelled host | NotSupported => ServerError | HijackFailed => Closed end.

Definition handleConnect (blocked : option (string → bool)) (cache : certs) (c : conn) : certs * outcome :=
  let host := Host c in
  let hostname := hostOnly host in
  if ShouldBypass hostname then (cache, rawTunnel c host) else
  match hijack c with
  | Hijacked =>
      match CertFor cache (at_time c) (signs c) hostname with
      | (cache, Ret leafCert) =>
          if negb (client_ok c leafCert) then (cache, Closed) else
          match first_request c with
          | Ret _ =>
              if (match blocked with Some f => f hostname | None => false end) then (cache, BlockPage hostname) else
              if negb (dial c host) then (cache, BadGateway) else
              (cache, if write_ok c then Forwarded host else Closed)
          | _ => (cache, Closed)
          end
      | (cache, _) => (cache, Closed)
      end
  | NotSupported => (cache, ServerError)
  | HijackFailed => (cache, Closed)
  end.

(** ** A plain request: the host of its URL and header, and what the origin
    answers *)

Definition handleHTTP (blocked : option (string → bool)) (host url_host : string) (origin : string → option Z) : outcome * option Z :=
  let hostname := hostOnly host in
  if (match blocked with Some f => f hostname | None => false end) then (BlockPage hostname, Some 403%Z) else
  let dest := if String.eqb url_host "" then host else url_host in
  match origin dest with None => (BadGateway, Some 502%Z) | Some status => (Forwarded dest, Some status) end.

Fixpoint connects (blocked : option (string → bool)) (cache : certs) (cs : list conn) : certs * list outcome :=
  match cs with
  | [] => (cache, [])
  | c :: cs => let '(cache, o) := handleConnect blocked cache c in let '(cache, os) := connects blocked cache cs in (cache, o :: os)
  end.

(** ** The decision *)

Lemma parent_suffix d p : parent d p ↔ d = p ∨ ∃ q, d = q +:+ "." +:+ p.
Proof.
  split.
  - induction 1 as [|d d' p Ha _ IH]; [by left|]. right.
    assert (Hd : ∃ q, d = q +:+ String "." d').
    { clear -Ha. revert Ha. induction d as [|a d IH]; simpl; [done|]. intros Ha. destruct (Ascii.eqb_spec a ".") as [->|].
      - injection Ha as <-. by exists "".
      - destruct (IH Ha) as [q ->]. by exists (String a q). }
    destruct Hd as [q ->]. destruct IH as [->|[q' ->]]; [by exists q|]. exists (q +:+ String "." q').
    by rewrite sappend_assoc.
  - intros [->|[q ->]]; [constructor|].
    assert (H : ∀ n q, (String.length q ≤ n)%nat → parent (q +:+ String "." p) p); [|by apply (H (String.length q) q)].
    induction n as [|n IH]; intros q' Hn.
    + destruct q'; [|simpl in Hn; lia]. eapply parent_up; [reflexivity|constructor].
    + assert (Hs : after_byte "." (q' +:+ String "." p) = Some p ∨
                   ∃ q2, (String.length q2 < String.length q')%nat ∧ after_byte "." (q' +:+ String "." p) = Some (q2 +:+ String "." p)).
      { clear. induction q' as [|a q' IH]; simpl; [by left|]. destruct (Ascii.eqb a "."); [right; exists q'; split; [lia|done]|].
        destruct IH as [->|(q2 & Hq & ->)]; [by left|right; exists q2; split; [lia|done]]. }
      destruct Hs as [Hs|(q2 & Hq & Hs)]; (eapply parent_up; [exact Hs|]); [constructor|]. apply IH. lia.
Qed.

(** The bypass list and the blocklist agree on what a subdomain is: a name is
    passed by exactly when an entry is among the names that the walk of the
    blocklist would try for it. *)
Theorem bypass_by_parent hostname :
  ShouldBypass hostname = true ↔ ∃ s, (s ∈ bypassHosts) ∧ parent (bypass_name hostname) s.
Proof.
  unfold ShouldBypass. rewrite existsb_exists. setoid_rewrite <- list_elem_of_In. apply exist_proper. intros s.
  by rewrite orb_true_iff, String.eqb_eq, has_suffix_spec, parent_suffix.
Qed.

Definition is_blocked (blocked : option (string → bool)) (hostname : string) : bool :=
  match blocked with Some f => f hostname | None => false end.

(** The hosts that an outcome has connected the client to. *)
Definition reaches (o : outcome) : option string :=
  match o with Tunnelled d | Forwarded d => Some d | _ => None end.

Lemma handleConnect_cases blocked cache c (P : outcome → Prop) :
  let hostname := hostOnly (Host c) in
  (ShouldBypass hostname = true → P (rawTunnel c (Host c))) →
  (ShouldBypass hostname = false → P ServerError ∧ P Closed) →
  (ShouldBypass hostname = false → is_blocked blocked hostname = true → P (BlockPage hostname)) →
  (ShouldBypass hostname = false → is_blocked blocked hostname = false → P BadGateway ∧ P (Forwarded (Host c))) →
  P (snd (handleConnect blocked cache c)).
Proof.
  intros hostname H1 H2 H3 H4. unfold handleConnect. fold hostname.
  destruct (ShouldBypass hostname); [by apply H1|]. destruct (H2 eq_refl) as [Hs Hc].
  destruct (hijack c); [|done|done]. destruct (CertFor _ _ _ _) as [cache' [l|e| |]]; [|done|done|done].
  destruct (negb (client_ok c l)); [done|]. destruct (first_request c) as [[]|e| |]; [|done|done|done].
  change (match blocked with Some f => f hostname | None => false end) with (is_blocked blocked hostname).
  destruct (is_blocked blocked hostname); [by apply H3|]. destruct (H4 eq_refl eq_refl).
  destruct (negb _); [done|]. by destruct (write_ok c).
Qed.

Lemma rawTunnel_cases c host : rawTunnel c host ∈ [Tunnelled host; BadGateway; ServerError; Closed].
Proof. unfold rawTunnel. rewrite !elem_of_cons. destruct (negb _); [tauto|]. destruct (hijack c); tauto. Qed.

(** A blocked host is reached through the proxy only when it is on the bypass
    list, and a plain request never reaches one; a client that completes the
    handshake is shown the block page for it. What is tunnelled unseen is on the
    bypass list, what is decrypted is not, and the host reached is the one asked
    for. *)
Theorem blocked_not_reached blocked cache c :
  let hostname := hostOnly (Host c) in
  let o := snd (handleConnect blocked cache c) in
  (∀ d, reaches o = Some d → d = Host c ∧ (is_blocked blocked hostname = true → ShouldBypass hostname = true)) ∧
  (∀ d, (o = Tunnelled d → ShouldBypass hostname = true) ∧ (o = Forwarded d → ShouldBypass hostname = false)) ∧
  (∀ h, o = BlockPage h → h = hostname ∧ is_blocked blocked hostname = true) ∧
  (∀ url_host origin d st, handleHTTP blocked (Host c) url_host origin = (Forwarded d, st) → is_blocked blocked hostname = false).
Proof.
  intros hostname o. split; [|split; [|split]].
  - apply (handleConnect_cases blocked cache c (λ o, ∀ d, reaches o = Some d → _)); fold hostname.
    + intros Hb d. pose proof (rawTunnel_cases c (Host c)) as Hr. repeat (apply elem_of_cons in Hr as [->|Hr]); try done.
      * by intros [= <-].
      * by apply elem_of_nil in Hr.
    + done.
    + done.
    + intros Hb Hn. split; intros d; [done|]. intros [= <-]. split; [done|congruence].
  - intros d. apply (handleConnect_cases blocked cache c (λ o, (o = Tunnelled d → _) ∧ (o = Forwarded d → _))); fold hostname.
    + intros Hb. pose proof (rawTunnel_cases c (Host c)) as Hr. repeat (apply elem_of_cons in Hr as [->|Hr]); try done.
      by apply elem_of_nil in Hr.
    + intros _. repeat split; congruence.
    + intros _ _. split; congruence.
    + intros Hb _. repeat split; congruence.
  - apply (handleConnect_cases blocked cache c (λ o, ∀ h, o = BlockPage h → _)); fold hostname.
    + intros Hb h. pose proof (rawTunnel_cases c (Host c)) as Hr. repeat (apply elem_of_cons in Hr as [->|Hr]); try done.
      by apply elem_of_nil in Hr.
    + intros _. split; congruence.
    + intros _ Hb h [= <-]. done.
    + intros _ _. split; congruence.
  - intros u og d st. unfold handleHTTP. fold hostname.
    change (match blocked with Some f => f hostname | None => false end) with (is_blocked blocked hostname).
    by destruct (is_blocked blocked hostname).
Qed.

(** ** Certificates *)

(** Each cached certificate is one signed for the name it is cached under. *)
Definition cache_ok (cache : certs) : Prop :=
  (size cache ≤ 512)%nat ∧ ∀ h l, cache !! h = Some l → common_name l = h ∧ DNSNames l = [h].

(** [range] visits a key of the map, if it has one. *)
Definition visits : Prop := ∀ m : certs, m ≠ ∅ → ∃ k, first_key m = Some k ∧ is_Some (m !! k).

Lemma CertFor_ok cache now signs h : visits → cache_ok cache →
  cache_ok (fst (CertFor cache now signs h)) ∧
  ∀ l, snd (CertFor cache now signs h) = Ret l → common_name l = h ∧ DNSNames l = [h].
Proof.
  intros Hv [Hs Hc]. unfold CertFor. destruct (cache !! h) as [l|] eqn:El.
  { split; [by split|]. intros ? [= <-]. by apply Hc. }
  destruct (negb signs); [split; [by split|done]|]. simpl. split; [|by intros ? [= <-]].
  assert (K : ∀ m, (∀ h l, m !! h = Some l → common_name l = h ∧ DNSNames l = [h]) → (size m < 512)%nat →
    cache_ok (<[h := new_leaf now h]> m)).
  { intros m Hm Hsz. split.
    - destruct (m !! h) eqn:E; [rewrite map_size_insert_Some by eauto; lia|rewrite map_size_insert_None by done; lia].
    - intros h' l. rewrite lookup_insert_Some. intros [[-> <-]|[_ ?]]; [done|by apply Hm]. }
  case_bool_decide as Hb; [|apply K; [done|lia]].
  destruct (Hv cache) as (k & -> & Hk). { intros ->. rewrite map_size_empty in Hb. lia. }
  apply K; [intros h' l [_ Hl]%lookup_delete_Some; by apply Hc|]. destruct Hk as [x Hk].
  rewrite map_size_delete, Hk. lia.
Qed.

Lemma handleConnect_cache blocked cache c : visits → cache_ok cache → cache_ok (fst (handleConnect blocked cache c)).
Proof.
  intros Hv Hc. unfold handleConnect. destruct (ShouldBypass _); [done|]. destruct (hijack c); [|done|done].
  destruct (CertFor_ok cache (at_time c) (signs c) (hostOnly (Host c)) Hv Hc) as [H _].
  destruct (CertFor _ _ _ _) as [cache' [l|e| |]]; simpl in *; [|done|done|done].
  destruct (negb (client_ok c l)); [done|]. destruct (first_request c); [|done|done|done].
  destruct (match blocked with Some f => f _ | None => false end); [done|]. by destruct (negb _).
Qed.

(** Through any sequence of connections the cache stays within 512 entries,
    whatever entry an eviction picks, and a certificate shown for a host was
    always signed for that host. *)
Theorem certificates_match blocked cs now signs h l : visits →
  let cache := fst (connects blocked ∅ cs) in
  snd (CertFor cache now signs h) = Ret l →
  (size cache ≤ 512)%nat ∧ common_name l = h ∧ DNSNames l = [h].
Proof.
  intros Hv cache Hl. assert (Hc : cache_ok cache).
  { clear Hl. unfold cache. assert (H0 : cache_ok ∅) by (split; [rewrite map_size_empty; lia|by intros ? ? ?%lookup_empty_Some]).
    revert H0. generalize (∅ : certs). clear -Hv. induction cs as [|c cs IH]; intros m Hm; [done|]. simpl.
    pose proof (handleConnect_cache blocked m c Hv Hm) as Hn. destruct (handleConnect blocked m c) as [m' o].
    specialize (IH m' Hn). by destruct (connects blocked m' cs). }
  split; [apply Hc|]. by apply (CertFor_ok cache now signs h Hv Hc).
Qed.

(** A connection of a client that checks the validity of what it is shown. *)
Definition careful (h : string) (c : conn) : Prop :=
  hostOnly (Host c) = h ∧ hijack c = Hijacked ∧
  ∀ l, client_ok c l = true → (NotBefore l ≤ at_time c ≤ NotAfter l)%Z.

(** A certificate stays in the cache after the day it is valid for: once it has
    expired, every further connection to the host fails in the handshake, for as
    long as no other host is contacted, and nothing renews it. *)
Theorem expired_certificate_locks_out blocked cache h l cs :
  ShouldBypass h = false → cache !! h = Some l →
  Forall (λ c, careful h c ∧ (NotAfter l < at_time c)%Z) cs →
  connects blocked cache cs = (cache, map (λ _, Closed) cs).
Proof.
  intros Hb Hl. induction cs as [|c cs IH]; intros Hcs; [done|]. apply Forall_cons in Hcs as [[(Hh & Hj & Hc) Ht] Hcs].
  simpl. assert (E : handleConnect blocked cache c = (cache, Closed)).
  { unfold handleConnect. rewrite Hh, Hb, Hj. unfold CertFor. rewrite Hl.
    destruct (client_ok c l) eqn:Eo; [|done]. specialize (Hc l Eo). lia. }
  by rewrite E, (IH Hcs).
Qed.

(** The proxy does not know about pauses: from the same address, a paused child
    whose DNS queries all get the block reply has the same host fetched for it by
    the proxy, unless the host is on the global blocklist. *)
Theorem paused_child_proxied {P} `{PolicyReader P} fwd (r : Resolver P) query m q qs cache c :
  parseQuery query = Ret m → m_questions m = q :: qs → paused r (RemoteAddr c) = true →
  hostOnly (Host c) = q_name q → IsBlocked (blocklist r) (q_name q) = false →
  hijack c = Hijacked → signs c = true → (∀ l, client_ok c l = true) → first_request c = Ret () →
  dial c (Host c) = true → write_ok c = true →
  (∃ resp, Resolve fwd r query (RemoteAddr c) = ([], Ret (Some resp)) ∧
     block_reply (bool_decide (q_type q = qTypeA)) query = Ret (Some resp)) ∧
  reaches (snd (handleConnect (Some (IsBlocked (blocklist r))) cache c)) = Some (Host c).
Proof.
  intros Hm Hq Hp Hh Hb Hj Hs Hc Hf Hd Hw. split.
  - destruct (blocked_resolution fwd r query m q qs (RemoteAddr c) Hm Hq (or_introl Hp)) as (resp & Hr & E).
    exists resp. by rewrite Hp in E.
  - unfold handleConnect. rewrite Hh. destruct (ShouldBypass (q_name q)).
    + unfold rawTunnel. by rewrite Hd, Hj.
    + rewrite Hj, Hs. assert (E : ∃ cache' l, CertFor cache (at_time c) true (q_name q) = (cache', Ret l)).
      { unfold CertFor. destruct (cache !! q_name q); eauto. }
      destruct E as (cache' & l & ->). rewrite Hc, Hf, Hb, Hd, Hw. done.
Qed.
End Proxy.

(** ** Concrete connections *)

Definition toy_first (m : certs) : option string := head (map_to_list m).*1.

Lemma toy_first_visits : visits toy_first.
Proof.
  intros m Hm. unfold toy_first. destruct (map_to_list m) as [|[k l] r] eqn:E.
  - by apply map_to_list_empty_iff in E.
  - exists k. split; [done|]. exists l. apply elem_of_map_to_list. rewrite E. left.
Qed.

#[local] Existing Instance ascii_tables.

Definition toy_conn (now : time) : conn :=
  Conn "10.10.0.5" "x.bad:443" now Hijacked true (λ l, bool_decide (NotBefore l ≤ now ≤ NotAfter l)%Z) (Ret ()) (λ _, true) true.

Lemma certificates_match_witness :
  let cache := fst (connects toy_first None ∅ [toy_conn 0]) in
  (size cache ≤ 512)%nat ∧ common_name (new_leaf 0 "x.bad") = "x.bad" ∧ DNSNames (new_leaf 0 "x.bad") = ["x.bad"].
Proof.
  apply (certificates_match toy_first None [toy_conn 0] hour true "x.bad" (new_leaf 0 "x.bad") toy_first_visits).
  vm_compute. reflexivity.
Defined.

Lemma expired_certificate_locks_out_witness :
  connects toy_first None {["x.bad" := new_leaf 0 "x.bad"]} [toy_conn (25 * hour); toy_conn (48 * hour)] =
  ({["x.bad" := new_leaf 0 "x.bad"]}, [Closed; Closed]).
Proof.
  apply (expired_certificate_locks_out toy_first None {["x.bad" := new_leaf 0 "x.bad"]} "x.bad" (new_leaf 0 "x.bad")
    [toy_conn (25 * hour); toy_conn (48 * hour)]).
  - vm_compute. reflexivity.
  - apply lookup_singleton_eq.
  - assert (H : ∀ now, (24 * hour < now)%Z → careful "x.bad" (toy_conn now) ∧ (NotAfter (new_leaf 0 "x.bad") < at_time (toy_conn now))%Z).
    { intros now Hn. split; [split; [reflexivity|split; [reflexivity|]]|simpl; lia].
      intros l H%bool_decide_eq_true. exact H. }
    apply Forall_cons; split; [apply H; unfold hour, minute, second; lia|].
    apply Forall_singleton. apply H. unfold hour, minute, second; lia.
Defined.

Definition paused_resolver : Resolver (Policy.Runtime Bundle) :=
  MkResolver NewBlocklist (Some (fst (SwapBundle Ret false (NewRuntime None) (Some sample_bundle)))) ["1.1.1.1:53"].

Definition trusting : conn := Conn "10.10.0.5" "x.bad:443" 0 Hijacked true (λ _, true) (Ret ()) (λ _, true) true.

Lemma paused_child_proxied_witness :
  reaches (snd (handleConnect toy_first (Some (IsBlocked (blocklist paused_resolver))) ∅ trusting)) = Some "x.bad:443".
Proof.
  destruct (paused_child_proxied toy_first (λ _ _, Err "unused") paused_resolver sample_query
    (Msg 258 256 1 [Question "x.bad" 1 1] sample_query) (Question "x.bad" 1 1) [] ∅ trusting) as [_ H];
    [vm_compute; reflexivity|reflexivity|vm_compute; reflexivity|reflexivity|vm_compute; reflexivity|reflexivity|reflexivity|done|reflexivity..|exact H].
Defined.
