(* ===== verification/Pages.v ===== *)
(** The block pages: the templates of [internal/dns/blockpage.go],
    [internal/sinkhole] and [mitm], what [fmt] makes of them, and the response
    that the interception proxy writes on the wire. *)
From S2P Require Import Prelude GoString Net Settings Sinkhole.

Local Open Scope string_scope.
Local Open Scope list_scope.

(** ** fmt.Sprintf

    The verbs of the templates are the one for a string and the double percent
    sign; another verb has no result here. A missing argument and arguments left
    over show in the text. *)
Definition extra_args (args : list string) : string :=
  match args with
  | [] => ""
  | a :: args => "%!(EXTRA " +:+ fold_left (λ t a, t +:+ ", string=" +:+ a) args ("string=" +:+ a) +:+ ")"
  end.

Fixpoint Sprintf (fmt : string) (args : list string) : option string :=
  match fmt with
  | EmptyString => Some (extra_args args)
  | String c r =>
      if negb (Ascii.eqb c "%") then String c <$> Sprintf r args else
      match r with
      | EmptyString => Some ("%!(NOVERB)" +:+ extra_args args)
      | String v r =>
          if Ascii.eqb v "%" then String "%" <$> Sprintf r args
          else if Ascii.eqb v "s" then
            match args with
            | [] => String.append "%!s(MISSING)" <$> Sprintf r []
            | a :: args => String.append a <$> Sprintf r args
            end
          else None
      end
  end.

(** A text over several lines. A raw string of Go holds no back quote: here it
    stands for the double quote. *)
Fixpoint ticks (s : string) : string :=
  match s with
  | EmptyString => ""
  | String a r => String (if Ascii.eqb a "`" then ascii_of_N 34 else a) (ticks r)
  end.

Fixpoint text (ls : list string) : string :=
  match ls with
  | [] => ""
  | [l] => ticks l
  | l :: ls => ticks l +:+ String (ascii_of_N 10) (text ls)
  end.

(** ** The page of the DNS package *)

Definition dns_blockPageHTML : string := text [
  "<!DOCTYPE html>";
  "<html lang=`en`>";
  "<head>";
  "<meta charset=`UTF-8`>";
  "<meta name=`viewport` content=`width=device-width, initial-scale=1.0`>";
  "<title>SafeSwitch</title>";
  "<style>";
  "  * { box-sizing: border-box; margin: 0; padding: 0; }";
  "  body {";
  "    min-height: 100vh;";
  "    display: flex;";
  "    align-items: center;";
  "    justify-content: center;";
  "    background: linear-gradient(135deg, #060910 0%%, #0d1117 50%%, #060910 100%%);";
  "    font-family: -apple-system, BlinkMacSystemFont, 'Segoe UI', sans-serif;";
  "    color: #e8edf8;";
  "    padding: 24px;";
  "  }";
  "  .card {";
  "    background: rgba(17, 21, 32, 0.95);";
  "    border: 1px solid #1e2a42;";
  "    border-radius: 28px;";
  "    padding: 48px 40px;";
  "    max-width: 420px;";
  "    width: 100%%;";
  "    text-align: center;";
  "    box-shadow: 0 24px 80px rgba(0,0,0,0.5);";
  "  }";
  "  .shield {";
  "    width: 72px;";
  "    height: 72px;";
  "    background: rgba(0, 200, 255, 0.08);";
  "    border: 1px solid rgba(0, 200, 255, 0.25);";
  "    border-radius: 50%%;";
  "    display: flex;";
  "    align-items: center;";
  "    justify-content: center;";
  "    margin: 0 auto 28px;";
  "    font-size: 32px;";
  "  }";
  "  .logo {";
  "    font-size: 13px;";
  "    font-weight: 700;";
  "    letter-spacing: 0.2em;";
  "    text-transform: uppercase;";
  "    color: #00c8ff;";
  "    margin-bottom: 20px;";
  "  }";
  "  h1 {";
  "    font-size: 26px;";
  "    font-weight: 800;";
  "    letter-spacing: -0.04em;";
  "    line-height: 1.2;";
  "    margin-bottom: 12px;";
  "    color: #ffffff;";
  "  }";
  "  p {";
  "    font-size: 15px;";
  "    color: #97a6c3;";
  "    line-height: 1.6;";
  "  }";
  "  .divider {";
  "    border: none;";
  "    border-top: 1px solid #1e2a42;";
  "    margin: 28px 0;";
  "  }";
  "  .footer {";
  "    font-size: 12px;";
  "    color: #54637f;";
  "  }";
  "</style>";
  "</head>";
  "<body>";
  "  <div class=`card`>";
  "    <div class=`logo`>SafeSwitch</div>";
  "    <div class=`shield`>🛡️</div>";
  "    <h1>%s</h1>";
  "    <p>%s</p>";
  "    <hr class=`divider`>";
  "    <p class=`footer`>Protected by SafeSwitch Family Safety</p>";
  "  </div>";
  "</body>";
  "</html>"].

(** [BlockPageServer.handleBlock]: the status and the page; [RemoteAddr] is the
    client's address. *)
Definition dns_handleBlock (bannerFn : option (string → string * string)) (RemoteAddr : string) : Z * option string :=
  let srcIP := match SplitHostPort RemoteAddr with Ret (h, _) => h | _ => "" end in
  let '(title, body) :=
    match bannerFn with
    | Some f => let '(t, bd) := f srcIP in
        if negb (String.eqb t "") then (t, bd) else ("Internet Paused", "Access to the internet is currently restricted.")
    | None => ("Internet Paused", "Access to the internet is currently restricted.")
    end in
  (200%Z, Sprintf dns_blockPageHTML [title; body]).

(** ** The page of the sinkhole *)

Definition sinkhole_blockPageHTML : string := text [
  "<!DOCTYPE html>";
  "<html lang=`en`>";
  "<head>";
  "<meta charset=`UTF-8`>";
  "<meta name=`viewport` content=`width=device-width, initial-scale=1.0`>";
  "<title>SafeSwitch — Site Blocked</title>";
  "<style>";
  "  * { box-sizing: border-box; margin: 0; padding: 0; }";
  "  html, body {";
  "    height: 100%%;";
  "    background: #08090f;";
  "    color: #e8edf8;";
  "    font-family: -apple-system, BlinkMacSystemFont, 'Segoe UI', sans-serif;";
  "    display: flex;";
  "    align-items: center;";
  "    justify-content: center;";
  "    padding: 24px;";
  "  }";
  "  .card {";
  "    background: #111520;";
  "    border: 1px solid #1e2a42;";
  "    border-radius: 24px;";
  "    padding: 40px 36px;";
  "    max-width: 440px;";
  "    width: 100%%;";
  "    text-align: center;";
  "    box-shadow: 0 24px 80px rgba(0,0,0,0.5);";
  "  }";
  "  .emoji {";
  "    font-size: 52px;";
  "    display: block;";
  "    margin-bottom: 20px;";
  "    filter: drop-shadow(0 0 20px rgba(0,200,255,0.3));";
  "  }";
  "  .logo {";
  "    display: flex;";
  "    align-items: center;";
  "    justify-content: center;";
  "    gap: 8px;";
  "    margin-bottom: 28px;";
  "  }";
  "  .logo-dot {";
  "    width: 8px; height: 8px;";
  "    border-radius: 50%%;";
  "    background: #00c8ff;";
  "    box-shadow: 0 0 12px #00c8ff;";
  "  }";
  "  .logo-text {";
  "    font-size: 13px;";
  "    font-weight: 700;";
  "    letter-spacing: 0.18em;";
  "    text-transform: uppercase;";
  "    color: #00c8ff;";
  "  }";
  "  h1 {";
  "    font-size: 26px;";
  "    font-weight: 800;";
  "    letter-spacing: -0.04em;";
  "    line-height: 1.2;";
  "    margin-bottom: 12px;";
  "  }";
  "  .domain {";
  "    font-size: 13px;";
  "    color: #54637f;";
  "    font-family: 'SF Mono', 'Fira Code', monospace;";
  "    margin-bottom: 20px;";
  "    word-break: break-all;";
  "  }";
  "  .body-text {";
  "    color: #97a6c3;";
  "    font-size: 15px;";
  "    line-height: 1.65;";
  "    margin-bottom: 32px;";
  "  }";
  "  .divider {";
  "    border: none;";
  "    border-top: 1px solid #1e2a42;";
  "    margin-bottom: 24px;";
  "  }";
  "  .footer {";
  "    font-size: 12px;";
  "    color: #54637f;";
  "    line-height: 1.6;";
  "  }";
  "  .footer strong {";
  "    color: #97a6c3;";
  "  }";
  "</style>";
  "</head>";
  "<body>";
  "<div class=`card`>";
  "  <div class=`logo`>";
  "    <div class=`logo-dot`></div>";
  "    <span class=`logo-text`>SafeSwitch</span>";
  "  </div>";
  "  <span class=`emoji`>%s</span>";
  "  <h1>%s</h1>";
  "  <div class=`domain`>%s</div>";
  "  <p class=`body-text`>%s</p>";
  "  <hr class=`divider`>";
  "  <p class=`footer`>";
  "    Protected by <strong>SafeSwitch</strong> · Open the app to check your schedule";
  "  </p>";
  "</div>";
  "</body>";
  "</html>"].

(** The last call of [handleBlock]. *)
Definition render (p : page) : option string := Sprintf sinkhole_blockPageHTML [p_emoji p; p_title p; p_domain p; p_body p].

(** ** The page of the interception proxy *)

Definition mitm_blockPageHTML (hostname : string) : option string := Sprintf (text [
  "<!DOCTYPE html>";
  "<html lang=`en`>";
  "<head>";
  "<meta charset=`UTF-8`>";
  "<meta name=`viewport` content=`width=device-width, initial-scale=1.0`>";
  "<title>SafeSwitch — Site Blocked</title>";
  "<style>";
  "  * { box-sizing: border-box; margin: 0; padding: 0; }";
  "  body {";
  "    font-family: -apple-system, BlinkMacSystemFont, 'Segoe UI', sans-serif;";
  "    background: #0a0d14;";
  "    color: #e8edf8;";
  "    min-height: 100vh;";
  "    display: flex;";
  "    align-items: center;";
  "    justify-content: center;";
  "    padding: 24px;";
  "  }";
  "  .card {";
  "    background: #111520;";
  "    border: 1px solid #1e2a42;";
  "    border-radius: 24px;";
  "    padding: 40px 36px;";
  "    max-width: 480px;";
  "    width: 100%%;";
  "    text-align: center;";
  "    box-shadow: 0 24px 80px rgba(0,0,0,0.5);";
  "  }";
  "  .shield {";
  "    width: 72px;";
  "    height: 72px;";
  "    background: rgba(255, 71, 87, 0.12);";
  "    border: 1px solid rgba(255, 71, 87, 0.3);";
  "    border-radius: 20px;";
  "    display: flex;";
  "    align-items: center;";
  "    justify-content: center;";
  "    margin: 0 auto 24px;";
  "    font-size: 32px;";
  "  }";
  "  h1 {";
  "    font-size: 22px;";
  "    font-weight: 800;";
  "    letter-spacing: -0.03em;";
  "    margin-bottom: 12px;";
  "    color: #e8edf8;";
  "  }";
  "  .domain {";
  "    font-size: 13px;";
  "    color: #ff4757;";
  "    background: rgba(255, 71, 87, 0.1);";
  "    border: 1px solid rgba(255, 71, 87, 0.25);";
  "    border-radius: 8px;";
  "    padding: 6px 14px;";
  "    display: inline-block;";
  "    margin-bottom: 18px;";
  "    font-family: 'SF Mono', Monaco, monospace;";
  "  }";
  "  p {";
  "    color: #97a6c3;";
  "    font-size: 14px;";
  "    line-height: 1.65;";
  "    margin-bottom: 28px;";
  "  }";
  "  .badge {";
  "    display: inline-flex;";
  "    align-items: center;";
  "    gap: 8px;";
  "    font-size: 12px;";
  "    color: #54637f;";
  "    border: 1px solid #1e2a42;";
  "    border-radius: 999px;";
  "    padding: 6px 14px;";
  "  }";
  "  .dot {";
  "    width: 8px;";
  "    height: 8px;";
  "    border-radius: 50%%;";
  "    background: #00c8ff;";
  "    box-shadow: 0 0 10px #00c8ff;";
  "  }";
  "</style>";
  "</head>";
  "<body>";
  "<div class=`card`>";
  "  <div class=`shield`>🛡</div>";
  "  <h1>Site Blocked by SafeSwitch</h1>";
  "  <div class=`domain`>%s</div>";
  "  <p>";
  "    This website has been blocked by your family's SafeSwitch safety settings.";
  "    If you think this is a mistake, ask a parent to review the filter settings.";
  "  </p>";
  "  <div class=`badge`>";
  "    <span class=`dot`></span>";
  "    SafeSwitch Family Security";
  "  </div>";
  "</div>";
  "</body>";
  "</html>"]) [hostname].

Definition CRLF : string := String (ascii_of_N 13) (String (ascii_of_N 10) "").

Definition blockResponse (hostname : string) : option string :=
  body ← mitm_blockPageHTML hostname;
  Some ("HTTP/1.1 403 Forbidden" +:+ CRLF +:+
        "Content-Type: text/html; charset=utf-8" +:+ CRLF +:+
        "Content-Length: " +:+ pretty (Z.of_nat (String.length body)) +:+ CRLF +:+
        "Connection: close" +:+ CRLF +:+
        CRLF +:+ body).

(** ** What the templates make of their arguments *)

(** The texts between the string verbs. *)
Fixpoint pieces (fmt : string) : option (list string) :=
  match fmt with
  | EmptyString => Some [""]
  | String c r =>
      if negb (Ascii.eqb c "%") then
        match pieces r with Some (p :: ps) => Some (String c p :: ps) | _ => None end
      else
      match r with
      | EmptyString => None
      | String v r =>
          if Ascii.eqb v "%" then match pieces r with Some (p :: ps) => Some (String "%" p :: ps) | _ => None end
          else if Ascii.eqb v "s" then match pieces r with Some ps => Some ("" :: ps) | None => None end
          else None
      end
  end.

Fixpoint weave (ps args : list string) : string :=
  match ps, args with
  | p :: ps, a :: args => p +:+ a +:+ weave ps args
  | p :: _, [] => p
  | [], _ => ""
  end.

Lemma weave_cons c p ps args : weave (String c p :: ps) args = String c (weave (p :: ps) args).
Proof. by destruct args. Qed.

Lemma Sprintf_weave_len n fmt ps args : (String.length fmt ≤ n)%nat →
  pieces fmt = Some ps → length ps = S (length args) → Sprintf fmt args = Some (weave ps args).
Proof.
  revert fmt ps args. induction n as [|n IH]; intros fmt ps args Hn Hp Hl.
  - destruct fmt; [|simpl in Hn; lia]. injection Hp as <-. destruct args; [done|discriminate].
  - destruct fmt as [|c r]; [injection Hp as <-; destruct args; [done|discriminate]|].
    simpl in Hn. cbn [Sprintf pieces] in *. destruct (negb (Ascii.eqb c "%")).
    + destruct (pieces r) as [[|p qs]|] eqn:E; try discriminate. injection Hp as <-.
      rewrite (IH r (p :: qs) args) by (done || lia). by rewrite weave_cons.
    + destruct r as [|v r]; [discriminate|]. simpl in Hn. destruct (Ascii.eqb v "%").
      * destruct (pieces r) as [[|p qs]|] eqn:E; try discriminate. injection Hp as <-.
        rewrite (IH r (p :: qs) args) by (done || lia). by rewrite weave_cons.
      * destruct (Ascii.eqb v "s"); [|discriminate]. destruct (pieces r) as [qs|] eqn:E; [|discriminate].
        injection Hp as <-. destruct args as [|a args]; [discriminate Hl || (destruct qs; [|discriminate])|].
        { exfalso. revert E. clear. destruct r as [|c [|v r]]; simpl; repeat case_match; congruence. }
        simpl in Hl. by rewrite (IH r qs args) by (done || lia).
Qed.

Lemma Sprintf_weave fmt ps args :
  pieces fmt = Some ps → length ps = S (length args) → Sprintf fmt args = Some (weave ps args).
Proof. by apply (Sprintf_weave_len (String.length fmt)). Qed.

(** The characters that give a text of HTML its structure. *)
Definition markup_char (a : ascii) : bool :=
  Ascii.eqb a "<" || Ascii.eqb a ">" || Ascii.eqb a "&" || Ascii.eqb a (ascii_of_N 34).

Fixpoint markup (s : string) : string :=
  match s with
  | EmptyString => ""
  | String a r => if markup_char a then String a (markup r) else markup r
  end.

Lemma markup_append s t : markup (s +:+ t) = markup s +:+ markup t.
Proof. induction s as [|a s IH]; simpl; [done|]. rewrite IH. by destruct (markup_char a). Qed.

Lemma markup_weave ps args : Forall (λ a, markup a = "") args → length ps = S (length args) →
  markup (weave ps args) = fold_right (λ p t, markup p +:+ t) "" ps.
Proof.
  intros Ha. revert ps. induction Ha as [|a args Ha Has IH]; intros [|p ps] Hl; try discriminate; simpl.
  - destruct ps; [|discriminate]. simpl. by rewrite append_nil_r.
  - rewrite !markup_append, Ha. simpl. rewrite IH by (simpl in Hl; lia). done.
Qed.

Lemma markup_domain s : all_chars domain_char s = true → markup s = "".
Proof.
  induction s as [|a s IH]; simpl; [done|]. intros [Ha Hs]%andb_true_iff. rewrite (IH Hs).
  assert (Hm : markup_char a = false); [|by rewrite Hm]. clear -Ha. by destruct a as [[] [] [] [] [] [] [] []].
Qed.

(** No request changes the markup of the sinkhole's block page: the template's
    verbs are exactly its four arguments, and the page that results has the tags
    and quotes of the template, whatever the Host header, the URL and the reason
    of the request are. *)
Theorem block_page_markup host url_host reason :
  ∃ html, render (handleBlock host url_host reason) = Some html ∧
    markup html = markup sinkhole_blockPageHTML.
Proof.
  set (ps := default [] (pieces sinkhole_blockPageHTML)).
  assert (Hp : pieces sinkhole_blockPageHTML = Some ps) by (vm_compute; reflexivity).
  assert (Hl : length ps = 5%nat) by (vm_compute; reflexivity).
  assert (Hm : fold_right (λ p t, markup p +:+ t) "" ps = markup sinkhole_blockPageHTML) by (vm_compute; reflexivity).
  clearbody ps.
  eexists. split; [by apply Sprintf_weave; [exact Hp|]|].
  rewrite markup_weave; [exact Hm| |exact Hl].
  destruct (block_page_safe host url_host reason) as (Hd & _ & (r & Hr) & _). apply markup_domain in Hd.
  revert Hd Hr. generalize (handleBlock host url_host reason). intros [em ti dom bd st]. simpl.
  intros Hd Hr. destruct r; injection Hr as -> -> ->; repeat constructor; done.
Qed.

(** ** The response on the wire *)

(** What a client of HTTP/1.1 makes of a response: the lines of the header up to
    the empty one, the length they announce, and that many bytes. *)
Fixpoint cut_line (s : string) : option (string * string) :=
  match s with
  | EmptyString => None
  | String a r =>
      if has_prefix s CRLF then Some ("", sdrop 1 r)
      else '(l, rest) ← cut_line r; Some (String a l, rest)
  end.

Fixpoint header_lines (fuel : nat) (s : string) : option (list string * string) :=
  match fuel with
  | O => None
  | S fuel =>
      '(l, rest) ← cut_line s;
      if String.eqb l "" then Some ([], rest) else '(ls, body) ← header_lines fuel rest; Some (l :: ls, body)
  end.

Fixpoint content_length (ls : list string) : option Z :=
  match ls with
  | [] => None
  | l :: ls => if has_prefix l "Content-Length: " then digits 0 (sdrop 16 l) else content_length ls
  end.

Definition read_response (s : string) : option (string * string) :=
  '(ls, body) ← header_lines (String.length s) s;
  n ← content_length ls;
  status ← head ls;
  Some (status, stake (Z.to_nat n) body).

Lemma cut_line_app l rest : contains_byte (ascii_of_N 13) l = false →
  cut_line (l +:+ CRLF +:+ rest) = Some (l, rest).
Proof.
  induction l as [|a l IH]; intros Hl; [by destruct rest|]. simpl in Hl. apply orb_false_iff in Hl as [Ha Hl].
  cbn [cut_line String.append]. assert (Hp : has_prefix (String a (l +:+ CRLF +:+ rest)) CRLF = false).
  { unfold has_prefix, CRLF. cbn [String.prefix]. destruct (ascii_dec _ a) as [<-|]; [by vm_compute in Ha|done]. }
  rewrite Hp, IH by done. done.
Qed.

Lemma header_lines_cons fuel l rest : contains_byte (ascii_of_N 13) l = false → l ≠ "" →
  header_lines (S fuel) (l +:+ CRLF +:+ rest) = '(ls, body) ← header_lines fuel rest; Some (l :: ls, body).
Proof. intros Hc Hl. cbn [header_lines]. rewrite cut_line_app by done. simpl. by destruct (String.eqb_spec l ""). Qed.

Lemma header_lines_end fuel rest : header_lines (S fuel) (CRLF +:+ rest) = Some ([], rest).
Proof. cbn [header_lines]. pose proof (cut_line_app "" rest eq_refl) as H. cbn [String.append] in H. by rewrite H. Qed.

(** The response that the interception proxy writes for a blocked host is read
    back whole: a client that follows its Content-Length reads exactly the page,
    in which the host name stands once, as it was given. *)
Theorem block_response_framed hostname :
  ∃ body resp before after, mitm_blockPageHTML hostname = Some body ∧ blockResponse hostname = Some resp ∧
    body = before +:+ hostname +:+ after ∧
    read_response resp = Some ("HTTP/1.1 403 Forbidden", body).
Proof.
  unfold blockResponse, mitm_blockPageHTML.
  set (T := text _). set (ps := default [] (pieces T)).
  assert (Hp : pieces T = Some ps) by (vm_compute; reflexivity).
  assert (Hl : length ps = 2%nat) by (vm_compute; reflexivity).
  rewrite (Sprintf_weave T ps [hostname] Hp Hl). clearbody ps T. destruct ps as [|before [|after [|]]]; try discriminate.
  simpl weave. set (body := before +:+ hostname +:+ after).
  eexists body, _, before, after. split; [done|]. split; [reflexivity|]. split; [done|].
  set (n := pretty (Z.of_nat (String.length body))).
  assert (Hn : contains_byte (ascii_of_N 13) n = false) by (by apply pretty_no_byte).
  destruct (digits_pretty (Z.of_nat (String.length body)) ltac:(lia)) as [Hd _]. fold n in Hd. clearbody n.
  unfold read_response. rewrite <- (sappend_assoc "Content-Length: " n).
  set (resp := String.append _ _).
  assert (Hf : ∃ k, String.length resp = (5 + k)%nat) by (by eexists).
  destruct Hf as [k ->]. subst resp. cbn [Nat.add].
  rewrite (header_lines_cons _ "HTTP/1.1 403 Forbidden"), (header_lines_cons _ "Content-Type: text/html; charset=utf-8") by done.
  rewrite header_lines_cons by done. rewrite (header_lines_cons _ "Connection: close") by done. rewrite header_lines_end.
  pose proof (Nat2Z.id (String.length body)) as Hz. revert Hd Hz. generalize (Z.of_nat (String.length body)). intros z Hd Hz.
  cbn -[stake Z.to_nat]. rewrite Hd. replace (String.prefix "" n) with true by (by destruct n). transitivity (Some ("HTTP/1.1 403 Forbidden", stake (Z.to_nat z) body)); [done|].
  rewrite Hz. pose proof (stake_append body "") as Hs. rewrite append_nil_r in Hs. by rewrite Hs.
Qed.

(** The page of the DNS package shows the banner of the client's address, or the
    default one, in its two places. *)
Theorem banner_page bannerFn RemoteAddr :
  ∃ before middle after title body,
    dns_handleBlock bannerFn RemoteAddr = (200%Z, Some (before +:+ title +:+ middle +:+ body +:+ after)) ∧ title ≠ "" ∧
    (∀ f ip port, bannerFn = Some f → SplitHostPort RemoteAddr = Ret (ip, port) → (f ip).1 ≠ "" → (title, body) = f ip).
Proof.
  unfold dns_handleBlock. set (srcIP := match SplitHostPort RemoteAddr with Ret (h, _) => h | _ => "" end).
  set (ps := default [] (pieces dns_blockPageHTML)).
  assert (Hp : pieces dns_blockPageHTML = Some ps) by (vm_compute; reflexivity).
  assert (Hl : length ps = 3%nat) by (vm_compute; reflexivity). clearbody ps.
  destruct ps as [|before [|middle [|after [|]]]]; try discriminate.
  exists before, middle, after. destruct bannerFn as [f|].
  - destruct (f srcIP) as [t bd] eqn:Ef. destruct (String.eqb_spec t "") as [->|Ht]; cbn [negb];
      (eexists _, _; split; [by rewrite (Sprintf_weave _ _ _ Hp)|]; split; [done|]);
      intros g ip port [= <-] Hs; unfold srcIP in Ef; rewrite Hs in Ef; by rewrite Ef.
  - eexists _, _. split; [by rewrite (Sprintf_weave _ _ _ Hp)|]. by split.
Qed.

Lemma banner_page_witness :
  let f (ip : string) := ("Bedtime", "Until 07:00 AM") in
  ∃ before middle after title body,
    dns_handleBlock (Some f) "10.10.0.7:4000" = (200%Z, Some (before +:+ title +:+ middle +:+ body +:+ after)) ∧
    (title, body) = f "10.10.0.7".
Proof.
  intros f. destruct (banner_page (Some f) "10.10.0.7:4000") as (b & m & a & t & bd & H & _ & Hf).
  exists b, m, a, t, bd. split; [exact H|]. by apply (Hf f "10.10.0.7" "4000").
Defined.

(** Neither this page nor that of the proxy escapes what it shows: a text with a
    tag changes the markup. *)
Lemma pages_unescaped :
  (markup <$> mitm_blockPageHTML "<b>.bad.com") ≠ (markup <$> mitm_blockPageHTML "bad.com") ∧
  (markup <$> (dns_handleBlock (Some (λ _, ("<i>", ""))) "").2) ≠ (markup <$> (dns_handleBlock None "").2).
Proof. split; vm_compute; discriminate. Qed.
