(* ===== verification/Ota.v ===== *)
(** [internal/controlsync/ota.go]: replacement of the program by a downloaded
    one.

    The file system is a map from paths to contents with the device of each
    path; renaming is atomic and fails between devices (rename(2)). *)
From stdpp Require Import gmap.
From S2P Require Import Prelude GoString.

Local Open Scope string_scope.
Local Open Scope list_scope.

Abbreviation files := (gmap string string).

Record OTAPayload := MkOTA { URL : string; SHA256 : string; PVersion : string }.

(** What one update meets. [tmp] is the path drawn for the download, [body] the
    text received and [cut] an error that ends it. *)
Record machine := Machine {
  tmp : string;
  get : go Z;
  creates : bool;
  body : string;
  cut : option string;
  readable : bool;
  executable : go string;
  chmod_ok : bool;
  device : string → nat;
  rename_ok : bool;
}.

Section Ota.
(** [hex.EncodeToString(sha256(...))] *)
Variable sha256_hex : string → string.

(** The file created is closed, not removed, when the copy fails. *)
Definition downloadFile (m : machine) (fs : files) : files * go () :=
  match get m with
  | Ret status =>
      if negb (Z.eqb status 200) then (fs, Err "http status") else
      if negb (creates m) then (fs, Err "create temp file") else
      (<[tmp m := body m]> fs, match cut m with Some e => Err ("write: " +:+ e) | None => Ret () end)
  | Err e => (fs, Err ("get: " +:+ e))
  | Panic => (fs, Panic)
  | Loop => (fs, Loop)
  end.

(** Both hashes are cut to sixteen characters for the message. *)
Definition verifySHA256 (m : machine) (fs : files) (expected : string) : go () :=
  match fs !! tmp m with
  | Some text =>
      if negb (readable m) then Err "hash" else
      let actual := sha256_hex text in
      if String.eqb actual expected then Ret () else
      if bool_decide (16 ≤ String.length actual)%nat && bool_decide (16 ≤ String.length expected)%nat
      then Err "sha256 mismatch" else Panic
  | None => Err "open"
  end.

(** [os.Rename] of the download over [dst]. *)
Definition rename_over (m : machine) (fs : files) (dst : string) : files * go () :=
  match fs !! tmp m with
  | Some text =>
      if negb (rename_ok m) || negb (Nat.eqb (device m (tmp m)) (device m dst)) then (fs, Err "rename")
      else (<[dst := text]> (delete (tmp m) fs), Ret ())
  | None => (fs, Err "rename")
  end.

(** What follows the download, before the deferred removal. *)
Definition swap_binary (m : machine) (fs : files) (p : OTAPayload) : files * go () :=
  match verifySHA256 m fs (SHA256 p) with
  | Ret _ =>
      if negb (bool_decide (16 ≤ String.length (SHA256 p))%nat) then (fs, Panic) else
      match executable m with
      | Ret execPath => if negb (chmod_ok m) then (fs, Err "chmod") else rename_over m fs execPath
      | Err e => (fs, Err ("resolve executable: " +:+ e))
      | Panic => (fs, Panic)
      | Loop => (fs, Loop)
      end
  | Err e => (fs, Err ("integrity check failed: " +:+ e))
  | Panic => (fs, Panic)
  | Loop => (fs, Loop)
  end.

(** A deferred call runs on a panic too. *)
Definition ApplyOTA (m : machine) (fs : files) (p : OTAPayload) : files * go () :=
  if String.eqb (URL p) "" then (fs, Err "url is required") else
  if String.eqb (SHA256 p) "" then (fs, Err "sha256 is required") else
  match downloadFile m fs with
  | (fs, Ret _) => let '(fs, r) := swap_binary m fs p in (delete (tmp m) fs, r)
  | (fs, Err e) => (fs, Err ("download: " +:+ e))
  | (fs, Panic) => (fs, Panic)
  | (fs, Loop) => (fs, Loop)
  end.

(** A temporary path of its own. *)
Definition fresh_tmp (m : machine) (fs : files) : Prop := fs !! tmp m = None ∧ executable m ≠ Ret (tmp m).

Lemma downloadFile_frame m fs k : k ≠ tmp m → (downloadFile m fs).1 !! k = fs !! k.
Proof.
  intros Hk. unfold downloadFile. destruct (get m); simpl; [|done..]. destruct (negb _); [done|]. destruct (negb _); [done|]. simpl.
  by rewrite lookup_insert_ne.
Qed.

Lemma downloadFile_Ret m fs : (downloadFile m fs).2 = Ret () → (downloadFile m fs).1 = <[tmp m := body m]> fs ∧ get m = Ret 200%Z.
Proof.
  unfold downloadFile. destruct (get m) as [st|e| |]; simpl; [|done..]. destruct (Z.eqb_spec st 200); simpl; [|done].
  destruct (negb (creates m)); [done|]. simpl. intros _. by subst.
Qed.

(** The program is replaced only as a whole and only by what was announced: an
    update that succeeds leaves exactly the bytes received, whose hash is the
    one of the request, in place of the program; one that fails at any step, or
    panics, leaves the program and every other file as they were. In both cases
    but a failed download nothing of it remains. *)
Theorem ota_all_or_nothing m fs p : fresh_tmp m fs →
  let '(fs', r) := ApplyOTA m fs p in
  match r with
  | Ret _ => ∃ execPath, executable m = Ret execPath ∧ sha256_hex (body m) = SHA256 p ∧ fs' = <[execPath := body m]> fs
  | _ => (∀ k, k ≠ tmp m → fs' !! k = fs !! k) ∧ (fs' = fs ∨ (downloadFile m fs).2 ≠ Ret () ∧ fs' = <[tmp m := body m]> fs)
  end.
Proof.
  intros [Hf He]. unfold ApplyOTA. destruct (String.eqb (URL p) ""); [by eauto|]. destruct (String.eqb (SHA256 p) ""); [by eauto|].
  destruct (downloadFile m fs) as [fs1 [[]|e| |]] eqn:Ed.
  - destruct (downloadFile_Ret m fs) as [E1 _]; [by rewrite Ed|]. rewrite Ed in E1. simpl in E1. subst fs1.
    assert (Hback : delete (tmp m) (<[tmp m := body m]> fs) = fs) by (rewrite delete_insert_eq; by apply delete_id).
    unfold swap_binary, verifySHA256. rewrite lookup_insert_eq. destruct (negb (readable m)); [rewrite Hback; by eauto|].
    cbv zeta. destruct (String.eqb_spec (sha256_hex (body m)) (SHA256 p)) as [Eh|_].
    2:{ destruct (_ && _); rewrite Hback; by eauto. }
    destruct (negb _); [rewrite Hback; by eauto|]. destruct (executable m) as [ex|e| |] eqn:Ex; [|rewrite Hback; by eauto..].
    destruct (negb (chmod_ok m)); [rewrite Hback; by eauto|]. unfold rename_over. rewrite lookup_insert_eq.
    destruct (_ || _); [rewrite Hback; by eauto|]. rewrite Hback. exists ex. split; [done|]. split; [done|].
    assert (Hne : tmp m ≠ ex) by congruence. rewrite delete_insert_ne by congruence. by rewrite delete_id.
  - split; [intros k Hk; rewrite <- (downloadFile_frame m fs k Hk); by rewrite Ed|].
    revert Ed. unfold downloadFile. destruct (get m); simpl; [|intros [= <- _]; by left..]. destruct (negb _); [intros [= <- _]; by left|].
    destruct (negb _); [intros [= <- _]; by left|]. intros [= <- _]. by right.
  - split; [intros k Hk; rewrite <- (downloadFile_frame m fs k Hk); by rewrite Ed|].
    revert Ed. unfold downloadFile. destruct (get m); simpl; [|done|intros [= <-]; by left|done].
    destruct (negb _); [done|]. destruct (negb _); [done|]. by destruct (cut m).
  - split; [intros k Hk; rewrite <- (downloadFile_frame m fs k Hk); by rewrite Ed|].
    revert Ed. unfold downloadFile. destruct (get m); simpl; [|done|done|intros [= <-]; by left].
    destruct (negb _); [done|]. destruct (negb _); [done|]. by destruct (cut m).
Qed.

(** A hash of fewer than sixteen characters stops the process: building the
    message of the mismatch slices it. *)
Theorem short_hash_panics m fs p : (∀ t, String.length (sha256_hex t) = 64%nat) →
  URL p ≠ "" → SHA256 p ≠ "" → (String.length (SHA256 p) < 16)%nat →
  (downloadFile m fs).2 = Ret () → readable m = true → (ApplyOTA m fs p).2 = Panic.
Proof.
  intros Hh Hu Hs Hl Hd Hr. unfold ApplyOTA. destruct (String.eqb_spec (URL p) ""); [done|]. destruct (String.eqb_spec (SHA256 p) ""); [done|].
  destruct (downloadFile_Ret m fs Hd) as [E _]. destruct (downloadFile m fs) as [fs1 o]. simpl in *. subst fs1 o.
  unfold swap_binary, verifySHA256. rewrite lookup_insert_eq, Hr. simpl.
  destruct (String.eqb_spec (sha256_hex (body m)) (SHA256 p)) as [Eh|_].
  { specialize (Hh (body m)). rewrite Eh in Hh. lia. }
  by rewrite (bool_decide_false (16 ≤ String.length (SHA256 p))%nat) by lia; rewrite andb_false_r.
Qed.

(** Where the directory of temporary files is on another device than the
    program, as with a temporary file system, no update ever succeeds. *)
Theorem other_device_never_updates m fs p : (∀ ex, executable m = Ret ex → device m (tmp m) ≠ device m ex) →
  (ApplyOTA m fs p).2 ≠ Ret ().
Proof.
  intros Hd. unfold ApplyOTA. destruct (String.eqb _ _); [done|]. destruct (String.eqb _ _); [done|].
  destruct (downloadFile m fs) as [fs1 [[]|e| |]]; [|done..]. unfold swap_binary. destruct (verifySHA256 _ _ _); [|done..].
  destruct (negb _); [done|]. destruct (executable m) as [ex|e| |] eqn:Ex; [|done..]. destruct (negb _); [done|].
  unfold rename_over. destruct (fs1 !! tmp m); [|done]. rewrite (proj2 (Nat.eqb_neq _ _) (Hd ex eq_refl)), orb_true_r. done.
Qed.

(** A download that breaks off leaves its partial file behind: the removal is
    only deferred afterwards. *)
Theorem broken_download_left m fs p e : URL p ≠ "" → SHA256 p ≠ "" →
  get m = Ret 200%Z → creates m = true → cut m = Some e →
  let '(fs', r) := ApplyOTA m fs p in fs' !! tmp m = Some (body m) ∧ ∃ e', r = Err e'.
Proof.
  intros Hu Hs Hg Hc He. unfold ApplyOTA. destruct (String.eqb_spec (URL p) ""); [done|]. destruct (String.eqb_spec (SHA256 p) ""); [done|].
  unfold downloadFile. rewrite Hg, Hc, He. simpl. rewrite lookup_insert_eq. eauto.
Qed.
End Ota.

Definition toy_digest (t : string) : string := String.concat "" (repeat "0123456789abcdef" 4).
Definition toy_update : machine :=
  Machine "/tmp/ss-router-update-1" (Ret 200%Z) true "new program" None true (Ret "/usr/bin/ss-router") true (λ _, 0%nat) true.
Definition toy_disk : files := {["/usr/bin/ss-router" := "old program"]}.

Lemma ota_all_or_nothing_witness :
  ∃ execPath, executable toy_update = Ret execPath ∧
    toy_digest "new program" = toy_digest "" ∧
    fst (ApplyOTA toy_digest toy_update toy_disk (MkOTA "https://x" (toy_digest "") "2")) = <[execPath := "new program"]> toy_disk.
Proof.
  assert (H := ota_all_or_nothing toy_digest toy_update toy_disk (MkOTA "https://x" (toy_digest "") "2")).
  destruct (ApplyOTA toy_digest toy_update toy_disk (MkOTA "https://x" (toy_digest "") "2")) as [fs' r] eqn:E.
  assert (Er : r = Ret ()) by (apply (f_equal snd) in E; vm_compute in E; congruence). subst r.
  apply H. split; [vm_compute; reflexivity|discriminate].
Defined.

Lemma short_hash_panics_witness :
  (ApplyOTA toy_digest toy_update toy_disk (MkOTA "https://x" "abc" "2")).2 = Panic.
Proof.
  apply (short_hash_panics toy_digest toy_update toy_disk (MkOTA "https://x" "abc" "2"));
    [intros t; vm_compute; reflexivity|discriminate|discriminate|simpl; lia|reflexivity|reflexivity].
Defined.
