(* ===== verification/Store.v ===== *)
(** [internal/store/migrations.go]: the schema of the node's database, its
    creation, and the SQL statements of the program checked against it.

    A statement is what SQLite resolves when it is prepared: the tables and
    columns it names, and for an insertion the columns it must give a value. *)
From stdpp Require Import gmap.
From S2P Require Import Prelude GoString.

Local Open Scope string_scope.
Local Open Scope list_scope.

(** ** Schema *)

(** [required]: NOT NULL without a default; [unique]: PRIMARY KEY or UNIQUE. *)
Record column := Col { col_name : string; required : bool; unique : bool }.

#[global] Instance column_eq_dec : EqDecision column.
Proof. solve_decision. Defined.

Definition key_col (n : string) : column := Col n false true.
Definition must (n : string) : column := Col n true false.
Definition opt (n : string) : column := Col n false false.

Abbreviation database := (gmap string (list column)).

Inductive ddl := CreateTable (name : string) (cols : list column) | CreateIndex (table : string) (cols : list string).

Definition migration_statements : list ddl := [
  CreateTable "schema_migrations" [key_col "version"; opt "applied_at"];
  CreateTable "tunnel_config" [key_col "key"; must "value"];
  CreateTable "tunnel_peers" [key_col "public_key"; Col "allowed_ip" true true; opt "device_mac"; opt "comment"; opt "added_at"];
  CreateTable "active_policy_bundle" [key_col "id"; must "version"; must "issued_at"; must "expires_at"; must "signature";
    must "payload_json"; opt "updated_at"];
  CreateTable "event_journal" [key_col "id"; must "event_type"; must "severity"; must "payload_json"; opt "drained"; opt "created_at"];
  CreateIndex "event_journal" ["drained"; "created_at"];
  CreateTable "command_ledger" [key_col "id"; must "command_type"; must "status"; must "payload_json"; opt "result_json";
    opt "error_text"; opt "updated_at"; opt "created_at"];
  CreateTable "health_snapshots" [key_col "id"; must "cpu_pct"; must "mem_pct"; must "disk_pct"; opt "dns_ok"; must "summary"; opt "created_at"];
  CreateTable "device_registry" [key_col "mac"; must "ip"; opt "hostname"; must "first_seen"; must "last_seen"; opt "enrolled"];
  CreateTable "device_route_profiles" [key_col "mac"; opt "route_profile"; opt "route_profile_source"; opt "route_profile_version";
    opt "client_applied"; opt "client_applied_at"; opt "updated_at"];
  CreateTable "dns_blocklist" [key_col "domain"; opt "category"; opt "source"; opt "added_at"]].

Definition has_column (cols : list column) (c : string) : bool :=
  String.eqb c "rowid" || existsb (λ col, String.eqb (col_name col) c) cols.

(** [IF NOT EXISTS]: an existing table is left as it is, whatever its columns. *)
Definition exec_ddl (db : database) (s : ddl) : option database :=
  match s with
  | CreateTable name cols => Some (match db !! name with Some _ => db | None => <[name := cols]> db end)
  | CreateIndex table cols =>
      match db !! table with
      | Some have => if forallb (has_column have) cols then Some db else None
      | None => None
      end
  end.

(** [ok i]: the [i]-th statement does not fail for another reason. *)
Fixpoint run_ddl (ok : nat → bool) (i : nat) (db : database) (stmts : list ddl) : database * option string :=
  match stmts with
  | [] => (db, None)
  | s :: stmts =>
      if negb (ok i) then (db, Some "migration statement failed") else
      match exec_ddl db s with
      | Some db => run_ddl ok (S i) db stmts
      | None => (db, Some "migration statement failed")
      end
  end.

Definition RunMigrations (ok : nat → bool) (db : database) : database * option string := run_ddl ok 0 db migration_statements.

(** [ensureNRDSchema] of nrdsync.go, which is not called. *)
Definition nrd_schema : list ddl :=
  [CreateTable "nrd_blocklist" [key_col "domain"; opt "source"]; CreateIndex "nrd_blocklist" ["source"]].

(** [ensureSchema] of the tunnel manager, run when it starts. *)
Definition tunnel_schema : list ddl := [
  CreateTable "tunnel_peers" [key_col "public_key"; Col "allowed_ip" true true; opt "device_mac"; opt "comment"; opt "added_at"];
  CreateTable "tunnel_config" [key_col "key"; must "value"]].

(** ** Statements *)

Inductive sql :=
| Select (from : list string) (uses : list (string * string))
| Insert (table : string) (cols : list string) (conflict : option (string * list string))
| Update (table : string) (cols : list string)
| Delete (table : string) (cols : list string).

Definition names (db : database) (table : string) (cols : list string) : bool :=
  match db !! table with Some have => forallb (has_column have) cols | None => false end.

(** Preparing succeeds; an insertion gives a value to every column that needs
    one, the target of its conflict clause is a key and the columns that the
    clause sets exist. *)
Definition accepts (db : database) (s : sql) : bool :=
  match s with
  | Select from uses => forallb (λ t, names db t []) from && forallb (λ u, names db u.1 [u.2]) uses
  | Insert table cols conflict =>
      names db table cols &&
      match db !! table with
      | Some have =>
          forallb (λ col, negb (required col) || existsb (String.eqb (col_name col)) cols) have &&
          match conflict with
          | Some (c, set) => existsb (λ col, unique col && String.eqb (col_name col) c) have && names db table set
          | None => true
          end
      | None => false
      end
  | Update table cols => names db table cols
  | Delete table cols => names db table cols
  end.

Definition on (table : string) (cols : list string) : sql := Select [table] (map (pair table) cols).

(** *** internal/commands *)
Definition sql_SetRouteProfile : sql :=
  Insert "device_route_profiles" ["mac"; "route_profile"; "route_profile_source"; "client_applied"; "updated_at"]
    (Some ("mac", ["route_profile"; "route_profile_source"; "route_profile_version"; "client_applied"; "updated_at"])).
Definition sql_RouteProfileForKey : sql := on "device_route_profiles" ["route_profile"; "public_key"; "rowid"].
Definition sql_RouteProfileForMAC : sql := on "device_route_profiles" ["route_profile"; "mac"].
Definition sql_Enqueue : sql := Insert "command_ledger" ["id"; "command_type"; "status"; "payload_json"; "updated_at"] (Some ("id", [])).
Definition sql_PendingCommands : sql := on "command_ledger" ["id"; "command_type"; "payload_json"; "status"; "created_at"].
Definition sql_isTerminal : sql := on "command_ledger" ["status"; "id"].
Definition sql_setStatus : sql := Update "command_ledger" ["status"; "result_json"; "error_text"; "updated_at"; "id"].

(** *** internal/controlsync *)
Definition sql_commandExists : sql := on "command_ledger" ["id"].
Definition sql_commandOutcome : sql := on "command_ledger" ["status"; "result_json"; "error_text"; "id"].
Definition sql_readConfig : sql := on "tunnel_config" ["value"; "key"].
Definition sql_writeConfig : sql := Insert "tunnel_config" ["key"; "value"] None.
Definition sql_isDNSAlive : sql := on "health_snapshots" ["dns_ok"; "id"].
Definition sql_latestHealth : sql := on "health_snapshots" ["cpu_pct"; "mem_pct"; "disk_pct"; "id"].
Definition sql_tunnelPeerCount : sql := on "tunnel_peers" [].
Definition sql_deviceCount : sql := on "device_registry" [].
Definition sql_clearSource : sql := Delete "dns_blocklist" ["source"].
Definition sql_insertDomain : sql := Insert "dns_blocklist" ["domain"; "category"; "source"; "added_at"] None.
Definition sql_clearNRD : sql := Delete "nrd_blocklist" [].
Definition sql_insertNRD : sql := Insert "nrd_blocklist" ["domain"] None.

(** *** internal/tunnel, internal/firewall, internal/app *)
Definition sql_TunnelIPForMAC : sql := on "tunnel_peers" ["allowed_ip"; "device_mac"].
Definition sql_peerIP : sql := on "tunnel_peers" ["allowed_ip"; "public_key"].
Definition sql_RemovePeer : sql := Delete "tunnel_peers" ["public_key"].
Definition sql_RemovePeersByChildID : sql := Delete "tunnel_peers" ["comment"].
Definition sql_peerKey : sql := on "tunnel_peers" ["public_key"; "allowed_ip"].
Definition sql_peerKeys : sql := on "tunnel_peers" ["public_key"].
Definition sql_setConfig : sql := Insert "tunnel_config" ["key"; "value"] (Some ("key", ["value"])).
Definition sql_peerIPs : sql := on "tunnel_peers" ["allowed_ip"].
Definition sql_loadPeers : sql := on "tunnel_peers" ["public_key"; "allowed_ip"; "device_mac"; "comment"].
Definition sql_upsertPeer : sql := Insert "tunnel_peers" ["public_key"; "allowed_ip"; "device_mac"; "comment"; "added_at"] None.
Definition sql_restoreDeviceRules : sql :=
  Select ["devices"; "child_effective_state"; "nodes"]
    [("devices", "wireguard_ip"); ("child_effective_state", "internet_paused"); ("child_effective_state", "is_paused");
     ("child_effective_state", "child_id"); ("devices", "child_id"); ("devices", "trust_state"); ("devices", "assigned_node_id");
     ("nodes", "id"); ("nodes", "node_secret_hash"); ("nodes", "last_seen_at")].

(** *** internal/policy, presence, health, events, dns, enrollment *)
Definition sql_SwapBundle : sql :=
  Insert "active_policy_bundle" ["id"; "version"; "issued_at"; "expires_at"; "signature"; "payload_json"; "updated_at"]
    (Some ("id", ["version"; "issued_at"; "expires_at"; "signature"; "payload_json"; "updated_at"])).
Definition sql_loadActive : sql := on "active_policy_bundle" ["payload_json"; "id"].
Definition sql_Devices : sql := on "device_registry" ["mac"; "ip"; "hostname"; "first_seen"; "last_seen"; "enrolled"].
Definition sql_MACForIP : sql := on "device_registry" ["mac"; "ip"; "last_seen"].
Definition sql_upsertDevice : sql := Insert "device_registry" ["mac"; "ip"; "hostname"; "first_seen"; "last_seen"; "enrolled"]
    (Some ("mac", ["ip"; "hostname"; "last_seen"; "enrolled"])).
Definition sql_firstLastSeen : sql := on "device_registry" ["first_seen"; "last_seen"; "mac"].
Definition sql_record : sql := Insert "health_snapshots" ["cpu_pct"; "mem_pct"; "disk_pct"; "summary"] None.
Definition sql_Append : sql := Insert "event_journal" ["id"; "event_type"; "severity"; "payload_json"] None.
Definition sql_LoadBlocklist : sql := on "dns_blocklist" ["domain"; "category"].
Definition sql_ReloadNRD : sql := on "nrd_blocklist" ["domain"].

(** Every statement of the program, and the one that the schema does not fit. *)
Definition statements : list sql := [
  sql_SetRouteProfile; sql_RouteProfileForMAC; sql_Enqueue; sql_PendingCommands; sql_isTerminal; sql_setStatus;
  sql_commandExists; sql_commandOutcome; sql_readConfig; sql_writeConfig; sql_isDNSAlive; sql_latestHealth; sql_tunnelPeerCount;
  sql_deviceCount; sql_clearSource; sql_insertDomain; sql_TunnelIPForMAC; sql_peerIP; sql_RemovePeer; sql_RemovePeersByChildID;
  sql_peerKey; sql_peerKeys; sql_setConfig; sql_peerIPs; sql_loadPeers; sql_upsertPeer; sql_SwapBundle; sql_loadActive;
  sql_Devices; sql_MACForIP; sql_upsertDevice; sql_firstLastSeen; sql_record; sql_Append; sql_LoadBlocklist].

Definition nrd_statements : list sql := [sql_clearNRD; sql_insertNRD; sql_ReloadNRD].

(** ** Properties *)

Definition tables (stmts : list ddl) : database :=
  foldr (λ s db, match s with CreateTable n cols => <[n := cols]> db | CreateIndex _ _ => db end) ∅ stmts.

Definition schema : database := tables migration_statements.

Lemma step_union (db : database) s db' rest : exec_ddl db s = Some db' →
  db ⊆ db' ∧ db' ∪ tables rest = db ∪ tables (s :: rest).
Proof.
  destruct s as [n c|n c]; simpl.
  - intros [= <-]. destruct (db !! n) as [have|] eqn:E; (split; [|apply map_eq; intros t; rewrite !lookup_union]).
    + done.
    + destruct (decide (n = t)) as [->|Hne]; [rewrite lookup_insert_eq, E; by destruct (tables rest !! t)|by rewrite lookup_insert_ne].
    + by apply insert_subseteq.
    + destruct (decide (n = t)) as [->|Hne]; [rewrite !lookup_insert_eq, E; by destruct (tables rest !! t)|by rewrite !lookup_insert_ne].
  - destruct (db !! n) as [have|]; [|done]. destruct (forallb _ _); [|done]. by intros [= <-].
Qed.

Lemma run_ddl_union ok stmts : ∀ i db db' e, run_ddl ok i db stmts = (db', e) →
  db ⊆ db' ∧ db' ⊆ db ∪ tables stmts ∧ (e = None → db' = db ∪ tables stmts).
Proof.
  induction stmts as [|s stmts IH]; intros i db db' e; simpl.
  { intros [= <- <-]. rewrite (right_id_L ∅ (∪)). done. }
  assert (Hno : db ⊆ db ∧ db ⊆ db ∪ tables (s :: stmts) ∧ (Some "migration statement failed" = None → db = db ∪ tables (s :: stmts)))
    by (split; [done|split; [apply map_union_subseteq_l|done]]).
  destruct (negb (ok i)); [by intros [= <- <-]|]. destruct (exec_ddl db s) as [db1|] eqn:E; [|by intros [= <- <-]].
  intros H. destruct (step_union db s db1 stmts E) as [H1 H2]. destruct (IH _ _ _ _ H) as (I1 & I2 & I3). rewrite H2 in I2, I3.
  split; [by etrans|]. done.
Qed.

(** Each index is on a table created before, by columns it has. *)
Fixpoint ordered (T : database) (seen : list string) (stmts : list ddl) : bool :=
  match stmts with
  | [] => true
  | CreateTable n cols :: stmts => bool_decide (T !! n = Some cols) && ordered T (n :: seen) stmts
  | CreateIndex n cols :: stmts => existsb (String.eqb n) seen && names T n cols && ordered T seen stmts
  end.

(** On a database whose tables have the shape of the schema every statement
    resolves, so that a failure can only be the machine's. *)
Lemma run_ddl_ok T ok stmts : ∀ i db seen, (∀ j, ok j = true) → db ⊆ T → (∀ n, n ∈ seen → is_Some (db !! n)) →
  ordered T seen stmts = true → snd (run_ddl ok i db stmts) = None.
Proof.
  induction stmts as [|[n cols|n cols] stmts IH]; intros i db seen Hok Hd Hs Ho; [done| |]; simpl in *; rewrite Hok; simpl.
  - apply andb_true_iff in Ho as [Ht%bool_decide_eq_true Ho]. apply (IH _ _ (n :: seen)); [done| | |done].
    + destruct (db !! n) eqn:E; [done|]. by apply insert_subseteq_l.
    + intros m Hm. destruct (db !! n) eqn:E.
      * apply elem_of_cons in Hm as [->|Hm]; [by eexists|by apply Hs].
      * apply elem_of_cons in Hm as [->|Hm]; [rewrite lookup_insert_eq; by eexists|].
        destruct (decide (n = m)) as [->|]; [rewrite lookup_insert_eq; by eexists|]. rewrite lookup_insert_ne by done. by apply Hs.
  - apply andb_true_iff in Ho as [[Hn Hc]%andb_true_iff Ho]. apply existsb_exists in Hn as (n' & Hin & <-%String.eqb_eq).
    apply list_elem_of_In in Hin. destruct (Hs n Hin) as [have E]. rewrite E.
    unfold names in Hc. rewrite (lookup_weaken _ _ _ _ E Hd) in Hc. rewrite Hc. by apply (IH _ _ seen).
Qed.

Lemma tunnel_schema_kept ok : fst (run_ddl ok 0 schema tunnel_schema) = schema.
Proof.
  destruct (run_ddl ok 0 schema tunnel_schema) as [db e] eqn:E. destruct (run_ddl_union _ _ _ _ _ _ E) as (H1 & H2 & _). simpl.
  apply (anti_symm (⊆)); [|done]. etrans; [exact H2|]. apply map_union_least; [done|].
  apply map_subseteq_spec. intros n cols. unfold tunnel_schema, tables. simpl.
  intros [[<- <-]|[_ [[<- <-]|[_ Hn]]%lookup_insert_Some]]%lookup_insert_Some; [by vm_compute..|].
  by rewrite lookup_empty in Hn.
Qed.

(** Starting the node never changes a table it has: whatever statement fails, a
    table present before keeps its columns and only tables of the schema are
    added; a start that succeeds leaves the database with all of them, which the
    statements of the tunnel manager then do not change; and one that was
    interrupted is completed by the next that meets no fault. *)
Theorem migrations_resume ok db db' e : db ⊆ schema → RunMigrations ok db = (db', e) →
  db ⊆ db' ∧ db' ⊆ schema ∧ (e = None → db' = schema ∧ ∀ ok', fst (run_ddl ok' 0 db' tunnel_schema) = db') ∧
  RunMigrations (λ _, true) db' = (schema, None).
Proof.
  intros Hd H. destruct (run_ddl_union _ _ _ _ _ _ H) as (H1 & H2 & H3). fold schema in H2, H3.
  assert (U : ∀ m : database, m ⊆ schema → m ∪ schema = schema) by (intros m Hm; by apply map_subseteq_union).
  rewrite (U db Hd) in H2, H3. split; [done|]. split; [done|]. split.
  { intros He. rewrite (H3 He). split; [done|]. intros ok'. apply tunnel_schema_kept. }
  destruct (RunMigrations (λ _, true) db') as [db2 e2] eqn:E.
  assert (E2 : e2 = None).
  { change e2 with (snd (db2, e2)). rewrite <- E. apply (run_ddl_ok schema (λ _, true) migration_statements 0 db' []); [done|done| |by vm_compute].
    by intros n ?%elem_of_nil. }
  subst e2. destruct (run_ddl_union _ _ _ _ _ _ E) as (_ & _ & H4). fold schema in H4. rewrite (H4 eq_refl). by rewrite U.
Qed.

(** C40. The statements of the program are well-typed against the schema: after a
    start on an empty database, or on one of an earlier start, each is accepted,
    with the columns an insertion owes and a key for its conflict clause. Five
    are not: the route profile by public key, whose column the table does not
    have; the rules of enrolled devices at boot, whose tables are the cloud's;
    and the three of the newly-registered-domain list, whose table nothing
    creates, although the schema written for it fits them. *)
Theorem statements_well_typed ok db db' : db ⊆ schema → RunMigrations ok db = (db', None) →
  (∀ s, s ∈ statements → accepts db' s = true) ∧
  accepts db' sql_RouteProfileForKey = false ∧ accepts db' sql_restoreDeviceRules = false ∧
  (∀ s, s ∈ nrd_statements → accepts db' s = false ∧ accepts (fst (run_ddl (λ _, true) 0 db' nrd_schema)) s = true).
Proof.
  intros Hd H. destruct (run_ddl_union _ _ _ _ _ _ H) as (_ & _ & H3). fold schema in H3.
  rewrite (map_subseteq_union _ _ Hd) in H3. specialize (H3 eq_refl). subst db'.
  assert (A : ∀ T l b, forallb (λ s, Bool.eqb (accepts T s) b) l = true → ∀ s, s ∈ l → accepts T s = b).
  { intros T l b Hf s Hs. apply list_elem_of_In in Hs. rewrite forallb_forall in Hf. by apply eqb_prop, Hf. }
  split; [apply A; by vm_compute|]. split; [by vm_compute|]. split; [by vm_compute|].
  intros s Hs. split; revert s Hs; apply A; by vm_compute.
Qed.

Lemma fresh_start : RunMigrations (λ _, true) ∅ = (schema, None).
Proof.
  destruct (RunMigrations (λ _, true) ∅) as [db e] eqn:E.
  assert (He : e = None).
  { change e with (snd (db, e)). rewrite <- E. apply (run_ddl_ok schema (λ _, true) migration_statements 0 ∅ []);
      [done|apply map_empty_subseteq|by intros n ?%elem_of_nil|by vm_compute]. }
  subst e. destruct (run_ddl_union _ _ _ _ _ _ E) as (_ & _ & H). rewrite (H eq_refl). fold schema. by rewrite (left_id_L ∅ (∪)).
Qed.

Lemma enqueue_listed : sql_Enqueue ∈ statements.
Proof. unfold statements. do 2 right. left. Qed.

Lemma statements_well_typed_witness : accepts schema sql_Enqueue = true.
Proof. exact (proj1 (statements_well_typed (λ _, true) ∅ schema (map_empty_subseteq _) fresh_start) sql_Enqueue enqueue_listed). Defined.

(** The fourth statement fails at the first start. *)
Definition interrupted : database * option string := RunMigrations (λ i, bool_decide (i < 3)%nat) ∅.

Lemma migrations_resume_witness : RunMigrations (λ _, true) (fst interrupted) = (schema, None).
Proof.
  exact (proj2 (proj2 (proj2 (migrations_resume (λ i, bool_decide (i < 3)%nat) ∅ (fst interrupted) (snd interrupted)
    (map_empty_subseteq _) (surjective_pairing interrupted))))).
Defined.
