(* ===== verification/Older.v ===== *)
(** The packages [presence], [policy] and [api] at the top of the repository:
    earlier versions of those under [internal/], which nothing imports. The
    theorems say how each stands to its successor. *)
From stdpp Require Import gmap.
From S2P Require Import Prelude GoString Policy Presence Api Store.

Local Open Scope string_scope.
Local Open Scope list_scope.

(** ** presence *)

Module OldPresence.
Section Engine.
Context `{U : UnicodeTables}.

(** The files [arp.go], [leases.go] and [device.go] are the same text as those of
    [internal/presence]. *)
Definition readARP := Presence.readARP.
Definition readLeases := Presence.readLeases.
Definition NormaliseMAC := Presence.NormaliseMAC.

(** What the driver reports about an INSERT; an error of either call is
    discarded. *)
Record result := Result { RowsAffected : go Z; LastInsertId : go Z }.
Definition or_zero (r : go Z) : Z := match r with Ret n => n | _ => 0%Z end.

(** [upsert]: the first value of [isNew] comes from the result, the second from
    the query that follows. *)
Definition upsert (write : option result) (read_ok : bool) (r : registry) (mac ip hostname : string) (enrolled : bool) (now : time) :
    registry * go bool :=
  match write with
  | None => (r, Err "upsert device_registry")
  | Some res =>
      let r := upsert_row r mac ip hostname enrolled (seconds now) in
      let isNew := Z.ltb 0 (or_zero (LastInsertId res)) && Z.eqb (or_zero (RowsAffected res)) 1 in
      let '(firstSeen, lastSeen) :=
        match (if read_ok then r !! mac else None) with
        | Some d => (Some (d_first_seen d), Some (d_last_seen d))
        | None => (None, None)
        end in
      let isNew := bool_decide (firstSeen = lastSeen) in
      (r, Ret isNew)
  end.

Fixpoint scan_entries (driver : nat → option result * bool) (i : nat) (hosts : gmap string string) (enrolled : gset string) (now : time)
    (es : list arpEntry) (r : registry) : registry * list seen_event :=
  match es with
  | [] => (r, [])
  | e :: es =>
      let hostname := hostname_of hosts (IP e) in
      let isEnrolled := bool_decide (MAC e ∈ enrolled) in
      match upsert (driver i).1 (driver i).2 r (MAC e) (IP e) hostname isEnrolled now with
      | (r, Ret true) =>
          let '(r, evs) := scan_entries driver (S i) hosts enrolled now es r in
          (r, DeviceSeen (MAC e) (IP e) hostname :: evs)
      | (r, _) => scan_entries driver (S i) hosts enrolled now es r
      end
  end.

Definition scan (driver : nat → option result * bool) (arp : go (string * option string)) (open : string → option string)
    (enrolled : gset string) (now : time) (r : registry) : registry * list seen_event :=
  match readARP arp with
  | Ret es => scan_entries driver 0 (readLeases open) enrolled now es r
  | _ => (r, [])
  end.

(** [Start]: one scan at once, then one for each tick, until the context ends. *)
Fixpoint run (driver : nat → nat → option result * bool) (open : string → option string)
    (ticks : list (go (string * option string) * gset string * time)) (n : nat) (r : registry) : registry * list seen_event :=
  match ticks with
  | [] => (r, [])
  | (arp, enrolled, now) :: ticks =>
      let '(r, evs) := scan (driver n) arp open enrolled now r in
      let '(r, evs') := run driver open ticks (S n) r in (r, evs ++ evs')
  end.

Definition forget (d : option result * bool) : bool * bool := (match d.1 with Some _ => true | None => false end, d.2).

Lemma older_upsert_same write read_ok r mac ip hostname enrolled now :
  upsert write read_ok r mac ip hostname enrolled now =
  Presence.upsert (forget (write, read_ok)).1 read_ok r mac ip hostname enrolled now.
Proof.
  unfold upsert, Presence.upsert, forget. destruct write as [res|]; simpl; [|done].
  destruct read_ok; [|done]. destruct (upsert_row _ _ _ _ _ _ !! mac) as [d|]; [|done].
  do 2 f_equal. apply bool_decide_ext. split; [by intros [= ->]|by intros ->].
Qed.

(** The earlier engine behaves like the present one, whatever the driver reports
    about its inserts: the number of rows and the id it looks at first have no
    effect. Both register the same devices and announce the same ones as new. *)
Theorem older_scan_same driver arp open enrolled now r :
  scan driver arp open enrolled now r = Presence.scan (λ i, forget (driver i)) arp open enrolled now r.
Proof.
  unfold scan, Presence.scan, readARP, readLeases. destruct (Presence.readARP arp) as [es| | |]; [|done..].
  generalize 0%nat. generalize (Presence.readLeases open). intros hosts n. revert n r.
  induction es as [|e es IH]; intros n r; [done|]. cbn [scan_entries Presence.scan_entries].
  rewrite older_upsert_same. change (forget ((driver n).1, (driver n).2)) with (forget (driver n)).
  change (forget (driver n)).2 with (driver n).2.
  destruct (Presence.upsert _ _ _ _ _ _ _ _) as [r' [[]| | |]]; rewrite IH; by destruct (Presence.scan_entries _ _ _ _ _ _ _).
Qed.
End Engine.
End OldPresence.

(** ** policy *)

Module OldPolicy.
Section Runtime.
Context {Json : Type} (Marshal : Bundle → go Json) (Unmarshal : Json → go Bundle).

Record Runtime := MkRuntime { db : option (row Json); active : option Bundle }.

Definition NewRuntime (stored : option (row Json)) : Runtime := MkRuntime stored None.

Definition ActiveBundle (r : Runtime) : go Bundle :=
  match active r with None => Err "no active bundle" | Some b => Ret b end.

Definition SwapBundle (write_fails : bool) (r : Runtime) (b : option Bundle) : Runtime * option string :=
  match b with
  | None => (r, Some "bundle cannot be nil")
  | Some b =>
      match Marshal b with
      | Ret raw =>
          if write_fails then (r, Some "upsert bundle") else
          (MkRuntime (Some (Row (Version b) (IssuedAt b) (ExpiresAt b) (Signature b) raw)) (Some b), None)
      | _ => (r, Some "marshal bundle")
      end
  end.

Definition EnrolledMACs (r : Runtime) : gset string :=
  match active r with
  | None => ∅
  | Some b => fold_left (λ s c, if String.eqb (DeviceMAC c) "" then s else {[DeviceMAC c]} ∪ s) (Children b) ∅
  end.

Definition loadActive (query_fails : bool) (r : Runtime) : Runtime * option string :=
  if query_fails then (r, Some "query active bundle") else
  match db r with
  | None => (r, None)
  | Some row =>
      match Unmarshal (row_payload row) with
      | Ret b => (MkRuntime (db r) (Some b), None)
      | _ => (r, Some "unmarshal active bundle")
      end
  end.

(** The present runtime without its callback. *)
Definition forget (r : Policy.Runtime Json) : Runtime := MkRuntime (Policy.db r) (Policy.active r).

Lemma older_enrolled_fold cs s : fold_left (λ s c, if String.eqb (DeviceMAC c) "" then s else {[DeviceMAC c]} ∪ s) cs s =
  s ∪ (list_to_set (List.filter (λ m, negb (String.eqb m "")) (map DeviceMAC cs)) : gset string).
Proof.
  revert s. induction cs as [|c cs IH]; intros s; simpl; [set_solver|]. rewrite IH.
  destruct (String.eqb (DeviceMAC c) ""); simpl; [done|]. set_solver.
Qed.

(** The present runtime simulates the earlier one step by step, with the same
    results; what it adds is the callback, which runs after each swap that
    succeeds and for nothing else. *)
Theorem older_runtime_simulated r fails b :
  SwapBundle fails (forget r) b = (forget (Policy.SwapBundle Marshal fails r b).1, (Policy.SwapBundle Marshal fails r b).2) ∧
  loadActive fails (forget r) = (forget (Policy.loadActive Unmarshal fails r).1, (Policy.loadActive Unmarshal fails r).2) ∧
  ActiveBundle (forget r) = Policy.ActiveBundle r ∧ EnrolledMACs (forget r) = Policy.EnrolledMACs r ∧
  swaps (Policy.SwapBundle Marshal fails r b).1 =
    (if onSwap r && bool_decide ((SwapBundle fails (forget r) b).2 = None) then S (swaps r) else swaps r).
Proof.
  split_and!.
  - unfold SwapBundle, Policy.SwapBundle. destruct b as [b|]; [|done]. destruct (Marshal b); [|done..]. by destruct fails.
  - unfold loadActive, Policy.loadActive. destruct fails; [done|]. unfold forget at 1. cbn [db].
    destruct (Policy.db r) as [w|] eqn:E; [|done]. destruct (Unmarshal (row_payload w)); [|done..]. unfold forget. simpl. by rewrite E.
  - done.
  - unfold EnrolledMACs, Policy.EnrolledMACs, forget. simpl. destruct (Policy.active r); [|done]. rewrite older_enrolled_fold. set_solver.
  - unfold SwapBundle, Policy.SwapBundle. destruct b as [b|]; [|by rewrite andb_false_r].
    destruct (Marshal b); try by rewrite andb_false_r. destruct fails; [by rewrite andb_false_r|]. simpl. by destruct (onSwap r).
Qed.
End Runtime.
End OldPolicy.

(** ** api *)

Module OldApi.

(** The services behind the earlier interface; it does not test for nil ones. *)
Section Interface.
Variable b : backend.

Definition handleHealthz : response := Response 200 HealthJSON.

Definition handleNode : go response :=
  match identity b with Some (id, name, key) => Ret (Response 200 (NodeJSON id name key)) | None => Panic end.

Definition handlePolicy : go response :=
  match policyRuntime b with
  | Some (Ret bundle) => Ret (Response 200 (BundleJSON bundle))
  | Some _ => Ret (Response 404 (ErrorJSON "no active bundle"))
  | None => Panic
  end.

Definition handleDevices : go response :=
  match presenceEngine b with
  | Some (Ret devices) => Ret (Response 200 (DevicesJSON devices (length devices)))
  | Some _ => Ret (Response 500 (ErrorJSON "query failed"))
  | None => Panic
  end.

(** The routes of [Start]: no middleware, any method. *)
Definition serve (r : request) : go response :=
  let at_path p := String.eqb (Path r) p in
  if at_path "/healthz" then Ret handleHealthz
  else if at_path "/v1/node" then handleNode
  else if at_path "/v1/policy" then handlePolicy
  else if at_path "/v1/devices" then handleDevices
  else Ret (Response 404 PlainNotFound).

(** The earlier interface gives the state of the node to every peer and for every
    method; on a GET its answers are those of the present handlers. *)
Theorem older_api_open `{V : IPv6Text} r :
  (∀ r', Path r' = Path r → serve r' = serve r) ∧
  (Method r = "GET" → handleNode = Api.handleNode b r ∧ handlePolicy = Api.handlePolicy b r ∧ handleDevices = Api.handleDevices b r ∧
    (Health b = None → handleHealthz = Api.handleHealthz b r)).
Proof.
  split; [intros r' Hp; unfold serve; by rewrite Hp|]. intros Hm.
  unfold Api.handleNode, Api.handlePolicy, Api.handleDevices, Api.handleHealthz, only_get. rewrite Hm. simpl.
  split_and!; try done. by intros ->.
Qed.
End Interface.
End OldApi.
